(** * Verification of the puzzle engines of the game platform

    Three simulation engines are embedded from their TypeScript sources:

    - [Tetris]       the falling-block engine
                     (src/games/tetris/state.ts, src/games/tetris/game.ts),
    - [Game2048]     the tile-merge engine
                     (src/games/game2048/state.ts, src/games/game2048/game.ts),
    - [Minesweeper]  the minefield engine
                     (src/games/minesweeper/state.ts, src/games/minesweeper/game.ts).

    Conventions of the embedding.

    - A JavaScript [number] that holds an integer is a [Z]; loop counters
      and array indices that the code keeps non-negative are [nat].
    - An array is a [list]; [a[i]] is stdpp's lookup [a !! i], whose [None]
      stands for JavaScript's [undefined].
    - A class with mutable fields is a record that every method takes and
      returns.
    - [Math.random()] and [Date.now()] are inputs of the method that calls
      them.
    - A call that raises a [TypeError] returns an explicit error value. *)

From Stdlib Require Import ZArith QArith Lia List Bool.
From stdpp Require Import base tactics option list numbers.

Import ListNotations.

(** Turns the boolean comparisons of the hypotheses into propositions. *)
Ltac zbool :=
  repeat match goal with
  | H : (_ <? _)%Z = true |- _ => apply Z.ltb_lt in H
  | H : (_ <? _)%Z = false |- _ => apply Z.ltb_ge in H
  | H : (_ <=? _)%Z = true |- _ => apply Z.leb_le in H
  | H : (_ <=? _)%Z = false |- _ => apply Z.leb_gt in H
  | H : (_ >=? _)%Z = true |- _ => apply Z.geb_le in H
  | H : (_ >=? _)%Z = false |- _ => rewrite Z.geb_leb in H; apply Z.leb_gt in H
  | H : (_ >? _)%Z = true |- _ => rewrite Z.gtb_ltb in H; apply Z.ltb_lt in H
  | H : (_ >? _)%Z = false |- _ => rewrite Z.gtb_ltb in H; apply Z.ltb_ge in H
  | H : (_ =? _)%Z = true |- _ => apply Z.eqb_eq in H
  | H : (_ =? _)%Z = false |- _ => apply Z.eqb_neq in H
  | H : (_ <? _)%nat = true |- _ => apply Nat.ltb_lt in H
  | H : (_ <? _)%nat = false |- _ => apply Nat.ltb_ge in H
  | H : (_ <=? _)%nat = true |- _ => apply Nat.leb_le in H
  | H : (_ <=? _)%nat = false |- _ => apply Nat.leb_gt in H
  | H : (_ =? _)%nat = true |- _ => apply Nat.eqb_eq in H
  | H : (_ =? _)%nat = false |- _ => apply Nat.eqb_neq in H
  | H : (_ && _) = true |- _ => apply andb_true_iff in H; destruct H
  | H : (_ || _) = false |- _ => apply orb_false_iff in H; destruct H
  | H : negb _ = true |- _ => apply negb_true_iff in H
  | H : negb _ = false |- _ => apply negb_false_iff in H
  end.

(** ** Two-dimensional arrays *)

Module Grid.

Section Defs.
Context {A : Type}.

(** [g[r][c]]; [None] when either index is outside the array. *)
Definition get (g : list (list A)) (r c : nat) : option A :=
  match g !! r with
  | Some line => line !! c
  | None => None
  end.

(** In-place update of the element at [(r, c)], when there is one. *)
Definition update (f : A -> A) (r c : nat) (g : list (list A)) : list (list A) :=
  alter (alter f c) r g.

(** Number of elements that satisfy [p]. *)
Definition count (p : A -> bool) (g : list (list A)) : nat :=
  list_sum (map (fun line => length (filter (fun a => p a = true) line)) g).

(** Every line has [w] elements and there are [h] lines. *)
Definition rect (h w : nat) (g : list (list A)) : Prop :=
  length g = h /\ Forall (fun line => length line = w) g.
End Defs.

(** Indexing with a JavaScript number: a negative index reads [undefined]. *)
Definition getZ {A : Type} (g : list (list A)) (r c : Z) : option A :=
  if ((r <? 0) || (c <? 0))%Z then None else get g (Z.to_nat r) (Z.to_nat c).

Definition updateZ {A : Type} (f : A -> A) (r c : Z) (g : list (list A)) : list (list A) :=
  if ((r <? 0) || (c <? 0))%Z then g else update f (Z.to_nat r) (Z.to_nat c) g.

End Grid.

(** ** The falling-block engine (src/games/tetris) *)

Module Tetris.

Local Open Scope Z_scope.

Inductive GameStatus := idle | playing | paused | lost.

(** The piece types "I", "O", "T", "S", "Z", "J", "L". *)
Inductive PieceType := PI | PO | PT | PS | PZ | PJ | PL.

#[global] Instance GameStatus_eq_dec : EqDecision GameStatus.
Proof. solve_decision. Defined.
#[global] Instance PieceType_eq_dec : EqDecision PieceType.
Proof. solve_decision. Defined.

(** A shape matrix, [number[][]]. *)
Abbreviation Shape := (list (list Z)).

Definition PIECE_SHAPES (t : PieceType) : list Shape :=
  match t with
  | PI => [ [ [0;0;0;0]; [1;1;1;1]; [0;0;0;0]; [0;0;0;0] ];
            [ [0;0;1;0]; [0;0;1;0]; [0;0;1;0]; [0;0;1;0] ] ]
  | PO => [ [ [1;1]; [1;1] ] ]
  | PT => [ [ [0;1;0]; [1;1;1]; [0;0;0] ];
            [ [0;1;0]; [0;1;1]; [0;1;0] ];
            [ [0;0;0]; [1;1;1]; [0;1;0] ];
            [ [0;1;0]; [1;1;0]; [0;1;0] ] ]
  | PS => [ [ [0;1;1]; [1;1;0]; [0;0;0] ];
            [ [0;1;0]; [0;1;1]; [0;0;1] ] ]
  | PZ => [ [ [1;1;0]; [0;1;1]; [0;0;0] ];
            [ [0;0;1]; [0;1;1]; [0;1;0] ] ]
  | PJ => [ [ [1;0;0]; [1;1;1]; [0;0;0] ];
            [ [0;1;1]; [0;1;0]; [0;1;0] ];
            [ [0;0;0]; [1;1;1]; [0;0;1] ];
            [ [0;1;0]; [0;1;0]; [1;1;0] ] ]
  | PL => [ [ [0;0;1]; [1;1;1]; [0;0;0] ];
            [ [0;1;0]; [0;1;0]; [0;1;1] ];
            [ [0;0;0]; [1;1;1]; [1;0;0] ];
            [ [1;1;0]; [0;1;0]; [0;1;0] ] ]
  end.

Record Position := mkPosition { x : Z; y : Z }.

Record TetrisPiece := mkPiece {
  type : PieceType;
  position : Position;
  rotation : nat;
  shape : Shape
}.

(** [(PieceType | null)[][]]: a cell is [None] when it is [null]. *)
Abbreviation Board := (list (list (option PieceType))).

Record GameConfig := mkConfig {
  boardWidth : nat;
  boardHeight : nat;
  initialSpeed : Q;
  speedIncrease : Q;
  linesPerLevel : Z
}.

Definition DEFAULT_CONFIG : GameConfig :=
  {| boardWidth := 10; boardHeight := 20; initialSpeed := 1000%Q;
     speedIncrease := (9 # 10)%Q; linesPerLevel := 10 |}.

Record TetrisState := mkState {
  status : GameStatus;
  board : Board;
  currentPiece : option TetrisPiece;
  nextPiece : option TetrisPiece;
  score : Z;
  level : Z;
  lines : Z;
  startTime : option Z;
  endTime : option Z;
  dropSpeed : Q;
  lastDropTime : Z;
  canPause : bool
}.

Definition set_currentPiece (p : option TetrisPiece) (s : TetrisState) : TetrisState :=
  {| status := status s; board := board s; currentPiece := p;
     nextPiece := nextPiece s; score := score s; level := level s;
     lines := lines s; startTime := startTime s; endTime := endTime s;
     dropSpeed := dropSpeed s; lastDropTime := lastDropTime s;
     canPause := canPause s |}.

Definition set_position (pos : Position) (p : TetrisPiece) : TetrisPiece :=
  {| type := type p; position := pos; rotation := rotation p; shape := shape p |}.

(** *** state.ts *)

Definition createEmptyBoard (width height : nat) : Board :=
  replicate height (replicate width None).

Definition createInitialState (config : GameConfig) : TetrisState :=
  {| status := idle;
     board := createEmptyBoard (boardWidth config) (boardHeight config);
     currentPiece := None; nextPiece := None;
     score := 0; level := 1; lines := 0;
     startTime := None; endTime := None;
     dropSpeed := initialSpeed config; lastDropTime := 0;
     canPause := false |}.

(** [shapes[0]] exists for every piece type. *)
Definition createPiece (t : PieceType) (width : nat) : TetrisPiece :=
  let shp := default [] (PIECE_SHAPES t !! 0%nat) in
  {| type := t;
     position := {| x := (Z.of_nat width - Z.of_nat (length (default [] (shp !! 0%nat)))) / 2;
                    y := 0 |};
     rotation := 0;
     shape := shp |}.

(** The body of the two loops of [canPlacePiece] for one filled cell of
    the shape: [Some true] when the loop goes on, [Some false] when the
    function returns [false], [None] when [board[0].length] raises a
    [TypeError] because the board has no row. The tests are evaluated in
    the order of the source's [||] chain. *)
Definition cellFree (b : Board) (pos : Position) (row col : nat) : option bool :=
  let boardX := x pos + Z.of_nat col in
  let boardY := y pos + Z.of_nat row in
  if boardX <? 0 then Some false
  else match b !! 0%nat with
       | None => None
       | Some row0 =>
           if (boardX >=? Z.of_nat (length row0)) || (boardY <? 0)
              || (boardY >=? Z.of_nat (length b))
           then Some false
           else match Grid.getZ b boardY boardX with
                | Some None => Some true
                | _ => Some false
                end
       end.

(** The inner loop, [for (col = ...; col < shape[row].length; col++)]. *)
Fixpoint scanCols (b : Board) (pos : Position) (row col : nat) (cells : list Z)
  : option bool :=
  match cells with
  | [] => Some true
  | v :: rest =>
      if v =? 1 then
        match cellFree b pos row col with
        | Some true => scanCols b pos row (S col) rest
        | r => r
        end
      else scanCols b pos row (S col) rest
  end.

(** The outer loop, [for (row = ...; row < shape.length; row++)]. *)
Fixpoint scanRows (b : Board) (pos : Position) (row : nat) (rows : list (list Z))
  : option bool :=
  match rows with
  | [] => Some true
  | cells :: rest =>
      match scanCols b pos row 0 cells with
      | Some true => scanRows b pos (S row) rest
      | r => r
      end
  end.

Definition canPlacePiece (b : Board) (piece : TetrisPiece) (pos : Position)
  : option bool :=
  scanRows b pos 0 (shape piece).

(** [placePieceOnBoard]: the board is copied, then every filled cell of
    the shape that lies on the board is written. The bounds test never
    reads [newBoard[0]] of a board without rows, because
    [boardY < newBoard.length] fails first. *)
Definition writeCell (t : PieceType) (pos : Position) (row col : nat) (b : Board) : Board :=
  let boardX := x pos + Z.of_nat col in
  let boardY := y pos + Z.of_nat row in
  if (boardY >=? 0) && (boardY <? Z.of_nat (length b)) && (boardX >=? 0)
     && (boardX <? Z.of_nat (length (default [] (b !! 0%nat))))
  then Grid.update (fun _ => Some t) (Z.to_nat boardY) (Z.to_nat boardX) b
  else b.

Fixpoint writeCols (t : PieceType) (pos : Position) (row col : nat) (cells : list Z)
  (b : Board) : Board :=
  match cells with
  | [] => b
  | v :: rest =>
      writeCols t pos row (S col) rest
        (if v =? 1 then writeCell t pos row col b else b)
  end.

Fixpoint writeRows (t : PieceType) (pos : Position) (row : nat) (rows : list (list Z))
  (b : Board) : Board :=
  match rows with
  | [] => b
  | cells :: rest => writeRows t pos (S row) rest (writeCols t pos row 0 cells b)
  end.

Definition placePieceOnBoard (b : Board) (piece : TetrisPiece) : Board :=
  writeRows (type piece) (position piece) 0 (shape piece) b.

(** [board[row].every(cell => cell !== null)] *)
Definition isComplete (line : list (option PieceType)) : bool :=
  forallb (fun cell => match cell with Some _ => true | None => false end) line.

(** One step of the scan of [clearCompleteLines]; [unshift] puts a kept
    row in front of the rows kept so far. *)
Definition scanLine (acc : Board * nat) (line : list (option PieceType)) : Board * nat :=
  if isComplete line then (fst acc, S (snd acc)) else (line :: fst acc, snd acc).

(** [clearCompleteLines]: the rows are visited from the last one to the
    first one; the [while] loop then runs once for each missing row and
    puts an empty row of the width of [board[0]] in front. *)
Definition clearCompleteLines (b : Board) : Board * nat :=
  let '(kept, clearedLines) := fold_left scanLine (rev b) ([], 0%nat) in
  (replicate (length b - length kept)
     (replicate (length (default [] (b !! 0%nat))) None) ++ kept,
   clearedLines).

Definition rotatePiece (piece : TetrisPiece) : TetrisPiece :=
  let shapes := PIECE_SHAPES (type piece) in
  let nextRotation := ((rotation piece + 1) mod length shapes)%nat in
  {| type := type piece; position := position piece;
     rotation := nextRotation;
     shape := default [] (shapes !! nextRotation) |}.

Definition movePiece (piece : TetrisPiece) (dx dy : Z) : TetrisPiece :=
  set_position {| x := x (position piece) + dx; y := y (position piece) + dy |} piece.

(** *** game.ts *)

Definition kickOffsets : list Position :=
  [ {| x := -1; y := 0 |}; {| x := 1; y := 0 |}; {| x := 0; y := -1 |};
    {| x := -1; y := -1 |}; {| x := 1; y := -1 |} ].

(** The [for (const offset of kickOffsets)] loop of the engine's
    [rotatePiece]; [None] is a [TypeError] that leaves the method. *)
Fixpoint tryKicks (s : TetrisState) (rotatedPiece : TetrisPiece) (offsets : list Position)
  : option TetrisState :=
  match offsets with
  | [] => Some s
  | offset :: rest =>
      let kickedPosition :=
        {| x := x (position rotatedPiece) + x offset;
           y := y (position rotatedPiece) + y offset |} in
      match canPlacePiece (board s) rotatedPiece kickedPosition with
      | None => None
      | Some true => Some (set_currentPiece (Some (set_position kickedPosition rotatedPiece)) s)
      | Some false => tryKicks s rotatedPiece rest
      end
  end.

(** The engine's private [rotatePiece] method. *)
Definition engineRotatePiece (s : TetrisState) : option TetrisState :=
  match currentPiece s with
  | None => Some s
  | Some piece =>
      let rotatedPiece := rotatePiece piece in
      match canPlacePiece (board s) rotatedPiece (position rotatedPiece) with
      | None => None
      | Some true => Some (set_currentPiece (Some rotatedPiece) s)
      | Some false => tryKicks s rotatedPiece kickOffsets
      end
  end.

(** [handleInput("rotate")]. *)
Definition handleInputRotate (s : TetrisState) : option TetrisState :=
  match status s, currentPiece s with
  | playing, Some _ => engineRotatePiece s
  | _, _ => Some s
  end.

(** The board that [placePiece] stores and the number of lines it
    scores: the piece is written, then complete lines are cleared. *)
Definition placePieceBoard (b : Board) (piece : TetrisPiece) : Board * nat :=
  clearCompleteLines (placePieceOnBoard b piece).

End Tetris.

(** ** Random draws *)

Module Random.

(** One value of [Math.random()], a number of the interval [0, 1): the
    sample [{| num := n; gap := g |}] stands for [n / (n + g + 1)]. *)
Record Sample := mkSample { num : nat; gap : nat }.

(** [Math.floor(u * n)], for the exact product. The code rounds the
    product to a double before it takes the floor: a product that lies
    within the rounding distance below an integer rounds to that
    integer, and the index of the code is then the next one; it is
    below [n] as well. *)
Definition floorScaled (u : Sample) (n : nat) : nat :=
  (num u * n) / (num u + gap u + 1).

(** [u < p / q] *)
Definition below (u : Sample) (p q : nat) : bool :=
  num u * q <? p * (num u + gap u + 1).

End Random.

(** A counted loop, [for (let i = 0; i < n; i++) body]. *)
Definition forRange {S : Type} (n : nat) (body : nat -> S -> S) (s : S) : S :=
  fold_left (fun acc i => body i acc) (seq 0 n) s.

(** ** The tile-merge engine (src/games/game2048)

    The state manager keeps its board a [boardSize] x [boardSize] array,
    on which every index the methods use is in range. Where JavaScript
    would raise on a smaller array, the lookups below return a default;
    the statements about the methods are about boards of the right
    size. *)

Module Game2048.

Local Open Scope Z_scope.

Inductive GameStatus := idle | playing | won | lost.
Inductive Direction := up | down | left | right.

#[global] Instance GameStatus_eq_dec : EqDecision GameStatus.
Proof. solve_decision. Defined.
#[global] Instance Direction_eq_dec : EqDecision Direction.
Proof. solve_decision. Defined.

(** An optional field is [None] when the object does not have it. *)
Record Cell := mkCell {
  value : Z;
  row : nat;
  col : nat;
  isNew : option bool;
  isMerged : option bool
}.

Abbreviation Board := (list (list Cell)).

Record Game2048State := mkState {
  status : GameStatus;
  board : Board;
  score : Z;
  bestScore : Z;
  startTime : option Z;
  endTime : option Z;
  canUndo : bool;
  moveCount : Z;
  highestTile : Z;
  bestTile : Z
}.

Record GameHistoryState := mkHistory {
  h_board : Board;
  h_score : Z;
  h_moveCount : Z
}.

Record MoveResult := mkResult {
  moved : bool;
  scoreIncrease : Z;
  reached2048 : bool
}.

Record GameConfig := mkConfig {
  boardSize : nat;
  winTarget : Z;
  initialCells : nat
}.

Definition DEFAULT_CONFIG : GameConfig :=
  {| boardSize := 4; winTarget := 2048; initialCells := 2 |}.

(** The two keys of [localStorage] that the manager reads and writes. *)
Record Storage := mkStorage {
  storedBestScore : option Z;
  storedBestTile : option Z
}.

(** The fields of [Game2048StateManager]. The listeners are callbacks of
    the renderer: they receive copies of the state and are left out. An
    entry is pushed at the end of [history]. *)
Record Manager := mkManager {
  state : Game2048State;
  config : GameConfig;
  history : list GameHistoryState;
  storage : Storage
}.

(** *** Field updates *)

Definition set_value (v : Z) (c : Cell) : Cell :=
  {| value := v; row := row c; col := col c; isNew := isNew c; isMerged := isMerged c |}.

Definition clear_flags (c : Cell) : Cell :=
  {| value := value c; row := row c; col := col c; isNew := None; isMerged := None |}.

Definition set_board (b : Board) (s : Game2048State) : Game2048State :=
  {| status := status s; board := b; score := score s; bestScore := bestScore s;
     startTime := startTime s; endTime := endTime s; canUndo := canUndo s;
     moveCount := moveCount s; highestTile := highestTile s; bestTile := bestTile s |}.

Definition set_status (st : GameStatus) (s : Game2048State) : Game2048State :=
  {| status := st; board := board s; score := score s; bestScore := bestScore s;
     startTime := startTime s; endTime := endTime s; canUndo := canUndo s;
     moveCount := moveCount s; highestTile := highestTile s; bestTile := bestTile s |}.

Definition set_state (s : Game2048State) (m : Manager) : Manager :=
  {| state := s; config := config m; history := history m; storage := storage m |}.

Definition set_history (h : list GameHistoryState) (m : Manager) : Manager :=
  {| state := state m; config := config m; history := h; storage := storage m |}.

(** *** Reading and writing the board *)

(** [board[r][c].value] *)
Definition valueAt (b : Board) (r c : nat) : Z :=
  match Grid.get b r c with
  | Some cell => value cell
  | None => 0
  end.

(** [board[r][c].value = v] *)
Definition setValue (b : Board) (r c : nat) (v : Z) : Board :=
  Grid.update (set_value v) r c b.

Definition createEmptyBoard (size : nat) : Board :=
  map (fun r => map (fun c => {| value := 0; row := r; col := c;
                                 isNew := None; isMerged := None |}) (seq 0 size))
      (seq 0 size).

Definition loadBestScore (st : Storage) : Z := default 0 (storedBestScore st).
Definition loadBestTile (st : Storage) : Z := default 0 (storedBestTile st).

Definition createInitialState (cfg : GameConfig) (st : Storage) : Game2048State :=
  {| status := idle;
     board := createEmptyBoard (boardSize cfg);
     score := 0;
     bestScore := loadBestScore st;
     startTime := None; endTime := None;
     canUndo := false;
     moveCount := 0;
     highestTile := 0;
     bestTile := loadBestTile st |}.

(** [new Game2048StateManager(config)] *)
Definition newManager (cfg : GameConfig) (st : Storage) : Manager :=
  {| state := createInitialState cfg st; config := cfg; history := []; storage := st |}.

(** The empty cells in row-major order. *)
Definition getEmptyCells (size : nat) (b : Board) : list (nat * nat) :=
  flat_map (fun r =>
    flat_map (fun c => if valueAt b r c =? 0 then [(r, c)] else []) (seq 0 size))
    (seq 0 size).

(** [addRandomCell]; [u1] picks the cell and [u2] the value. The new
    cell is a fresh object with [isNew] set and no [isMerged]. *)
Definition addRandomCell (size : nat) (u1 u2 : Random.Sample) (b : Board) : Board * bool :=
  let emptyCells := getEmptyCells size b in
  match emptyCells !! Random.floorScaled u1 (length emptyCells) with
  | None => (b, false)
  | Some (r, c) =>
      let v := if Random.below u2 9 10 then 2 else 4 in
      (Grid.update (fun _ => {| value := v; row := r; col := c;
                                isNew := Some true; isMerged := None |}) r c b,
       true)
  end.

(** *** Merging one line *)

(** The body of the merge loop at index [i]. *)
Definition mergeStep (i : nat) (st : list Z * Z) : list Z * Z :=
  let '(newLine, sc) := st in
  match newLine !! i, newLine !! (i + 1)%nat with
  | Some a, Some b =>
      if a =? b
      then (<[(i + 1)%nat := 0]> (<[i := a * 2]> newLine), sc + a * 2)
      else st
  | _, _ => st
  end.

(** [mergeLine]: the last loop pushes one zero for each missing
    element. *)
Definition mergeLine (line : list Z) : list Z * Z :=
  let filtered := filter (fun v => v <> 0) line in
  let '(newLine, sc) := forRange (length filtered - 1) mergeStep (filtered, 0) in
  let result := filter (fun v => v <> 0) newLine in
  (result ++ replicate (length line - length result) 0, sc).

(** *** The four moves *)

(** [for (col = 0; col < size; col++) board[r(col)][c(col)].value = newLine[col]] *)
Definition writeLine (size : nat) (at_ : nat -> nat * nat) (newLine : list Z) (b : Board)
  : Board :=
  forRange size
    (fun k b => setValue b (fst (at_ k)) (snd (at_ k)) (default 0 (newLine !! k))) b.

Definition rowValues (b : Board) (r : nat) : list Z :=
  map value (default [] (b !! r)).

Definition moveLeft (size : nat) (b : Board) : Board * Z :=
  forRange size
    (fun r '(b, total) =>
       let line := rowValues b r in
       let '(newLine, sc) := mergeLine line in
       (writeLine size (fun c => (r, c)) newLine b, total + sc))
    (b, 0).

Definition moveRight (size : nat) (b : Board) : Board * Z :=
  forRange size
    (fun r '(b, total) =>
       let line := rev (rowValues b r) in
       let '(newLine, sc) := mergeLine line in
       let reversedLine := rev newLine in
       (writeLine size (fun c => (r, c)) reversedLine b, total + sc))
    (b, 0).

Definition moveUp (size : nat) (b : Board) : Board * Z :=
  forRange size
    (fun c '(b, total) =>
       let line := map (fun r => valueAt b r c) (seq 0 size) in
       let '(newLine, sc) := mergeLine line in
       (writeLine size (fun r => (r, c)) newLine b, total + sc))
    (b, 0).

Definition moveDown (size : nat) (b : Board) : Board * Z :=
  forRange size
    (fun c '(b, total) =>
       let line := map (fun r => valueAt b r c) (rev (seq 0 size)) in
       let '(newLine, sc) := mergeLine line in
       (writeLine size (fun r => ((size - 1 - r)%nat, c)) newLine b, total + sc))
    (b, 0).

(** *** Bookkeeping *)

Definition allCells (size : nat) : list (nat * nat) :=
  flat_map (fun r => map (fun c => (r, c)) (seq 0 size)) (seq 0 size).

Definition currentHighest (size : nat) (b : Board) : Z :=
  fold_left (fun acc rc => let v := valueAt b (fst rc) (snd rc) in
                           if v >? acc then v else acc)
            (allCells size) 0.

Definition updateHighestTile (size : nat) (s : Game2048State) : Game2048State :=
  {| status := status s; board := board s; score := score s; bestScore := bestScore s;
     startTime := startTime s; endTime := endTime s; canUndo := canUndo s;
     moveCount := moveCount s;
     highestTile := currentHighest size (board s);
     bestTile := bestTile s |}.

Definition checkFor2048 (cfg : GameConfig) (b : Board) : bool :=
  existsb (fun rc => valueAt b (fst rc) (snd rc) >=? winTarget cfg)
          (allCells (boardSize cfg)).

Definition canMove (size : nat) (b : Board) : bool :=
  if (0 <? length (getEmptyCells size b))%nat then true
  else existsb (fun rc =>
         let '(r, c) := rc in
         let current := valueAt b r c in
         ((c <? size - 1)%nat && (current =? valueAt b r (c + 1)))
         || ((r <? size - 1)%nat && (current =? valueAt b (r + 1) c)))
       (allCells size).

Definition endGame (st : GameStatus) (now : Z) (s : Game2048State) : Game2048State :=
  {| status := st; board := board s; score := score s; bestScore := bestScore s;
     startTime := startTime s; endTime := Some now; canUndo := canUndo s;
     moveCount := moveCount s; highestTile := highestTile s; bestTile := bestTile s |}.

Definition checkGameStatus (cfg : GameConfig) (now : Z) (s : Game2048State)
  : Game2048State :=
  if checkFor2048 cfg (board s) && bool_decide (status s = playing)
  then endGame won now s
  else if negb (canMove (boardSize cfg) (board s))
       then endGame lost now s
       else s.

Definition cloneBoard (b : Board) : Board :=
  map (fun line => map (fun cell => cell) line) b.

Definition boardsEqual (size : nat) (b1 b2 : Board) : bool :=
  forallb (fun rc => valueAt b1 (fst rc) (snd rc) =? valueAt b2 (fst rc) (snd rc))
          (allCells size).

Definition clearCellFlags (size : nat) (b : Board) : Board :=
  fold_left (fun b rc => Grid.update clear_flags (fst rc) (snd rc) b) (allCells size) b.

(** [saveToHistory]: [push], then [shift] when more than ten entries
    are kept. *)
Definition saveToHistory (m : Manager) : Manager :=
  let historyState :=
    {| h_board := cloneBoard (board (state m));
       h_score := score (state m);
       h_moveCount := moveCount (state m) |} in
  let h := history m ++ [historyState] in
  set_history (if (10 <? length h)%nat then tail h else h) m.

(** The part of [move] that runs when the board has changed. *)
Definition afterMove (u1 u2 : Random.Sample) (now : Z) (sc : Z) (m : Manager)
  : Manager * bool :=
  let cfg := config m in
  let s := state m in
  let s1 := {| status := status s; board := board s;
               score := score s + sc; bestScore := bestScore s;
               startTime := startTime s; endTime := endTime s;
               canUndo := true;
               moveCount := moveCount s + 1;
               highestTile := highestTile s; bestTile := bestTile s |} in
  let reached := checkFor2048 cfg (board s1) in
  let s2 := updateHighestTile (boardSize cfg) s1 in
  let s3 := set_board (fst (addRandomCell (boardSize cfg) u1 u2 (board s2))) s2 in
  let s4 := checkGameStatus cfg now s3 in
  let newBest := score s4 >? bestScore s4 in
  let s5 := {| status := status s4; board := board s4; score := score s4;
               bestScore := if newBest then score s4 else bestScore s4;
               startTime := startTime s4; endTime := endTime s4;
               canUndo := canUndo s4; moveCount := moveCount s4;
               highestTile := highestTile s4; bestTile := bestTile s4 |} in
  let newTile := highestTile s5 >? bestTile s5 in
  let s6 := {| status := status s5; board := board s5; score := score s5;
               bestScore := bestScore s5;
               startTime := startTime s5; endTime := endTime s5;
               canUndo := canUndo s5; moveCount := moveCount s5;
               highestTile := highestTile s5;
               bestTile := if newTile then highestTile s5 else bestTile s5 |} in
  let st := storage m in
  let st' :=
    {| storedBestScore := if newBest then Some (bestScore s6) else storedBestScore st;
       storedBestTile := if newTile then Some (bestTile s6) else storedBestTile st |} in
  ({| state := s6; config := cfg; history := history m; storage := st' |}, reached).

Definition moveBoard (direction : Direction) (size : nat) (b : Board) : Board * Z :=
  match direction with
  | left => moveLeft size b
  | right => moveRight size b
  | up => moveUp size b
  | down => moveDown size b
  end.

(** [move(direction)] *)
Definition move (direction : Direction) (u1 u2 : Random.Sample) (now : Z) (m : Manager)
  : Manager * MoveResult :=
  if negb (bool_decide (status (state m) = playing))
  then (m, {| moved := false; scoreIncrease := 0; reached2048 := false |})
  else
    let size := boardSize (config m) in
    let m1 := saveToHistory m in
    let oldBoard := cloneBoard (board (state m1)) in
    let m2 := set_state (set_board (clearCellFlags size (board (state m1))) (state m1)) m1 in
    let '(b3, sc) := moveBoard direction size (board (state m2)) in
    let m3 := set_state (set_board b3 (state m2)) m2 in
    let changed := negb (boardsEqual size oldBoard (board (state m3))) in
    if changed
    then let '(m4, reached) := afterMove u1 u2 now sc m3 in
         (m4, {| moved := true; scoreIncrease := sc; reached2048 := reached |})
    else (set_history (removelast (history m3)) m3,
          {| moved := false; scoreIncrease := sc; reached2048 := false |}).

(** [undo()] *)
Definition undo (m : Manager) : Manager * bool :=
  if negb (canUndo (state m)) || (length (history m) =? 0)%nat
  then (m, false)
  else
    match list.last (history m) with
    | None => (m, false)
    | Some lastState =>
        let h := removelast (history m) in
        let s := state m in
        ({| state :=
              {| status := status s;
                 board := cloneBoard (h_board lastState);
                 score := h_score lastState;
                 bestScore := bestScore s;
                 startTime := startTime s; endTime := endTime s;
                 canUndo := (0 <? length h)%nat;
                 moveCount := h_moveCount lastState;
                 highestTile := highestTile s; bestTile := bestTile s |};
            config := config m; history := h; storage := storage m |},
         true)
    end.

(** The initial cells of [startNewGame]: [draws (2 * i)] and
    [draws (2 * i + 1)] are the samples of the [i]-th cell. *)
Definition addInitialCells (size n : nat) (draws : nat -> Random.Sample) (b : Board)
  : Board :=
  forRange n
    (fun i b => fst (addRandomCell size (draws (2 * i)%nat) (draws (2 * i + 1)%nat) b)) b.

(** [startNewGame()], which is also [reset()]. *)
Definition startNewGame (draws : nat -> Random.Sample) (now : Z) (m : Manager) : Manager :=
  let cfg := config m in
  let s0 := createInitialState cfg (storage m) in
  let s1 := set_board (addInitialCells (boardSize cfg) (initialCells cfg) draws (board s0)) s0 in
  let s2 := updateHighestTile (boardSize cfg) s1 in
  {| state :=
       {| status := playing; board := board s2; score := score s2;
          bestScore := bestScore s2;
          startTime := Some now; endTime := endTime s2; canUndo := canUndo s2;
          moveCount := moveCount s2; highestTile := highestTile s2;
          bestTile := bestTile s2 |};
     config := cfg; history := []; storage := storage m |}.

(** The engine's [continueGame()]. *)
Definition continueGame (m : Manager) : Manager :=
  if bool_decide (status (state m) = won)
  then set_state (set_status playing (state m)) m
  else m.

(** The managers that a game reaches from [startNewGame()]. *)
Inductive reachable (cfg : GameConfig) (st : Storage) : Manager -> Prop :=
| reach_start draws now :
    reachable cfg st (startNewGame draws now (newManager cfg st))
| reach_restart m draws now :
    reachable cfg st m -> reachable cfg st (startNewGame draws now m)
| reach_move m direction u1 u2 now :
    reachable cfg st m -> reachable cfg st (fst (move direction u1 u2 now m))
| reach_undo m :
    reachable cfg st m -> reachable cfg st (fst (undo m))
| reach_continue m :
    reachable cfg st m -> reachable cfg st (continueGame m).

End Game2048.

(** ** The minefield engine (src/games/minesweeper)

    The state manager builds every board with [createEmptyBoard] from the
    rows and columns of its configuration. The loops of the manager run
    over the cells of the configuration; [revealCell] and [toggleFlag]
    take their coordinates from the caller and index the board with
    them. *)

Module Minesweeper.

Local Open Scope Z_scope.

Inductive Difficulty := beginner | intermediate | expert | custom.
Inductive GameStatus := idle | playing | won | lost.
Inductive CellState := hidden | revealed | flagged | questioned.

#[global] Instance Difficulty_eq_dec : EqDecision Difficulty.
Proof. solve_decision. Defined.
#[global] Instance GameStatus_eq_dec : EqDecision GameStatus.
Proof. solve_decision. Defined.
#[global] Instance CellState_eq_dec : EqDecision CellState.
Proof. solve_decision. Defined.

Record Cell := mkCell {
  isMine : bool;
  neighborMines : Z;
  state : CellState;
  row : Z;
  col : Z
}.

Abbreviation Board := (list (list Cell)).

Record GameConfig := mkConfig {
  rows : Z;
  cols : Z;
  mines : Z;
  difficulty : Difficulty
}.

Record MinesweeperState := mkState {
  status : GameStatus;
  board : Board;
  config : GameConfig;
  remainingMines : Z;
  flaggedMines : Z;
  revealedCells : Z;
  startTime : option Z;
  endTime : option Z;
  score : Z
}.

Definition DIFFICULTY_CONFIGS (d : Difficulty) : option GameConfig :=
  match d with
  | beginner => Some {| rows := 9; cols := 9; mines := 10; difficulty := beginner |}
  | intermediate => Some {| rows := 16; cols := 16; mines := 40; difficulty := intermediate |}
  | expert => Some {| rows := 16; cols := 30; mines := 99; difficulty := expert |}
  | custom => None
  end.

Definition beginnerConfig : GameConfig :=
  {| rows := 9; cols := 9; mines := 10; difficulty := beginner |}.

(** What a method call leaves: the value it returns with the state, the
    state at the moment a [TypeError] is raised, or no result because
    the fuel of the recursion ran out. *)
Inductive Outcome (A : Type) :=
| Returned (a : A) (s : MinesweeperState)
| Raised (s : MinesweeperState)
| OutOfFuel.
Arguments Returned {A} a s.
Arguments Raised {A} s.
Arguments OutOfFuel {A}.

(** *** Field updates *)

Definition set_isMine (v : bool) (c : Cell) : Cell :=
  {| isMine := v; neighborMines := neighborMines c; state := state c;
     row := row c; col := col c |}.

Definition set_neighborMines (n : Z) (c : Cell) : Cell :=
  {| isMine := isMine c; neighborMines := n; state := state c;
     row := row c; col := col c |}.

Definition set_cellState (v : CellState) (c : Cell) : Cell :=
  {| isMine := isMine c; neighborMines := neighborMines c; state := v;
     row := row c; col := col c |}.

Definition set_board (b : Board) (s : MinesweeperState) : MinesweeperState :=
  {| status := status s; board := b; config := config s;
     remainingMines := remainingMines s; flaggedMines := flaggedMines s;
     revealedCells := revealedCells s; startTime := startTime s;
     endTime := endTime s; score := score s |}.

(** *** The board *)

(** [board[row][col]] for coordinates of the caller; [None] when
    [board[row]] or the cell is [undefined]. *)
Definition cellAt (b : Board) (r c : Z) : option Cell := Grid.getZ b r c.

Definition createEmptyBoard (nrows ncols : Z) : Board :=
  map (fun r =>
         map (fun c => {| isMine := false; neighborMines := 0; state := hidden;
                          row := Z.of_nat r; col := Z.of_nat c |})
             (seq 0 (Z.to_nat ncols)))
      (seq 0 (Z.to_nat nrows)).

Definition createInitialState (cfg : GameConfig) : MinesweeperState :=
  {| status := idle;
     board := createEmptyBoard (rows cfg) (cols cfg);
     config := cfg;
     remainingMines := mines cfg;
     flaggedMines := 0;
     revealedCells := 0;
     startTime := None; endTime := None;
     score := 0 |}.

(** The integers from [lo] to [hi], both included. *)
Definition zrange (lo hi : Z) : list Z :=
  map (fun i => lo + Z.of_nat i) (seq 0 (Z.to_nat (hi - lo + 1))).

(** The cells of the configuration in row-major order. *)
Definition allCells (cfg : GameConfig) : list (Z * Z) :=
  flat_map (fun r => map (fun c => (r, c)) (zrange 0 (cols cfg - 1)))
           (zrange 0 (rows cfg - 1)).

(** *** Placing the mines *)

Definition isExcluded (excludeRow excludeCol r c : Z) : bool :=
  (Z.abs (r - excludeRow) <=? 1) && (Z.abs (c - excludeCol) <=? 1).

Definition availableCells (cfg : GameConfig) (excludeRow excludeCol : Z) : list (Z * Z) :=
  filter (fun rc => isExcluded excludeRow excludeCol (fst rc) (snd rc) = false)
         (allCells cfg).

(** [[a[i], a[j]] = [a[j], a[i]]] *)
Definition swap {A : Type} (i j : nat) (a : list A) : list A :=
  match a !! i, a !! j with
  | Some x, Some y => <[j := x]> (<[i := y]> a)
  | _, _ => a
  end.

(** [shuffleArray]: [i] runs from the last index down to 1, and the
    [k]-th round of the loop takes the sample [draws k]. *)
Definition shuffleArray {A : Type} (draws : nat -> Random.Sample) (a : list A) : list A :=
  fst (fold_left
         (fun (st : list A * nat) i =>
            (swap i (Random.floorScaled (draws (snd st)) (i + 1)) (fst st), S (snd st)))
         (rev (seq 1 (length a - 1)))
         (a, 0%nat)).

(** [a.slice(0, n)]: a negative [n] counts from the end of the array. *)
Definition slice0 {A : Type} (n : Z) (a : list A) : list A :=
  if n <? 0 then take (Z.to_nat (Z.of_nat (length a) + n)) a else take (Z.to_nat n) a.

Definition minePositions (cfg : GameConfig) (draws : nat -> Random.Sample)
           (excludeRow excludeCol : Z) : list (Z * Z) :=
  slice0 (mines cfg) (shuffleArray draws (availableCells cfg excludeRow excludeCol)).

Definition placeMines (draws : nat -> Random.Sample) (excludeRow excludeCol : Z)
           (s : MinesweeperState) : MinesweeperState :=
  set_board
    (fold_left (fun b rc => Grid.updateZ (set_isMine true) (fst rc) (snd rc) b)
               (minePositions (config s) draws excludeRow excludeCol)
               (board s))
    s.

(** The neighbours that the two loops of [countNeighborMines],
    [revealNeighbors], [canAutoReveal] and [autoRevealNeighbors] visit,
    in the order of the loops. *)
Definition neighborCoords (cfg : GameConfig) (r c : Z) : list (Z * Z) :=
  flat_map
    (fun r' =>
       flat_map (fun c' => if negb (r' =? r) || negb (c' =? c) then [(r', c')] else [])
                (zrange (Z.max 0 (c - 1)) (Z.min (cols cfg - 1) (c + 1))))
    (zrange (Z.max 0 (r - 1)) (Z.min (rows cfg - 1) (r + 1))).

Definition mineAt (b : Board) (rc : Z * Z) : bool :=
  match cellAt b (fst rc) (snd rc) with
  | Some cell => isMine cell
  | None => false
  end.

Definition countNeighborMines (cfg : GameConfig) (b : Board) (r c : Z) : Z :=
  Z.of_nat (length (filter (fun rc => mineAt b rc = true) (neighborCoords cfg r c))).

Definition calculateNeighborMines (s : MinesweeperState) : MinesweeperState :=
  set_board
    (fold_left
       (fun b rc =>
          if mineAt b rc then b
          else Grid.updateZ
                 (set_neighborMines (countNeighborMines (config s) b (fst rc) (snd rc)))
                 (fst rc) (snd rc) b)
       (allCells (config s)) (board s))
    s.

Definition initializeGame (draws : nat -> Random.Sample) (now : Z)
           (firstClickRow firstClickCol : Z) (s : MinesweeperState) : MinesweeperState :=
  if bool_decide (status s = idle) then
    let s1 := calculateNeighborMines (placeMines draws firstClickRow firstClickCol s) in
    {| status := playing; board := board s1; config := config s1;
       remainingMines := remainingMines s1; flaggedMines := flaggedMines s1;
       revealedCells := revealedCells s1; startTime := Some now;
       endTime := endTime s1; score := score s1 |}
  else s.

(** *** Revealing *)

Definition revealAllMines (s : MinesweeperState) : MinesweeperState :=
  set_board
    (fold_left
       (fun b rc =>
          match cellAt b (fst rc) (snd rc) with
          | Some cell =>
              if isMine cell && negb (bool_decide (state cell = flagged))
              then Grid.updateZ (set_cellState revealed) (fst rc) (snd rc) b
              else b
          | None => b
          end)
       (allCells (config s)) (board s))
    s.

Definition getDifficultyMultiplier (s : MinesweeperState) : Z :=
  match difficulty (config s) with
  | beginner => 1
  | intermediate => 2
  | expert => 3
  | custom => 1
  end.

(** [calculateScore]; a time stamp that is [null] or [0] is falsy. *)
Definition calculateScore (s : MinesweeperState) : MinesweeperState :=
  match startTime s, endTime s with
  | Some t0, Some t1 =>
      if (t0 =? 0) || (t1 =? 0) then s
      else
        let timeBonus := Z.max 0 (1000 - (t1 - t0) / 1000) in
        {| status := status s; board := board s; config := config s;
           remainingMines := remainingMines s; flaggedMines := flaggedMines s;
           revealedCells := revealedCells s; startTime := startTime s;
           endTime := endTime s;
           score := (timeBonus + mines (config s) * 10) * getDifficultyMultiplier s |}
  | _, _ => s
  end.

Definition checkWinCondition (now : Z) (s : MinesweeperState) : MinesweeperState :=
  let totalSafeCells := rows (config s) * cols (config s) - mines (config s) in
  if revealedCells s =? totalSafeCells then
    calculateScore
      {| status := won; board := board s; config := config s;
         remainingMines := remainingMines s; flaggedMines := flaggedMines s;
         revealedCells := revealedCells s; startTime := startTime s;
         endTime := Some now; score := score s |}
  else s.

(** [cell.state = "revealed"; this.state.revealedCells++] *)
Definition markRevealed (r c : Z) (s : MinesweeperState) : MinesweeperState :=
  {| status := status s;
     board := Grid.updateZ (set_cellState revealed) r c (board s);
     config := config s;
     remainingMines := remainingMines s; flaggedMines := flaggedMines s;
     revealedCells := revealedCells s + 1;
     startTime := startTime s; endTime := endTime s; score := score s |}.

Definition loseGame (now : Z) (s : MinesweeperState) : MinesweeperState :=
  {| status := lost; board := board s; config := config s;
     remainingMines := remainingMines s; flaggedMines := flaggedMines s;
     revealedCells := revealedCells s; startTime := startTime s;
     endTime := Some now; score := score s |}.

(** The two loops of [revealNeighbors] over the neighbours [cells];
    [reveal] is the recursive call [this.revealCell]. *)
Fixpoint revealNeighborsWith (reveal : Z -> Z -> MinesweeperState -> Outcome bool)
         (cells : list (Z * Z)) (s : MinesweeperState) : Outcome unit :=
  match cells with
  | [] => Returned tt s
  | (r, c) :: rest =>
      match cellAt (board s) r c with
      | None => Raised s
      | Some neighbor =>
          if bool_decide (state neighbor = hidden) then
            match reveal r c s with
            | Returned _ s' => revealNeighborsWith reveal rest s'
            | Raised s' => Raised s'
            | OutOfFuel => OutOfFuel
            end
          else revealNeighborsWith reveal rest s
      end
  end.

(** [revealCell(row, col)]. The recursion through [revealNeighbors] is
    bounded by [fuel]. [cell] is a reference to the object in the
    board, so that [cell.isMine] and [cell.neighborMines] are read from
    the board after [initializeGame] has written them. *)
Fixpoint revealCell (fuel : nat) (draws : nat -> Random.Sample) (now : Z)
         (r c : Z) (s : MinesweeperState) : Outcome bool :=
  match fuel with
  | O => OutOfFuel
  | S fuel' =>
      if bool_decide (status s = won) || bool_decide (status s = lost)
      then Returned false s
      else
        match cellAt (board s) r c with
        | None => Raised s
        | Some cell =>
            if negb (bool_decide (state cell = hidden)) then Returned false s
            else
              let s1 := if bool_decide (status s = idle)
                        then initializeGame draws now r c s else s in
              let s2 := markRevealed r c s1 in
              match cellAt (board s2) r c with
              | None => Raised s2
              | Some cell' =>
                  if isMine cell'
                  then Returned true (revealAllMines (loseGame now s2))
                  else
                    let filled :=
                      if neighborMines cell' =? 0
                      then revealNeighborsWith (revealCell fuel' draws now)
                             (neighborCoords (config s2) r c) s2
                      else Returned tt s2 in
                    match filled with
                    | Returned _ s3 => Returned true (checkWinCondition now s3)
                    | Raised s' => Raised s'
                    | OutOfFuel => OutOfFuel
                    end
              end
        end
  end.

(** [revealNeighbors(row, col)] *)
Definition revealNeighbors (fuel : nat) (draws : nat -> Random.Sample) (now : Z)
           (r c : Z) (s : MinesweeperState) : Outcome unit :=
  revealNeighborsWith (revealCell fuel draws now) (neighborCoords (config s) r c) s.

(** [toggleFlag(row, col)] *)
Definition toggleFlag (r c : Z) (s : MinesweeperState) : Outcome bool :=
  if bool_decide (status s = won) || bool_decide (status s = lost)
  then Returned false s
  else
    match cellAt (board s) r c with
    | None => Raised s
    | Some cell =>
        match state cell with
        | revealed => Returned false s
        | hidden =>
            Returned true
              {| status := status s;
                 board := Grid.updateZ (set_cellState flagged) r c (board s);
                 config := config s;
                 remainingMines := remainingMines s - 1;
                 flaggedMines := flaggedMines s + 1;
                 revealedCells := revealedCells s;
                 startTime := startTime s; endTime := endTime s; score := score s |}
        | flagged =>
            Returned true
              {| status := status s;
                 board := Grid.updateZ (set_cellState hidden) r c (board s);
                 config := config s;
                 remainingMines := remainingMines s + 1;
                 flaggedMines := flaggedMines s - 1;
                 revealedCells := revealedCells s;
                 startTime := startTime s; endTime := endTime s; score := score s |}
        | questioned => Returned true s
        end
    end.

(** [reset(config?)] *)
Definition reset (cfg : option GameConfig) (s : MinesweeperState) : MinesweeperState :=
  createInitialState (default (config s) cfg).

(** *** game.ts *)

(** The configuration that [setCustomConfig(rows, cols, mines)] builds.
    [Math.floor(rows * cols * 0.8)] is the integer quotient of
    [4 * rows * cols] by 5. *)
Definition customConfig (nrows ncols nmines : Z) : GameConfig :=
  let maxMines := (nrows * ncols * 4) / 5 in
  let validMines := Z.min (Z.max 1 nmines) maxMines in
  {| rows := Z.max 5 (Z.min 50 nrows);
     cols := Z.max 5 (Z.min 50 ncols);
     mines := validMines;
     difficulty := custom |}.

Definition setCustomConfig (nrows ncols nmines : Z) (s : MinesweeperState)
  : MinesweeperState :=
  reset (Some (customConfig nrows ncols nmines)) s.

Definition changeDifficulty (d : Difficulty) (s : MinesweeperState) : MinesweeperState :=
  reset (DIFFICULTY_CONFIGS d) s.

(** The states that the engine of the game module reaches: it is built
    with a configuration (the beginner one when none is given), and
    driven by clicks, restarts and changes of configuration. *)
Inductive reachable : MinesweeperState -> Prop :=
| reach_new cfg : reachable (createInitialState cfg)
| reach_restart s cfg : reachable s -> reachable (reset cfg s)
| reach_difficulty s d : reachable s -> reachable (changeDifficulty d s)
| reach_custom s nrows ncols nmines :
    reachable s -> reachable (setCustomConfig nrows ncols nmines s)
| reach_reveal s fuel draws now r c b s' :
    reachable s -> revealCell fuel draws now r c s = Returned b s' -> reachable s'
| reach_flag s r c b s' :
    reachable s -> toggleFlag r c s = Returned b s' -> reachable s'.

End Minesweeper.

(** ** The engine of the falling-block game (src/games/tetris/game.ts)
    and the state functions it calls (src/games/tetris/state.ts)

    [requestAnimationFrame] calls the game loop; one call of its body is
    [tick]. The identifier of the loop and the event listeners are fields
    of the engine that no method reads back into the state; they are
    left out. *)

Module TetrisEngine.
Import Tetris.

Local Open Scope Z_scope.

(** What a call leaves: its value, a [TypeError], or no result because
    the fuel of a [while] loop ran out. *)
Inductive Run (A : Type) :=
| Value (a : A)
| TypeError
| NoFuel.
Arguments Value {A} a.
Arguments TypeError {A}.
Arguments NoFuel {A}.

Definition bind {A B : Type} (m : Run A) (f : A -> Run B) : Run B :=
  match m with
  | Value a => f a
  | TypeError => TypeError
  | NoFuel => NoFuel
  end.

(** A call of [canPlacePiece] in the test of an [if]. *)
Definition whenPlaceable {A : Type} (test : option bool) (yes no : Run A) : Run A :=
  match test with
  | None => TypeError
  | Some true => yes
  | Some false => no
  end.

(** *** state.ts *)

Definition pieceTypes : list PieceType := [PI; PO; PT; PS; PZ; PJ; PL].

(** [types[Math.floor(Math.random() * types.length)]]; the index is
    below 7 for every sample. *)
Definition getRandomPieceType (u : Random.Sample) : PieceType :=
  default PI (pieceTypes !! Random.floorScaled u (length pieceTypes)).

Inductive DropType := soft | hard.

(** [SCORE_VALUES] *)
Definition SINGLE : Z := 100.
Definition DOUBLE : Z := 300.
Definition TRIPLE : Z := 500.
Definition TETRIS : Z := 800.
Definition SOFT_DROP : Z := 1.
Definition HARD_DROP : Z := 2.

Definition calculateScore (clearedLines : nat) (level : Z) (dropType : option DropType) : Z :=
  (match clearedLines with
   | 1%nat => SINGLE * level
   | 2%nat => DOUBLE * level
   | 3%nat => TRIPLE * level
   | 4%nat => TETRIS * level
   | _ => 0
   end)
  + match dropType with
    | Some soft => SOFT_DROP
    | Some hard => HARD_DROP
    | None => 0
    end.

(** [Math.floor(lines / linesPerLevel) + 1]. For [linesPerLevel = 0]
    JavaScript computes [Infinity] or [NaN], which no integer stands
    for: the statements about levels take [linesPerLevel] positive. *)
Definition calculateLevel (lines linesPerLevel : Z) : Z :=
  lines / linesPerLevel + 1.

(** [!canPlacePiece(board, piece, piece.position)] *)
Definition isGameOver (b : Board) (piece : TetrisPiece) : option bool :=
  negb <$> canPlacePiece b piece (position piece).

(** The [while] loop of [getGhostPosition]; it returns the last value
    of [ghostY]. *)
Fixpoint ghostLoop (fuel : nat) (b : Board) (piece : TetrisPiece) (ghostY : Z) : Run Z :=
  match fuel with
  | O => NoFuel
  | S fuel' =>
      whenPlaceable
        (canPlacePiece b piece {| x := x (position piece); y := ghostY + 1 |})
        (ghostLoop fuel' b piece (ghostY + 1))
        (Value ghostY)
  end.

Definition getGhostPosition (fuel : nat) (b : Board) (piece : TetrisPiece) : Run Position :=
  bind (ghostLoop fuel b piece (y (position piece)))
       (fun ghostY => Value {| x := x (position piece); y := ghostY |}).

(** *** game.ts *)

Definition set_status (st : GameStatus) (s : TetrisState) : TetrisState :=
  {| status := st; board := board s; currentPiece := currentPiece s;
     nextPiece := nextPiece s; score := score s; level := level s;
     lines := lines s; startTime := startTime s; endTime := endTime s;
     dropSpeed := dropSpeed s; lastDropTime := lastDropTime s;
     canPause := canPause s |}.

Definition set_nextPiece (p : option TetrisPiece) (s : TetrisState) : TetrisState :=
  {| status := status s; board := board s; currentPiece := currentPiece s;
     nextPiece := p; score := score s; level := level s;
     lines := lines s; startTime := startTime s; endTime := endTime s;
     dropSpeed := dropSpeed s; lastDropTime := lastDropTime s;
     canPause := canPause s |}.

Definition set_board (b : Board) (s : TetrisState) : TetrisState :=
  {| status := status s; board := b; currentPiece := currentPiece s;
     nextPiece := nextPiece s; score := score s; level := level s;
     lines := lines s; startTime := startTime s; endTime := endTime s;
     dropSpeed := dropSpeed s; lastDropTime := lastDropTime s;
     canPause := canPause s |}.

Definition add_score (n : Z) (s : TetrisState) : TetrisState :=
  {| status := status s; board := board s; currentPiece := currentPiece s;
     nextPiece := nextPiece s; score := score s + n; level := level s;
     lines := lines s; startTime := startTime s; endTime := endTime s;
     dropSpeed := dropSpeed s; lastDropTime := lastDropTime s;
     canPause := canPause s |}.

Definition set_lastDropTime (t : Z) (s : TetrisState) : TetrisState :=
  {| status := status s; board := board s; currentPiece := currentPiece s;
     nextPiece := nextPiece s; score := score s; level := level s;
     lines := lines s; startTime := startTime s; endTime := endTime s;
     dropSpeed := dropSpeed s; lastDropTime := t;
     canPause := canPause s |}.

Inductive Action := MoveLeft | MoveRight | MoveDown | Rotate | HardDrop.

Section Engine.

(** [calculateDropSpeed(level, initialSpeed, speedIncrease)], which is
    [Math.max(50, initialSpeed * Math.pow(speedIncrease, level - 1))]
    in floating point. Its value is a parameter of the engine. *)
Variable calculateDropSpeed : Z -> Q -> Q -> Q.

Variable config : GameConfig.

Definition endGame (now : Z) (s : TetrisState) : TetrisState :=
  {| status := lost; board := board s; currentPiece := currentPiece s;
     nextPiece := nextPiece s; score := score s; level := level s;
     lines := lines s; startTime := startTime s; endTime := Some now;
     dropSpeed := dropSpeed s; lastDropTime := lastDropTime s;
     canPause := false |}.

(** [spawnNewPiece]; the sample is read when there is no next piece. *)
Definition spawnNewPiece (u : Random.Sample) (now : Z) (s : TetrisState)
  : Run TetrisState :=
  let piece :=
    match nextPiece s with
    | Some p => p
    | None => createPiece (getRandomPieceType u) (boardWidth config)
    end in
  let s1 := set_currentPiece (Some piece) s in
  match isGameOver (board s1) piece with
  | None => TypeError
  | Some true => Value (endGame now s1)
  | Some false => Value s1
  end.

Definition spawnNextPiece (u : Random.Sample) (s : TetrisState) : TetrisState :=
  set_nextPiece (Some (createPiece (getRandomPieceType u) (boardWidth config))) s.

(** The update of score, lines, level and speed in [placePiece]. *)
Definition scoreLines (clearedLines : nat) (s : TetrisState) : TetrisState :=
  if (0 <? clearedLines)%nat then
    let sc := score s + calculateScore clearedLines (level s) None in
    let ln := lines s + Z.of_nat clearedLines in
    let newLevel := calculateLevel ln (linesPerLevel config) in
    let raised := newLevel >? level s in
    {| status := status s; board := board s; currentPiece := currentPiece s;
       nextPiece := nextPiece s; score := sc;
       level := if raised then newLevel else level s;
       lines := ln; startTime := startTime s; endTime := endTime s;
       dropSpeed := if raised
                    then calculateDropSpeed newLevel (initialSpeed config)
                                            (speedIncrease config)
                    else dropSpeed s;
       lastDropTime := lastDropTime s; canPause := canPause s |}
  else s.

(** [placePiece]: [u1] is the sample of [spawnNewPiece] and [u2] the
    one of [spawnNextPiece]. *)
Definition placePiece (u1 u2 : Random.Sample) (now : Z) (s : TetrisState)
  : Run TetrisState :=
  match currentPiece s with
  | None => Value s
  | Some piece =>
      let '(newBoard, clearedLines) :=
        clearCompleteLines (placePieceOnBoard (board s) piece) in
      let s1 := scoreLines clearedLines (set_board newBoard s) in
      bind (spawnNewPiece u1 now s1) (fun s2 => Value (spawnNextPiece u2 s2))
  end.

(** [movePieceLeft] and [movePieceRight] *)
Definition movePieceSide (dx : Z) (s : TetrisState) : Run TetrisState :=
  match currentPiece s with
  | None => Value s
  | Some piece =>
      let newPiece := movePiece piece dx 0 in
      whenPlaceable (canPlacePiece (board s) newPiece (position newPiece))
        (Value (set_currentPiece (Some newPiece) s))
        (Value s)
  end.

Definition movePieceLeft : TetrisState -> Run TetrisState := movePieceSide (-1).
Definition movePieceRight : TetrisState -> Run TetrisState := movePieceSide 1.

(** [movePieceDown(isPlayerInput)], with the value it returns. *)
Definition movePieceDown (isPlayerInput : bool) (u1 u2 : Random.Sample) (now : Z)
           (s : TetrisState) : Run (TetrisState * bool) :=
  match currentPiece s with
  | None => Value (s, false)
  | Some piece =>
      let newPiece := movePiece piece 0 1 in
      whenPlaceable (canPlacePiece (board s) newPiece (position newPiece))
        (let s1 := set_currentPiece (Some newPiece) s in
         Value (if isPlayerInput
                then add_score (calculateScore 0 (level s1) (Some soft)) s1
                else s1,
                true))
        (bind (placePiece u1 u2 now s) (fun s1 => Value (s1, false)))
  end.

(** [hardDrop] *)
Definition hardDrop (fuel : nat) (u1 u2 : Random.Sample) (now : Z) (s : TetrisState)
  : Run TetrisState :=
  match currentPiece s with
  | None => Value s
  | Some piece =>
      bind (getGhostPosition fuel (board s) piece) (fun ghostPosition =>
        let dropDistance := y ghostPosition - y (position piece) in
        let s1 := set_currentPiece (Some (set_position ghostPosition piece)) s in
        let s2 := add_score (calculateScore 0 (level s1) (Some hard) * dropDistance) s1 in
        placePiece u1 u2 now s2)
  end.

(** [handleInput(action)] *)
Definition handleInput (fuel : nat) (action : Action) (u1 u2 : Random.Sample) (now : Z)
           (s : TetrisState) : Run TetrisState :=
  match status s, currentPiece s with
  | playing, Some _ =>
      match action with
      | MoveLeft => movePieceLeft s
      | MoveRight => movePieceRight s
      | MoveDown => bind (movePieceDown true u1 u2 now s) (fun r => Value (fst r))
      | Rotate =>
          match engineRotatePiece s with
          | Some s' => Value s'
          | None => TypeError
          end
      | HardDrop => hardDrop fuel u1 u2 now s
      end
  | _, _ => Value s
  end.

(** [start()] *)
Definition start (u1 u2 : Random.Sample) (now : Z) (s : TetrisState) : Run TetrisState :=
  match status s with
  | idle =>
      let s1 :=
        {| status := playing; board := board s; currentPiece := currentPiece s;
           nextPiece := nextPiece s; score := score s; level := level s;
           lines := lines s; startTime := Some now; endTime := endTime s;
           dropSpeed := dropSpeed s; lastDropTime := now; canPause := true |} in
      bind (spawnNewPiece u1 now s1) (fun s2 => Value (spawnNextPiece u2 s2))
  | _ => Value s
  end.

(** [pause()] *)
Definition pause (s : TetrisState) : TetrisState :=
  match status s with
  | playing => set_status paused s
  | _ => s
  end.

(** [resume()] *)
Definition resume (now : Z) (s : TetrisState) : TetrisState :=
  match status s with
  | paused => set_lastDropTime now (set_status playing s)
  | _ => s
  end.

(** [restart()] *)
Definition restart (s : TetrisState) : TetrisState := createInitialState config.

(** One call of the game loop at the time [now]. *)
Definition tick (u1 u2 : Random.Sample) (now : Z) (s : TetrisState) : Run TetrisState :=
  match status s with
  | playing =>
      if Qle_bool (dropSpeed s) (inject_Z (now - lastDropTime s))
      then bind (movePieceDown false u1 u2 now s)
                (fun r => Value (set_lastDropTime now (fst r)))
      else Value s
  | _ => Value s
  end.

(** The engine's [getGhostPosition()] *)
Definition ghostPiece (fuel : nat) (s : TetrisState) : Run (option TetrisPiece) :=
  match currentPiece s with
  | None => Value None
  | Some piece =>
      bind (getGhostPosition fuel (board s) piece)
           (fun ghostPosition => Value (Some (set_position ghostPosition piece)))
  end.

(** The states that a game reaches. *)
Inductive reachable : TetrisState -> Prop :=
| reach_new : reachable (createInitialState config)
| reach_start s u1 u2 now s' :
    reachable s -> start u1 u2 now s = Value s' -> reachable s'
| reach_pause s : reachable s -> reachable (pause s)
| reach_resume s now : reachable s -> reachable (resume now s)
| reach_restart s : reachable s -> reachable (restart s)
| reach_input s fuel action u1 u2 now s' :
    reachable s -> handleInput fuel action u1 u2 now s = Value s' -> reachable s'
| reach_tick s u1 u2 now s' :
    reachable s -> tick u1 u2 now s = Value s' -> reachable s'.

End Engine.

End TetrisEngine.

(** ** The engine of the minefield game (src/games/minesweeper/game.ts)

    [leftClick] is [revealCell] and [rightClick] is [toggleFlag] of the
    state manager. [getState] copies the fields of the state, not the
    board: the board that [canAutoReveal] and [autoRevealNeighbors] read
    is the board that [revealCell] writes. *)

Module MinesweeperEngine.
Import Minesweeper.

Local Open Scope Z_scope.

(** The loops of [canAutoReveal] over the neighbours [cells], from the
    count [n]; [None] when the lookup of a neighbour raises a
    [TypeError]. *)
Definition countFlagged (b : Board) (cells : list (Z * Z)) (n : Z) : option Z :=
  fold_left
    (fun acc rc =>
       match acc with
       | None => None
       | Some flaggedCount =>
           match cellAt b (fst rc) (snd rc) with
           | None => None
           | Some neighbor =>
               Some (if bool_decide (state neighbor = flagged)
                     then flaggedCount + 1 else flaggedCount)
           end
       end)
    cells (Some n).

(** [canAutoReveal(row, col)]; [None] for a [TypeError]. *)
Definition canAutoReveal (r c : Z) (s : MinesweeperState) : option bool :=
  match cellAt (board s) r c with
  | None => None
  | Some cell =>
      if negb (bool_decide (state cell = revealed)) || (neighborMines cell =? 0)
      then Some false
      else
        match countFlagged (board s) (neighborCoords (config s) r c) 0 with
        | None => None
        | Some flaggedCount => Some (flaggedCount =? neighborMines cell)
        end
  end.

(** The loops of [autoRevealNeighbors] over the neighbours [cells];
    [reveal] is [this.stateManager.revealCell], whose result is not
    used, and [revealed] is the flag that the method returns. *)
Fixpoint autoRevealWith (reveal : Z -> Z -> MinesweeperState -> Outcome bool)
         (cells : list (Z * Z)) (revealed : bool) (s : MinesweeperState)
  : Outcome bool :=
  match cells with
  | [] => Returned revealed s
  | (r, c) :: rest =>
      match cellAt (board s) r c with
      | None => Raised s
      | Some neighbor =>
          if bool_decide (state neighbor = hidden) then
            match reveal r c s with
            | Returned _ s' => autoRevealWith reveal rest true s'
            | Raised s' => Raised s'
            | OutOfFuel => OutOfFuel
            end
          else autoRevealWith reveal rest revealed s
      end
  end.

(** [autoRevealNeighbors(row, col)] *)
Definition autoRevealNeighbors (fuel : nat) (draws : nat -> Random.Sample) (now : Z)
           (r c : Z) (s : MinesweeperState) : Outcome bool :=
  match canAutoReveal r c s with
  | None => Raised s
  | Some false => Returned false s
  | Some true =>
      autoRevealWith (revealCell fuel draws now) (neighborCoords (config s) r c) false s
  end.

End MinesweeperEngine.

(** * Facts about two-dimensional arrays *)

Module GridFacts.
Import Grid.

Section Facts.
Context {A : Type}.
Implicit Types (g : list (list A)) (f : A -> A) (p : A -> bool).

Lemma get_update_eq f r c g a :
  get g r c = Some a -> get (update f r c g) r c = Some (f a).
Proof.
  unfold get, update. intros H.
  destruct (g !! r) as [line|] eqn:Hr; [|discriminate].
  rewrite list_lookup_alter_eq, Hr. simpl.
  rewrite list_lookup_alter_eq, H. reflexivity.
Qed.

Lemma get_update_ne f r c r' c' g :
  (r, c) <> (r', c') -> get (update f r c g) r' c' = get g r' c'.
Proof.
  unfold get, update. intros H.
  destruct (decide (r = r')) as [->|Hr].
  - rewrite list_lookup_alter_eq.
    destruct (g !! r') as [line|]; simpl; [|reflexivity].
    apply list_lookup_alter_ne. congruence.
  - rewrite list_lookup_alter_ne by done. reflexivity.
Qed.

Lemma get_update f r c r' c' g :
  get (update f r c g) r' c' =
  if decide ((r, c) = (r', c')) then f <$> get g r' c' else get g r' c'.
Proof.
  destruct (decide _) as [Heq|Hne].
  - inversion Heq; subst.
    destruct (get g r' c') as [a|] eqn:Hg.
    + now apply get_update_eq.
    + simpl. unfold get, update in *.
      rewrite list_lookup_alter_eq.
      destruct (g !! r') as [line|]; simpl; [|reflexivity].
      rewrite list_lookup_alter_eq, Hg. reflexivity.
  - now apply get_update_ne.
Qed.

Lemma get_is_Some_rect h w g r c :
  rect h w g -> (is_Some (get g r c) <-> r < h /\ c < w).
Proof.
  intros [Hh Hw]. unfold get. split.
  - intros [a Ha]. destruct (g !! r) as [line|] eqn:Hr; [|discriminate].
    split.
    + apply lookup_lt_Some in Hr. lia.
    + rewrite Forall_forall in Hw.
      rewrite <- (Hw line) by (apply list_elem_of_In; eapply list_elem_of_lookup_2; eauto).
      now apply lookup_lt_Some in Ha.
  - intros [Hr Hc].
    destruct (lookup_lt_is_Some_2 g r) as [line Hl]; [lia|].
    rewrite Hl. apply lookup_lt_is_Some_2.
    rewrite Forall_forall in Hw.
    rewrite (Hw line) by (apply list_elem_of_In; eapply list_elem_of_lookup_2; eauto).
    exact Hc.
Qed.

Lemma rect_update f r c h w g : rect h w g -> rect h w (update f r c g).
Proof.
  intros [Hh Hw]. unfold update. split.
  - now rewrite length_alter.
  - rewrite Forall_forall in *. intros line Hin.
    apply list_elem_of_In, list_elem_of_lookup in Hin as [i Hi].
    destruct (decide (r = i)) as [->|Hne].
    + rewrite list_lookup_alter_eq in Hi.
      destruct (g !! i) as [l0|] eqn:Hl0; simpl in Hi; [|discriminate].
      injection Hi as <-. rewrite length_alter.
      apply Hw, list_elem_of_In. eapply list_elem_of_lookup_2; eauto.
    + rewrite list_lookup_alter_ne in Hi by done.
      apply Hw, list_elem_of_In. eapply list_elem_of_lookup_2; eauto.
Qed.

(** *** Counting *)

Lemma count_line_alter p f c (line : list A) a :
  line !! c = Some a ->
  length (filter (fun x => p x = true) (alter f c line)) + Nat.b2n (p a) =
  length (filter (fun x => p x = true) line) + Nat.b2n (p (f a)).
Proof.
  revert c. induction line as [|x line IH]; intros c Hc; [discriminate|].
  destruct c as [|c]; cbn in Hc.
  - injection Hc as ->. cbn [alter list_alter]. rewrite !filter_cons.
    destruct (p a), (p (f a)); cbn;
      repeat case_decide; try congruence; cbn [length]; lia.
  - cbn [alter list_alter]. rewrite !filter_cons.
    specialize (IH c Hc). change (list_alter f c line) with (alter f c line).
    destruct (decide (p x = true)); cbn [length]; lia.
Qed.

Lemma count_update p f r c g a :
  get g r c = Some a ->
  count p (update f r c g) + Nat.b2n (p a) = count p g + Nat.b2n (p (f a)).
Proof.
  unfold get, count, update, list_sum. revert r.
  induction g as [|line g IH]; intros r Hget; [discriminate|].
  destruct r as [|r]; cbn in Hget.
  - cbn [alter list_alter map foldr].
    pose proof (count_line_alter p f c line a Hget). lia.
  - cbn [alter list_alter map foldr].
    specialize (IH r Hget). change (list_alter (alter f c) r g) with (alter (alter f c) r g).
    lia.
Qed.

Lemma count_pos p g r c a :
  get g r c = Some a -> p a = true -> 0 < count p g.
Proof.
  unfold get, count, list_sum. revert r.
  induction g as [|line g IH]; intros r Hget Hp; [discriminate|].
  destruct r as [|r]; cbn in Hget; cbn [map foldr].
  - assert (0 < length (filter (fun x => p x = true) line)); [|lia].
    assert (Hin : a ∈ filter (fun x => p x = true) line).
    { apply list_elem_of_filter. split; [exact Hp|].
      eapply list_elem_of_lookup_2; eauto. }
    destruct (filter _ line); [inversion Hin|cbn; lia].
  - specialize (IH r Hget Hp). lia.
Qed.

Lemma count_zero p g :
  (forall r c a, get g r c = Some a -> p a = false) -> count p g = 0.
Proof.
  unfold get, count, list_sum. induction g as [|line g IH]; intros Hall; [reflexivity|].
  cbn [map foldr]. rewrite IH.
  - assert (Hline : filter (fun x => p x = true) line = []); [|now rewrite Hline].
    destruct (filter (fun x => p x = true) line) as [|a rest] eqn:E; [reflexivity|].
    assert (Hin : a ∈ filter (fun x => p x = true) line) by (rewrite E; now left).
    apply list_elem_of_filter in Hin as [Hp Hin].
    apply list_elem_of_lookup in Hin as [c Hc].
    specialize (Hall 0 c a Hc). congruence.
  - intros r c a Hget. apply (Hall (S r) c a Hget).
Qed.

Lemma update_absent f r c g : get g r c = None -> update f r c g = g.
Proof.
  unfold get, update. intros Hget. apply list_eq. intros i.
  destruct (decide (r = i)) as [->|Hne].
  - rewrite list_lookup_alter_eq.
    destruct (g !! i) as [line|] eqn:Hi; [|reflexivity]. cbn. f_equal.
    apply list_eq. intros j. destruct (decide (c = j)) as [->|Hne].
    + now rewrite list_lookup_alter_eq, Hget.
    + now rewrite list_lookup_alter_ne.
  - now rewrite list_lookup_alter_ne.
Qed.

Lemma count_update_same p f r c g :
  (forall a, p (f a) = p a) -> count p (update f r c g) = count p g.
Proof.
  intros Hf. destruct (get g r c) as [a|] eqn:Hget.
  - pose proof (count_update p f r c g a Hget) as H. rewrite Hf in H. lia.
  - now rewrite update_absent.
Qed.
Lemma line_split p q (line : list A) :
  (forall a, a ∈ line -> p a = negb (q a)) ->
  length (filter (fun x => p x = true) line) +
  length (filter (fun x => q x = true) line) = length line.
Proof.
  induction line as [|a line IH]; intros Hall; [reflexivity|].
  rewrite !filter_cons. pose proof (Hall a (list_elem_of_here a line)) as Ha.
  assert (IH' := IH (fun b Hb => Hall b (list_elem_of_further b a line Hb))).
  destruct (q a); cbn in Ha; rewrite Ha; repeat case_decide;
    try congruence; cbn [length]; lia.
Qed.

(** Two tests of which exactly one holds of every element split the
    elements of a rectangular array. *)
Lemma count_split p q h w g :
  rect h w g ->
  (forall r c a, get g r c = Some a -> p a = negb (q a)) ->
  count p g + count q g = h * w.
Proof.
  unfold get, count, list_sum, rect. revert h.
  induction g as [|line g IH]; intros h [Hh Hw] Hall.
  - cbn in *. subst h. reflexivity.
  - cbn [map foldr]. apply Forall_cons_1 in Hw as [Hline Hw].
    cbn [length] in Hh. destruct h as [|h]; [discriminate|].
    assert (IH' := IH h (conj (eq_add_S _ _ Hh) Hw)
                     (fun r c a Hget => Hall (S r) c a Hget)).
    assert (Hsplit := line_split p q line).
    rewrite Hline in Hsplit.
    assert (Hrow : forall a, a ∈ line -> p a = negb (q a)).
    { intros a Hin. apply list_elem_of_lookup in Hin as [c Hc].
      apply (Hall 0 c a Hc). }
    specialize (Hsplit Hrow). lia.
Qed.
End Facts.

(** *** Indices that are JavaScript numbers *)

Lemma getZ_Some_nonneg {A} (g : list (list A)) r c a :
  getZ g r c = Some a -> (0 <= r)%Z /\ (0 <= c)%Z.
Proof.
  unfold getZ. destruct (r <? 0)%Z eqn:Er; [discriminate|].
  destruct (c <? 0)%Z eqn:Ec; [discriminate|]. zbool. lia.
Qed.

Lemma getZ_get {A} (g : list (list A)) r c :
  (0 <= r)%Z -> (0 <= c)%Z -> getZ g r c = get g (Z.to_nat r) (Z.to_nat c).
Proof.
  intros Hr Hc. unfold getZ.
  destruct (r <? 0)%Z eqn:Er; zbool; [lia|].
  destruct (c <? 0)%Z eqn:Ec; zbool; [lia|]. reflexivity.
Qed.

Lemma getZ_updateZ {A} (f : A -> A) r c r' c' (g : list (list A)) :
  getZ (updateZ f r c g) r' c' =
  if decide ((r, c) = (r', c')) then f <$> getZ g r' c' else getZ g r' c'.
Proof.
  unfold updateZ.
  destruct ((r <? 0)%Z || (c <? 0)%Z) eqn:E.
  - destruct (decide _) as [Heq|]; [|reflexivity].
    inversion Heq; subst. unfold getZ. now rewrite E.
  - zbool. unfold getZ.
    destruct ((r' <? 0)%Z || (c' <? 0)%Z) eqn:E'.
    + now destruct (decide _).
    + zbool. rewrite get_update.
      destruct (decide ((Z.to_nat r, Z.to_nat c) = (Z.to_nat r', Z.to_nat c')))
        as [Heq|Hne], (decide ((r, c) = (r', c'))) as [Heq'|Hne']; try reflexivity.
      * exfalso. apply Hne'. inversion Heq. f_equal; lia.
      * exfalso. apply Hne. inversion Heq'. reflexivity.
Qed.

Lemma getZ_is_Some_rect {A} h w (g : list (list A)) r c :
  rect h w g ->
  (is_Some (getZ g r c) <->
   (0 <= r < Z.of_nat h)%Z /\ (0 <= c < Z.of_nat w)%Z).
Proof.
  intros Hrect. split.
  - intros [a Ha]. destruct (getZ_Some_nonneg g r c a Ha) as [Hr Hc].
    rewrite getZ_get in Ha by assumption.
    destruct (proj1 (get_is_Some_rect h w g (Z.to_nat r) (Z.to_nat c) Hrect))
      as [H1 H2]; [now exists a|]. lia.
  - intros [Hr Hc]. rewrite getZ_get by lia.
    apply (get_is_Some_rect h w g (Z.to_nat r) (Z.to_nat c) Hrect). lia.
Qed.

Lemma rect_updateZ {A} (f : A -> A) r c h w (g : list (list A)) :
  rect h w g -> rect h w (updateZ f r c g).
Proof. intros H. unfold updateZ. destruct (_ || _); [exact H|now apply rect_update]. Qed.

Lemma count_updateZ {A} (p : A -> bool) (f : A -> A) r c (g : list (list A)) a :
  getZ g r c = Some a ->
  count p (updateZ f r c g) + Nat.b2n (p a) = count p g + Nat.b2n (p (f a)).
Proof.
  intros Hget. destruct (getZ_Some_nonneg g r c a Hget) as [Hr Hc].
  rewrite getZ_get in Hget by assumption. unfold updateZ.
  destruct ((r <? 0)%Z || (c <? 0)%Z) eqn:E.
  - apply orb_true_iff in E as [E|E]; zbool; lia.
  - now apply count_update.
Qed.

Lemma count_posZ {A} (p : A -> bool) (g : list (list A)) r c a :
  getZ g r c = Some a -> p a = true -> 0 < count p g.
Proof.
  intros Hget Hp. destruct (getZ_Some_nonneg g r c a Hget) as [Hr Hc].
  rewrite getZ_get in Hget by assumption.
  now apply (count_pos p g (Z.to_nat r) (Z.to_nat c) a).
Qed.

Lemma count_updateZ_same {A} (p : A -> bool) (f : A -> A) r c (g : list (list A)) :
  (forall a, p (f a) = p a) -> count p (updateZ f r c g) = count p g.
Proof.
  intros Hf. unfold updateZ. destruct (_ || _); [reflexivity|].
  now apply count_update_same.
Qed.

Lemma count_zeroZ {A} (p : A -> bool) (g : list (list A)) :
  (forall r c a, getZ g r c = Some a -> p a = false) -> count p g = 0.
Proof.
  intros Hall. apply count_zero. intros r c a Hget.
  apply (Hall (Z.of_nat r) (Z.of_nat c) a).
  rewrite getZ_get by lia. now rewrite !Nat2Z.id.
Qed.

Lemma count_splitZ {A} (p q : A -> bool) h w (g : list (list A)) :
  rect h w g ->
  (forall r c a, getZ g r c = Some a -> p a = negb (q a)) ->
  count p g + count q g = h * w.
Proof.
  intros Hrect Hall. apply count_split; [exact Hrect|]. intros r c a Hget.
  apply (Hall (Z.of_nat r) (Z.of_nat c) a).
  rewrite getZ_get by lia. now rewrite !Nat2Z.id.
Qed.

End GridFacts.

(** * The falling-block engine: collision, rotation and line clearing *)

Module TetrisProofs.
Import Tetris.

Local Open Scope Z_scope.

(** ** The collision predicate *)

(** The board cell [(cx, cy)] is inside the board and empty. The width
    of the board is the width of its first row, as in the source. *)
Definition occupiable (b : Board) (cx cy : Z) : Prop :=
  0 <= cx < Z.of_nat (length (default [] (b !! 0%nat))) /\
  0 <= cy < Z.of_nat (length b) /\
  Grid.getZ b cy cx = Some None.

(** The shape cell [(row, col)] is filled. *)
Definition filled (shp : Shape) (row col : nat) : Prop :=
  Grid.get shp row col = Some 1.

(** Every filled cell of the shape maps to an in-bounds empty cell. *)
Definition fits (b : Board) (shp : Shape) (pos : Position) : Prop :=
  forall row col, filled shp row col ->
    occupiable b (x pos + Z.of_nat col) (y pos + Z.of_nat row).

(** The positions the engine tries for a rotated piece, in order. *)
Definition candidates (pos : Position) : list Position :=
  pos :: map (fun o => {| x := x pos + x o; y := y pos + y o |}) kickOffsets.

Lemma cellFree_spec b pos row col :
  b <> [] ->
  exists r, cellFree b pos row col = Some r /\
    (r = true <-> occupiable b (x pos + Z.of_nat col) (y pos + Z.of_nat row)).
Proof.
  intros Hb. unfold cellFree, occupiable.
  destruct b as [|row0 b']; [congruence|].
  change (default [] ((row0 :: b') !! 0%nat)) with row0.
  change ((row0 :: b') !! 0%nat) with (Some row0).
  set (bx := x pos + Z.of_nat col). set (by_ := y pos + Z.of_nat row).
  set (bd := row0 :: b').
  destruct (bx <? 0) eqn:E1.
  { exists false. split; [reflexivity|]. split; [discriminate|]. zbool. lia. }
  destruct (bx >=? Z.of_nat (length row0)) eqn:E2; cbn [orb].
  { exists false. split; [reflexivity|]. split; [discriminate|]. zbool. lia. }
  destruct (by_ <? 0) eqn:E3; cbn [orb].
  { exists false. split; [reflexivity|]. split; [discriminate|]. zbool. lia. }
  destruct (by_ >=? Z.of_nat (length bd)) eqn:E4.
  { exists false. split; [reflexivity|]. split; [discriminate|]. zbool. lia. }
  zbool.
  destruct (Grid.getZ bd by_ bx) as [[t|]|] eqn:E5.
  - exists false. split; [reflexivity|]. split; [discriminate|].
    intros (_ & _ & H). discriminate.
  - exists true. split; [reflexivity|]. split; [|reflexivity].
    intros _. repeat split; try lia.
  - exists false. split; [reflexivity|]. split; [discriminate|].
    intros (_ & _ & H). discriminate.
Qed.

Lemma scanCols_spec b pos row cells :
  b <> [] ->
  forall col, exists r, scanCols b pos row col cells = Some r /\
    (r = true <->
     forall j, cells !! j = Some 1 ->
       occupiable b (x pos + Z.of_nat (col + j)) (y pos + Z.of_nat row)).
Proof.
  intros Hb. induction cells as [|v rest IH]; intros col.
  - exists true. split; [reflexivity|]. split; [|reflexivity].
    intros _ j Hj. rewrite lookup_nil in Hj. discriminate.
  - cbn [scanCols].
    destruct (IH (S col)) as (r & Hr & Hspec).
    destruct (v =? 1) eqn:Ev.
    + apply Z.eqb_eq in Ev. subst v.
      destruct (cellFree_spec b pos row col Hb) as (r0 & Hr0 & Hspec0).
      rewrite Hr0. destruct r0.
      * exists r. split; [exact Hr|]. rewrite Hspec. split.
        -- intros H [|j] Hj.
           ++ rewrite Nat.add_0_r. now apply Hspec0.
           ++ replace (col + S j)%nat with (S col + j)%nat by lia. now apply H.
        -- intros H j Hj.
           replace (S col + j)%nat with (col + S j)%nat by lia. now apply H.
      * exists false. split; [reflexivity|]. split; [discriminate|].
        intros H. specialize (H 0%nat eq_refl). rewrite Nat.add_0_r in H.
        apply Hspec0 in H. discriminate.
    + exists r. split; [exact Hr|]. rewrite Hspec. split.
      * intros H [|j] Hj.
        -- cbn in Hj. injection Hj as ->. discriminate.
        -- replace (col + S j)%nat with (S col + j)%nat by lia. now apply H.
      * intros H j Hj.
        replace (S col + j)%nat with (col + S j)%nat by lia. now apply H.
Qed.

Lemma scanRows_spec b pos rows :
  b <> [] ->
  forall row, exists r, scanRows b pos row rows = Some r /\
    (r = true <->
     forall i j, Grid.get rows i j = Some 1 ->
       occupiable b (x pos + Z.of_nat j) (y pos + Z.of_nat (row + i))).
Proof.
  intros Hb. induction rows as [|cells rest IH]; intros row.
  - exists true. split; [reflexivity|]. split; [|reflexivity].
    intros _ i j H. unfold Grid.get in H. rewrite lookup_nil in H. discriminate.
  - cbn [scanRows].
    destruct (scanCols_spec b pos row cells Hb 0%nat) as (r0 & Hr0 & Hspec0).
    destruct (IH (S row)) as (r & Hr & Hspec).
    rewrite Hr0. destruct r0.
    + exists r. split; [exact Hr|]. rewrite Hspec. split.
      * intros H [|i] j Hij.
        -- rewrite Nat.add_0_r. apply (proj1 Hspec0 eq_refl j). exact Hij.
        -- replace (row + S i)%nat with (S row + i)%nat by lia. now apply H.
      * intros H i j Hij.
        replace (S row + i)%nat with (row + S i)%nat by lia. now apply H.
    + exists false. split; [reflexivity|]. split; [discriminate|].
      intros H. enough (false = true) by discriminate.
      apply Hspec0. intros j Hj.
      specialize (H 0%nat j Hj). now rewrite Nat.add_0_r in H.
Qed.

(** [canPlacePiece] returns, and decides the collision predicate. *)
Lemma canPlacePiece_spec b piece pos :
  b <> [] ->
  exists r, canPlacePiece b piece pos = Some r /\
    (r = true <-> fits b (shape piece) pos).
Proof.
  intros Hb. destruct (scanRows_spec b pos (shape piece) Hb 0%nat) as (r & Hr & Hspec).
  exists r. split; [exact Hr|]. rewrite Hspec. unfold fits, filled. reflexivity.
Qed.

Lemma canPlacePiece_true b piece pos :
  b <> [] -> fits b (shape piece) pos -> canPlacePiece b piece pos = Some true.
Proof.
  intros Hb Hf. destruct (canPlacePiece_spec b piece pos Hb) as (r & Hr & Hspec).
  rewrite Hr. f_equal. now apply Hspec.
Qed.

Lemma canPlacePiece_false b piece pos :
  b <> [] -> ~ fits b (shape piece) pos -> canPlacePiece b piece pos = Some false.
Proof.
  intros Hb Hf. destruct (canPlacePiece_spec b piece pos Hb) as (r & Hr & Hspec).
  rewrite Hr. f_equal. destruct r; [|reflexivity]. exfalso. now apply Hf, Hspec.
Qed.

(** ** Rotation with wall kicks *)

Lemma set_position_same p : set_position (position p) p = p.
Proof. now destruct p. Qed.

Lemma tryKicks_first s rp offsets pre o post :
  board s <> [] ->
  offsets = pre ++ o :: post ->
  Forall (fun q => ~ fits (board s) (shape rp)
                     {| x := x (position rp) + x q; y := y (position rp) + y q |}) pre ->
  fits (board s) (shape rp)
    {| x := x (position rp) + x o; y := y (position rp) + y o |} ->
  tryKicks s rp offsets =
  Some (set_currentPiece
          (Some (set_position
                   {| x := x (position rp) + x o; y := y (position rp) + y o |} rp)) s).
Proof.
  intros Hb -> Hpre Hfit. induction Hpre as [|q pre Hq _ IH]; cbn [app tryKicks].
  - now rewrite canPlacePiece_true.
  - rewrite canPlacePiece_false by assumption. exact IH.
Qed.

Lemma tryKicks_none s rp offsets :
  board s <> [] ->
  Forall (fun q => ~ fits (board s) (shape rp)
                     {| x := x (position rp) + x q; y := y (position rp) + y q |}) offsets ->
  tryKicks s rp offsets = Some s.
Proof.
  intros Hb H. induction H as [|q rest Hq _ IH]; cbn [tryKicks]; [reflexivity|].
  rewrite canPlacePiece_false by assumption. exact IH.
Qed.

Lemma rotatePiece_position p : position (rotatePiece p) = position p.
Proof. reflexivity. Qed.

Lemma rotate_at_candidate s piece pre pos post :
  status s = playing ->
  currentPiece s = Some piece ->
  board s <> [] ->
  candidates (position piece) = pre ++ pos :: post ->
  Forall (fun q => ~ fits (board s) (shape (rotatePiece piece)) q) pre ->
  fits (board s) (shape (rotatePiece piece)) pos ->
  handleInputRotate s =
  Some (set_currentPiece (Some (set_position pos (rotatePiece piece))) s).
Proof.
  intros Hst Hcur Hb Hc Hpre Hfit.
  unfold handleInputRotate, engineRotatePiece. rewrite Hst, Hcur.
  unfold candidates in Hc.
  remember (map (fun o => {| x := x (position piece) + x o;
                             y := y (position piece) + y o |}) kickOffsets)
    as kicked eqn:Hkicked.
  destruct pre as [|q pre]; cbn [app] in Hc.
  - injection Hc as <- _.
    rewrite rotatePiece_position, canPlacePiece_true by assumption.
    now rewrite <- (rotatePiece_position piece), set_position_same.
  - injection Hc as <- Hc.
    apply Forall_cons_1 in Hpre as [Hq Hpre].
    rewrite rotatePiece_position, canPlacePiece_false by assumption.
    rewrite Hc in Hkicked. symmetry in Hkicked.
    apply map_eq_app in Hkicked as (k1 & k2 & Hk & <- & Hc2).
    clear Hc. rename Hc2 into Hc.
    destruct k2 as [|o k2]; [discriminate|]. cbn [map] in Hc. injection Hc as <- _.
    apply (tryKicks_first s (rotatePiece piece) kickOffsets k1 o k2 Hb Hk).
    + rewrite Forall_map in Hpre. exact Hpre.
    + exact Hfit.
Qed.

Lemma rotate_rejected s piece :
  status s = playing ->
  currentPiece s = Some piece ->
  board s <> [] ->
  Forall (fun q => ~ fits (board s) (shape (rotatePiece piece)) q)
    (candidates (position piece)) ->
  handleInputRotate s = Some s.
Proof.
  intros Hst Hcur Hb Hall.
  unfold handleInputRotate, engineRotatePiece. rewrite Hst, Hcur.
  unfold candidates in Hall. apply Forall_cons_1 in Hall as [Hq Hall].
  rewrite rotatePiece_position, canPlacePiece_false by assumption.
  apply tryKicks_none; [exact Hb|].
  rewrite Forall_map in Hall. exact Hall.
Qed.

(** *** A board without rows *)

(** The column of the first filled cell of a shape, in the order in
    which [canPlacePiece] visits the cells. *)
Fixpoint firstFilledIn (cells : list Z) (col : nat) : option nat :=
  match cells with
  | [] => None
  | v :: rest => if v =? 1 then Some col else firstFilledIn rest (S col)
  end.

Fixpoint firstFilled (rows : list (list Z)) : option nat :=
  match rows with
  | [] => None
  | cells :: rest =>
      match firstFilledIn cells 0 with
      | Some c => Some c
      | None => firstFilled rest
      end
  end.

(** On a board without rows the first filled cell decides: left of
    column 0 the function returns [false], and otherwise the read of
    [board[0].length] raises. *)
Definition withoutRows (first : option nat) (pos : Position) : option bool :=
  match first with
  | None => Some true
  | Some c => if x pos + Z.of_nat c <? 0 then Some false else None
  end.

Lemma scanCols_norows pos row cells : forall col,
  scanCols [] pos row col cells = withoutRows (firstFilledIn cells col) pos.
Proof.
  induction cells as [|v rest IH]; intros col; cbn [scanCols firstFilledIn];
    [reflexivity|].
  destruct (v =? 1); [|apply IH].
  unfold cellFree, withoutRows. rewrite lookup_nil.
  now destruct (x pos + Z.of_nat col <? 0).
Qed.

Lemma scanRows_norows pos rows : forall row,
  scanRows [] pos row rows = withoutRows (firstFilled rows) pos.
Proof.
  induction rows as [|cells rest IH]; intros row; cbn [scanRows firstFilled];
    [reflexivity|].
  rewrite scanCols_norows.
  destruct (firstFilledIn cells 0) as [c|]; cbn [withoutRows]; [|apply IH].
  now destruct (x pos + Z.of_nat c <? 0).
Qed.

Lemma canPlacePiece_norows piece pos c :
  firstFilled (shape piece) = Some c ->
  canPlacePiece [] piece pos = if x pos + Z.of_nat c <? 0 then Some false else None.
Proof. intros H. unfold canPlacePiece. now rewrite scanRows_norows, H. Qed.

Lemma firstFilledIn_filled cells : forall col c,
  firstFilledIn cells col = Some c ->
  exists j, cells !! j = Some 1 /\ c = (col + j)%nat.
Proof.
  induction cells as [|v rest IH]; intros col c; cbn [firstFilledIn]; [discriminate|].
  destruct (v =? 1) eqn:E.
  - intros [= <-]. apply Z.eqb_eq in E. subst v. exists 0%nat. split; [reflexivity|lia].
  - intros H. destruct (IH _ _ H) as (j & Hj & ->). exists (S j). split; [exact Hj|lia].
Qed.

Lemma firstFilled_filled rows c :
  firstFilled rows = Some c -> exists row, filled rows row c.
Proof.
  induction rows as [|cells rest IH]; cbn [firstFilled]; [discriminate|].
  destruct (firstFilledIn cells 0) as [c'|] eqn:E.
  - intros [= ->]. destruct (firstFilledIn_filled _ _ _ E) as (j & Hj & ->).
    exists 0%nat. exact Hj.
  - intros H. destruct (IH H) as [row Hrow]. exists (S row). exact Hrow.
Qed.

(** Every rotation state of every piece type has a filled cell. *)
Lemma rotatePiece_firstFilled piece :
  exists c, firstFilled (shape (rotatePiece piece)) = Some c.
Proof.
  unfold rotatePiece. cbn [shape].
  set (n := ((rotation piece + 1) mod length (PIECE_SHAPES (type piece)))%nat).
  assert (Hn : (n < length (PIECE_SHAPES (type piece)))%nat).
  { subst n. apply Nat.mod_upper_bound. destruct (type piece); cbn; lia. }
  clearbody n. destruct (type piece); cbn [PIECE_SHAPES length] in Hn;
    do 4 (destruct n as [|n]; [eexists; reflexivity|try lia]).
Qed.

(** Nothing fits a board without rows. *)
Lemma fits_rows b shp pos c :
  firstFilled shp = Some c -> fits b shp pos -> b <> [].
Proof.
  intros Hc Hfit ->. destruct (firstFilled_filled shp c Hc) as [row Hrow].
  destruct (Hfit row c Hrow) as (_ & Hy & _). cbn [length] in Hy. lia.
Qed.

Lemma rotate_without_rows s piece c :
  status s = playing ->
  currentPiece s = Some piece ->
  board s = [] ->
  firstFilled (shape (rotatePiece piece)) = Some c ->
  handleInputRotate s =
  if x (position piece) + 1 + Z.of_nat c <? 0 then Some s else None.
Proof.
  intros Hst Hcur Hb Hc.
  unfold handleInputRotate, engineRotatePiece. rewrite Hst, Hcur, Hb.
  cbn [tryKicks kickOffsets]. rewrite Hb.
  rewrite !(canPlacePiece_norows _ _ c Hc). rewrite rotatePiece_position. cbn [x y].
  repeat match goal with
         | |- context [if ?t <? 0 then _ else _] => destruct (t <? 0) eqn:?
         end; zbool; try reflexivity; lia.
Qed.

(** C9. With status playing and a current piece, the rotate command
    replaces the piece by its next rotation state at the first of the
    candidate positions (the piece's own position, then the offsets
    (-1,0), (1,0), (0,-1), (-1,-1), (1,-1) in that order) at which every
    filled shape cell maps to an in-bounds empty board cell; a rotation
    that is blocked in place but fits one column to the left moves the
    piece one column to the left. When no candidate fits and the board
    has a row, the state is unchanged. On a board without rows no
    candidate fits and [canPlacePiece] reads [board[0].length]: the
    command raises a [TypeError], which leaves the state as it is,
    unless every candidate has the first filled cell of the rotated shape
    left of column 0, and then it returns with the state unchanged. *)
Theorem rotate_first_fitting_candidate (s : TetrisState) (piece : TetrisPiece) :
  status s = playing ->
  currentPiece s = Some piece ->
  let rotated := rotatePiece piece in
  let pos := position piece in
  (candidates pos =
     [ pos;
       {| x := x pos - 1; y := y pos |}; {| x := x pos + 1; y := y pos |};
       {| x := x pos; y := y pos - 1 |};
       {| x := x pos - 1; y := y pos - 1 |}; {| x := x pos + 1; y := y pos - 1 |} ]) /\
  (rotation rotated = ((rotation piece + 1) mod length (PIECE_SHAPES (type piece)))%nat /\
   PIECE_SHAPES (type piece) !! rotation rotated = Some (shape rotated) /\
   type rotated = type piece) /\
  (forall pre q post,
      candidates pos = pre ++ q :: post ->
      Forall (fun c => ~ fits (board s) (shape rotated) c) pre ->
      fits (board s) (shape rotated) q ->
      handleInputRotate s =
      Some (set_currentPiece (Some (set_position q rotated)) s)) /\
  (~ fits (board s) (shape rotated) pos ->
   fits (board s) (shape rotated) {| x := x pos - 1; y := y pos |} ->
   exists piece',
     handleInputRotate s = Some (set_currentPiece (Some piece') s) /\
     x (position piece') = x pos - 1 /\
     y (position piece') = y pos /\
     shape piece' = shape rotated /\
     rotation piece' = rotation rotated) /\
  (board s <> [] ->
   Forall (fun c => ~ fits (board s) (shape rotated) c) (candidates pos) ->
   handleInputRotate s = Some s) /\
  (board s = [] ->
   Forall (fun c => ~ fits (board s) (shape rotated) c) (candidates pos) /\
   exists c0,
     firstFilled (shape rotated) = Some c0 /\
     handleInputRotate s =
     if x pos + 1 + Z.of_nat c0 <? 0 then Some s else None).
Proof.
  intros Hst Hcur rotated pos.
  assert (Hcands : candidates pos =
     [ pos;
       {| x := x pos - 1; y := y pos |}; {| x := x pos + 1; y := y pos |};
       {| x := x pos; y := y pos - 1 |};
       {| x := x pos - 1; y := y pos - 1 |}; {| x := x pos + 1; y := y pos - 1 |} ]).
  { unfold candidates, kickOffsets. cbn [map x y].
    repeat f_equal; lia. }
  destruct (rotatePiece_firstFilled piece) as [c0 Hc0].
  split; [exact Hcands|]. split.
  { subst rotated. unfold rotatePiece. cbn [rotation shape type].
    split; [reflexivity|]. split; [|reflexivity].
    set (n := ((rotation piece + 1) mod length (PIECE_SHAPES (type piece)))%nat).
    destruct (lookup_lt_is_Some_2 (PIECE_SHAPES (type piece)) n) as [shp Hshp].
    - subst n. apply Nat.mod_upper_bound. destruct (type piece); cbn; lia.
    - clearbody n. destruct (type piece);
        do 4 (destruct n as [|n]; [first [reflexivity | cbn in Hshp; discriminate]|]);
        cbn in Hshp; discriminate. }
  split; [|split; [|split]].
  - intros pre q post Hc Hpre Hfit.
    apply (rotate_at_candidate s piece pre q post); try assumption.
    exact (fits_rows _ _ _ _ Hc0 Hfit).
  - intros Hblocked Hleft.
    exists (set_position {| x := x pos - 1; y := y pos |} rotated).
    split; [|now cbn].
    apply (rotate_at_candidate s piece [pos] {| x := x pos - 1; y := y pos |}
             [ {| x := x pos + 1; y := y pos |};
               {| x := x pos; y := y pos - 1 |};
               {| x := x pos - 1; y := y pos - 1 |};
               {| x := x pos + 1; y := y pos - 1 |} ]); try assumption.
    + exact (fits_rows _ _ _ _ Hc0 Hleft).
    + constructor; [exact Hblocked|constructor].
  - intros Hb Hall. now apply rotate_rejected with (piece := piece).
  - intros Hb. split.
    + apply list.Forall_forall. intros q _ Hfit.
      exact (fits_rows _ _ _ _ Hc0 Hfit Hb).
    + exists c0. split; [exact Hc0|].
      now apply rotate_without_rows.
Qed.

(** A configuration without rows, and the state in which [start()] leaves
    its engine: the status and the times are written and the first
    piece, here a T piece, is the current piece when [isGameOver] reads
    [board[0].length] and raises. *)
Definition flatConfig : GameConfig :=
  {| boardWidth := 10; boardHeight := 0; initialSpeed := 1000%Q;
     speedIncrease := (9 # 10)%Q; linesPerLevel := 10 |}.

Definition flatGame : TetrisState :=
  {| status := playing;
     board := board (createInitialState flatConfig);
     currentPiece := Some (createPiece PT (boardWidth flatConfig));
     nextPiece := None; score := 0; level := 1; lines := 0;
     startTime := Some 7; endTime := None;
     dropSpeed := initialSpeed flatConfig;
     lastDropTime := 7; canPause := true |}.

(** C9 fails in a game in play on a board without rows: the rotate
    command raises a [TypeError] where the claim has it leave the state
    unchanged. *)
Lemma rotate_raises_without_rows :
  status flatGame = playing /\
  currentPiece flatGame = Some (createPiece PT 10) /\
  board flatGame = [] /\
  canPlacePiece (board flatGame) (rotatePiece (createPiece PT 10))
    (position (createPiece PT 10)) = None /\
  handleInputRotate flatGame = None.
Proof. repeat split; reflexivity. Qed.

(** ** Clearing complete lines *)

Definition emptyRow (b : Board) : list (option PieceType) :=
  replicate (length (default [] (b !! 0%nat))) None.

(** The rows of [b] that are kept, in their order. *)
Definition keptRows (b : Board) : Board :=
  filter (fun line => isComplete line = false) b.

(** The number of complete rows of [b]. *)
Definition completeRows (b : Board) : nat :=
  length (filter (fun line => isComplete line = true) b).

Lemma scan_fold l acc n :
  fold_left scanLine l (acc, n) =
  (rev (keptRows l) ++ acc, (n + completeRows l)%nat).
Proof.
  revert acc n. induction l as [|line l IH]; intros acc n; cbn [fold_left].
  - cbn. f_equal. lia.
  - unfold scanLine at 2. cbn [fst snd].
    unfold keptRows, completeRows. rewrite !filter_cons.
    destruct (isComplete line) eqn:E; repeat case_decide; try congruence; rewrite IH.
    + unfold keptRows, completeRows. cbn [length]. f_equal. lia.
    + unfold keptRows, completeRows. cbn [rev]. rewrite <- app_assoc. reflexivity.
Qed.

Lemma filter_rev_local {A} (P : A -> Prop) `{forall a, Decision (P a)} (l : list A) :
  filter P (rev l) = rev (filter P l).
Proof.
  induction l as [|a l IH]; [reflexivity|].
  cbn [rev]. rewrite list.filter_app, IH, filter_cons.
  destruct (decide (P a)).
  - rewrite filter_cons_True by assumption. reflexivity.
  - rewrite filter_cons_False by assumption. cbn. now rewrite app_nil_r.
Qed.

Lemma kept_complete_length (b : Board) :
  (length (keptRows b) + completeRows b)%nat = length b.
Proof.
  unfold keptRows, completeRows. induction b as [|line b IH]; [reflexivity|].
  rewrite !filter_cons.
  destruct (isComplete line) eqn:E; repeat case_decide; try congruence; cbn [length]; lia.
Qed.

Lemma keptRows_all (l : Board) :
  (forall line, line ∈ l -> isComplete line = false) ->
  keptRows l = l /\ completeRows l = 0%nat.
Proof.
  unfold keptRows, completeRows. induction l as [|line l IH]; intros Hall; [now split|].
  destruct IH as [IH1 IH2]; [intros x Hx; apply Hall; now right|].
  pose proof (Hall line (list_elem_of_here line l)) as Hline.
  rewrite filter_cons_True by exact Hline.
  rewrite filter_cons_False by (rewrite Hline; discriminate).
  now rewrite IH1, IH2.
Qed.

Lemma keptRows_none (l : Board) :
  (forall line, line ∈ l -> isComplete line = true) ->
  keptRows l = [] /\ completeRows l = length l.
Proof.
  unfold keptRows, completeRows. induction l as [|line l IH]; intros Hall; [now split|].
  destruct IH as [IH1 IH2]; [intros x Hx; apply Hall; now right|].
  pose proof (Hall line (list_elem_of_here line l)) as Hline.
  rewrite filter_cons_False by (rewrite Hline; discriminate).
  rewrite filter_cons_True by exact Hline.
  cbn [length]. now rewrite IH1, IH2.
Qed.

(** [clearCompleteLines] in closed form. *)
Lemma clearCompleteLines_eq (b : Board) :
  clearCompleteLines b =
  (replicate (completeRows b) (emptyRow b) ++ keptRows b, completeRows b).
Proof.
  unfold clearCompleteLines. rewrite scan_fold. cbn [Nat.add].
  rewrite app_nil_r.
  assert (Hk : rev (keptRows (rev b)) = keptRows b).
  { unfold keptRows. now rewrite filter_rev_local, rev_involutive. }
  assert (Hc : completeRows (rev b) = completeRows b).
  { unfold completeRows. now rewrite filter_rev_local, length_rev. }
  rewrite Hk, Hc. f_equal. f_equal.
  pose proof (kept_complete_length b).
  replace (length b - length (keptRows b))%nat with (completeRows b) by lia.
  reflexivity.
Qed.

Lemma keptRows_lookup (b : Board) i line :
  b !! i = Some line -> isComplete line = false ->
  keptRows b !! length (keptRows (take i b)) = Some line.
Proof.
  intros Hi Hl.
  replace (keptRows b) with (keptRows (take i b ++ line :: drop (S i) b))
    by (now rewrite take_drop_middle).
  unfold keptRows. rewrite list.filter_app, filter_cons_True by assumption.
  rewrite lookup_app_r by lia. now rewrite Nat.sub_diag.
Qed.

Lemma completeRows_split (b : Board) i line :
  b !! i = Some line -> isComplete line = false ->
  completeRows b = (completeRows (take i b) + completeRows (drop (S i) b))%nat.
Proof.
  intros Hi Hl.
  replace (completeRows b) with (completeRows (take i b ++ line :: drop (S i) b))
    by (now rewrite take_drop_middle).
  unfold completeRows. rewrite list.filter_app, length_app.
  rewrite filter_cons_False by (rewrite Hl; discriminate). reflexivity.
Qed.

(** The rows that [clearCompleteLines] returns, through the test of the
    code. *)
Lemma clearCompleteLines_rows (b : Board) :
  let newBoard := fst (clearCompleteLines b) in
  let k := snd (clearCompleteLines b) in
  k = completeRows b /\
  length newBoard = length b /\
  take k newBoard = replicate k (emptyRow b) /\
  drop k newBoard = keptRows b /\
  (forall i line, b !! i = Some line -> isComplete line = false ->
     newBoard !! (i + completeRows (drop (S i) b))%nat = Some line) /\
  (forall b0 piece,
     b = placePieceOnBoard b0 piece ->
     length b = 20%nat ->
     (forall i line, b !! i = Some line ->
        isComplete line = bool_decide (i = 18%nat \/ i = 19%nat)) ->
     placePieceBoard b0 piece = ([emptyRow b; emptyRow b] ++ take 18 b, 2%nat) /\
     (forall i line, (i < 18)%nat -> b !! i = Some line ->
        newBoard !! (i + 2)%nat = Some line) /\
     newBoard !! 0%nat = Some (emptyRow b) /\
     newBoard !! 1%nat = Some (emptyRow b)).
Proof.
  intros newBoard k. subst newBoard k. rewrite clearCompleteLines_eq. cbn [fst snd].
  pose proof (kept_complete_length b) as Hlen.
  split; [reflexivity|]. split.
  { rewrite length_app, length_replicate. lia. }
  split.
  { rewrite take_app_length' by (now rewrite length_replicate). reflexivity. }
  split.
  { rewrite drop_app_length' by (now rewrite length_replicate). reflexivity. }
  assert (Hshift : forall i line, b !! i = Some line -> isComplete line = false ->
     (replicate (completeRows b) (emptyRow b) ++ keptRows b)
       !! (i + completeRows (drop (S i) b))%nat = Some line).
  { intros i line Hi Hl.
    pose proof (kept_complete_length (take i b)) as Ht.
    rewrite length_take in Ht. apply lookup_lt_Some in Hi as Hlt.
    pose proof (completeRows_split b i line Hi Hl) as Hsplit.
    rewrite lookup_app_r by (rewrite length_replicate; lia).
    rewrite length_replicate.
    replace (i + completeRows (drop (S i) b) - completeRows b)%nat
      with (length (keptRows (take i b))) by lia.
    now apply keptRows_lookup. }
  split; [exact Hshift|].
  intros b0 piece Hb Hh Hrows.
  assert (Hkept : keptRows b = take 18 b /\ completeRows b = 2%nat).
  { clear Hshift Hlen Hb.
    assert (Hupper : forall line, line ∈ take 18 b -> isComplete line = false).
    { intros line Hin. apply list_elem_of_lookup in Hin as [i Hi].
      apply lookup_take_Some in Hi as [Hi Hlt].
      rewrite (Hrows i line Hi). apply bool_decide_eq_false_2. lia. }
    assert (Hlower : forall line, line ∈ drop 18 b -> isComplete line = true).
    { intros line Hin. apply list_elem_of_lookup in Hin as [i Hi].
      rewrite lookup_drop in Hi. apply lookup_lt_Some in Hi as Hlt.
      rewrite (Hrows _ line Hi). apply bool_decide_eq_true_2. lia. }
    destruct (keptRows_all _ Hupper) as [Hk1 Hc1].
    destruct (keptRows_none _ Hlower) as [Hk2 Hc2].
    rewrite length_drop, Hh in Hc2.
    rewrite <- (take_drop 18 b) at 1 3.
    unfold keptRows, completeRows in *.
    rewrite !list.filter_app, length_app, Hk1, Hk2, Hc1, Hc2, app_nil_r.
    split; reflexivity. }
  destruct Hkept as [Hkept Hcount].
  unfold placePieceBoard. rewrite <- Hb, clearCompleteLines_eq, Hkept, Hcount.
  split; [reflexivity|].
  cbn [replicate app]. split; [|split; reflexivity].
  intros i line Hi Hl.
  replace (i + 2)%nat with (S (S i)) by lia. cbn [lookup list_lookup].
  change (take 18 b !! i = Some line).
  apply lookup_take_Some. split; [exact Hl|exact Hi].
Qed.

(** Every cell of the row is filled. *)
Definition fullRow (line : list (option PieceType)) : Prop :=
  Forall (fun cell => cell <> None) line.

#[local] Instance fullRow_dec line : Decision (fullRow line).
Proof. unfold fullRow. apply _. Defined.

(** The test of the code is true of the rows with every cell filled,
    and of no other row. *)
Lemma isComplete_fullRow line : isComplete line = true <-> fullRow line.
Proof.
  unfold isComplete, fullRow. induction line as [|cell line IH]; cbn [forallb].
  - split; [constructor|reflexivity].
  - rewrite andb_true_iff, IH, list.Forall_cons. destruct cell as [t|].
    + split; intros [_ H]; (split; [congruence|exact H]).
    + split; intros [H _]; [discriminate|congruence].
Qed.

Lemma isComplete_false line : isComplete line = false <-> ~ fullRow line.
Proof.
  rewrite <- isComplete_fullRow. destruct (isComplete line); split; congruence.
Qed.

Lemma keptRows_fullRow (b : Board) :
  keptRows b = filter (fun line => ~ fullRow line) b.
Proof. unfold keptRows. apply list_filter_iff. intros line. apply isComplete_false. Qed.

Lemma completeRows_fullRow (b : Board) :
  completeRows b = length (filter fullRow b).
Proof.
  unfold completeRows. f_equal. apply list_filter_iff. intros line.
  apply isComplete_fullRow.
Qed.

(** C10. [clearCompleteLines] removes exactly the rows in which every
    cell is filled and reports their number [k]: it keeps the height of
    the board, leaves [k] empty rows at the top and below them the rows
    that have a cell that is not filled, in their order, so that each of
    them moves down by the number of rows with every cell filled below
    it. When rows 18 and 19 of a board of height 20 are the rows with
    every cell filled after a piece is locked, those two rows are
    removed, rows 0 to 17 move down by 2 and rows 0 and 1 are empty. *)
Theorem clearCompleteLines_shifts_rows (b : Board) :
  let newBoard := fst (clearCompleteLines b) in
  let k := snd (clearCompleteLines b) in
  k = length (filter fullRow b) /\
  length newBoard = length b /\
  take k newBoard = replicate k (emptyRow b) /\
  drop k newBoard = filter (fun line => ~ fullRow line) b /\
  (forall i line, b !! i = Some line -> ~ fullRow line ->
     newBoard !! (i + length (filter fullRow (drop (S i) b)))%nat = Some line) /\
  (forall b0 piece,
     b = placePieceOnBoard b0 piece ->
     length b = 20%nat ->
     (forall i line, b !! i = Some line ->
        (fullRow line <-> i = 18%nat \/ i = 19%nat)) ->
     placePieceBoard b0 piece = ([emptyRow b; emptyRow b] ++ take 18 b, 2%nat) /\
     (forall i line, (i < 18)%nat -> b !! i = Some line ->
        newBoard !! (i + 2)%nat = Some line) /\
     newBoard !! 0%nat = Some (emptyRow b) /\
     newBoard !! 1%nat = Some (emptyRow b)).
Proof.
  intros newBoard k.
  destruct (clearCompleteLines_rows b) as (Hk & Hlen & Htake & Hdrop & Hshift & Hcase).
  fold newBoard k in Hk, Hlen, Htake, Hdrop, Hshift, Hcase.
  split; [now rewrite <- completeRows_fullRow|].
  split; [exact Hlen|]. split; [exact Htake|].
  split; [now rewrite <- keptRows_fullRow|].
  split.
  - intros i line Hi Hl. rewrite <- completeRows_fullRow.
    apply Hshift; [exact Hi|]. now apply isComplete_false.
  - intros b0 piece Hb Hh Hrows. apply (Hcase b0 piece Hb Hh).
    intros i line Hi. specialize (Hrows i line Hi).
    destruct (decide (i = 18%nat \/ i = 19%nat)) as [Hi2|Hi2].
    + rewrite bool_decide_eq_true_2 by exact Hi2.
      now apply isComplete_fullRow, Hrows.
    + rewrite bool_decide_eq_false_2 by exact Hi2.
      apply isComplete_false. intros Hfull. now apply Hi2, Hrows.
Qed.

(** A board of height 20 whose two bottom rows lack only the two cells
    that an O piece in the left corner fills. *)
Definition almostFull : Board :=
  replicate 18 (replicate 10 None) ++
  replicate 2 ([None; None] ++ replicate 8 (Some PI)).

Definition squarePiece : TetrisPiece :=
  {| type := PO; position := {| x := 0; y := 18 |}; rotation := 0;
     shape := [ [1; 1]; [1; 1] ] |}.

Lemma clearCompleteLines_shifts_rows_witness :
  length (placePieceOnBoard almostFull squarePiece) = 20%nat /\
  placePieceBoard almostFull squarePiece =
  (replicate 20 (replicate 10 None), 2%nat).
Proof.
  split; [reflexivity|].
  pose proof (clearCompleteLines_shifts_rows (placePieceOnBoard almostFull squarePiece))
    as (_ & _ & _ & _ & _ & H).
  destruct (H almostFull squarePiece eq_refl eq_refl) as (Heq & _).
  - intros i line Hi. rewrite <- isComplete_fullRow.
    do 20 (destruct i as [|i];
           [cbn in Hi; injection Hi as <-;
            split; intros Hrow; first [discriminate Hrow | reflexivity | lia]|]).
    cbn in Hi. discriminate.
  - rewrite Heq. reflexivity.
Defined.

(** ** Concrete positions *)

Lemma fits_iff_canPlacePiece b piece pos :
  b <> [] ->
  fits b (shape piece) pos <-> canPlacePiece b piece pos = Some true.
Proof.
  intros Hb. destruct (canPlacePiece_spec b piece pos Hb) as (r & Hr & Hspec).
  rewrite Hr, <- Hspec. split; [now intros ->|now intros [= ->]].
Qed.

(** A vertical I piece in the last column of an empty 10 x 20 board: its
    horizontal state does not fit in place and fits one column to the
    left. *)
Definition verticalI : TetrisPiece :=
  {| type := PI; position := {| x := 7; y := 5 |}; rotation := 1;
     shape := [ [0;0;1;0]; [0;0;1;0]; [0;0;1;0]; [0;0;1;0] ] |}.

Definition kickState : TetrisState :=
  {| status := playing;
     board := createEmptyBoard 10 20;
     currentPiece := Some verticalI;
     nextPiece := None; score := 0; level := 1; lines := 0;
     startTime := Some 0; endTime := None; dropSpeed := 1000%Q;
     lastDropTime := 0; canPause := true |}.

Lemma kickState_board : board kickState <> [].
Proof. discriminate. Qed.

Lemma rotate_first_fitting_candidate_witness :
  status kickState = playing /\
  currentPiece kickState = Some verticalI /\
  exists piece',
    handleInputRotate kickState = Some (set_currentPiece (Some piece') kickState) /\
    x (position piece') = 6 /\
    y (position piece') = 5 /\
    shape piece' = [ [0;0;0;0]; [1;1;1;1]; [0;0;0;0]; [0;0;0;0] ] /\
    rotation piece' = 0%nat.
Proof.
  split; [reflexivity|]. split; [reflexivity|].
  destruct (rotate_first_fitting_candidate kickState verticalI eq_refl eq_refl)
    as (_ & _ & _ & Hkick & _).
  apply Hkick.
  - intros Hfit.
    apply (fits_iff_canPlacePiece _ (rotatePiece verticalI)) in Hfit;
      [|exact kickState_board].
    vm_compute in Hfit. discriminate.
  - apply (fits_iff_canPlacePiece _ (rotatePiece verticalI)); [exact kickState_board|].
    vm_compute. reflexivity.
Defined.

End TetrisProofs.
(** * The falling-block engine: pieces, locking and the game loop *)

Module TetrisEngineProofs.
Import Tetris TetrisEngine TetrisProofs.

Local Open Scope Z_scope.

(** ** Rotation states *)

(** The shape of the piece is the rotation state that its [rotation]
    names. *)
Definition pieceOK (p : TetrisPiece) : Prop :=
  PIECE_SHAPES (type p) !! rotation p = Some (shape p).

Lemma createPiece_OK t w : pieceOK (createPiece t w).
Proof. unfold pieceOK, createPiece. cbn [type rotation shape]. now destruct t. Qed.

Lemma rotatePiece_OK p : pieceOK (rotatePiece p).
Proof.
  unfold pieceOK, rotatePiece. cbn [type rotation shape].
  assert (Hlt : ((rotation p + 1) mod length (PIECE_SHAPES (type p)) <
                 length (PIECE_SHAPES (type p)))%nat).
  { apply Nat.mod_upper_bound. now destruct (type p). }
  destruct (lookup_lt_is_Some_2 _ _ Hlt) as [shp Hshp]. now rewrite Hshp.
Qed.

Lemma movePiece_OK p dx dy : pieceOK p -> pieceOK (movePiece p dx dy).
Proof. intros H. exact H. Qed.

Lemma set_position_OK p pos : pieceOK p -> pieceOK (set_position pos p).
Proof. intros H. exact H. Qed.

(** Case analysis over the rotation states of a piece type: [H] says
    that the state [n] of the type has the shape of the goal. *)
Ltac each_state H n tac :=
  do 5 (try (destruct n as [|n];
             [first [discriminate H | injection H as <-; tac]|]));
  try (cbn in H; discriminate H).

(** Every rotation state has a filled cell. *)
Lemma pieceOK_filled p : pieceOK p -> exists row col, filled (shape p) row col.
Proof.
  unfold pieceOK, filled. destruct p as [t pos n shp]. cbn [type rotation shape].
  intros H.
  destruct t;
    each_state H n
      ltac:(first [ now exists 0%nat, 0%nat | now exists 0%nat, 1%nat
                  | now exists 0%nat, 2%nat | now exists 1%nat, 0%nat ]).
Qed.

(** The filled cells of a rotation state lie in a 4 x 4 block. *)
Lemma pieceOK_block p row col :
  pieceOK p -> filled (shape p) row col -> (row < 4)%nat /\ (col < 4)%nat.
Proof.
  unfold pieceOK, filled, Grid.get. destruct p as [t pos n shp].
  cbn [type rotation shape]. intros H Hf.
  destruct (shp !! row) as [line|] eqn:E; [|discriminate].
  apply lookup_lt_Some in Hf.
  destruct t;
    each_state H n
      ltac:(do 4 (try (destruct row as [|row];
                       [injection E as <-; cbn in Hf; lia|]));
            cbn in E; discriminate E).
Qed.

(** X1. [rotatePiece] keeps the type and the position of a piece and
    steps to the next rotation state of its type, in a cycle: four
    rotations of a piece in one of its rotation states give the piece
    back. *)
Theorem rotatePiece_cycle (p : TetrisPiece) :
  pieceOK p ->
  type (rotatePiece p) = type p /\
  position (rotatePiece p) = position p /\
  pieceOK (rotatePiece p) /\
  rotation (rotatePiece p) =
    (if (S (rotation p) <? length (PIECE_SHAPES (type p)))%nat
     then S (rotation p) else 0%nat) /\
  rotatePiece (rotatePiece (rotatePiece (rotatePiece p))) = p.
Proof.
  intros Hok. split; [reflexivity|]. split; [reflexivity|].
  split; [apply rotatePiece_OK|].
  unfold pieceOK in Hok. destruct p as [t pos n shp]. cbn [type rotation shape] in *.
  split.
  - unfold rotatePiece. cbn [rotation type].
    destruct t; each_state Hok n ltac:(reflexivity).
  - destruct t; each_state Hok n ltac:(reflexivity).
Qed.

Definition teePiece : TetrisPiece := createPiece PT 10.

Lemma rotatePiece_cycle_witness :
  pieceOK teePiece /\
  rotation (rotatePiece teePiece) = 1%nat /\
  rotatePiece (rotatePiece (rotatePiece (rotatePiece teePiece))) = teePiece.
Proof.
  assert (Hok : pieceOK teePiece) by apply createPiece_OK.
  split; [exact Hok|].
  destruct (rotatePiece_cycle teePiece Hok) as (_ & _ & _ & Hr & Hcycle).
  split; [exact Hr|exact Hcycle].
Defined.

(** ** Boards of the configured size *)

Lemma rect_nonempty h w (b : Board) : Grid.rect h w b -> (0 < h)%nat -> b <> [].
Proof. intros [Hh _] Hpos ->. cbn in Hh. lia. Qed.

Lemma rect_width h w (b : Board) :
  Grid.rect h w b -> (0 < h)%nat -> length (default [] (b !! 0%nat)) = w.
Proof.
  intros [Hh Hw] Hpos. destruct b as [|row0 b]; [cbn in Hh; lia|].
  now apply Forall_cons_1 in Hw as [Hrow _].
Qed.

Lemma isComplete_empty w : (0 < w)%nat -> isComplete (replicate w None) = false.
Proof. destruct w; [lia|reflexivity]. Qed.

Lemma clearCompleteLines_rect h w (b : Board) :
  Grid.rect h w b -> Grid.rect h w (fst (clearCompleteLines b)).
Proof.
  intros Hrect. rewrite clearCompleteLines_eq. cbn [fst].
  pose proof (kept_complete_length b) as Hlen. destruct Hrect as [Hh Hw]. split.
  - rewrite length_app, length_replicate. lia.
  - apply Forall_app. split.
    + apply list.Forall_forall. intros line Hin.
      apply elem_of_replicate in Hin as [-> Hk].
      unfold emptyRow. rewrite length_replicate.
      destruct b as [|row0 b]; [cbn in Hk; congruence|].
      now apply Forall_cons_1 in Hw as [Hrow _].
    + unfold keptRows. apply list.Forall_forall. intros line Hin.
      apply list_elem_of_filter in Hin as [_ Hin].
      rewrite list.Forall_forall in Hw. now apply Hw.
Qed.

(** X2. On a board whose rows have cells, the board that
    [clearCompleteLines] returns has the size of its argument and no
    complete row: clearing it again changes nothing and reports 0
    lines. *)
Theorem clearCompleteLines_twice (h w : nat) (b : Board) :
  Grid.rect h w b -> (0 < w)%nat ->
  let b' := fst (clearCompleteLines b) in
  Grid.rect h w b' /\
  (forall line, line ∈ b' -> isComplete line = false) /\
  clearCompleteLines b' = (b', 0%nat).
Proof.
  intros Hrect Hw b'.
  assert (Hrect' : Grid.rect h w b') by now apply clearCompleteLines_rect.
  assert (Hnone : forall line, line ∈ b' -> isComplete line = false).
  { subst b'. rewrite clearCompleteLines_eq. cbn [fst]. intros line Hin.
    apply elem_of_app in Hin as [Hin|Hin].
    - apply elem_of_replicate in Hin as [-> Hk]. unfold emptyRow.
      apply isComplete_empty.
      destruct b as [|row0 b]; [cbn in Hk; congruence|].
      destruct Hrect as [_ Hall]. apply Forall_cons_1 in Hall as [Hrow _].
      cbn. lia.
    - unfold keptRows in Hin. now apply list_elem_of_filter in Hin as [Hin _]. }
  split; [exact Hrect'|]. split; [exact Hnone|].
  rewrite (clearCompleteLines_eq b').
  destruct (keptRows_all b' Hnone) as [-> ->]. reflexivity.
Qed.

Lemma clearCompleteLines_twice_witness :
  Grid.rect 20 10 almostFull /\
  clearCompleteLines (fst (clearCompleteLines (placePieceOnBoard almostFull squarePiece))) =
    (fst (clearCompleteLines (placePieceOnBoard almostFull squarePiece)), 0%nat).
Proof.
  assert (Hrect : Grid.rect 20 10 almostFull).
  { split; [reflexivity|]. repeat constructor. }
  assert (Hrect' : Grid.rect 20 10 (placePieceOnBoard almostFull squarePiece)).
  { split; [reflexivity|]. repeat constructor. }
  split; [exact Hrect|].
  apply (clearCompleteLines_twice 20 10 _ Hrect'). lia.
Defined.

(** ** Locking a piece *)

(** The board cell [(r, c)] lies under a filled cell of the piece. *)
Definition covers (piece : TetrisPiece) (r c : nat) : Prop :=
  exists row col, filled (shape piece) row col /\
    y (position piece) + Z.of_nat row = Z.of_nat r /\
    x (position piece) + Z.of_nat col = Z.of_nat c.

Lemma writeCell_rect h w t pos row col (b : Board) :
  Grid.rect h w b -> Grid.rect h w (writeCell t pos row col b).
Proof.
  intros H. unfold writeCell. destruct (_ && _); [|exact H].
  now apply GridFacts.rect_update.
Qed.

Lemma writeCols_rect h w t pos row cells : forall col (b : Board),
  Grid.rect h w b -> Grid.rect h w (writeCols t pos row col cells b).
Proof.
  induction cells as [|v rest IH]; intros col b H; [exact H|].
  cbn [writeCols]. apply IH. destruct (v =? 1); [now apply writeCell_rect|exact H].
Qed.

Lemma writeRows_rect h w t pos rows : forall row (b : Board),
  Grid.rect h w b -> Grid.rect h w (writeRows t pos row rows b).
Proof.
  induction rows as [|cells rest IH]; intros row b H; [exact H|].
  cbn [writeRows]. apply IH. now apply writeCols_rect.
Qed.

Lemma writeCell_get h w t pos row col (b : Board) r c :
  Grid.rect h w b -> (r < h)%nat -> (c < w)%nat ->
  Grid.get (writeCell t pos row col b) r c =
  if decide (y pos + Z.of_nat row = Z.of_nat r /\ x pos + Z.of_nat col = Z.of_nat c)
  then Some (Some t) else Grid.get b r c.
Proof.
  intros Hrect Hr Hc. unfold writeCell.
  rewrite (rect_width h w b Hrect) by lia. destruct Hrect as [Hh Hw]. rewrite Hh.
  destruct (decide _) as [[Hy Hx]|Hne].
  - rewrite Hy, Hx.
    replace ((Z.of_nat r >=? 0) && (Z.of_nat r <? Z.of_nat h) && (Z.of_nat c >=? 0)
             && (Z.of_nat c <? Z.of_nat w)) with true
      by (symmetry; rewrite !andb_true_iff; repeat split; zbool; lia).
    rewrite !Nat2Z.id.
    destruct (proj2 (GridFacts.get_is_Some_rect h w b r c (conj Hh Hw)) (conj Hr Hc))
      as [a Ha].
    now rewrite (GridFacts.get_update_eq _ r c b a Ha).
  - destruct (_ && _) eqn:E; [|reflexivity].
    rewrite !andb_true_iff in E. destruct E as [[[E1 E2] E3] E4]. zbool.
    apply GridFacts.get_update_ne. intros [= H1 H2]. apply Hne. lia.
Qed.

Lemma writeCols_kept h w t pos row cells : forall col (b : Board) r c,
  Grid.rect h w b -> (r < h)%nat -> (c < w)%nat ->
  Grid.get b r c = Some (Some t) ->
  Grid.get (writeCols t pos row col cells b) r c = Some (Some t).
Proof.
  induction cells as [|v rest IH]; intros col b r c Hrect Hr Hc Hget; [exact Hget|].
  cbn [writeCols]. destruct (v =? 1); [|now apply IH].
  apply IH; try assumption; [now apply writeCell_rect|].
  rewrite (writeCell_get h w) by assumption. now destruct (decide _).
Qed.

Lemma writeCols_hit h w t pos row cells : forall col (b : Board) r c j,
  Grid.rect h w b -> (r < h)%nat -> (c < w)%nat ->
  cells !! j = Some 1 ->
  y pos + Z.of_nat row = Z.of_nat r -> x pos + Z.of_nat (col + j) = Z.of_nat c ->
  Grid.get (writeCols t pos row col cells b) r c = Some (Some t).
Proof.
  induction cells as [|v rest IH]; intros col b r c j Hrect Hr Hc Hj Hy Hx;
    [rewrite lookup_nil in Hj; discriminate|].
  cbn [writeCols]. destruct j as [|j].
  - cbn in Hj. injection Hj as ->. cbn [Z.eqb Pos.eqb].
    apply (writeCols_kept h w); try assumption; [now apply writeCell_rect|].
    rewrite (writeCell_get h w) by assumption.
    rewrite decide_True; [reflexivity|]. split; [exact Hy|]. lia.
  - cbn in Hj. apply (IH (S col) _ r c j); try assumption; try lia.
    destruct (v =? 1); [now apply writeCell_rect|exact Hrect].
Qed.

Lemma writeCols_other h w t pos row cells : forall col (b : Board) r c,
  Grid.rect h w b -> (r < h)%nat -> (c < w)%nat ->
  (forall j, cells !! j = Some 1 ->
     ~ (y pos + Z.of_nat row = Z.of_nat r /\ x pos + Z.of_nat (col + j) = Z.of_nat c)) ->
  Grid.get (writeCols t pos row col cells b) r c = Grid.get b r c.
Proof.
  induction cells as [|v rest IH]; intros col b r c Hrect Hr Hc Hno; [reflexivity|].
  cbn [writeCols]. rewrite (IH (S col)); try assumption.
  - destruct (v =? 1) eqn:Ev; [|reflexivity]. apply Z.eqb_eq in Ev. subst v.
    rewrite (writeCell_get h w) by assumption.
    rewrite decide_False; [reflexivity|]. intros [Hy Hx].
    apply (Hno 0%nat eq_refl). split; [exact Hy|]. now rewrite Nat.add_0_r.
  - destruct (v =? 1); [now apply writeCell_rect|exact Hrect].
  - intros j Hj. replace (S col + j)%nat with (col + S j)%nat by lia.
    now apply (Hno (S j)).
Qed.

Lemma writeRows_kept h w t pos rows : forall row (b : Board) r c,
  Grid.rect h w b -> (r < h)%nat -> (c < w)%nat ->
  Grid.get b r c = Some (Some t) ->
  Grid.get (writeRows t pos row rows b) r c = Some (Some t).
Proof.
  induction rows as [|cells rest IH]; intros row b r c Hrect Hr Hc Hget; [exact Hget|].
  cbn [writeRows]. apply IH; try assumption; [now apply writeCols_rect|].
  now apply (writeCols_kept h w).
Qed.

Lemma writeRows_hit h w t pos rows : forall row (b : Board) r c i j,
  Grid.rect h w b -> (r < h)%nat -> (c < w)%nat ->
  Grid.get rows i j = Some 1 ->
  y pos + Z.of_nat (row + i) = Z.of_nat r -> x pos + Z.of_nat j = Z.of_nat c ->
  Grid.get (writeRows t pos row rows b) r c = Some (Some t).
Proof.
  induction rows as [|cells rest IH]; intros row b r c i j Hrect Hr Hc Hij Hy Hx;
    [unfold Grid.get in Hij; rewrite lookup_nil in Hij; discriminate|].
  cbn [writeRows]. destruct i as [|i].
  - unfold Grid.get in Hij. cbn in Hij.
    apply (writeRows_kept h w); try assumption; [now apply writeCols_rect|].
    apply (writeCols_hit h w t pos row cells 0%nat b r c j); try assumption.
    now rewrite Nat.add_0_r in Hy.
  - apply (IH (S row) _ r c i j); try assumption; [now apply writeCols_rect|].
    now replace (S row + i)%nat with (row + S i)%nat by lia.
Qed.

Lemma writeRows_other h w t pos rows : forall row (b : Board) r c,
  Grid.rect h w b -> (r < h)%nat -> (c < w)%nat ->
  (forall i j, Grid.get rows i j = Some 1 ->
     ~ (y pos + Z.of_nat (row + i) = Z.of_nat r /\ x pos + Z.of_nat j = Z.of_nat c)) ->
  Grid.get (writeRows t pos row rows b) r c = Grid.get b r c.
Proof.
  induction rows as [|cells rest IH]; intros row b r c Hrect Hr Hc Hno; [reflexivity|].
  cbn [writeRows]. rewrite (IH (S row)); try assumption.
  - apply (writeCols_other h w); try assumption.
    intros j Hj. specialize (Hno 0%nat j Hj). now rewrite Nat.add_0_r in Hno.
  - now apply writeCols_rect.
  - intros i j Hij. replace (S row + i)%nat with (row + S i)%nat by lia.
    now apply (Hno (S i) j).
Qed.

Lemma placePieceOnBoard_rect h w (b : Board) piece :
  Grid.rect h w b -> Grid.rect h w (placePieceOnBoard b piece).
Proof. apply writeRows_rect. Qed.

(** X3. [placePieceOnBoard] keeps the size of the board, writes the type
    of the piece into every board cell under a filled cell of its
    shape, and leaves every other cell as it is. Filled cells outside
    the board are skipped. *)
Theorem placePieceOnBoard_cells (h w : nat) (b : Board) (piece : TetrisPiece) :
  Grid.rect h w b ->
  Grid.rect h w (placePieceOnBoard b piece) /\
  forall r c, (r < h)%nat -> (c < w)%nat ->
    (covers piece r c ->
     Grid.get (placePieceOnBoard b piece) r c = Some (Some (type piece))) /\
    (~ covers piece r c ->
     Grid.get (placePieceOnBoard b piece) r c = Grid.get b r c).
Proof.
  intros Hrect. split; [now apply placePieceOnBoard_rect|].
  intros r c Hr Hc. unfold placePieceOnBoard. split.
  - intros (row & col & Hf & Hy & Hx).
    apply (writeRows_hit h w _ _ _ 0%nat b r c row col); assumption.
  - intros Hno. apply (writeRows_other h w); try assumption.
    intros i j Hij [Hy Hx]. apply Hno. exists i, j. now repeat split.
Qed.

Lemma placePieceOnBoard_cells_witness :
  Grid.rect 20 10 almostFull /\
  Grid.get (placePieceOnBoard almostFull squarePiece) 19 1 = Some (Some PO) /\
  Grid.get (placePieceOnBoard almostFull squarePiece) 17 1 = Some None.
Proof.
  assert (Hrect : Grid.rect 20 10 almostFull).
  { split; [reflexivity|]. repeat constructor. }
  split; [exact Hrect|].
  destruct (placePieceOnBoard_cells 20 10 almostFull squarePiece Hrect) as [_ Hcells].
  split.
  - apply (Hcells 19%nat 1%nat); [lia|lia|].
    exists 1%nat, 1%nat. now repeat split.
  - destruct (Hcells 17%nat 1%nat) as [_ Hother]; [lia|lia|].
    rewrite Hother; [reflexivity|].
    intros (row & col & _ & Hy & _). cbn in Hy. lia.
Defined.

(** ** The landing position *)

Definition atHeight (piece : TetrisPiece) (gy : Z) : Position :=
  {| x := x (position piece); y := gy |}.

Lemma fits_height (b : Board) shp pos row col :
  fits b shp pos -> filled shp row col ->
  - Z.of_nat row <= y pos < Z.of_nat (length b) - Z.of_nat row.
Proof. intros Hfit Hf. destruct (Hfit row col Hf) as (_ & Hy & _). lia. Qed.

Lemma ghostLoop_spec (b : Board) piece row col :
  b <> [] -> filled (shape piece) row col ->
  forall fuel g,
    (0 < fuel)%nat ->
    Z.of_nat (length b) - Z.of_nat row - (g + 1) < Z.of_nat fuel \/
      g + 1 < - Z.of_nat row ->
    exists gy,
      ghostLoop fuel b piece g = Value gy /\ g <= gy /\
      (forall y', g < y' <= gy -> fits b (shape piece) (atHeight piece y')) /\
      ~ fits b (shape piece) (atHeight piece (gy + 1)).
Proof.
  intros Hb Hf. induction fuel as [|fuel IH]; intros g Hpos Hfuel; [lia|].
  cbn [ghostLoop]. fold (atHeight piece (g + 1)).
  destruct (canPlacePiece_spec b piece (atHeight piece (g + 1)) Hb) as (r & Hr & Hspec).
  rewrite Hr. destruct r; cbn [whenPlaceable].
  - assert (Hfit : fits b (shape piece) (atHeight piece (g + 1))) by now apply Hspec.
    pose proof (fits_height b _ _ row col Hfit Hf) as Hh. cbn [atHeight y] in Hh.
    destruct (IH (g + 1)) as (gy & Hrun & Hle & Hall & Hstop); [lia|lia|].
    exists gy. split; [exact Hrun|]. split; [lia|]. split; [|exact Hstop].
    intros y' Hy'. destruct (decide (y' = g + 1)) as [->|Hne]; [exact Hfit|].
    apply Hall. lia.
  - exists g. split; [reflexivity|]. split; [lia|]. split; [intros y' Hy'; lia|].
    intros Hfit. apply Hspec in Hfit. discriminate.
Qed.

Lemma scanCols_blank b pos row cells :
  (forall j, cells !! j <> Some 1) ->
  forall col, scanCols b pos row col cells = Some true.
Proof.
  induction cells as [|v rest IH]; intros Hno col; [reflexivity|].
  cbn [scanCols]. destruct (v =? 1) eqn:Ev.
  - apply Z.eqb_eq in Ev. subst v. now destruct (Hno 0%nat).
  - apply IH. intros j. apply (Hno (S j)).
Qed.

Lemma scanRows_blank b pos rows :
  (forall i j, Grid.get rows i j <> Some 1) ->
  forall row, scanRows b pos row rows = Some true.
Proof.
  induction rows as [|cells rest IH]; intros Hno row; [reflexivity|].
  cbn [scanRows]. rewrite scanCols_blank; [|intros j; apply (Hno 0%nat j)].
  apply IH. intros i j. apply (Hno (S i) j).
Qed.

Lemma getGhostPosition_runs (fuel : nat) (b : Board) (piece : TetrisPiece) row col :
  b <> [] -> filled (shape piece) row col -> (length b < fuel)%nat ->
  exists gy,
    getGhostPosition fuel b piece = Value (atHeight piece gy) /\
    y (position piece) <= gy /\
    (forall y', y (position piece) < y' <= gy ->
       fits b (shape piece) (atHeight piece y')) /\
    ~ fits b (shape piece) (atHeight piece (gy + 1)).
Proof.
  intros Hb Hf Hfuel.
  destruct (ghostLoop_spec b piece row col Hb Hf fuel (y (position piece)))
    as (gy & Hrun & Hrest); [lia|lia|].
  exists gy. split; [|exact Hrest].
  unfold getGhostPosition. rewrite Hrun. reflexivity.
Qed.

(** X4. On a board with rows, for a piece whose shape has a filled cell,
    the loop of [getGhostPosition] ends within as many rounds as the
    board has rows. It keeps the column and returns the row of the
    lowest position that the piece reaches from its own by going down
    through positions at which it fits: the row is not above the
    piece's, the piece fits at every row below its own down to it, and
    does not fit one row further. For a shape with no filled cell the
    loop does not end. *)
Theorem getGhostPosition_lowest (fuel : nat) (b : Board) (piece : TetrisPiece) :
  (b <> [] ->
   (exists row col, filled (shape piece) row col) ->
   (length b < fuel)%nat ->
   exists gy,
     getGhostPosition fuel b piece = Value (atHeight piece gy) /\
     y (position piece) <= gy /\
     (forall y', y (position piece) < y' <= gy ->
        fits b (shape piece) (atHeight piece y')) /\
     ~ fits b (shape piece) (atHeight piece (gy + 1))) /\
  ((forall row col, ~ filled (shape piece) row col) ->
   getGhostPosition fuel b piece = NoFuel).
Proof.
  split.
  - intros Hb (row & col & Hf) Hfuel.
    now apply (getGhostPosition_runs fuel b piece row col).
  - intros Hblank. unfold getGhostPosition.
    enough (Hloop : forall g, ghostLoop fuel b piece g = NoFuel) by now rewrite Hloop.
    induction fuel as [|fuel' IH]; intros g; [reflexivity|].
    cbn [ghostLoop]. unfold canPlacePiece.
    rewrite scanRows_blank by (intros i j; apply Hblank).
    cbn [whenPlaceable]. apply IH.
Qed.

(** A T piece at the top of an empty board of 20 rows. *)
Lemma getGhostPosition_lowest_witness :
  createEmptyBoard 10 20 <> [] /\
  getGhostPosition 21 (createEmptyBoard 10 20) teePiece = Value {| x := 3; y := 18 |}.
Proof.
  assert (Hb : createEmptyBoard 10 20 <> []) by discriminate.
  split; [exact Hb|].
  destruct (proj1 (getGhostPosition_lowest 21 (createEmptyBoard 10 20) teePiece) Hb)
    as (gy & Hrun & _); [now exists 0%nat, 1%nat|cbn; lia|].
  rewrite Hrun. vm_compute in Hrun. injection Hrun as <-. reflexivity.
Defined.

(** ** The states of the engine *)

Lemma calculateScore_nonneg n level dropType :
  0 <= level -> 0 <= calculateScore n level dropType.
Proof.
  intros Hl. unfold calculateScore, SINGLE, DOUBLE, TRIPLE, TETRIS, SOFT_DROP, HARD_DROP.
  do 5 (destruct n as [|n]; [destruct dropType as [[|]|]; lia|]).
  destruct dropType as [[|]|]; lia.
Qed.

(** What a run of the loop of [getGhostPosition] that returns has found. *)
Lemma ghostLoop_value (b : Board) piece :
  b <> [] ->
  forall fuel g gy,
    ghostLoop fuel b piece g = Value gy ->
    g <= gy /\ (gy = g \/ fits b (shape piece) (atHeight piece gy)).
Proof.
  intros Hb. induction fuel as [|fuel IH]; intros g gy Hrun; [discriminate|].
  cbn [ghostLoop] in Hrun. fold (atHeight piece (g + 1)) in Hrun.
  destruct (canPlacePiece_spec b piece (atHeight piece (g + 1)) Hb) as (r & Hr & Hspec).
  rewrite Hr in Hrun. destruct r; cbn [whenPlaceable] in Hrun.
  - destruct (IH (g + 1) gy Hrun) as [Hle [->|Hfit]].
    + split; [lia|]. right. now apply Hspec.
    + split; [lia|]. now right.
  - injection Hrun as <-. split; [lia|now left].
Qed.

Section Engine.

Variable calculateDropSpeed : Z -> Q -> Q -> Q.
Variable config : GameConfig.
Hypothesis Hheight : (0 < boardHeight config)%nat.

(** What every state of the engine satisfies, also between two steps
    of a method. *)
Record base (s : TetrisState) : Prop := {
  base_board : Grid.rect (boardHeight config) (boardWidth config) (board s);
  base_current : forall p, currentPiece s = Some p -> pieceOK p;
  base_next : forall p, nextPiece s = Some p -> pieceOK p;
  base_level : 1 <= level s;
  base_score : 0 <= score s;
  base_lines : 0 <= lines s
}.

(** While the game is in play or paused, the current piece lies on
    empty cells of the board. *)
Definition falling (s : TetrisState) : Prop :=
  status s = playing \/ status s = paused ->
  exists p, currentPiece s = Some p /\ fits (board s) (shape p) (position p).

(** A started game has a next piece. *)
Definition queued (s : TetrisState) : Prop :=
  status s <> idle -> is_Some (nextPiece s).

Definition inv (s : TetrisState) : Prop := base s /\ falling s /\ queued s.

(** Score, lines and level do not go down. *)
Definition mono (s s' : TetrisState) : Prop :=
  score s <= score s' /\ lines s <= lines s' /\ level s <= level s'.

Lemma mono_refl s : mono s s.
Proof. unfold mono. lia. Qed.

Lemma mono_trans s1 s2 s3 : mono s1 s2 -> mono s2 s3 -> mono s1 s3.
Proof. unfold mono. lia. Qed.

Lemma base_nonempty s : base s -> board s <> [].
Proof. intros Hb. apply (rect_nonempty _ _ _ (base_board s Hb) Hheight). Qed.

Lemma createEmptyBoard_rect width height :
  Grid.rect height width (createEmptyBoard width height).
Proof.
  unfold createEmptyBoard. split; [apply length_replicate|].
  apply list.Forall_forall. intros line Hin.
  apply elem_of_replicate in Hin as [-> _]. apply length_replicate.
Qed.

Lemma createInitialState_inv : inv (createInitialState config).
Proof.
  split; [|split].
  - split; cbn [createInitialState board currentPiece nextPiece level score lines];
      try lia; try (intros p; discriminate).
    apply createEmptyBoard_rect.
  - intros [H|H]; discriminate H.
  - intros H. now destruct H.
Qed.

Lemma spawnNewPiece_step u now s :
  base s ->
  exists s',
    spawnNewPiece config u now s = Value s' /\
    base s' /\ falling s' /\ mono s s' /\
    nextPiece s' = nextPiece s /\ board s' = board s /\
    (status s' = status s \/ status s' = lost).
Proof.
  intros Hb. unfold spawnNewPiece, isGameOver.
  set (piece := match nextPiece s with
                | Some p => p
                | None => createPiece (getRandomPieceType u) (boardWidth config)
                end).
  assert (Hok : pieceOK piece).
  { subst piece. destruct (nextPiece s) as [p|] eqn:E;
      [now apply (base_next s Hb)|apply createPiece_OK]. }
  cbn [board set_currentPiece].
  destruct (canPlacePiece_spec (board s) piece (position piece) (base_nonempty s Hb))
    as (r & Hr & Hspec).
  rewrite Hr. cbn [fmap option_fmap option_map].
  assert (Hbase1 : base (set_currentPiece (Some piece) s)).
  { destruct Hb. split; cbn; try assumption. now intros p [= <-]. }
  destruct r; cbn [negb].
  - exists (set_currentPiece (Some piece) s). split; [reflexivity|].
    split; [exact Hbase1|]. split.
    { intros _. exists piece. split; [reflexivity|]. now apply Hspec. }
    split; [unfold mono; cbn; lia|]. repeat split. now left.
  - exists (endGame now (set_currentPiece (Some piece) s)). split; [reflexivity|].
    split; [destruct Hbase1; split; cbn in *; assumption|]. split.
    { intros [H|H]; discriminate. }
    split; [unfold mono; cbn; lia|]. repeat split. now right.
Qed.

Lemma spawnNextPiece_base u s : base s -> base (spawnNextPiece config u s).
Proof.
  intros Hb. destruct Hb. split; cbn; try assumption.
  intros p [= <-]. apply createPiece_OK.
Qed.

Lemma scoreLines_step n s :
  base s ->
  base (scoreLines calculateDropSpeed config n s) /\
  mono s (scoreLines calculateDropSpeed config n s) /\
  status (scoreLines calculateDropSpeed config n s) = status s /\
  board (scoreLines calculateDropSpeed config n s) = board s /\
  currentPiece (scoreLines calculateDropSpeed config n s) = currentPiece s /\
  nextPiece (scoreLines calculateDropSpeed config n s) = nextPiece s.
Proof.
  intros Hb. unfold scoreLines. destruct (0 <? n)%nat;
    [|split; [exact Hb|split; [apply mono_refl|now repeat split]]].
  pose proof (calculateScore_nonneg n (level s) None) as Hsc.
  destruct Hb as [H1 H2 H3 H4 H5 H6]. specialize (Hsc ltac:(lia)).
  split; [|split; [|now repeat split]].
  - split; cbn; try assumption; try lia.
    destruct (_ >? _) eqn:E; zbool; lia.
  - unfold mono. cbn. destruct (_ >? _) eqn:E; zbool; lia.
Qed.

(** A step of a method: it returns, keeps [base] and [falling], and
    score, lines and level do not go down. *)
Definition steps (s : TetrisState) (r : Run TetrisState) : Prop :=
  exists s', r = Value s' /\ base s' /\ falling s' /\ mono s s' /\
             (status s' = status s \/ status s' = lost) /\
             (queued s -> queued s').

Lemma steps_same s : base s -> falling s -> steps s (Value s).
Proof.
  intros Hb Hf. exists s. split; [reflexivity|]. split; [exact Hb|].
  split; [exact Hf|]. split; [unfold mono; cbn; lia|]. split; [now left|]. now intros H.
Qed.

Lemma placePiece_step u1 u2 now s :
  base s -> is_Some (currentPiece s) ->
  exists s', placePiece calculateDropSpeed config u1 u2 now s = Value s' /\
             base s' /\ falling s' /\ mono s s' /\
             (status s' = status s \/ status s' = lost) /\
             is_Some (nextPiece s').
Proof.
  intros Hb [piece Hcur]. unfold placePiece. rewrite Hcur.
  destruct (clearCompleteLines (placePieceOnBoard (board s) piece))
    as [newBoard clearedLines] eqn:Hclear.
  assert (Hb1 : base (set_board newBoard s)).
  { destruct Hb as [H1 H2 H3 H4 H5 H6]. split; cbn; try assumption.
    replace newBoard with (fst (clearCompleteLines (placePieceOnBoard (board s) piece)))
      by now rewrite Hclear.
    now apply clearCompleteLines_rect, placePieceOnBoard_rect. }
  destruct (scoreLines_step clearedLines _ Hb1) as (Hb2 & Hm2 & Hst2 & _).
  destruct (spawnNewPiece_step u1 now _ Hb2)
    as (s3 & Hrun & Hb3 & Hf3 & Hm3 & Hn3 & Hbd3 & Hst3).
  rewrite Hrun. cbn [bind].
  exists (spawnNextPiece config u2 s3). split; [reflexivity|].
  split; [now apply spawnNextPiece_base|]. split.
  { intros Hst. destruct (Hf3 Hst) as (p & Hp & Hfit). now exists p. }
  split.
  { apply (mono_trans _ _ _ Hm2) in Hm3. exact Hm3. }
  split; [|now eexists].
  cbn [status spawnNextPiece set_nextPiece]. rewrite Hst2 in Hst3. exact Hst3.
Qed.

Lemma movePieceSide_step dx s : base s -> falling s -> steps s (movePieceSide dx s).
Proof.
  intros Hb Hf. unfold movePieceSide.
  destruct (currentPiece s) as [piece|] eqn:Hcur; [|now apply steps_same].
  destruct (canPlacePiece_spec (board s) (movePiece piece dx 0)
              (position (movePiece piece dx 0)) (base_nonempty s Hb))
    as (r & Hr & Hspec).
  rewrite Hr. destruct r; cbn [whenPlaceable]; [|now apply steps_same].
  eexists. split; [reflexivity|]. split.
  { destruct Hb as [H1 H2 H3 H4 H5 H6]. split; cbn; try assumption.
    intros p [= <-]. now apply movePiece_OK, H2. }
  split.
  { intros _. eexists. split; [reflexivity|]. now apply Hspec. }
  split; [unfold mono; cbn; lia|]. split; [now left|]. intros H. exact H.
Qed.

Lemma movePieceDown_step isPlayerInput u1 u2 now s :
  base s -> falling s ->
  exists s' moved,
    movePieceDown calculateDropSpeed config isPlayerInput u1 u2 now s =
      Value (s', moved) /\
    steps s (Value s').
Proof.
  intros Hb Hf. unfold movePieceDown.
  destruct (currentPiece s) as [piece|] eqn:Hcur;
    [|exists s, false; split; [reflexivity|now apply steps_same]].
  destruct (canPlacePiece_spec (board s) (movePiece piece 0 1)
              (position (movePiece piece 0 1)) (base_nonempty s Hb))
    as (r & Hr & Hspec).
  rewrite Hr. destruct r; cbn [whenPlaceable].
  - eexists _, true. split; [reflexivity|].
    assert (Hb1 : base (set_currentPiece (Some (movePiece piece 0 1)) s)).
    { destruct Hb as [H1 H2 H3 H4 H5 H6]. split; cbn; try assumption.
      intros p [= <-]. now apply movePiece_OK, H2. }
    assert (Hfit : fits (board s) (shape (movePiece piece 0 1))
                     (position (movePiece piece 0 1))) by now apply Hspec.
    eexists. split; [reflexivity|].
    destruct isPlayerInput.
    + split.
      { destruct Hb1 as [H1 H2 H3 H4 H5 H6]. split; cbn in *; try assumption.
        unfold calculateScore, SOFT_DROP. lia. }
      split; [intros _; eexists; split; [reflexivity|exact Hfit]|].
      split; [unfold mono; cbn; unfold calculateScore, SOFT_DROP; lia|].
      split; [now left|]. intros H. exact H.
    + split; [exact Hb1|].
      split; [intros _; eexists; split; [reflexivity|exact Hfit]|].
      split; [unfold mono; cbn; lia|]. split; [now left|]. intros H. exact H.
  - destruct (placePiece_step u1 u2 now s Hb) as (s' & Hrun & Hb' & Hf' & Hm & Hst & Hn);
      [now rewrite Hcur|].
    rewrite Hrun. cbn [bind]. exists s', false. split; [reflexivity|].
    exists s'. split; [reflexivity|]. split; [exact Hb'|]. split; [exact Hf'|].
    split; [exact Hm|]. split; [exact Hst|]. intros _ _. exact Hn.
Qed.

Lemma tryKicks_step s rotated : forall offsets,
  board s <> [] ->
  exists s', tryKicks s rotated offsets = Some s' /\
    (s' = s \/
     exists pos, fits (board s) (shape rotated) pos /\
                 s' = set_currentPiece (Some (set_position pos rotated)) s).
Proof.
  intros offsets Hb. induction offsets as [|offset rest IH]; cbn [tryKicks].
  - exists s. split; [reflexivity|now left].
  - destruct (canPlacePiece_spec (board s) rotated
                {| x := x (position rotated) + x offset;
                   y := y (position rotated) + y offset |} Hb) as (r & Hr & Hspec).
    rewrite Hr. destruct r; [|exact IH].
    eexists. split; [reflexivity|]. right. eexists. split; [|reflexivity].
    now apply Hspec.
Qed.

Lemma rotate_step s :
  base s -> falling s ->
  steps s (match engineRotatePiece s with
           | Some s' => Value s'
           | None => TypeError
           end).
Proof.
  intros Hb Hf. unfold engineRotatePiece.
  destruct (currentPiece s) as [piece|] eqn:Hcur; [|now apply steps_same].
  assert (Hplaced : forall p, pieceOK p -> fits (board s) (shape p) (position p) ->
            steps s (Value (set_currentPiece (Some p) s))).
  { intros p Hok Hfit. eexists. split; [reflexivity|]. split.
    { destruct Hb as [H1 H2 H3 H4 H5 H6]. split; cbn; try assumption.
      now intros q [= <-]. }
    split; [intros _; eexists; split; [reflexivity|exact Hfit]|].
    split; [unfold mono; cbn; lia|]. split; [now left|]. intros H. exact H. }
  destruct (canPlacePiece_spec (board s) (rotatePiece piece)
              (position (rotatePiece piece)) (base_nonempty s Hb)) as (r & Hr & Hspec).
  rewrite Hr. destruct r.
  - apply Hplaced; [apply rotatePiece_OK|now apply Hspec].
  - destruct (tryKicks_step s (rotatePiece piece) kickOffsets (base_nonempty s Hb))
      as (s' & Hrun & [->|(pos & Hfit & ->)]); rewrite Hrun.
    + now apply steps_same.
    + apply Hplaced; [apply set_position_OK, rotatePiece_OK|exact Hfit].
Qed.

Lemma ghostLoop_runs (b : Board) piece :
  b <> [] ->
  forall fuel g,
    ghostLoop fuel b piece g = NoFuel \/ exists gy, ghostLoop fuel b piece g = Value gy.
Proof.
  intros Hb. induction fuel as [|fuel IH]; intros g; [now left|].
  cbn [ghostLoop].
  destruct (canPlacePiece_spec b piece {| x := x (position piece); y := g + 1 |} Hb)
    as (r & Hr & _).
  rewrite Hr. destruct r; cbn [whenPlaceable]; [apply IH|]. right. now exists g.
Qed.

(** [hardDrop] returns when the loop of [getGhostPosition] does. *)
Lemma hardDrop_step fuel u1 u2 now s :
  base s -> falling s ->
  hardDrop calculateDropSpeed config fuel u1 u2 now s = NoFuel \/
  steps s (hardDrop calculateDropSpeed config fuel u1 u2 now s).
Proof.
  intros Hb Hf. unfold hardDrop.
  destruct (currentPiece s) as [piece|] eqn:Hcur; [|right; now apply steps_same].
  unfold getGhostPosition.
  destruct (ghostLoop_runs (board s) piece (base_nonempty s Hb) fuel
              (y (position piece))) as [Hrun|[gy Hrun]];
    rewrite Hrun; cbn [bind]; [now left|right].
  destruct (ghostLoop_value (board s) piece (base_nonempty s Hb) _ _ _ Hrun)
    as [Hle _].
  set (s2 := add_score _ _).
  assert (Hb2 : base s2).
  { subst s2. destruct Hb as [H1 H2 H3 H4 H5 H6]. split; cbn; try assumption.
    - intros p [= <-]. now apply set_position_OK, H2.
    - unfold calculateScore, HARD_DROP. nia. }
  assert (Hm2 : mono s s2).
  { subst s2. unfold mono. cbn. unfold calculateScore, HARD_DROP. nia. }
  destruct (placePiece_step u1 u2 now s2 Hb2) as (s' & Hrun' & Hb' & Hf' & Hm & Hst & Hn);
    [subst s2; cbn; now eexists|].
  rewrite Hrun'. exists s'. split; [reflexivity|]. split; [exact Hb'|].
  split; [exact Hf'|]. split; [apply (mono_trans _ _ _ Hm2 Hm)|].
  split; [exact Hst|]. intros _ _. exact Hn.
Qed.

Lemma hardDrop_returns fuel u1 u2 now s :
  base s -> falling s -> (boardHeight config < fuel)%nat ->
  steps s (hardDrop calculateDropSpeed config fuel u1 u2 now s).
Proof.
  intros Hb Hf Hfuel.
  destruct (hardDrop_step fuel u1 u2 now s Hb Hf) as [Hno|Hok]; [|exact Hok].
  exfalso. unfold hardDrop in Hno.
  destruct (currentPiece s) as [piece|] eqn:Hcur; [|discriminate].
  destruct (pieceOK_filled piece (base_current s Hb piece Hcur)) as (row & col & Hfill).
  destruct (getGhostPosition_runs fuel (board s) piece row col (base_nonempty s Hb) Hfill)
    as (gy & Hrun & Hle & _).
  { destruct (base_board s Hb) as [-> _]. exact Hfuel. }
  rewrite Hrun in Hno. cbn [bind] in Hno.
  set (s2 := add_score _ _) in Hno.
  assert (Hb2 : base s2).
  { subst s2. destruct Hb as [H1 H2 H3 H4 H5 H6]. split; cbn; try assumption.
    - intros p [= <-]. now apply set_position_OK, H2.
    - unfold calculateScore, HARD_DROP. nia. }
  destruct (placePiece_step u1 u2 now s2 Hb2) as (s' & Hrun' & _);
    [subst s2; cbn; now eexists|].
  rewrite Hrun' in Hno. discriminate.
Qed.

Lemma handleInput_step fuel action u1 u2 now s :
  base s -> falling s ->
  handleInput calculateDropSpeed config fuel action u1 u2 now s = NoFuel \/
  steps s (handleInput calculateDropSpeed config fuel action u1 u2 now s).
Proof.
  intros Hb Hf. unfold handleInput.
  destruct (status s) eqn:Hst; try (right; now apply steps_same).
  destruct (currentPiece s) as [piece|] eqn:Hcur; [|right; now apply steps_same].
  destruct action.
  - right. now apply movePieceSide_step.
  - right. now apply movePieceSide_step.
  - right. destruct (movePieceDown_step true u1 u2 now s Hb Hf) as (s' & moved & Hrun & Hs).
    rewrite Hrun. exact Hs.
  - right. exact (rotate_step s Hb Hf).
  - exact (hardDrop_step fuel u1 u2 now s Hb Hf).
Qed.

Lemma handleInput_returns fuel action u1 u2 now s :
  base s -> falling s -> (boardHeight config < fuel)%nat ->
  steps s (handleInput calculateDropSpeed config fuel action u1 u2 now s).
Proof.
  intros Hb Hf Hfuel.
  destruct (handleInput_step fuel action u1 u2 now s Hb Hf) as [Hno|Hok]; [|exact Hok].
  exfalso. unfold handleInput in Hno.
  destruct (status s) eqn:Hst; try discriminate.
  destruct (currentPiece s) as [piece|] eqn:Hcur; [|discriminate].
  destruct action.
  - destruct (movePieceSide_step (-1) s Hb Hf) as (s' & Hrun & _).
    unfold movePieceLeft in Hno. rewrite Hrun in Hno. discriminate.
  - destruct (movePieceSide_step 1 s Hb Hf) as (s' & Hrun & _).
    unfold movePieceRight in Hno. rewrite Hrun in Hno. discriminate.
  - destruct (movePieceDown_step true u1 u2 now s Hb Hf) as (s' & moved & Hrun & _).
    rewrite Hrun in Hno. discriminate.
  - destruct (engineRotatePiece s); discriminate.
  - destruct (hardDrop_returns fuel u1 u2 now s Hb Hf Hfuel) as (s' & Hrun & _).
    rewrite Hrun in Hno. discriminate.
Qed.

Lemma tick_step u1 u2 now s :
  base s -> falling s ->
  steps s (tick calculateDropSpeed config u1 u2 now s).
Proof.
  intros Hb Hf. unfold tick.
  destruct (status s) eqn:Hst; try now apply steps_same.
  destruct (Qle_bool _ _); [|now apply steps_same].
  destruct (movePieceDown_step false u1 u2 now s Hb Hf)
    as (s' & moved & Hrun & (s'' & [= <-] & Hb' & Hf' & Hm & Hst' & Hq)).
  rewrite Hrun. cbn [bind fst].
  eexists. split; [reflexivity|]. split.
  { destruct Hb' as [H1 H2 H3 H4 H5 H6]. split; cbn; assumption. }
  split; [exact Hf'|]. split; [exact Hm|]. split; [exact Hst'|]. exact Hq.
Qed.

Lemma start_step u1 u2 now s :
  inv s -> exists s', start config u1 u2 now s = Value s' /\ inv s' /\ mono s s'.
Proof.
  intros (Hb & Hf & Hq). unfold start.
  destruct (status s) eqn:Hst;
    try (exists s; split; [reflexivity|];
         split; [exact (conj Hb (conj Hf Hq))|apply mono_refl]).
  set (s1 := {| status := playing; board := board s |}).
  assert (Hb1 : base s1).
  { subst s1. destruct Hb as [H1 H2 H3 H4 H5 H6]. split; cbn; assumption. }
  destruct (spawnNewPiece_step u1 now s1 Hb1)
    as (s2 & Hrun & Hb2 & Hf2 & Hm2 & _ & _ & Hst2).
  rewrite Hrun. cbn [bind].
  exists (spawnNextPiece config u2 s2). split; [reflexivity|]. split.
  - split; [now apply spawnNextPiece_base|]. split.
    + intros H. destruct (Hf2 H) as (p & Hp & Hfit). now exists p.
    + intros _. cbn. now eexists.
  - exact Hm2.
Qed.

Lemma pause_inv s : inv s -> inv (pause s).
Proof.
  intros (Hb & Hf & Hq). unfold pause.
  destruct (status s) eqn:Hst; try exact (conj Hb (conj Hf Hq)).
  split; [|split].
  - destruct Hb as [H1 H2 H3 H4 H5 H6]. split; cbn; assumption.
  - intros _. apply Hf. left. exact Hst.
  - intros _. apply Hq. rewrite Hst. discriminate.
Qed.

Lemma resume_inv now s : inv s -> inv (resume now s).
Proof.
  intros (Hb & Hf & Hq). unfold resume.
  destruct (status s) eqn:Hst; try exact (conj Hb (conj Hf Hq)).
  split; [|split].
  - destruct Hb as [H1 H2 H3 H4 H5 H6]. split; cbn; assumption.
  - intros _. apply Hf. right. exact Hst.
  - intros _. apply Hq. rewrite Hst. discriminate.
Qed.

Lemma steps_inv s r s' : inv s -> steps s r -> r = Value s' -> inv s' /\ mono s s'.
Proof.
  intros (Hb & Hf & Hq) (s'' & -> & Hb' & Hf' & Hm & _ & Hq') [= <-].
  split; [|exact Hm]. split; [exact Hb'|]. split; [exact Hf'|]. now apply Hq'.
Qed.

Lemma reachable_inv s : reachable calculateDropSpeed config s -> inv s.
Proof.
  induction 1 as [|s u1 u2 now s' _ IH Hrun|s _ IH|s now _ IH|s _ _
                 |s fuel action u1 u2 now s' _ IH Hrun|s u1 u2 now s' _ IH Hrun].
  - apply createInitialState_inv.
  - destruct (start_step u1 u2 now s IH) as (s'' & Hrun' & Hinv & _).
    rewrite Hrun' in Hrun. now injection Hrun as <-.
  - now apply pause_inv.
  - now apply resume_inv.
  - apply createInitialState_inv.
  - destruct IH as (Hb & Hf & Hq).
    destruct (handleInput_step fuel action u1 u2 now s Hb Hf) as [Hno|Hs];
      [rewrite Hno in Hrun; discriminate|].
    apply (steps_inv s _ s' (conj Hb (conj Hf Hq)) Hs Hrun).
  - destruct IH as (Hb & Hf & Hq).
    apply (steps_inv s _ s' (conj Hb (conj Hf Hq)) (tick_step u1 u2 now s Hb Hf) Hrun).
Qed.

(** X5. In every state that the engine reaches with a board that has
    rows, the board has the rows and columns of the configuration;
    while the game is in play or paused there is a current piece, in
    one of the rotation states of its type, all of whose filled cells
    lie on empty cells of the board; a started game has a next piece;
    the level is 1 at least, and score and lines are not negative. *)
Theorem reachable_piece_on_board (s : TetrisState) :
  reachable calculateDropSpeed config s ->
  Grid.rect (boardHeight config) (boardWidth config) (board s) /\
  (status s = playing \/ status s = paused ->
   exists p, currentPiece s = Some p /\ pieceOK p /\
             fits (board s) (shape p) (position p)) /\
  (status s <> idle -> exists q, nextPiece s = Some q /\ pieceOK q) /\
  1 <= level s /\ 0 <= score s /\ 0 <= lines s.
Proof.
  intros Hreach. destruct (reachable_inv s Hreach) as (Hb & Hf & Hq).
  split; [apply Hb|]. split; [|split; [|repeat split; apply Hb]].
  - intros Hst. destruct (Hf Hst) as (p & Hp & Hfit).
    exists p. split; [exact Hp|]. split; [|exact Hfit]. now apply (base_current s Hb).
  - intros Hst. destruct (Hq Hst) as [q Hn].
    exists q. split; [exact Hn|]. now apply (base_next s Hb).
Qed.

(** X6. In a state that the engine reaches with a board that has rows,
    no input, no round of the game loop and no start raises a
    [TypeError]; with more fuel than the board has rows, every input
    returns, the hard drop included. *)
Theorem engine_calls_return (s : TetrisState) (fuel : nat) (action : Action)
        (u1 u2 : Random.Sample) (now : Z) :
  reachable calculateDropSpeed config s ->
  handleInput calculateDropSpeed config fuel action u1 u2 now s <> TypeError /\
  ((boardHeight config < fuel)%nat ->
   exists s', handleInput calculateDropSpeed config fuel action u1 u2 now s = Value s') /\
  (exists s', tick calculateDropSpeed config u1 u2 now s = Value s') /\
  (exists s', start config u1 u2 now s = Value s').
Proof.
  intros Hreach. pose proof (reachable_inv s Hreach) as Hinv.
  destruct Hinv as (Hb & Hf & Hq). split; [|split; [|split]].
  - destruct (handleInput_step fuel action u1 u2 now s Hb Hf) as [->|(s' & -> & _)];
      discriminate.
  - intros Hfuel.
    destruct (handleInput_returns fuel action u1 u2 now s Hb Hf Hfuel) as (s' & Hrun & _).
    now exists s'.
  - destruct (tick_step u1 u2 now s Hb Hf) as (s' & Hrun & _). now exists s'.
  - destruct (start_step u1 u2 now s (conj Hb (conj Hf Hq))) as (s' & Hrun & _).
    now exists s'.
Qed.


End Engine.

(** ** A new game *)

Lemma createEmptyBoard_get width height r c :
  (r < height)%nat -> (c < width)%nat ->
  Grid.get (createEmptyBoard width height) r c = Some None.
Proof.
  intros Hr Hc. unfold Grid.get, createEmptyBoard.
  rewrite lookup_replicate_2 by exact Hr. now apply lookup_replicate_2.
Qed.

(** A new piece lies on an empty board that is 4 wide and 2 high at
    least. *)
Lemma createPiece_fits t width height :
  (4 <= width)%nat -> (2 <= height)%nat ->
  fits (createEmptyBoard width height) (shape (createPiece t width))
       (position (createPiece t width)).
Proof.
  intros Hw Hh row col Hf.
  destruct (pieceOK_block _ row col (createPiece_OK t width) Hf) as [Hrow Hcol].
  unfold occupiable.
  rewrite (rect_width height width _ (createEmptyBoard_rect width height)) by lia.
  unfold createEmptyBoard at 1. rewrite length_replicate.
  assert (Hpos : 0 <= x (position (createPiece t width)) + Z.of_nat col < Z.of_nat width /\
                 0 <= y (position (createPiece t width)) + Z.of_nat row < Z.of_nat height).
  { unfold filled, Grid.get in Hf. cbn [createPiece position x y shape] in *.
    destruct t; cbn [PIECE_SHAPES lookup list_lookup default length] in *.
    all: do 4 (try (destruct row as [|row]; [|try lia])).
    all: do 4 (try (destruct col as [|col]; [|try lia])).
    all: cbn in Hf; try discriminate Hf.
    all: cbn -[Z.div Z.of_nat Z.sub Z.add].
    all: match goal with
         | |- context [?a / 2] =>
             pose proof (Z.div_mod a 2 ltac:(lia));
             pose proof (Z.mod_pos_bound a 2 ltac:(lia))
         end; lia. }
  destruct Hpos as [Hx Hy]. split; [exact Hx|]. split; [exact Hy|].
  rewrite GridFacts.getZ_get by lia. apply createEmptyBoard_get; lia.
Qed.

(** X8. On a board that is 4 wide and 2 high at least, [start] on a new
    engine returns with the game in play on the empty board, whatever the
    random samples: the current piece is a new piece of one of the seven
    types at its spawn position, where it fits, the next piece is a new
    piece too, score and lines are 0, the level is 1 and the start time
    is the time of the call. *)
Theorem start_begins_play (config : GameConfig) (u1 u2 : Random.Sample) (now : Z) :
  (4 <= boardWidth config)%nat -> (2 <= boardHeight config)%nat ->
  exists s' t1 t2,
    start config u1 u2 now (createInitialState config) = Value s' /\
    status s' = playing /\
    board s' = createEmptyBoard (boardWidth config) (boardHeight config) /\
    currentPiece s' = Some (createPiece t1 (boardWidth config)) /\
    nextPiece s' = Some (createPiece t2 (boardWidth config)) /\
    fits (board s') (shape (createPiece t1 (boardWidth config)))
         (position (createPiece t1 (boardWidth config))) /\
    score s' = 0 /\ lines s' = 0 /\ level s' = 1 /\ startTime s' = Some now /\
    endTime s' = None.
Proof.
  intros Hw Hh.
  pose proof (createPiece_fits (getRandomPieceType u1) _ _ Hw Hh) as Hfit.
  unfold start, spawnNewPiece, isGameOver.
  cbn [createInitialState status nextPiece board set_currentPiece].
  assert (Hne : createEmptyBoard (boardWidth config) (boardHeight config) <> []).
  { apply (rect_nonempty (boardHeight config) (boardWidth config));
      [apply createEmptyBoard_rect|lia]. }
  rewrite (canPlacePiece_true _ _ _ Hne Hfit).
  cbn [fmap option_fmap option_map negb bind].
  eexists. exists (getRandomPieceType u1), (getRandomPieceType u2).
  split; [reflexivity|].
  cbn [status board currentPiece nextPiece score lines level startTime endTime
       spawnNextPiece set_nextPiece set_currentPiece].
  do 4 (split; [reflexivity|]). split; [exact Hfit|]. now repeat split.
Qed.

Lemma start_begins_play_witness :
  exists s',
    start DEFAULT_CONFIG {| Random.num := 2; Random.gap := 2 |}
          {| Random.num := 5; Random.gap := 1 |} 7 (createInitialState DEFAULT_CONFIG) =
      Value s' /\
    status s' = playing /\
    exists t1 t2, currentPiece s' = Some (createPiece t1 10) /\
                  nextPiece s' = Some (createPiece t2 10).
Proof.
  destruct (start_begins_play DEFAULT_CONFIG {| Random.num := 2; Random.gap := 2 |}
              {| Random.num := 5; Random.gap := 1 |} 7)
    as (s' & t1 & t2 & Hrun & Hst & _ & Hc & Hn & _); [cbn; lia|cbn; lia|].
  exists s'. split; [exact Hrun|]. split; [exact Hst|].
  exists t1, t2. split; [exact Hc|exact Hn].
Defined.

(** ** A short game *)

(** A speed function that keeps the initial speed. *)
Definition steadySpeed : Z -> Q -> Q -> Q := fun _ initialSpeed _ => initialSpeed.

Definition drawT : Random.Sample := {| Random.num := 2; Random.gap := 2 |}.
Definition drawJ : Random.Sample := {| Random.num := 5; Random.gap := 1 |}.

Definition valueOr {A : Type} (d : A) (r : Run A) : A :=
  match r with
  | Value a => a
  | _ => d
  end.

(** A new game with a T piece falling and a J piece next. *)
Definition startedGame : TetrisState :=
  valueOr (createInitialState DEFAULT_CONFIG)
          (start DEFAULT_CONFIG drawT drawJ 7 (createInitialState DEFAULT_CONFIG)).


Lemma startedGame_reachable : reachable steadySpeed DEFAULT_CONFIG startedGame.
Proof.
  apply (reach_start steadySpeed DEFAULT_CONFIG (createInitialState DEFAULT_CONFIG)
           drawT drawJ 7).
  - apply reach_new.
  - reflexivity.
Qed.


Lemma default_height : (0 < boardHeight DEFAULT_CONFIG)%nat.
Proof. cbn. lia. Qed.

Lemma reachable_piece_on_board_witness :
  reachable steadySpeed DEFAULT_CONFIG startedGame /\
  Grid.rect 20 10 (board startedGame) /\
  exists p, currentPiece startedGame = Some p /\
            fits (board startedGame) (shape p) (position p).
Proof.
  split; [exact startedGame_reachable|].
  destruct (reachable_piece_on_board steadySpeed DEFAULT_CONFIG default_height
              startedGame startedGame_reachable) as (Hrect & Hfall & _).
  split; [exact Hrect|].
  destruct Hfall as (p & Hp & _ & Hfit); [left; reflexivity|].
  exists p. split; [exact Hp|exact Hfit].
Defined.

Lemma engine_calls_return_witness :
  reachable steadySpeed DEFAULT_CONFIG startedGame /\
  exists s', handleInput steadySpeed DEFAULT_CONFIG 21 HardDrop drawT drawT 9 startedGame =
             Value s'.
Proof.
  split; [exact startedGame_reachable|].
  destruct (engine_calls_return steadySpeed DEFAULT_CONFIG default_height
              startedGame 21 HardDrop drawT drawT 9 startedGame_reachable)
    as (_ & Hret & _).
  apply Hret. cbn. lia.
Defined.


(** ** Lines, level and speed *)

Section Levels.

Variable calculateDropSpeed : Z -> Q -> Q -> Q.
Variable config : GameConfig.
Hypothesis Hlines : 0 < linesPerLevel config.



















End Levels.


End TetrisEngineProofs.

(** * Counted loops *)

Module LoopFacts.

Lemma forRange_S {S : Type} (n : nat) (body : nat -> S -> S) (s : S) :
  forRange (Datatypes.S n) body s = body n (forRange n body s).
Proof.
  unfold forRange. rewrite seq_S, fold_left_app. reflexivity.
Qed.

(** The invariant rule of a counted loop. *)
Lemma forRange_ind {S : Type} (P : nat -> S -> Prop) (n : nat)
      (body : nat -> S -> S) (s : S) :
  P 0%nat s ->
  (forall i st, (i < n)%nat -> P i st -> P (Datatypes.S i) (body i st)) ->
  P n (forRange n body s).
Proof.
  intros H0 Hstep. induction n as [|n IH].
  - exact H0.
  - rewrite forRange_S. apply Hstep; [lia|]. apply IH.
    intros i st Hi. apply Hstep. lia.
Qed.

End LoopFacts.

(** * The tile-merge engine: merging, moves, history and tile values *)

Module Game2048Proofs.
Import Game2048 LoopFacts.

Local Open Scope Z_scope.

(** ** The merge of one line, as the specification words it *)

(** One pass from left to right over a line without zeros: an element
    that equals its right neighbour is merged with it, and neither of
    the two takes part in another merge; the merged values are added
    up. *)
Fixpoint mergePairs (l : list Z) : list Z * Z :=
  match l with
  | a :: ((b :: r) as t) =>
      if a =? b
      then let '(m, s) := mergePairs r in ((a + b) :: m, a + b + s)
      else let '(m, s) := mergePairs t in (a :: m, s)
  | _ => (l, 0)
  end.

(** Zeros are removed, the pairs are merged, zeros are removed again and
    the line is padded with zeros to its length. *)
Definition mergeLineSpec (line : list Z) : list Z * Z :=
  let '(m, s) := mergePairs (filter (fun v => v <> 0) line) in
  let result := filter (fun v => v <> 0) m in
  (result ++ replicate (length line - length result) 0, s).

(** The array and the score that the merge loop leaves when it starts
    at an element [a] that is followed by [r]. *)
Fixpoint scanFrom (a : Z) (r : list Z) : list Z * Z :=
  match r with
  | [] => ([a], 0)
  | b :: r' =>
      if a =? b
      then let '(t, s) := scanFrom 0 r' in ((a * 2) :: t, a * 2 + s)
      else let '(t, s) := scanFrom b r' in (a :: t, s)
  end.

Lemma mergeLoop_scanFrom r : forall pre a sc,
  fold_left (fun acc i => mergeStep i acc) (seq (length pre) (length r))
    (pre ++ a :: r, sc) =
  (pre ++ fst (scanFrom a r), sc + snd (scanFrom a r)).
Proof.
  induction r as [|b r IH]; intros pre a sc.
  - cbn. f_equal. lia.
  - cbn [length seq fold_left scanFrom].
    unfold mergeStep at 2.
    rewrite lookup_app_r by lia. rewrite Nat.sub_diag. cbn [lookup list_lookup].
    rewrite lookup_app_r by lia.
    replace (length pre + 1 - length pre)%nat with 1%nat by lia. cbn [lookup list_lookup].
    destruct (a =? b) eqn:E.
    + rewrite insert_app_r_alt by lia. rewrite Nat.sub_diag. cbn [insert list_insert].
      rewrite insert_app_r_alt by lia.
      replace (length pre + 1 - length pre)%nat with 1%nat by lia. cbn [insert list_insert].
      specialize (IH (pre ++ [a * 2]) 0 (sc + a * 2)).
      rewrite length_app, Nat.add_1_r in IH. cbn [length] in IH.
      rewrite <- app_assoc in IH. cbn [app] in IH. rewrite IH.
      destruct (scanFrom 0 r) as [t s]. cbn [fst snd].
      rewrite <- app_assoc. cbn [app]. f_equal. lia.
    + specialize (IH (pre ++ [a]) b sc).
      rewrite length_app, Nat.add_1_r in IH. cbn [length] in IH.
      rewrite <- app_assoc in IH. cbn [app] in IH. rewrite IH.
      destruct (scanFrom b r) as [t s]. cbn [fst snd].
      rewrite <- app_assoc. reflexivity.
Qed.

Lemma mergePairs_cons2 a b r :
  mergePairs (a :: b :: r) =
  if a =? b
  then ((a + b) :: fst (mergePairs r), a + b + snd (mergePairs r))
  else (a :: fst (mergePairs (b :: r)), snd (mergePairs (b :: r))).
Proof.
  change (mergePairs (a :: b :: r)) with
    (if a =? b
     then let '(m, s) := mergePairs r in ((a + b) :: m, a + b + s)
     else let '(m, s) := mergePairs (b :: r) in (a :: m, s)).
  destruct (a =? b); [destruct (mergePairs r)|destruct (mergePairs (b :: r))];
    reflexivity.
Qed.

Lemma scanFrom_mergePairs r :
  Forall (fun v => v <> 0) r ->
  (forall a, a <> 0 ->
     filter (fun v => v <> 0) (fst (scanFrom a r)) =
     filter (fun v => v <> 0) (fst (mergePairs (a :: r))) /\
     snd (scanFrom a r) = snd (mergePairs (a :: r))) /\
  (filter (fun v => v <> 0) (fst (scanFrom 0 r)) =
   filter (fun v => v <> 0) (fst (mergePairs r)) /\
   snd (scanFrom 0 r) = snd (mergePairs r)).
Proof.
  induction 1 as [|b r Hb Hr [IHa IH0]].
  - split; [intros a Ha|]; cbn; [|split; reflexivity].
    split; reflexivity.
  - split.
    + intros a Ha. cbn [scanFrom]. rewrite mergePairs_cons2.
      destruct (a =? b) eqn:E.
      * apply Z.eqb_eq in E. subst b.
        destruct IH0 as [IHf IHs].
        destruct (scanFrom 0 r) as [t s]. cbn [fst snd] in *.
        replace (a * 2) with (a + a) by lia.
        rewrite !filter_cons. destruct (decide (a + a <> 0)); [|lia].
        split; [now f_equal|lia].
      * destruct (IHa b Hb) as [IHf IHs].
        destruct (scanFrom b r) as [t s]. cbn [fst snd] in *.
        rewrite !filter_cons. destruct (decide (a <> 0)); [|contradiction].
        split; [now f_equal|exact IHs].
    + cbn [scanFrom].
      destruct (0 =? b) eqn:E; [apply Z.eqb_eq in E; congruence|].
      destruct (IHa b Hb) as [IHf IHs].
      destruct (scanFrom b r) as [t s]. cbn [fst snd] in *.
      rewrite filter_cons. destruct (decide (0 <> 0)); [contradiction|].
      split; assumption.
Qed.

Lemma filter_nonzero_Forall (l : list Z) :
  Forall (fun v => v <> 0) (filter (fun v => v <> 0) l).
Proof.
  apply Forall_forall. intros v Hin.
  apply list_elem_of_In, list_elem_of_filter in Hin. tauto.
Qed.

(** The merge loop of the source computes the merge of the
    specification. *)
Lemma mergeLine_refines (line : list Z) : mergeLine line = mergeLineSpec line.
Proof.
  unfold mergeLine, mergeLineSpec.
  pose proof (filter_nonzero_Forall line) as Hnz.
  destruct (filter (fun v => v <> 0) line) as [|a r] eqn:Hf.
  - reflexivity.
  - apply Forall_cons_1 in Hnz as [Ha Hr].
    cbn [length]. rewrite Nat.sub_succ, Nat.sub_0_r.
    unfold forRange.
    pose proof (mergeLoop_scanFrom r [] a 0) as Hloop.
    cbn [length app] in Hloop. rewrite Hloop.
    destruct (scanFrom_mergePairs r Hr) as [Hscan _].
    destruct (Hscan a Ha) as [Hfil Hsc].
    destruct (mergePairs (a :: r)) as [m s]. cbn [fst snd] in *.
    rewrite Hfil, Hsc. f_equal.
Qed.

(** ** Lists read by index *)

Lemma rev_lookup {A} (l : list A) (i : nat) :
  (i < length l)%nat -> rev l !! i = l !! (length l - S i)%nat.
Proof.
  intros Hi. rewrite rev_alt. change (rev_append l []) with (reverse l).
  now apply reverse_lookup.
Qed.

Lemma list_as_map {A} (d : A) (l : list A) :
  l = map (fun k => default d (l !! k)) (seq 0 (length l)).
Proof.
  apply list_eq. intros i.
  change (map ?f ?x) with (f <$> x). rewrite list_lookup_fmap.
  destruct (decide (i < length l)%nat) as [Hi|Hi].
  - rewrite lookup_seq_lt by exact Hi. cbn.
    destruct (lookup_lt_is_Some_2 l i Hi) as [a Ha]. now rewrite Ha.
  - rewrite (lookup_ge_None_2 l) by lia.
    rewrite (lookup_ge_None_2 (seq 0 (length l))) by (rewrite length_seq; lia).
    reflexivity.
Qed.

Lemma rev_seq_map (n : nat) :
  rev (seq 0 n) = map (fun k => (n - 1 - k)%nat) (seq 0 n).
Proof.
  apply list_eq. intros i.
  change (map ?f ?x) with (f <$> x). rewrite list_lookup_fmap.
  destruct (decide (i < n)%nat) as [Hi|Hi].
  - rewrite rev_lookup by (rewrite length_seq; exact Hi).
    rewrite length_seq, !lookup_seq_lt by lia. cbn. f_equal. lia.
  - rewrite (lookup_ge_None_2 (rev _)) by (rewrite length_rev, length_seq; lia).
    rewrite (lookup_ge_None_2 (seq 0 n)) by (rewrite length_seq; lia).
    reflexivity.
Qed.

Definition sumZ (l : list Z) : Z := fold_right Z.add 0 l.

Lemma sumZ_snoc l a : sumZ (l ++ [a]) = sumZ l + a.
Proof.
  induction l as [|b l IH]; [cbn; lia|].
  change (sumZ ((b :: l) ++ [a])) with (b + sumZ (l ++ [a])).
  change (sumZ (b :: l)) with (b + sumZ l). rewrite IH. lia.
Qed.

(** ** Boards of the right size *)

Definition wf (size : nat) (b : Board) : Prop := Grid.rect size size b.

Lemma wf_get size b r c :
  wf size b -> (r < size)%nat -> (c < size)%nat -> is_Some (Grid.get b r c).
Proof. intros Hwf Hr Hc. now apply (GridFacts.get_is_Some_rect size size). Qed.

Lemma wf_update size f r c b : wf size b -> wf size (Grid.update f r c b).
Proof. apply GridFacts.rect_update. Qed.

Lemma valueAt_update f r c b r' c' :
  (forall cell, value (f cell) = value cell) ->
  valueAt (Grid.update f r c b) r' c' = valueAt b r' c'.
Proof.
  intros Hf. unfold valueAt. rewrite GridFacts.get_update.
  destruct (decide _); [|reflexivity].
  destruct (Grid.get b r' c'); cbn; [apply Hf|reflexivity].
Qed.

Lemma valueAt_setValue size b r c v r' c' :
  wf size b -> (r < size)%nat -> (c < size)%nat ->
  valueAt (setValue b r c v) r' c' =
  if decide ((r, c) = (r', c')) then v else valueAt b r' c'.
Proof.
  intros Hwf Hr Hc. unfold valueAt, setValue. rewrite GridFacts.get_update.
  destruct (decide _) as [Heq|]; [|reflexivity].
  inversion Heq; subst.
  destruct (wf_get size b r' c' Hwf Hr Hc) as [cell Hcell]. now rewrite Hcell.
Qed.

Lemma rowValues_wf size b r :
  wf size b -> (r < size)%nat ->
  rowValues b r = map (fun k => valueAt b r k) (seq 0 size).
Proof.
  intros [Hh Hw] Hr. unfold rowValues, valueAt, Grid.get.
  destruct (lookup_lt_is_Some_2 b r) as [line Hline]; [lia|].
  rewrite Hline. cbn [default from_option id].
  assert (Hlen : length line = size).
  { rewrite Forall_forall in Hw. apply Hw, list_elem_of_In.
    eapply list_elem_of_lookup_2; eauto. }
  apply list_eq. intros i.
  change (map ?f ?x) with (f <$> x). rewrite !list_lookup_fmap.
  destruct (decide (i < size)%nat) as [Hi|Hi].
  - rewrite lookup_seq_lt by exact Hi. cbn.
    destruct (lookup_lt_is_Some_2 line i) as [cell Hcell]; [lia|]. now rewrite Hcell.
  - rewrite (lookup_ge_None_2 line) by lia.
    rewrite (lookup_ge_None_2 (seq 0 size)) by (rewrite length_seq; lia).
    reflexivity.
Qed.

(** ** Writing one line *)

Lemma writeLine_spec size at_ nl b :
  wf size b ->
  (forall k, (k < size)%nat -> (fst (at_ k) < size)%nat /\ (snd (at_ k) < size)%nat) ->
  (forall k k', (k < size)%nat -> (k' < size)%nat -> at_ k = at_ k' -> k = k') ->
  wf size (writeLine size at_ nl b) /\
  (forall k, (k < size)%nat ->
     valueAt (writeLine size at_ nl b) (fst (at_ k)) (snd (at_ k)) = default 0 (nl !! k)) /\
  (forall r c, (forall k, (k < size)%nat -> at_ k <> (r, c)) ->
     valueAt (writeLine size at_ nl b) r c = valueAt b r c).
Proof.
  intros Hwf Hrange Hinj. unfold writeLine.
  apply (forRange_ind (fun j b' =>
    wf size b' /\
    (forall k, (k < j)%nat ->
       valueAt b' (fst (at_ k)) (snd (at_ k)) = default 0 (nl !! k)) /\
    (forall r c, (forall k, (k < j)%nat -> at_ k <> (r, c)) ->
       valueAt b' r c = valueAt b r c))).
  - split; [exact Hwf|]. split; [intros k Hk; lia|]. reflexivity.
  - intros j b' Hj (Hwf' & Hhit & Hmiss).
    destruct (Hrange j Hj) as [Hr Hc].
    split; [now apply wf_update|]. split.
    + intros k Hk. rewrite (valueAt_setValue size) by assumption.
      destruct (decide _) as [Heq|Hne].
      * rewrite <- surjective_pairing in Heq.
        assert (Heq' : at_ j = at_ k).
        { rewrite (surjective_pairing (at_ k)). exact Heq. }
        apply Hinj in Heq'; [subst; reflexivity|lia|lia].
      * apply Hhit. destruct (decide (k = j)) as [->|]; [|lia].
        exfalso. apply Hne. reflexivity.
    + intros r c Hnot. rewrite (valueAt_setValue size) by assumption.
      destruct (decide _) as [Heq|Hne].
      * exfalso. apply (Hnot j); [lia|].
        rewrite (surjective_pairing (at_ j)). exact Heq.
      * apply Hmiss. intros k Hk. apply Hnot. lia.
Qed.

(** ** The length of a merged line *)

Lemma mergeLine_length line : length (fst (mergeLine line)) = length line.
Proof.
  rewrite mergeLine_refines. unfold mergeLineSpec.
  assert (Hle : forall l, (length (fst (mergePairs l)) <= length l)%nat).
  { intros l. remember (length l) as n eqn:Hn.
    revert l Hn. induction n as [n IH] using lt_wf_ind. intros l Hn.
    destruct l as [|a [|b r]]; [subst n; cbn; lia|subst n; cbn; lia|].
    rewrite mergePairs_cons2. cbn [length] in Hn.
    destruct (a =? b); cbn [fst length].
    - specialize (IH (length r) ltac:(lia) r eq_refl). lia.
    - specialize (IH (length (b :: r)) ltac:(cbn; lia) (b :: r) eq_refl).
      cbn [length] in IH. lia. }
  specialize (Hle (filter (fun v => v <> 0) line)).
  destruct (mergePairs (filter (fun v => v <> 0) line)) as [m s]. cbn [fst] in *.
  rewrite length_app, length_replicate.
  pose proof (length_filter (fun v => v <> 0) m).
  pose proof (length_filter (fun v => v <> 0) line). lia.
Qed.

(** ** The loop over the lines of the board *)

Section Lines.
Variable size : nat.
(** How a move reads line [i], where it writes element [k] of the
    line it has merged, and what it does to the merged line before
    it writes it. *)
Variable read : Board -> nat -> list Z.
Variable at_ : nat -> nat -> nat * nat.
Variable post : list Z -> list Z.
(** The cell that holds element [k] of line [i]. *)
Variable coord : nat -> nat -> nat * nat.

Hypothesis at_range : forall i k, (i < size)%nat -> (k < size)%nat ->
  (fst (at_ i k) < size)%nat /\ (snd (at_ i k) < size)%nat.
Hypothesis at_inj : forall i i' k k',
  (i < size)%nat -> (i' < size)%nat -> (k < size)%nat -> (k' < size)%nat ->
  at_ i k = at_ i' k' -> i = i' /\ k = k'.
Hypothesis read_coord : forall b i, wf size b -> (i < size)%nat ->
  read b i = map (fun k => valueAt b (fst (coord i k)) (snd (coord i k))) (seq 0 size).
Hypothesis post_coord : forall nl i k,
  length nl = size -> (i < size)%nat -> (k < size)%nat ->
  exists k', (k' < size)%nat /\ at_ i k' = coord i k /\ post nl !! k' = nl !! k.

Definition lineOf (b : Board) (i : nat) : list Z :=
  map (fun k => valueAt b (fst (coord i k)) (snd (coord i k))) (seq 0 size).

Definition linesLoop (b : Board) : Board * Z :=
  forRange size
    (fun i '(b, total) =>
       let line := read b i in
       let '(newLine, sc) := mergeLine line in
       (writeLine size (at_ i) (post newLine) b, total + sc))
    (b, 0).

Lemma linesLoop_spec b :
  wf size b ->
  wf size (fst (linesLoop b)) /\
  (forall i k, (i < size)%nat -> (k < size)%nat ->
     valueAt (fst (linesLoop b)) (fst (coord i k)) (snd (coord i k)) =
     default 0 (fst (mergeLine (lineOf b i)) !! k)) /\
  snd (linesLoop b) =
  sumZ (map (fun i => snd (mergeLine (lineOf b i))) (seq 0 size)).
Proof.
  intros Hwf. unfold linesLoop.
  match goal with |- context [forRange size ?body ?s] =>
    set (final := forRange size body s) end.
  enough (Hinv :
    wf size (fst final) /\
    (forall i k, (i < size)%nat -> (k < size)%nat ->
       valueAt (fst final) (fst (coord i k)) (snd (coord i k)) =
       if decide (i < size)%nat
       then default 0 (fst (mergeLine (lineOf b i)) !! k)
       else valueAt b (fst (coord i k)) (snd (coord i k))) /\
    snd final = sumZ (map (fun i => snd (mergeLine (lineOf b i))) (seq 0 size))).
  { destruct Hinv as (H1 & H2 & H3). split; [exact H1|]. split; [|exact H3].
    intros i k Hi Hk. rewrite H2 by assumption. destruct (decide _); [reflexivity|lia]. }
  set (P := fun (j : nat) (st : Board * Z) =>
    wf size (fst st) /\
    (forall i k, (i < size)%nat -> (k < size)%nat ->
       valueAt (fst st) (fst (coord i k)) (snd (coord i k)) =
       if decide (i < j)%nat
       then default 0 (fst (mergeLine (lineOf b i)) !! k)
       else valueAt b (fst (coord i k)) (snd (coord i k))) /\
    snd st = sumZ (map (fun i => snd (mergeLine (lineOf b i))) (seq 0 j))).
  change (P size final). subst final. apply forRange_ind; subst P; cbn beta.
  - cbn [fst snd]. split; [exact Hwf|]. split; [|reflexivity].
    intros i k _ _. destruct (decide _); [lia|reflexivity].
  - intros j [bj tj] Hj (Hwfj & Hval & Hsum). cbn [fst snd] in *.
    assert (Hline : read bj j = lineOf b j).
    { rewrite read_coord by assumption. unfold lineOf.
      apply map_ext_in. intros k Hk. apply in_seq in Hk.
      rewrite Hval by lia. destruct (decide _); [lia|reflexivity]. }
    rewrite Hline.
    pose proof (mergeLine_length (lineOf b j)) as Hlen.
    unfold lineOf at 2 in Hlen. rewrite length_map, length_seq in Hlen.
    destruct (mergeLine (lineOf b j)) as [nl sc] eqn:Hm. cbn [fst snd] in *.
    destruct (writeLine_spec size (at_ j) (post nl) bj Hwfj) as (Hwf' & Hhit & Hmiss).
    { intros k Hk. now apply at_range. }
    { intros k k' Hk Hk' Heq. now apply (at_inj j j k k'). }
    split; [exact Hwf'|]. split.
    + intros i k Hi Hk.
      destruct (decide (i = j)) as [->|Hne].
      * destruct (post_coord nl j k Hlen Hj Hk) as (k' & Hk' & Hat & Hpost).
        rewrite <- Hat, Hhit, Hpost by exact Hk'.
        destruct (decide _); [|lia]. now rewrite Hm.
      * rewrite Hmiss.
        -- rewrite Hval by assumption.
           destruct (decide (i < j)%nat), (decide (i < S j)%nat); try lia; reflexivity.
        -- intros k0 Hk0 Heq.
           destruct (post_coord nl i k Hlen Hi Hk) as (k' & Hk' & Hat & _).
           rewrite <- surjective_pairing, <- Hat in Heq.
           apply at_inj in Heq; [|assumption..]. lia.
    + rewrite seq_S, map_app. cbn [map]. rewrite sumZ_snoc.
      cbn [Nat.add]. rewrite Hm. cbn [snd]. lia.
Qed.

(** The line [i] of the board after the loop is the merged line. *)
Lemma linesLoop_line b i :
  wf size b -> (i < size)%nat ->
  lineOf (fst (linesLoop b)) i = fst (mergeLine (lineOf b i)).
Proof.
  intros Hwf Hi. destruct (linesLoop_spec b Hwf) as (_ & Hval & _).
  pose proof (mergeLine_length (lineOf b i)) as Hlen.
  unfold lineOf at 2 in Hlen. rewrite length_map, length_seq in Hlen.
  rewrite (list_as_map 0 (fst (mergeLine (lineOf b i)))), Hlen.
  unfold lineOf at 1. apply map_ext_in. intros k Hk. apply in_seq in Hk.
  apply Hval; lia.
Qed.
End Lines.

(** ** The four moves, line by line *)

Definition colValues (size : nat) (b : Board) (c : nat) : list Z :=
  map (fun r => valueAt b r c) (seq 0 size).

Lemma moveLeft_loop size b :
  moveLeft size b = linesLoop size rowValues (fun r c => (r, c)) (fun l => l) b.
Proof. reflexivity. Qed.

Lemma moveRight_loop size b :
  moveRight size b =
  linesLoop size (fun b r => rev (rowValues b r)) (fun r c => (r, c)) (@rev Z) b.
Proof. reflexivity. Qed.

Lemma moveUp_loop size b :
  moveUp size b =
  linesLoop size (fun b c => colValues size b c) (fun c r => (r, c)) (fun l => l) b.
Proof. reflexivity. Qed.

Lemma moveDown_loop size b :
  moveDown size b =
  linesLoop size (fun b c => map (fun r => valueAt b r c) (rev (seq 0 size)))
    (fun c r => ((size - 1 - r)%nat, c)) (fun l => l) b.
Proof. reflexivity. Qed.

(** The cell that holds element [k] of line [i] in a move. *)
Definition coord (d : Direction) (size i k : nat) : nat * nat :=
  match d with
  | left => (i, k)
  | right => (i, (size - 1 - k)%nat)
  | up => (k, i)
  | down => ((size - 1 - k)%nat, i)
  end.

Lemma rev_map_seq {A} (f : nat -> A) (n : nat) :
  rev (map f (seq 0 n)) = map (fun k => f (n - 1 - k)%nat) (seq 0 n).
Proof. rewrite <- map_rev, rev_seq_map, map_map. reflexivity. Qed.

(** Every move is the loop over the lines that [coord] describes. *)
Lemma moveBoard_spec d size b :
  wf size b ->
  wf size (fst (moveBoard d size b)) /\
  (forall i k, (i < size)%nat -> (k < size)%nat ->
     valueAt (fst (moveBoard d size b)) (fst (coord d size i k)) (snd (coord d size i k)) =
     default 0 (fst (mergeLine (lineOf size (coord d size) b i)) !! k)) /\
  snd (moveBoard d size b) =
  sumZ (map (fun i => snd (mergeLine (lineOf size (coord d size) b i))) (seq 0 size)).
Proof.
  intros Hwf. destruct d; cbn [moveBoard].
  - rewrite moveUp_loop. apply linesLoop_spec; try assumption.
    + cbn. intros; lia.
    + cbn. intros i i' k k' _ _ _ _ [= -> ->]. split; reflexivity.
    + intros b0 i _ _. reflexivity.
    + intros nl i k _ _ Hk. exists k. repeat split; assumption.
  - rewrite moveDown_loop. apply linesLoop_spec; try assumption.
    + cbn. intros; lia.
    + cbn. intros i i' k k' _ _ Hk Hk' [= H1 ->]. split; [reflexivity|lia].
    + intros b0 i _ _. rewrite rev_seq_map, map_map. reflexivity.
    + intros nl i k _ _ Hk. exists k. repeat split; assumption.
  - rewrite moveLeft_loop. apply linesLoop_spec; try assumption.
    + cbn. intros; lia.
    + cbn. intros i i' k k' _ _ _ _ [= -> ->]. split; reflexivity.
    + intros b0 i Hwf0 Hi. now apply rowValues_wf.
    + intros nl i k _ _ Hk. exists k. repeat split; assumption.
  - rewrite moveRight_loop. apply linesLoop_spec; try assumption.
    + cbn. intros; lia.
    + cbn. intros i i' k k' _ _ _ _ [= -> ->]. split; reflexivity.
    + intros b0 i Hwf0 Hi. rewrite (rowValues_wf size) by assumption.
      now rewrite rev_map_seq.
    + intros nl i k Hlen _ Hk. exists (size - 1 - k)%nat.
      split; [lia|]. split; [reflexivity|].
      rewrite rev_lookup by lia. f_equal. lia.
Qed.

Lemma lineOf_left size b i :
  wf size b -> (i < size)%nat -> lineOf size (coord left size) b i = rowValues b i.
Proof. intros Hwf Hi. now rewrite (rowValues_wf size). Qed.

Lemma lineOf_right size b i :
  wf size b -> (i < size)%nat -> lineOf size (coord right size) b i = rev (rowValues b i).
Proof.
  intros Hwf Hi. rewrite (rowValues_wf size) by assumption.
  now rewrite rev_map_seq.
Qed.

Lemma lineOf_up size b i : lineOf size (coord up size) b i = colValues size b i.
Proof. reflexivity. Qed.

Lemma lineOf_down size b i : lineOf size (coord down size) b i = rev (colValues size b i).
Proof. unfold colValues. now rewrite rev_map_seq. Qed.

(** The line [i] of the moved board is the merge of the line [i]. *)
Lemma moveBoard_line d size b i :
  wf size b -> (i < size)%nat ->
  lineOf size (coord d size) (fst (moveBoard d size b)) i =
  fst (mergeLine (lineOf size (coord d size) b i)).
Proof.
  intros Hwf Hi. destruct (moveBoard_spec d size b Hwf) as (_ & Hval & _).
  pose proof (mergeLine_length (lineOf size (coord d size) b i)) as Hlen.
  unfold lineOf at 2 in Hlen. rewrite length_map, length_seq in Hlen.
  rewrite (list_as_map 0 (fst (mergeLine (lineOf size (coord d size) b i)))), Hlen.
  unfold lineOf at 1. apply map_ext_in. intros k Hk. apply in_seq in Hk.
  apply Hval; lia.
Qed.

Lemma moveBoard_wf d size b : wf size b -> wf size (fst (moveBoard d size b)).
Proof. intros Hwf. now destruct (moveBoard_spec d size b Hwf). Qed.

Lemma rev_eq_swap {A} (l m : list A) : rev l = m -> l = rev m.
Proof. intros <-. now rewrite rev_involutive. Qed.

(** A board whose cells hold the given values. *)
Definition boardOf (vs : list (list Z)) : Board :=
  imap (fun r line =>
          imap (fun c v => {| value := v; row := r; col := c;
                              isNew := None; isMerged := None |}) line) vs.

(** C1. The merge loop of [mergeLine] is the merge of the specification:
    zeros are removed, each element is merged with its right neighbour
    when the two are equal and neither was merged before, the merged
    values are added to the score, zeros are removed again and the line
    is padded to its length. A left move applies it to every row, an up
    move to every column, a right move and a down move to the reversed
    row and column, whose result they reverse; the score increase is the
    sum over the lines. The row [2,2,4,0] moved left is [4,4,0,0] with a
    score increase of 4, and only the first pair of a run of three equal
    values merges. *)
Theorem mergeLine_move_transform :
  (forall line, mergeLine line = mergeLineSpec line) /\
  (forall size b, wf size b ->
     (forall r, (r < size)%nat ->
        rowValues (fst (moveLeft size b)) r = fst (mergeLineSpec (rowValues b r))) /\
     snd (moveLeft size b) =
       sumZ (map (fun r => snd (mergeLineSpec (rowValues b r))) (seq 0 size)) /\
     (forall r, (r < size)%nat ->
        rowValues (fst (moveRight size b)) r =
        rev (fst (mergeLineSpec (rev (rowValues b r))))) /\
     snd (moveRight size b) =
       sumZ (map (fun r => snd (mergeLineSpec (rev (rowValues b r)))) (seq 0 size)) /\
     (forall c, (c < size)%nat ->
        colValues size (fst (moveUp size b)) c =
        fst (mergeLineSpec (colValues size b c))) /\
     snd (moveUp size b) =
       sumZ (map (fun c => snd (mergeLineSpec (colValues size b c))) (seq 0 size)) /\
     (forall c, (c < size)%nat ->
        colValues size (fst (moveDown size b)) c =
        rev (fst (mergeLineSpec (rev (colValues size b c))))) /\
     snd (moveDown size b) =
       sumZ (map (fun c => snd (mergeLineSpec (rev (colValues size b c)))) (seq 0 size))) /\
  mergeLine [2; 2; 4; 0] = ([4; 4; 0; 0], 4) /\
  mergeLine [2; 2; 2; 0] = ([4; 2; 0; 0], 4) /\
  (forall size b r, wf size b -> (r < size)%nat ->
     rowValues b r = [2; 2; 4; 0] ->
     rowValues (fst (moveLeft size b)) r = [4; 4; 0; 0]) /\
  moveLeft 4 (boardOf [[2; 2; 4; 0]; [0; 0; 0; 0]; [0; 0; 0; 0]; [0; 0; 0; 0]]) =
  (boardOf [[4; 4; 0; 0]; [0; 0; 0; 0]; [0; 0; 0; 0]; [0; 0; 0; 0]], 4).
Proof.
  split; [exact mergeLine_refines|].
  assert (Hsum : forall size (f g : nat -> list Z),
    (forall i, (i < size)%nat -> f i = g i) ->
    sumZ (map (fun i => snd (mergeLine (f i))) (seq 0 size)) =
    sumZ (map (fun i => snd (mergeLineSpec (g i))) (seq 0 size))).
  { intros size f g Hfg. f_equal. apply map_ext_in. intros i Hi.
    apply in_seq in Hi. rewrite Hfg by lia. now rewrite mergeLine_refines. }
  assert (Hleft : forall size b r, wf size b -> (r < size)%nat ->
    rowValues (fst (moveLeft size b)) r = fst (mergeLineSpec (rowValues b r))).
  { intros size b r Hwf Hr.
    pose proof (moveBoard_line left size b r Hwf Hr) as Hl.
    rewrite !lineOf_left in Hl by (try apply (moveBoard_wf left); assumption).
    now rewrite <- mergeLine_refines. }
  split; [|split; [reflexivity|split; [reflexivity|split; [|reflexivity]]]].
  - intros size b Hwf. repeat split.
    + intros r Hr. now apply Hleft.
    + destruct (moveBoard_spec left size b Hwf) as (_ & _ & Hs).
      cbn [moveBoard] in Hs. rewrite Hs. apply Hsum.
      intros i Hi. now apply lineOf_left.
    + intros r Hr.
      pose proof (moveBoard_line right size b r Hwf Hr) as Hl.
      rewrite !lineOf_right in Hl by (try apply (moveBoard_wf right); assumption).
      apply rev_eq_swap in Hl. now rewrite <- mergeLine_refines.
    + destruct (moveBoard_spec right size b Hwf) as (_ & _ & Hs).
      cbn [moveBoard] in Hs. rewrite Hs. apply Hsum.
      intros i Hi. now apply lineOf_right.
    + intros c Hc.
      pose proof (moveBoard_line up size b c Hwf Hc) as Hl.
      rewrite !lineOf_up in Hl. now rewrite <- mergeLine_refines.
    + destruct (moveBoard_spec up size b Hwf) as (_ & _ & Hs).
      cbn [moveBoard] in Hs. rewrite Hs. apply Hsum.
      intros i Hi. now apply lineOf_up.
    + intros c Hc.
      pose proof (moveBoard_line down size b c Hwf Hc) as Hl.
      rewrite !lineOf_down in Hl.
      apply rev_eq_swap in Hl. now rewrite <- mergeLine_refines.
    + destruct (moveBoard_spec down size b Hwf) as (_ & _ & Hs).
      cbn [moveBoard] in Hs. rewrite Hs. apply Hsum.
      intros i Hi. now apply lineOf_down.
  - intros size b r Hwf Hr Hrow. rewrite Hleft, Hrow by assumption. reflexivity.
Qed.

Definition sampleBoard : Board :=
  boardOf [[2; 2; 4; 0]; [0; 2; 0; 2]; [4; 4; 4; 4]; [2; 4; 2; 4]].

Lemma sampleBoard_wf : wf 4 sampleBoard.
Proof. split; [reflexivity|]. repeat constructor. Qed.

Lemma mergeLine_move_transform_witness :
  wf 4 sampleBoard /\
  map (rowValues (fst (moveLeft 4 sampleBoard))) (seq 0 4) =
    [[4; 4; 0; 0]; [4; 0; 0; 0]; [8; 8; 0; 0]; [2; 4; 2; 4]] /\
  map (rowValues (fst (moveRight 4 sampleBoard))) (seq 0 4) =
    [[0; 0; 4; 4]; [0; 0; 0; 4]; [0; 0; 8; 8]; [2; 4; 2; 4]] /\
  snd (moveLeft 4 sampleBoard) = 24.
Proof.
  split; [exact sampleBoard_wf|].
  destruct mergeLine_move_transform as (_ & Hmove & _).
  destruct (Hmove 4%nat sampleBoard sampleBoard_wf)
    as (Hl & Hls & Hr & _).
  split; [|split].
  - cbn [map seq]. rewrite !Hl by lia. reflexivity.
  - cbn [map seq]. rewrite !Hr by lia. reflexivity.
  - rewrite Hls. reflexivity.
Defined.

(** ** History, undo and terminal states *)

Lemma cloneBoard_id (b : Board) : cloneBoard b = b.
Proof.
  unfold cloneBoard. rewrite <- (map_id b) at 2.
  apply map_ext. intros line. apply map_id.
Qed.

Definition noMove : MoveResult :=
  {| moved := false; scoreIncrease := 0; reached2048 := false |}.

(** The entry that [saveToHistory] pushes. *)
Definition snapshot (m : Manager) : GameHistoryState :=
  {| h_board := board (state m); h_score := score (state m);
     h_moveCount := moveCount (state m) |}.

Lemma saveToHistory_history m :
  history (saveToHistory m) =
  if (length (history m) <? 10)%nat
  then history m ++ [snapshot m]
  else tail (history m ++ [snapshot m]).
Proof.
  unfold saveToHistory, snapshot. rewrite cloneBoard_id. cbn [history set_history].
  rewrite length_app. cbn [length].
  destruct (length (history m) <? 10)%nat eqn:E; zbool.
  - destruct (10 <? length (history m) + 1)%nat eqn:E'; zbool; [lia|reflexivity].
  - destruct (10 <? length (history m) + 1)%nat eqn:E'; zbool; [reflexivity|lia].
Qed.

Lemma saveToHistory_state m : state (saveToHistory m) = state m.
Proof. reflexivity. Qed.

Lemma saveToHistory_last m :
  list.last (history (saveToHistory m)) = Some (snapshot m) /\
  removelast (history (saveToHistory m)) =
    (if (length (history m) <? 10)%nat then history m else tail (history m)) /\
  history (saveToHistory m) <> [].
Proof.
  rewrite saveToHistory_history.
  destruct (length (history m) <? 10)%nat eqn:E; zbool.
  - rewrite last_snoc, removelast_last. repeat split.
    intros H. apply app_eq_nil in H as [_ H]. discriminate.
  - destruct (history m) as [|e h]; [cbn in E; lia|].
    cbn [app tail]. rewrite last_snoc, removelast_last. repeat split.
    intros H. apply app_eq_nil in H as [_ H]. discriminate.
Qed.

Lemma checkGameStatus_fields cfg now s :
  board (checkGameStatus cfg now s) = board s /\
  score (checkGameStatus cfg now s) = score s /\
  moveCount (checkGameStatus cfg now s) = moveCount s /\
  canUndo (checkGameStatus cfg now s) = canUndo s.
Proof.
  unfold checkGameStatus.
  destruct (_ && _); [now cbn|]. destruct (negb _); now cbn.
Qed.

Lemma afterMove_fields u1 u2 now sc m :
  let m' := fst (afterMove u1 u2 now sc m) in
  history m' = history m /\
  config m' = config m /\
  canUndo (state m') = true /\
  score (state m') = score (state m) + sc /\
  moveCount (state m') = moveCount (state m) + 1 /\
  board (state m') =
    fst (addRandomCell (boardSize (config m)) u1 u2 (board (state m))).
Proof.
  unfold afterMove. cbn [fst history config state canUndo score moveCount board].
  match goal with |- context [checkGameStatus ?c ?n ?s] =>
    destruct (checkGameStatus_fields c n s) as (Hb & Hs & Hm & Hc) end.
  rewrite Hb, Hs, Hm, Hc. cbn. repeat split; reflexivity.
Qed.

(** What [move] does, case by case. *)
Lemma move_not_playing d u1 u2 now m :
  status (state m) <> playing -> move d u1 u2 now m = (m, noMove).
Proof.
  intros H. unfold move. rewrite bool_decide_eq_false_2 by exact H. reflexivity.
Qed.

Lemma move_playing d u1 u2 now m :
  status (state m) = playing ->
  let size := boardSize (config m) in
  let m1 := saveToHistory m in
  let moved_ := moveBoard d size (clearCellFlags size (board (state m))) in
  let m3 := set_state (set_board (fst moved_) (state m)) m1 in
  move d u1 u2 now m =
  if negb (boardsEqual size (board (state m)) (fst moved_))
  then (fst (afterMove u1 u2 now (snd moved_) m3),
        {| moved := true; scoreIncrease := snd moved_;
           reached2048 := snd (afterMove u1 u2 now (snd moved_) m3) |})
  else (set_history (removelast (history m1)) m3,
        {| moved := false; scoreIncrease := snd moved_; reached2048 := false |}).
Proof.
  intros H. unfold move. rewrite bool_decide_eq_true_2 by exact H. cbn [negb].
  rewrite saveToHistory_state, cloneBoard_id.
  cbn [state set_state board set_board].
  destruct (moveBoard d (boardSize (config m))
              (clearCellFlags (boardSize (config m)) (board (state m)))) as [b3 sc].
  cbn [fst snd state set_state board set_board].
  destruct (negb _); [|reflexivity].
  now destruct (afterMove _ _ _ _ _).
Qed.

(** C6. When [move] reports that the board has moved, [undo] called
    right after it returns [true] and restores the board (hence every
    cell value), the score and the move count that the state had before
    the move. *)
Theorem undo_after_move_restores (m : Manager) (d : Direction)
        (u1 u2 : Random.Sample) (now : Z) :
  status (state m) = playing ->
  moved (snd (move d u1 u2 now m)) = true ->
  let m' := fst (undo (fst (move d u1 u2 now m))) in
  snd (undo (fst (move d u1 u2 now m))) = true /\
  board (state m') = board (state m) /\
  map (map value) (board (state m')) = map (map value) (board (state m)) /\
  score (state m') = score (state m) /\
  moveCount (state m') = moveCount (state m).
Proof.
  intros Hst Hmoved.
  rewrite (move_playing d u1 u2 now m Hst) in *. cbv zeta in *.
  set (size := boardSize (config m)) in *.
  set (mb := moveBoard d size (clearCellFlags size (board (state m)))) in *.
  destruct (negb (boardsEqual size (board (state m)) (fst mb))); [|discriminate].
  cbn [fst snd] in *.
  set (m3 := set_state (set_board (fst mb) (state m)) (saveToHistory m)).
  destruct (afterMove_fields u1 u2 now (snd mb) m3) as (Hh & _ & Hc & _).
  cbv zeta in Hh, Hc.
  destruct (saveToHistory_last m) as (Hlast & _ & Hne).
  unfold undo. rewrite Hc, Hh. cbn [negb orb]. subst m3. cbn [history set_state].
  destruct (length (history (saveToHistory m)) =? 0)%nat eqn:E; zbool.
  { destruct (history (saveToHistory m)); [congruence|discriminate]. }
  rewrite Hlast. cbn [fst snd state board score moveCount].
  unfold snapshot. cbn [h_board h_score h_moveCount].
  rewrite cloneBoard_id. repeat split; reflexivity.
Qed.

(** A move that leaves every cell value as it was: the score and the
    move count stay, and the history stays when it holds fewer than ten
    entries; with ten entries its oldest entry is gone. *)
Lemma move_without_change (m : Manager) (d : Direction)
      (u1 u2 : Random.Sample) (now : Z) :
  status (state m) = playing ->
  moved (snd (move d u1 u2 now m)) = false ->
  let m' := fst (move d u1 u2 now m) in
  score (state m') = score (state m) /\
  moveCount (state m') = moveCount (state m) /\
  history m' =
    if (length (history m) <? 10)%nat then history m else tail (history m).
Proof.
  intros Hst Hmoved.
  rewrite (move_playing d u1 u2 now m Hst) in *. cbv zeta in *.
  destruct (negb _); [discriminate|].
  cbn [fst history set_history state set_state score moveCount set_board].
  destruct (saveToHistory_last m) as (_ & Hrem & _). rewrite Hrem.
  repeat split; reflexivity.
Qed.

(** The manager that [undo] leaves when it pops the entry [e]. *)
Definition restored (m : Manager) (h : list GameHistoryState) (e : GameHistoryState)
  : Manager :=
  {| state :=
       {| status := status (state m);
          board := h_board e;
          score := h_score e;
          bestScore := bestScore (state m);
          startTime := startTime (state m); endTime := endTime (state m);
          canUndo := (0 <? length h)%nat;
          moveCount := h_moveCount e;
          highestTile := highestTile (state m); bestTile := bestTile (state m) |};
     config := config m; history := h; storage := storage m |}.

Lemma undo_pops m h e :
  canUndo (state m) = true -> history m = h ++ [e] ->
  undo m = (restored m h e, true).
Proof.
  intros Hc Hh. unfold undo, restored. rewrite Hc, Hh. cbn [negb orb].
  rewrite length_app. cbn [length].
  destruct (length h + 1 =? 0)%nat eqn:E; zbool; [lia|].
  rewrite last_snoc, removelast_last, cloneBoard_id. reflexivity.
Qed.

Lemma undo_refused m :
  canUndo (state m) = false \/ history m = [] -> undo m = (m, false).
Proof.
  intros [H|H]; unfold undo; rewrite H; [reflexivity|].
  cbn. now rewrite orb_true_r.
Qed.

(** C4, as the code has it. In a state whose status is won or lost,
    [move] returns [moved = false] and changes no field of the manager
    and no history entry. [undo] does not look at the status: with
    [canUndo] set and a history that is not empty it pops the last entry
    and restores its board, score and move count, and leaves the status
    as it is; otherwise it changes nothing. [continueGame] turns won
    into playing and changes nothing else. *)
Theorem terminal_state_commands (m : Manager) :
  status (state m) = won \/ status (state m) = lost ->
  (forall d u1 u2 now, move d u1 u2 now m = (m, noMove)) /\
  (forall h e, canUndo (state m) = true -> history m = h ++ [e] ->
     undo m = (restored m h e, true) /\
     status (state (restored m h e)) = status (state m)) /\
  (canUndo (state m) = false \/ history m = [] -> undo m = (m, false)) /\
  (status (state m) = won ->
     continueGame m = set_state (set_status playing (state m)) m) /\
  (status (state m) = lost -> continueGame m = m).
Proof.
  intros Hterm. split; [|split; [|split; [|split]]].
  - intros d u1 u2 now. apply move_not_playing. destruct Hterm as [-> | ->]; discriminate.
  - intros h e Hc Hh. split; [now apply undo_pops|reflexivity].
  - apply undo_refused.
  - intros Hw. unfold continueGame. now rewrite bool_decide_eq_true_2.
  - intros Hl. unfold continueGame. rewrite bool_decide_eq_false_2; [reflexivity|].
    rewrite Hl. discriminate.
Qed.

(** ** Two games *)

Definition firstTwo : Random.Sample := {| Random.num := 0; Random.gap := 0 |}.
Definition firstFour : Random.Sample := {| Random.num := 9; Random.gap := 0 |}.

Definition noStorage : Storage :=
  {| storedBestScore := None; storedBestTile := None |}.

(** A new game of the default configuration whose two cells are twos in
    the first two cells of the board. *)
Definition newGame : Manager :=
  startNewGame (fun _ => firstTwo) 0 (newManager DEFAULT_CONFIG noStorage).

(** Plays the moves in turn; every new cell goes to the first empty
    cell, with the value two or four as the move says. *)
Definition play (moves : list (Direction * bool)) (m : Manager) : Manager :=
  fold_left
    (fun m (x : Direction * bool) =>
       fst (move (fst x) firstTwo (if snd x then firstFour else firstTwo) 1 m))
    moves m.

Lemma play_reachable moves m :
  reachable DEFAULT_CONFIG noStorage m ->
  reachable DEFAULT_CONFIG noStorage (play moves m).
Proof.
  revert m. induction moves as [|x moves IH]; intros m Hm; [exact Hm|].
  cbn [play fold_left]. apply IH. now apply reach_move.
Qed.

Lemma newGame_reachable : reachable DEFAULT_CONFIG noStorage newGame.
Proof. apply reach_start. Qed.

(** Fourteen moves after which the board is full and no two neighbours
    are equal. *)
Definition lostGame : Manager :=
  play [ (down, true); (up, false); (down, false); (up, false); (down, true);
         (up, true); (down, true); (up, true); (down, false); (up, true);
         (down, true); (up, false); (right, true); (right, false) ] newGame.

(** C4 fails for [undo]: the game above is lost, and [undo] puts the
    board, the score and the move count of the state before the last
    move back. *)
Lemma undo_changes_lost_game :
  reachable DEFAULT_CONFIG noStorage lostGame /\
  status (state lostGame) = lost /\
  map (map value) (board (state lostGame)) =
    [[4; 2; 4; 2]; [2; 4; 2; 4]; [4; 2; 4; 2]; [2; 4; 2; 4]] /\
  moveCount (state lostGame) = 14 /\
  snd (undo lostGame) = true /\
  map (map value) (board (state (fst (undo lostGame)))) =
    [[4; 2; 4; 2]; [2; 4; 2; 4]; [4; 2; 4; 2]; [4; 0; 2; 4]] /\
  moveCount (state (fst (undo lostGame))) = 13 /\
  status (state (fst (undo lostGame))) = lost.
Proof.
  split; [apply play_reachable, newGame_reachable|].
  vm_compute. repeat split; reflexivity.
Qed.

Lemma terminal_state_commands_witness :
  (status (state lostGame) = won \/ status (state lostGame) = lost) /\
  move left firstTwo firstTwo 2 lostGame = (lostGame, noMove).
Proof.
  assert (H : status (state lostGame) = won \/ status (state lostGame) = lost).
  { right. vm_compute. reflexivity. }
  split; [exact H|].
  apply (proj1 (terminal_state_commands lostGame H)).
Defined.

(** Eleven moves that all change the board; the history holds the last
    ten states. *)
Definition busyGame : Manager :=
  play [ (down, false); (right, false); (up, false); (left, false);
         (down, false); (right, false); (up, false); (left, false);
         (down, false); (right, false); (up, false) ] newGame.

(** C5 fails with ten entries in the history: the move up below changes
    no cell value and reports [moved = false], the score and the move
    count stay, and the history has lost its oldest entry. *)
Theorem move_without_change_drops_oldest_entry :
  reachable DEFAULT_CONFIG noStorage busyGame /\
  status (state busyGame) = playing /\
  length (history busyGame) = 10%nat /\
  let m' := fst (move up firstTwo firstTwo 2 busyGame) in
  moved (snd (move up firstTwo firstTwo 2 busyGame)) = false /\
  map (map value) (board (state m')) = map (map value) (board (state busyGame)) /\
  score (state m') = score (state busyGame) /\
  moveCount (state m') = moveCount (state busyGame) /\
  history m' = tail (history busyGame) /\
  length (history m') = 9%nat.
Proof.
  split; [apply play_reachable, newGame_reachable|].
  vm_compute. repeat split; reflexivity.
Qed.

Lemma undo_after_move_restores_witness :
  status (state newGame) = playing /\
  moved (snd (move down firstTwo firstTwo 1 newGame)) = true /\
  snd (undo (fst (move down firstTwo firstTwo 1 newGame))) = true /\
  board (state (fst (undo (fst (move down firstTwo firstTwo 1 newGame))))) =
    board (state newGame).
Proof.
  split; [reflexivity|]. split; [reflexivity|].
  pose proof (undo_after_move_restores newGame down firstTwo firstTwo 1
                eq_refl eq_refl) as (H1 & H2 & _).
  split; [exact H1|exact H2].
Defined.

(** ** Tile values *)

(** A power of two that is at least 2. *)
Definition isPow2 (v : Z) : Prop := exists k, 1 <= k /\ v = 2 ^ k.

(** The value of an empty cell or of a tile. *)
Definition tileOK (v : Z) : Prop := v = 0 \/ isPow2 v.

Definition goodBoard (size : nat) (b : Board) : Prop :=
  wf size b /\
  forall r c, (r < size)%nat -> (c < size)%nat -> tileOK (valueAt b r c).

Lemma tileOK_double a : tileOK a -> tileOK (a + a).
Proof.
  intros [->|(k & Hk & ->)]; [now left|]. right. exists (k + 1). split; [lia|].
  rewrite Z.pow_add_r by lia. lia.
Qed.

Lemma tileOK_two : tileOK 2.
Proof. right. exists 1. split; [lia|reflexivity]. Qed.

Lemma tileOK_four : tileOK 4.
Proof. right. exists 2. split; [lia|reflexivity]. Qed.

Lemma mergePairs_tileOK l :
  Forall tileOK l -> Forall tileOK (fst (mergePairs l)).
Proof.
  remember (length l) as n eqn:Hn. revert l Hn.
  induction n as [n IH] using lt_wf_ind. intros l Hn Hl.
  destruct l as [|a [|b r]]; [exact Hl|exact Hl|].
  rewrite mergePairs_cons2. cbn [length] in Hn.
  apply Forall_cons_1 in Hl as [Ha Hl]. apply Forall_cons_1 in Hl as [Hb Hr].
  destruct (a =? b) eqn:E; cbn [fst]; zbool.
  - subst b. constructor; [now apply tileOK_double|].
    apply (IH (length r)); [lia|reflexivity|exact Hr].
  - constructor; [exact Ha|].
    apply (IH (length (b :: r))); [cbn; lia|reflexivity|now constructor].
Qed.

Lemma Forall_filter_local {A} (P Q : A -> Prop) `{forall a, Decision (Q a)} (l : list A) :
  Forall P l -> Forall P (filter Q l).
Proof.
  rewrite !Forall_forall. intros Hl a Hin. apply Hl.
  apply list_elem_of_In. apply list_elem_of_In, list_elem_of_filter in Hin. tauto.
Qed.

Lemma mergeLine_tileOK line :
  Forall tileOK line -> Forall tileOK (fst (mergeLine line)).
Proof.
  intros Hl. rewrite mergeLine_refines. unfold mergeLineSpec.
  pose proof (mergePairs_tileOK (filter (fun v => v <> 0) line)
                (Forall_filter_local _ _ _ Hl)) as Hm.
  destruct (mergePairs (filter (fun v => v <> 0) line)) as [m s]. cbn [fst] in *.
  apply Forall_app. split; [now apply Forall_filter_local|].
  apply Forall_forall. intros v Hin.
  apply list_elem_of_In, elem_of_replicate in Hin as [-> _]. now left.
Qed.

Lemma coord_onto d size r c :
  (r < size)%nat -> (c < size)%nat ->
  exists i k, (i < size)%nat /\ (k < size)%nat /\ coord d size i k = (r, c).
Proof.
  intros Hr Hc. destruct d; cbn [coord].
  - exists c, r. repeat split; assumption.
  - exists c, (size - 1 - r)%nat. repeat split; try lia. f_equal. lia.
  - exists r, c. repeat split; assumption.
  - exists r, (size - 1 - c)%nat. repeat split; try lia. f_equal. lia.
Qed.

Lemma coord_range d size i k :
  (i < size)%nat -> (k < size)%nat ->
  (fst (coord d size i k) < size)%nat /\ (snd (coord d size i k) < size)%nat.
Proof. intros Hi Hk. destruct d; cbn; lia. Qed.

Lemma moveBoard_good d size b :
  goodBoard size b -> goodBoard size (fst (moveBoard d size b)).
Proof.
  intros [Hwf Hok]. destruct (moveBoard_spec d size b Hwf) as (Hwf' & Hval & _).
  split; [exact Hwf'|]. intros r c Hr Hc.
  destruct (coord_onto d size r c Hr Hc) as (i & k & Hi & Hk & Hco).
  specialize (Hval i k Hi Hk). rewrite Hco in Hval. cbn [fst snd] in Hval.
  rewrite Hval.
  assert (Hline : Forall tileOK (lineOf size (coord d size) b i)).
  { unfold lineOf. apply Forall_forall. intros v Hin.
    apply in_map_iff in Hin as (k0 & <- & Hk0). apply in_seq in Hk0.
    destruct (coord_range d size i k0 Hi) as [H1 H2]; [lia|]. now apply Hok. }
  apply mergeLine_tileOK in Hline.
  destruct (fst (mergeLine (lineOf size (coord d size) b i)) !! k) as [v|] eqn:Hv;
    cbn; [|now left].
  rewrite Forall_forall in Hline. apply Hline, list_elem_of_In.
  eapply list_elem_of_lookup_2; eauto.
Qed.

Lemma update_good size f r c b :
  goodBoard size b ->
  (forall cell, tileOK (value (f cell))) ->
  goodBoard size (Grid.update f r c b).
Proof.
  intros [Hwf Hok] Hf. split; [now apply wf_update|].
  intros r' c' Hr Hc. unfold valueAt. rewrite GridFacts.get_update.
  destruct (decide _).
  - destruct (Grid.get b r' c'); cbn; [apply Hf|now left].
  - now apply Hok.
Qed.

Lemma update_same_values_good size f r c b :
  goodBoard size b ->
  (forall cell, value (f cell) = value cell) ->
  goodBoard size (Grid.update f r c b).
Proof.
  intros [Hwf Hok] Hf. split; [now apply wf_update|].
  intros r' c' Hr Hc. rewrite valueAt_update by exact Hf. now apply Hok.
Qed.

Lemma clearCellFlags_good size b :
  goodBoard size b -> goodBoard size (clearCellFlags size b).
Proof.
  unfold clearCellFlags. generalize (allCells size). intros cells. revert b.
  induction cells as [|rc cells IH]; intros b Hb; [exact Hb|].
  cbn [fold_left]. apply IH. now apply update_same_values_good.
Qed.

Lemma addRandomCell_good size u1 u2 b :
  goodBoard size b -> goodBoard size (fst (addRandomCell size u1 u2 b)).
Proof.
  intros Hb. unfold addRandomCell.
  destruct (getEmptyCells size b !! _) as [[r c]|]; [|exact Hb].
  cbn [fst]. apply update_good; [exact Hb|].
  intros cell. cbn [value]. destruct (Random.below u2 9 10);
    [apply tileOK_two|apply tileOK_four].
Qed.

Lemma createEmptyBoard_good size : goodBoard size (createEmptyBoard size).
Proof.
  split.
  - split.
    + unfold createEmptyBoard. now rewrite length_map, length_seq.
    + unfold createEmptyBoard. apply Forall_forall. intros line Hin.
      apply in_map_iff in Hin as (r & <- & _). now rewrite length_map, length_seq.
  - intros r c Hr Hc. left. unfold valueAt, Grid.get, createEmptyBoard.
    change (map ?f ?l) with (f <$> l). rewrite list_lookup_fmap.
    destruct (seq 0 size !! r) as [r0|]; cbn; [|reflexivity].
    change (map ?f ?l) with (f <$> l). rewrite list_lookup_fmap.
    destruct (seq 0 size !! c) as [c0|]; reflexivity.
Qed.

(** What every reachable manager satisfies. *)
Definition invariant (cfg : GameConfig) (m : Manager) : Prop :=
  config m = cfg /\
  goodBoard (boardSize cfg) (board (state m)) /\
  Forall (fun e => goodBoard (boardSize cfg) (h_board e)) (history m).

Lemma Forall_tail_local {A} (P : A -> Prop) (l : list A) :
  Forall P l -> Forall P (tail l).
Proof. intros H. destruct H; [constructor|assumption]. Qed.

Lemma Forall_removelast_local {A} (P : A -> Prop) (l : list A) :
  Forall P l -> Forall P (removelast l).
Proof.
  intros H. induction H as [|a l Ha Hl IH]; [constructor|].
  cbn [removelast]. destruct l; [constructor|]. now constructor.
Qed.

Lemma saveToHistory_invariant cfg m :
  invariant cfg m -> invariant cfg (saveToHistory m).
Proof.
  intros (Hc & Hb & Hh). split; [exact Hc|]. split; [exact Hb|].
  rewrite saveToHistory_history.
  assert (Hall : Forall (fun e => goodBoard (boardSize cfg) (h_board e))
                   (history m ++ [snapshot m])).
  { apply Forall_app. split; [exact Hh|]. constructor; [exact Hb|constructor]. }
  destruct (_ <? _)%nat; [exact Hall|now apply Forall_tail_local].
Qed.

Lemma move_invariant cfg d u1 u2 now m :
  invariant cfg m -> invariant cfg (fst (move d u1 u2 now m)).
Proof.
  intros Hinv.
  destruct (decide (status (state m) = playing)) as [Hst|Hst];
    [|now rewrite move_not_playing].
  rewrite (move_playing d u1 u2 now m Hst). cbv zeta.
  pose proof (saveToHistory_invariant cfg m Hinv) as (_ & _ & Hh1).
  destruct Hinv as (Hc & Hb & Hh). subst cfg.
  assert (Hgood : goodBoard (boardSize (config m))
            (fst (moveBoard d (boardSize (config m))
                    (clearCellFlags (boardSize (config m)) (board (state m)))))).
  { now apply moveBoard_good, clearCellFlags_good. }
  destruct (negb _); cbn [fst].
  - match goal with |- context [afterMove ?a ?b ?c ?e ?f] =>
      destruct (afterMove_fields a b c e f) as (H1 & H2 & _ & _ & _ & H6) end.
    cbv zeta in H1, H2, H6. split; [|split].
    + rewrite H2. reflexivity.
    + rewrite H6. cbn [config set_state saveToHistory set_history state board set_board].
      now apply addRandomCell_good.
    + rewrite H1. exact Hh1.
  - split; [reflexivity|]. split; [exact Hgood|].
    cbn [history set_history]. now apply Forall_removelast_local.
Qed.

Lemma undo_invariant cfg m : invariant cfg m -> invariant cfg (fst (undo m)).
Proof.
  intros Hinv. pose proof Hinv as (Hc & Hb & Hh). unfold undo.
  destruct (_ || _); [exact Hinv|].
  destruct (list.last (history m)) as [e|] eqn:Hlast; [|exact Hinv].
  cbn [fst]. split; [exact Hc|]. split.
  - cbn [state board]. rewrite cloneBoard_id.
    rewrite Forall_forall in Hh. apply Hh, list_elem_of_In.
    apply last_Some in Hlast as [h ->]. apply elem_of_app. right. now left.
  - cbn [history]. now apply Forall_removelast_local.
Qed.

Lemma addInitialCells_good size n draws b :
  goodBoard size b -> goodBoard size (addInitialCells size n draws b).
Proof.
  intros Hb. unfold addInitialCells.
  apply (forRange_ind (fun _ b' => goodBoard size b')); [exact Hb|].
  intros i b' _ Hb'. now apply addRandomCell_good.
Qed.

Lemma startNewGame_invariant draws now m :
  invariant (config m) (startNewGame draws now m).
Proof.
  split; [reflexivity|]. split; [|constructor].
  cbn [startNewGame state board updateHighestTile set_board].
  apply addInitialCells_good, createEmptyBoard_good.
Qed.

Lemma continueGame_invariant cfg m :
  invariant cfg m -> invariant cfg (continueGame m).
Proof.
  intros H. unfold continueGame. destruct (bool_decide _); exact H.
Qed.

Lemma reachable_invariant cfg st m : reachable cfg st m -> invariant cfg m.
Proof.
  induction 1 as [draws now|m draws now _ IH|m d u1 u2 now _ IH|m _ IH|m _ IH].
  - apply (startNewGame_invariant draws now (newManager cfg st)).
  - destruct IH as (Hc & _). rewrite <- Hc. apply startNewGame_invariant.
  - now apply move_invariant.
  - now apply undo_invariant.
  - now apply continueGame_invariant.
Qed.

(** C8. In every state that a game reaches from [startNewGame] by moves,
    undos, continuations and restarts, the board has [boardSize] rows of
    [boardSize] cells and every cell value that is not zero is a power
    of two that is at least 2. *)
Theorem reachable_tiles_are_powers_of_two (cfg : GameConfig) (st : Storage) (m : Manager) :
  reachable cfg st m ->
  Grid.rect (boardSize cfg) (boardSize cfg) (board (state m)) /\
  forall r c cell,
    Grid.get (board (state m)) r c = Some cell ->
    value cell <> 0 ->
    exists k, 1 <= k /\ value cell = 2 ^ k.
Proof.
  intros Hreach. destruct (reachable_invariant cfg st m Hreach) as (_ & [Hwf Hok] & _).
  split; [exact Hwf|]. intros r c cell Hget Hnz.
  assert (Hrange : (r < boardSize cfg)%nat /\ (c < boardSize cfg)%nat).
  { apply (GridFacts.get_is_Some_rect _ _ _ r c Hwf). now exists cell. }
  destruct Hrange as [Hr Hc]. specialize (Hok r c Hr Hc).
  unfold valueAt in Hok. rewrite Hget in Hok.
  destruct Hok as [H0|Hp]; [contradiction|exact Hp].
Qed.

Lemma reachable_tiles_are_powers_of_two_witness :
  reachable DEFAULT_CONFIG noStorage busyGame /\
  Grid.get (board (state busyGame)) 0 2 =
    Some {| value := 16; row := 0; col := 2; isNew := None; isMerged := None |} /\
  exists k, 1 <= k /\ 16 = 2 ^ k.
Proof.
  assert (Hr : reachable DEFAULT_CONFIG noStorage busyGame)
    by apply play_reachable, newGame_reachable.
  assert (Hg : Grid.get (board (state busyGame)) 0 2 =
    Some {| value := 16; row := 0; col := 2; isNew := None; isMerged := None |})
    by (vm_compute; reflexivity).
  split; [exact Hr|]. split; [exact Hg|].
  destruct (reachable_tiles_are_powers_of_two DEFAULT_CONFIG noStorage busyGame Hr)
    as [_ H].
  apply (H 0%nat 2%nat _ Hg). discriminate.
Defined.

(** ** The history, the new tiles and the start of a game *)

Lemma cells_In size r c :
  In (r, c) (allCells size) <-> (r < size)%nat /\ (c < size)%nat.
Proof.
  unfold allCells. rewrite in_flat_map. split.
  - intros (r' & Hr & Hin). apply in_map_iff in Hin as (c' & Heq & Hc).
    apply in_seq in Hr, Hc. injection Heq as <- <-. lia.
  - intros [Hr Hc]. exists r. split; [apply in_seq; lia|].
    apply in_map_iff. exists c. split; [reflexivity|apply in_seq; lia].
Qed.

Lemma emptyCells_In size b r c :
  In (r, c) (getEmptyCells size b) <->
  (r < size)%nat /\ (c < size)%nat /\ valueAt b r c = 0.
Proof.
  unfold getEmptyCells. rewrite in_flat_map. split.
  - intros (r' & Hr & Hin). apply in_flat_map in Hin as (c' & Hc & Hin).
    apply in_seq in Hr, Hc.
    destruct (valueAt b r' c' =? 0) eqn:E; [|destruct Hin].
    destruct Hin as [Heq|[]]. injection Heq as <- <-. apply Z.eqb_eq in E.
    repeat split; [lia|lia|exact E].
  - intros (Hr & Hc & Hv). exists r. split; [apply in_seq; lia|].
    apply in_flat_map. exists c. split; [apply in_seq; lia|].
    rewrite Hv. now left.
Qed.

Lemma floorScaled_lt u n : (0 < n)%nat -> (Random.floorScaled u n < n)%nat.
Proof.
  intros Hn. unfold Random.floorScaled.
  apply Nat.Div0.div_lt_upper_bound. nia.
Qed.

(** The cell that [addRandomCell] picks, when there is an empty one. *)
Lemma addRandomCell_pick size u1 b :
  getEmptyCells size b <> [] ->
  exists r c,
    getEmptyCells size b !! Random.floorScaled u1 (length (getEmptyCells size b))
      = Some (r, c) /\
    (r < size)%nat /\ (c < size)%nat /\ valueAt b r c = 0.
Proof.
  intros Hne.
  destruct (lookup_lt_is_Some_2 (getEmptyCells size b)
              (Random.floorScaled u1 (length (getEmptyCells size b)))) as [[r c] Hrc].
  { apply floorScaled_lt. destruct (getEmptyCells size b); [congruence|cbn; lia]. }
  exists r, c. split; [exact Hrc|].
  apply emptyCells_In, list_elem_of_In. eapply list_elem_of_lookup_2; eauto.
Qed.

Lemma addRandomCell_full size u1 u2 b :
  getEmptyCells size b = [] -> addRandomCell size u1 u2 b = (b, false).
Proof. intros H. unfold addRandomCell. rewrite H. reflexivity. Qed.

Definition newCell (u2 : Random.Sample) (r c : nat) : Cell :=
  {| value := if Random.below u2 9 10 then 2 else 4; row := r; col := c;
     isNew := Some true; isMerged := None |}.

Lemma emptyCells_nil size b :
  getEmptyCells size b = [] <->
  (forall r c, (r < size)%nat -> (c < size)%nat -> valueAt b r c <> 0).
Proof.
  split.
  - intros Hnil r c Hr Hc Hv.
    assert (Hin : In (r, c) (getEmptyCells size b)) by now apply emptyCells_In.
    rewrite Hnil in Hin. destruct Hin.
  - intros Hall. destruct (getEmptyCells size b) as [|[r c] rest] eqn:E; [reflexivity|].
    assert (Hin : In (r, c) (getEmptyCells size b)) by (rewrite E; now left).
    apply emptyCells_In in Hin as (Hr & Hc & Hv). now destruct (Hall r c Hr Hc).
Qed.

(** X9. On a board of [size] rows of [size] cells, [addRandomCell]
    returns the board as it is, and [false], when no cell is empty.
    Otherwise it returns [true], whatever the first sample, and puts a
    new cell, of value 2 when the second sample is below 0.9 and 4
    otherwise, in the place of one of the cells that were empty. Every
    other cell is the one it was. *)
Theorem addRandomCell_fills_one_empty_cell (size : nat) (u1 u2 : Random.Sample)
        (b : Board) :
  wf size b ->
  let b' := fst (addRandomCell size u1 u2 b) in
  wf size b' /\
  ((forall r c, (r < size)%nat -> (c < size)%nat -> valueAt b r c <> 0) ->
   addRandomCell size u1 u2 b = (b, false)) /\
  ((exists r c, (r < size)%nat /\ (c < size)%nat /\ valueAt b r c = 0) ->
   snd (addRandomCell size u1 u2 b) = true /\
   exists r c,
     (r < size)%nat /\ (c < size)%nat /\ valueAt b r c = 0 /\
     Grid.get b' r c = Some (newCell u2 r c) /\
     forall r' c', (r', c') <> (r, c) -> Grid.get b' r' c' = Grid.get b r' c').
Proof.
  intros Hwf b'. split; [|split].
  - subst b'. unfold addRandomCell.
    destruct (getEmptyCells size b !! _) as [[r c]|]; [|exact Hwf].
    now apply wf_update.
  - intros Hfull. now apply addRandomCell_full, emptyCells_nil.
  - intros (r0 & c0 & Hr0 & Hc0 & Hv0).
    assert (Hne : getEmptyCells size b <> []).
    { intros Hnil. rewrite emptyCells_nil in Hnil. now apply (Hnil r0 c0). }
    destruct (addRandomCell_pick size u1 b Hne) as (r & c & Hpick & Hr & Hc & Hv).
    subst b'. unfold addRandomCell. rewrite Hpick. cbn [fst snd].
    split; [reflexivity|]. exists r, c.
    split; [exact Hr|]. split; [exact Hc|]. split; [exact Hv|]. split.
    + rewrite GridFacts.get_update. rewrite decide_True by reflexivity.
      destruct (wf_get size b r c Hwf Hr Hc) as [cell ->]. reflexivity.
    + intros r' c' Hne'. rewrite GridFacts.get_update.
      rewrite decide_False by congruence. reflexivity.
Qed.

(** *** The number of tiles *)

Definition isTile (c : Cell) : bool := negb (value c =? 0).
Definition isFree (c : Cell) : bool := value c =? 0.

(** The number of cells of the board that hold a tile. *)
Definition tiles (b : Board) : nat := Grid.count isTile b.

Lemma tiles_free size b :
  wf size b -> (tiles b + Grid.count isFree b = size * size)%nat.
Proof.
  intros Hwf. apply GridFacts.count_split; [exact Hwf|]. reflexivity.
Qed.

Lemma addRandomCell_tiles size u1 u2 b :
  wf size b ->
  tiles (fst (addRandomCell size u1 u2 b)) =
  if (tiles b <? size * size)%nat then S (tiles b) else tiles b.
Proof.
  intros Hwf. pose proof (tiles_free size b Hwf) as Hsplit.
  destruct (getEmptyCells size b) as [|rc rest] eqn:E.
  - rewrite addRandomCell_full by exact E. cbn [fst].
    assert (Hz : Grid.count isFree b = 0%nat).
    { apply GridFacts.count_zero. intros r c a Hget.
      rewrite emptyCells_nil in E.
      assert (Hin : is_Some (Grid.get b r c)) by (now exists a).
      apply (GridFacts.get_is_Some_rect size size) in Hin as [Hr Hc]; [|exact Hwf].
      specialize (E r c Hr Hc). unfold valueAt in E. rewrite Hget in E.
      unfold isFree. now apply Z.eqb_neq. }
    destruct (Nat.ltb_spec (tiles b) (size * size)); [lia|reflexivity].
  - assert (Hne : getEmptyCells size b <> []) by (rewrite E; discriminate).
    destruct (addRandomCell_pick size u1 b Hne) as (r & c & Hpick & Hr & Hc & Hv).
    unfold addRandomCell. rewrite Hpick. cbn [fst].
    destruct (wf_get size b r c Hwf Hr Hc) as [cell Hcell].
    unfold valueAt in Hv. rewrite Hcell in Hv.
    pose proof (GridFacts.count_update isTile
                  (fun _ => {| value := if Random.below u2 9 10 then 2 else 4;
                               row := r; col := c;
                               isNew := Some true; isMerged := None |})
                  r c b cell Hcell) as Hcount.
    pose proof (GridFacts.count_pos isFree b r c cell Hcell) as Hpos.
    unfold isFree in Hpos at 1. rewrite Hv in Hpos. specialize (Hpos eq_refl).
    unfold isTile in Hcount at 2 4. cbn [value] in Hcount. rewrite Hv in Hcount.
    fold (tiles b) in Hcount.
    match type of Hcount with (?x + _ = _)%nat => change x with
      (tiles (Grid.update (fun _ => {| value := if Random.below u2 9 10 then 2 else 4;
                               row := r; col := c;
                               isNew := Some true; isMerged := None |}) r c b)) in Hcount
    end.
    destruct (Random.below u2 9 10); cbn in Hcount;
      (destruct (Nat.ltb_spec (tiles b) (size * size)); lia).
Qed.

Lemma addInitialCells_tiles size n draws b :
  wf size b ->
  wf size (addInitialCells size n draws b) /\
  tiles (addInitialCells size n draws b) = Nat.min (tiles b + n) (size * size).
Proof.
  intros Hwf. pose proof (tiles_free size b Hwf) as Hsplit.
  unfold addInitialCells. induction n as [|n [IHwf IH]].
  - unfold forRange. cbn [seq fold_left]. split; [exact Hwf|lia].
  - rewrite forRange_S. split.
    + unfold addRandomCell.
      destruct (getEmptyCells size _ !! _) as [[r c]|]; [|exact IHwf].
      now apply wf_update.
    + rewrite addRandomCell_tiles by exact IHwf. rewrite IH.
      destruct (Nat.ltb_spec (Nat.min (tiles b + n) (size * size)) (size * size)); lia.
Qed.

Lemma createEmptyBoard_value size r c : valueAt (createEmptyBoard size) r c = 0.
Proof.
  unfold valueAt, Grid.get, createEmptyBoard.
  rewrite list_lookup_fmap.
  destruct (seq 0 size !! r) as [r'|]; [|reflexivity]. cbn.
  rewrite list_lookup_fmap.
  destruct (seq 0 size !! c) as [c'|]; reflexivity.
Qed.

Lemma emptyBoard_wf size : wf size (createEmptyBoard size).
Proof. apply createEmptyBoard_good. Qed.

Lemma createEmptyBoard_tiles size : tiles (createEmptyBoard size) = 0%nat.
Proof.
  apply GridFacts.count_zero. intros r c a Hget.
  pose proof (createEmptyBoard_value size r c) as Hv.
  unfold valueAt in Hv. rewrite Hget in Hv. unfold isTile. now rewrite Hv.
Qed.

Definition freshValue (v : Z) : Prop := v = 0 \/ v = 2 \/ v = 4.

Lemma addInitialCells_fresh size n draws b :
  (forall r c, freshValue (valueAt b r c)) ->
  forall r c, freshValue (valueAt (addInitialCells size n draws b) r c).
Proof.
  intros Hb. unfold addInitialCells.
  apply (forRange_ind (fun _ b' => forall r c, freshValue (valueAt b' r c)));
    [exact Hb|].
  intros i b' _ Hb' r c. unfold addRandomCell.
  destruct (getEmptyCells size b' !! _) as [[r0 c0]|]; [|apply Hb'].
  cbn [fst]. unfold valueAt. rewrite GridFacts.get_update.
  destruct (decide _); [|apply Hb'].
  destruct (Grid.get b' r c); cbn; [|now left].
  match goal with |- context [if ?x then 2 else 4] => destruct x end;
    unfold freshValue; lia.
Qed.

(** X10. [startNewGame] (the engine's start, restart and reset) leaves a
    game in play with no score, no move, no undo and an empty history,
    on a board of [boardSize] rows of [boardSize] cells that holds
    [initialCells] tiles, or is full when the board has fewer cells
    than that; every tile is a 2 or a 4. The configuration and both
    records stay. *)
Theorem startNewGame_deals_initial_cells (draws : nat -> Random.Sample) (now : Z)
        (m : Manager) :
  let m' := startNewGame draws now m in
  let size := boardSize (config m) in
  status (state m') = playing /\
  score (state m') = 0 /\ moveCount (state m') = 0 /\
  canUndo (state m') = false /\ history m' = [] /\
  startTime (state m') = Some now /\ endTime (state m') = None /\
  config m' = config m /\ storage m' = storage m /\
  bestScore (state m') = loadBestScore (storage m) /\
  bestTile (state m') = loadBestTile (storage m) /\
  wf size (board (state m')) /\
  tiles (board (state m')) = Nat.min (initialCells (config m)) (size * size) /\
  (forall r c, freshValue (valueAt (board (state m')) r c)).
Proof.
  cbv zeta. do 11 (split; [reflexivity|]).
  cbn [startNewGame state board updateHighestTile set_board createInitialState].
  destruct (addInitialCells_tiles (boardSize (config m)) (initialCells (config m)) draws
              (createEmptyBoard (boardSize (config m)))
              (emptyBoard_wf _)) as [Hwf Htiles].
  split; [exact Hwf|]. split.
  - rewrite Htiles, createEmptyBoard_tiles. reflexivity.
  - apply addInitialCells_fresh. intros r c. rewrite createEmptyBoard_value. now left.
Qed.

(** *** The history *)

Lemma history_step (m : Manager) d u1 u2 now :
  (length (history m) <= 10)%nat ->
  (canUndo (state m) = true <-> history m <> []) ->
  (length (history (fst (move d u1 u2 now m))) <= 10)%nat /\
  (canUndo (state (fst (move d u1 u2 now m))) = true <->
   history (fst (move d u1 u2 now m)) <> []).
Proof.
  intros Hlen Hcan.
  destruct (decide (status (state m) = playing)) as [Hst|Hst];
    [|rewrite move_not_playing by exact Hst; now split].
  rewrite (move_playing d u1 u2 now m Hst). cbv zeta.
  destruct (saveToHistory_last m) as (_ & Hrem & Hne).
  pose proof (saveToHistory_history m) as Hh.
  destruct (negb _); cbn [fst].
  - match goal with |- context [afterMove ?a ?b ?c ?e ?f] =>
      destruct (afterMove_fields a b c e f) as (H1 & _ & H3 & _) end.
    cbv zeta in H1, H3. rewrite H1, H3. cbn [history set_state].
    split; [|tauto]. rewrite Hh.
    destruct (Nat.ltb_spec (length (history m)) 10).
    + rewrite length_app. cbn. lia.
    + destruct (history m); cbn in *; [lia|]. rewrite length_app. cbn. lia.
  - cbn [history set_history state set_state]. rewrite Hrem.
    cbn [canUndo set_board].
    destruct (Nat.ltb_spec (length (history m)) 10); [now split|].
    destruct (history m) as [|e [|e' h]]; cbn in *; try lia.
    split; [lia|]. split; [discriminate|]. intros _. apply Hcan. discriminate.
Qed.

Lemma history_undo (m : Manager) :
  (length (history m) <= 10)%nat ->
  (canUndo (state m) = true <-> history m <> []) ->
  (length (history (fst (undo m))) <= 10)%nat /\
  (canUndo (state (fst (undo m))) = true <-> history (fst (undo m)) <> []).
Proof.
  intros Hlen Hcan. unfold undo.
  destruct (_ || _); [now split|].
  destruct (list.last (history m)) as [e|] eqn:Hlast; [|now split].
  cbn [fst history state canUndo].
  apply last_Some in Hlast as [h Hh]. rewrite Hh in Hlen |- *.
  rewrite removelast_last. rewrite length_app in Hlen. cbn in Hlen.
  split; [lia|]. destruct h; cbn; split; congruence.
Qed.

(** X11. In every state that a game reaches, the history holds at most
    ten entries, and the state offers an undo exactly when the history
    is not empty, which is when [undo] returns [true]; so at most ten
    undos in a row succeed. *)
Theorem history_bounded_and_undo_offered (cfg : GameConfig) (st : Storage)
        (m : Manager) :
  reachable cfg st m ->
  (length (history m) <= 10)%nat /\
  (canUndo (state m) = true <-> history m <> []) /\
  (snd (undo m) = true <-> history m <> []) /\
  (snd (undo m) = true ->
   length (history (fst (undo m))) = (length (history m) - 1)%nat).
Proof.
  intros Hreach.
  assert (Hinv : (length (history m) <= 10)%nat /\
                 (canUndo (state m) = true <-> history m <> [])).
  { induction Hreach as [draws now|m draws now _ _|m d u1 u2 now _ [IH1 IH2]
                        |m _ [IH1 IH2]|m _ [IH1 IH2]].
    - cbn. split; [lia|]. split; [discriminate|congruence].
    - cbn. split; [lia|]. split; [discriminate|congruence].
    - now apply history_step.
    - now apply history_undo.
    - unfold continueGame. destruct (bool_decide _); now split. }
  destruct Hinv as [Hlen Hcan]. split; [exact Hlen|]. split; [exact Hcan|].
  destruct (history m) as [|e0 h0] eqn:Hh using rev_ind.
  - rewrite undo_refused by (right; exact Hh). cbn. rewrite Hh.
    split; [split; [discriminate|congruence]|discriminate].
  - clear IHh0.
    assert (Hc : canUndo (state m) = true).
    { apply Hcan. intros E. destruct h0; discriminate E. }
    rewrite (undo_pops m h0 e0 Hc Hh). cbn [fst snd restored history].
    split; [split; [intros _; intros E; destruct h0; discriminate E|reflexivity]|].
    intros _. rewrite length_app. cbn. lia.
Qed.

(** ** Boards on which nothing moves *)

(** No two neighbours of the line are equal. *)
Fixpoint noPair (l : list Z) : Prop :=
  match l with
  | a :: ((b :: _) as t) => a <> b /\ noPair t
  | _ => True
  end.

Lemma noPair_lookup l :
  (forall k a b, l !! k = Some a -> l !! S k = Some b -> a <> b) -> noPair l.
Proof.
  induction l as [|a l IH]; intros H; [exact I|].
  destruct l as [|b r]; [exact I|]. split.
  - apply (H 0%nat); reflexivity.
  - apply IH. intros k x y Hx Hy. apply (H (S k)); assumption.
Qed.

Lemma mergePairs_noPair l : noPair l -> mergePairs l = (l, 0).
Proof.
  induction l as [|a l IH]; intros H; [reflexivity|].
  destruct l as [|b r]; [reflexivity|]. destruct H as [Hab Hr].
  rewrite mergePairs_cons2. apply Z.eqb_neq in Hab. rewrite Hab.
  rewrite (IH Hr). reflexivity.
Qed.

Lemma mergePairs_length l : (length (fst (mergePairs l)) <= length l)%nat.
Proof.
  remember (length l) as n eqn:Hn. revert l Hn.
  induction n as [n IH] using lt_wf_ind. intros l Hn. subst n.
  destruct l as [|a [|b r]]; [cbn; lia|cbn; lia|].
  rewrite mergePairs_cons2.
  destruct (a =? b); cbn [fst length].
  - specialize (IH (length r) ltac:(cbn; lia) r eq_refl). lia.
  - specialize (IH (length (b :: r)) ltac:(cbn; lia) (b :: r) eq_refl).
    cbn [length] in IH. lia.
Qed.

Lemma mergePairs_shorter l k a :
  l !! k = Some a -> l !! S k = Some a ->
  (length (fst (mergePairs l)) < length l)%nat.
Proof.
  revert k. induction l as [|x l IH]; intros k Hk Hk'; [discriminate|].
  destruct l as [|y r]; [discriminate|].
  rewrite mergePairs_cons2. destruct (x =? y) eqn:E; cbn [fst length].
  - pose proof (mergePairs_length r). lia.
  - destruct k as [|k].
    + cbn in Hk, Hk'. apply Z.eqb_neq in E. congruence.
    + specialize (IH k Hk Hk'). cbn [length] in IH. lia.
Qed.

Lemma filter_all (l : list Z) :
  Forall (fun v => v <> 0) l -> filter (fun v => v <> 0) l = l.
Proof.
  induction 1 as [|a l Ha _ IH]; [reflexivity|].
  rewrite filter_cons, decide_True by exact Ha. now rewrite IH.
Qed.

Lemma filter_none (l : list Z) :
  Forall (fun v => v = 0) l -> filter (fun v => v <> 0) l = [].
Proof.
  induction 1 as [|a l Ha _ IH]; [reflexivity|].
  rewrite filter_cons, decide_False by (intros H; now apply H). exact IH.
Qed.

(** A full line without equal neighbours is left as it is. *)
Lemma mergeLine_stuck line :
  Forall (fun v => v <> 0) line -> noPair line -> mergeLine line = (line, 0).
Proof.
  intros Hnz Hnp. rewrite mergeLine_refines. unfold mergeLineSpec.
  rewrite (filter_all line Hnz), (mergePairs_noPair line Hnp).
  rewrite (filter_all line Hnz), Nat.sub_diag. cbn. now rewrite app_nil_r.
Qed.

(** A line without tiles is left as it is. *)
Lemma mergeLine_blank line :
  Forall (fun v => v = 0) line -> mergeLine line = (line, 0).
Proof.
  intros Hz. rewrite mergeLine_refines. unfold mergeLineSpec.
  rewrite (filter_none line Hz). cbn. rewrite Nat.sub_0_r. f_equal.
  induction Hz as [|a l Ha _ IH]; [reflexivity|]. cbn. now rewrite Ha, IH.
Qed.

(** The shape of a merged line: tiles, then zeros. *)
Lemma mergeLine_shape line :
  exists result n,
    fst (mergeLine line) = result ++ replicate n 0 /\
    Forall (fun v => v <> 0) result /\
    (length result + n = length line)%nat /\
    (length result <=
     length (fst (mergePairs (filter (fun v : Z => v <> 0%Z) line))))%nat.
Proof.
  rewrite mergeLine_refines. unfold mergeLineSpec.
  pose proof (mergePairs_length (filter (fun v => v <> 0) line)) as Hlen.
  destruct (mergePairs (filter (fun v => v <> 0) line)) as [m s]. cbn [fst] in *.
  eexists _, _. split; [reflexivity|]. split; [apply filter_nonzero_Forall|].
  pose proof (length_filter (fun v => v <> 0) m).
  pose proof (length_filter (fun v => v <> 0) line).
  split; lia.
Qed.

(** A full line with two equal neighbours changes. *)
Lemma mergeLine_changes_pair line k a :
  Forall (fun v => v <> 0) line ->
  line !! k = Some a -> line !! S k = Some a ->
  fst (mergeLine line) <> line.
Proof.
  intros Hnz Hk Hk' Heq.
  destruct (mergeLine_shape line) as (result & n & Hshape & _ & Hlen & Hle).
  rewrite (filter_all line Hnz) in Hle.
  pose proof (mergePairs_shorter line k a Hk Hk') as Hlt.
  assert (Hlast : line !! length result = Some 0).
  { rewrite <- Heq, Hshape. rewrite lookup_app_r by lia.
    rewrite Nat.sub_diag. apply lookup_replicate_2. lia. }
  rewrite Forall_forall in Hnz. apply (Hnz 0); [|reflexivity].
  apply list_elem_of_In. eapply list_elem_of_lookup_2; eauto.
Qed.

(** A line with an empty cell before a tile changes. *)
Lemma mergeLine_changes_gap line k j v :
  line !! k = Some 0 -> line !! j = Some v -> v <> 0 -> (k < j)%nat ->
  fst (mergeLine line) <> line.
Proof.
  intros Hk Hj Hv Hkj Heq.
  destruct (mergeLine_shape line) as (result & n & Hshape & Hres & Hlen & _).
  rewrite Heq in Hshape. rewrite Hshape in Hk, Hj.
  destruct (Nat.lt_ge_cases k (length result)) as [Hlt|Hge].
  - rewrite lookup_app_l in Hk by exact Hlt.
    rewrite Forall_forall in Hres. apply (Hres 0); [|reflexivity].
    apply list_elem_of_In. eapply list_elem_of_lookup_2; eauto.
  - rewrite lookup_app_r in Hj by lia.
    apply lookup_replicate in Hj as [Hj _]. congruence.
Qed.

Lemma boardsEqual_spec size b1 b2 :
  boardsEqual size b1 b2 = true <->
  forall r c, (r < size)%nat -> (c < size)%nat -> valueAt b1 r c = valueAt b2 r c.
Proof.
  unfold boardsEqual. rewrite forallb_forall. split.
  - intros H r c Hr Hc. apply Z.eqb_eq.
    apply (H (r, c)). apply cells_In. split; assumption.
  - intros H [r c] Hin. apply cells_In in Hin as [Hr Hc]. apply Z.eqb_eq.
    now apply H.
Qed.

Lemma lineOf_lookup d size b i k :
  (k < size)%nat ->
  lineOf size (coord d size) b i !! k =
  Some (valueAt b (fst (coord d size i k)) (snd (coord d size i k))).
Proof.
  intros Hk. unfold lineOf. rewrite list_lookup_fmap.
  rewrite lookup_seq_lt by exact Hk. reflexivity.
Qed.

Lemma lineOf_length d size b i : length (lineOf size (coord d size) b i) = size.
Proof. unfold lineOf. now rewrite length_map, length_seq. Qed.

(** A move leaves the values of the board as they are exactly when it
    leaves every line as it is. *)
Lemma unmoved_lines d size b :
  wf size b ->
  (boardsEqual size b (fst (moveBoard d size b)) = true <->
   forall i, (i < size)%nat ->
     fst (mergeLine (lineOf size (coord d size) b i)) = lineOf size (coord d size) b i).
Proof.
  intros Hwf. rewrite boardsEqual_spec. split.
  - intros Heq i Hi. rewrite <- (moveBoard_line d size b i Hwf Hi).
    unfold lineOf. apply map_ext_in. intros k Hk. apply in_seq in Hk.
    destruct (coord_range d size i k Hi) as [H1 H2]; [lia|].
    symmetry. now apply Heq.
  - intros Hlines r c Hr Hc.
    destruct (coord_onto d size r c Hr Hc) as (i & k & Hi & Hk & Hco).
    destruct (moveBoard_spec d size b Hwf) as (_ & Hval & _).
    specialize (Hval i k Hi Hk). rewrite Hco in Hval. cbn [fst snd] in Hval.
    rewrite Hval, (Hlines i Hi), (lineOf_lookup d size b i k Hk), Hco. reflexivity.
Qed.

Lemma sumZ_zero {A} (f : A -> Z) (l : list A) :
  (forall a, In a l -> f a = 0) -> sumZ (map f l) = 0.
Proof.
  induction l as [|a l IH]; intros H; [reflexivity|].
  change (sumZ (map f (a :: l))) with (f a + sumZ (map f l)).
  rewrite (H a) by now left. rewrite IH; [reflexivity|].
  intros x Hx. apply H. now right.
Qed.

(** Every cell holds a tile and no two neighbours are equal. *)
Definition stuck (size : nat) (b : Board) : Prop :=
  (forall r c, (r < size)%nat -> (c < size)%nat -> valueAt b r c <> 0) /\
  (forall r c, (r < size)%nat -> (S c < size)%nat ->
     valueAt b r c <> valueAt b r (S c)) /\
  (forall r c, (S r < size)%nat -> (c < size)%nat ->
     valueAt b r c <> valueAt b (S r) c).

Lemma canMove_false size b : canMove size b = false -> stuck size b.
Proof.
  unfold canMove. intros H.
  destruct (Nat.ltb_spec 0 (length (getEmptyCells size b))) as [|Hlen]; [discriminate|].
  assert (Hnil : getEmptyCells size b = []) by (destruct (getEmptyCells size b); [reflexivity|cbn in Hlen; lia]).
  rewrite emptyCells_nil in Hnil. split; [exact Hnil|].
  assert (Hcell : forall r c, (r < size)%nat -> (c < size)%nat ->
            ((c <? size - 1)%nat && (valueAt b r c =? valueAt b r (c + 1))) ||
            ((r <? size - 1)%nat && (valueAt b r c =? valueAt b (r + 1) c)) = false).
  { intros r c Hr Hc.
    destruct (_ || _) eqn:E; [|reflexivity].
    assert (Hex : existsb (fun rc : nat * nat =>
               let '(r, c) := rc in
               let current := valueAt b r c in
               ((c <? size - 1)%nat && (current =? valueAt b r (c + 1)))
               || ((r <? size - 1)%nat && (current =? valueAt b (r + 1) c)))
             (allCells size) = true).
    { apply existsb_exists. exists (r, c). split; [now apply cells_In|exact E]. }
    exact (eq_trans (eq_sym Hex) H). }
  split.
  - intros r c Hr Hc Heq. specialize (Hcell r c Hr ltac:(lia)).
    apply orb_false_elim in Hcell as [H1 _].
    rewrite Nat.add_1_r, <- Heq, Z.eqb_refl, andb_true_r in H1.
    apply Nat.ltb_ge in H1. lia.
  - intros r c Hr Hc Heq. specialize (Hcell r c ltac:(lia) Hc).
    apply orb_false_elim in Hcell as [_ H2].
    rewrite Nat.add_1_r, <- Heq, Z.eqb_refl, andb_true_r in H2.
    apply Nat.ltb_ge in H2. lia.
Qed.

Lemma stuck_line d size b i :
  stuck size b -> (i < size)%nat ->
  mergeLine (lineOf size (coord d size) b i) = (lineOf size (coord d size) b i, 0).
Proof.
  intros (Hfull & Hrow & Hcol) Hi. apply mergeLine_stuck.
  - unfold lineOf. apply Forall_forall. intros v Hin.
    apply in_map_iff in Hin as (k & <- & Hk). apply in_seq in Hk.
    destruct (coord_range d size i k Hi) as [H1 H2]; [lia|]. now apply Hfull.
  - apply noPair_lookup. intros k x y Hx Hy.
    assert (Hk : (S k < size)%nat).
    { apply lookup_lt_Some in Hy. now rewrite lineOf_length in Hy. }
    rewrite lineOf_lookup in Hx, Hy by lia.
    injection Hx as <-. injection Hy as <-.
    destruct d; cbn [coord fst snd].
    + now apply Hcol.
    + replace (size - 1 - k)%nat with (S (size - 1 - S k)) by lia.
      intros E. symmetry in E. revert E. apply Hcol; lia.
    + now apply Hrow.
    + replace (size - 1 - k)%nat with (S (size - 1 - S k)) by lia.
      intros E. symmetry in E. revert E. apply Hrow; lia.
Qed.

Lemma stuck_unmoved d size b :
  wf size b -> stuck size b ->
  boardsEqual size b (fst (moveBoard d size b)) = true /\
  snd (moveBoard d size b) = 0.
Proof.
  intros Hwf Hstuck. split.
  - apply unmoved_lines; [exact Hwf|]. intros i Hi.
    now rewrite (stuck_line d size b i Hstuck Hi).
  - destruct (moveBoard_spec d size b Hwf) as (_ & _ & ->).
    apply sumZ_zero. intros i Hin. apply in_seq in Hin.
    rewrite (stuck_line d size b i Hstuck); [reflexivity|lia].
Qed.

(** A line that neither of the two moves along it changes holds tiles
    only or no tile. *)
Lemma unmoved_line_uniform (line : list Z) j k v :
  fst (mergeLine line) = line -> fst (mergeLine (rev line)) = rev line ->
  line !! j = Some 0 -> line !! k = Some v -> v = 0.
Proof.
  intros Hfwd Hbwd Hj Hk.
  destruct (decide (v = 0)) as [|Hv]; [assumption|exfalso].
  destruct (Nat.lt_trichotomy j k) as [Hlt|[->|Hgt]].
  - exact (mergeLine_changes_gap line j k v Hj Hk Hv Hlt Hfwd).
  - congruence.
  - pose proof (lookup_lt_Some _ _ _ Hj) as Hjl.
    pose proof (lookup_lt_Some _ _ _ Hk) as Hkl.
    apply (mergeLine_changes_gap (rev line) (length line - S j) (length line - S k) v);
      try assumption; try lia.
    + rewrite rev_lookup by lia. rewrite <- Hj. f_equal. lia.
    + rewrite rev_lookup by lia. rewrite <- Hk. f_equal. lia.
Qed.

Lemma unmoved_all_uniform size b :
  wf size b ->
  (forall d, boardsEqual size b (fst (moveBoard d size b)) = true) ->
  (forall r c c', (r < size)%nat -> (c < size)%nat -> (c' < size)%nat ->
     valueAt b r c = 0 -> valueAt b r c' = 0) /\
  (forall r r' c, (r < size)%nat -> (r' < size)%nat -> (c < size)%nat ->
     valueAt b r c = 0 -> valueAt b r' c = 0).
Proof.
  intros Hwf Hall.
  pose proof (proj1 (unmoved_lines left size b Hwf) (Hall left)) as Hl.
  pose proof (proj1 (unmoved_lines right size b Hwf) (Hall right)) as Hr.
  pose proof (proj1 (unmoved_lines up size b Hwf) (Hall up)) as Hu.
  pose proof (proj1 (unmoved_lines down size b Hwf) (Hall down)) as Hd.
  split.
  - intros r c c' Hr' Hc Hc' Hz.
    specialize (Hl r Hr'). specialize (Hr r Hr').
    rewrite lineOf_right in Hr by assumption.
    rewrite <- (lineOf_left size b r) in Hr by assumption.
    apply (unmoved_line_uniform _ c c' _ Hl Hr).
    + rewrite lineOf_lookup by exact Hc. cbn [coord fst snd]. now rewrite Hz.
    + rewrite lineOf_lookup by exact Hc'. reflexivity.
  - intros r r' c Hr' Hr'' Hc Hz.
    specialize (Hu c Hc). specialize (Hd c Hc).
    rewrite lineOf_down in Hd. rewrite <- (lineOf_up size b c) in Hd.
    apply (unmoved_line_uniform _ r r' _ Hu Hd).
    + rewrite lineOf_lookup by exact Hr'. cbn [coord fst snd]. now rewrite Hz.
    + rewrite lineOf_lookup by exact Hr''. reflexivity.
Qed.

Lemma canMove_true size b :
  wf size b -> canMove size b = true ->
  (exists r c, (r < size)%nat /\ (c < size)%nat /\ valueAt b r c <> 0) ->
  ~ (forall d, boardsEqual size b (fst (moveBoard d size b)) = true).
Proof.
  intros Hwf Hcan (r1 & c1 & Hr1 & Hc1 & Hv1) Hall.
  unfold canMove in Hcan.
  destruct (Nat.ltb_spec 0 (length (getEmptyCells size b))) as [Hlen|Hlen].
  - destruct (getEmptyCells size b) as [|[r0 c0] rest] eqn:E; [cbn in Hlen; lia|].
    assert (Hin : In (r0, c0) (getEmptyCells size b)) by (rewrite E; now left).
    apply emptyCells_In in Hin as (Hr0 & Hc0 & Hv0).
    destruct (unmoved_all_uniform size b Hwf Hall) as [Hrow Hcol].
    apply Hv1. apply (Hrow r1 c0 c1 Hr1 Hc0 Hc1).
    now apply (Hcol r0 r1 c0).
  - assert (Hnil : getEmptyCells size b = [])
      by (destruct (getEmptyCells size b); [reflexivity|cbn in Hlen; lia]).
    rewrite emptyCells_nil in Hnil.
    apply existsb_exists in Hcan as ([r c] & Hin & Hcond).
    apply cells_In in Hin as [Hr Hc].
    assert (Hfull : forall d i, (i < size)%nat ->
              Forall (fun v => v <> 0) (lineOf size (coord d size) b i)).
    { intros d i Hi. unfold lineOf. apply Forall_forall. intros v Hin.
      apply in_map_iff in Hin as (k & <- & Hk). apply in_seq in Hk.
      destruct (coord_range d size i k Hi) as [H1 H2]; [lia|]. now apply Hnil. }
    apply orb_true_iff in Hcond as [Hcond|Hcond];
      apply andb_true_iff in Hcond as [Hlt Heq];
      apply Nat.ltb_lt in Hlt; apply Z.eqb_eq in Heq; rewrite Nat.add_1_r in Heq.
    + pose proof (proj1 (unmoved_lines left size b Hwf) (Hall left) r Hr) as Hl.
      revert Hl. apply (mergeLine_changes_pair _ c (valueAt b r c)).
      * now apply Hfull.
      * rewrite lineOf_lookup by lia. reflexivity.
      * rewrite lineOf_lookup by lia. cbn [coord fst snd]. now rewrite Heq.
    + pose proof (proj1 (unmoved_lines up size b Hwf) (Hall up) c Hc) as Hu.
      revert Hu. apply (mergeLine_changes_pair _ r (valueAt b r c)).
      * now apply Hfull.
      * rewrite lineOf_lookup by lia. reflexivity.
      * rewrite lineOf_lookup by lia. cbn [coord fst snd]. now rewrite Heq.
Qed.

Lemma some_move_changes size b :
  ~ (forall d, boardsEqual size b (fst (moveBoard d size b)) = true) ->
  exists d, boardsEqual size b (fst (moveBoard d size b)) = false.
Proof.
  intros Hnot.
  destruct (boardsEqual size b (fst (moveBoard left size b))) eqn:El;
    [|now exists left].
  destruct (boardsEqual size b (fst (moveBoard right size b))) eqn:Er;
    [|now exists right].
  destruct (boardsEqual size b (fst (moveBoard up size b))) eqn:Eu;
    [|now exists up].
  destruct (boardsEqual size b (fst (moveBoard down size b))) eqn:Ed;
    [|now exists down].
  exfalso. apply Hnot. intros []; assumption.
Qed.

Lemma blank_unmoved d size b :
  wf size b ->
  (forall r c, (r < size)%nat -> (c < size)%nat -> valueAt b r c = 0) ->
  boardsEqual size b (fst (moveBoard d size b)) = true.
Proof.
  intros Hwf Hblank. apply unmoved_lines; [exact Hwf|]. intros i Hi.
  rewrite mergeLine_blank; [reflexivity|].
  unfold lineOf. apply Forall_forall. intros v Hin.
  apply in_map_iff in Hin as (k & <- & Hk). apply in_seq in Hk.
  destruct (coord_range d size i k Hi) as [H1 H2]; [lia|]. now apply Hblank.
Qed.

(** X12. [canMove] is exact on a board of [size] rows of [size] cells
    that holds a tile. When it answers [false], every cell holds a tile,
    no two neighbours are equal, and each of the four moves leaves
    every value as it is and scores 0. When it answers [true], one of
    the four moves changes a value. On a board without a tile it
    answers [true] although no move changes a value. *)
Theorem canMove_false_exactly_when_stuck (size : nat) (b : Board) :
  wf size b ->
  (canMove size b = false ->
   stuck size b /\
   forall d, boardsEqual size b (fst (moveBoard d size b)) = true /\
             snd (moveBoard d size b) = 0) /\
  (canMove size b = true ->
   (exists r c, (r < size)%nat /\ (c < size)%nat /\ valueAt b r c <> 0) ->
   exists d, boardsEqual size b (fst (moveBoard d size b)) = false) /\
  ((0 < size)%nat ->
   (forall r c, (r < size)%nat -> (c < size)%nat -> valueAt b r c = 0) ->
   canMove size b = true /\
   forall d, boardsEqual size b (fst (moveBoard d size b)) = true).
Proof.
  intros Hwf. split; [|split].
  - intros Hcan. pose proof (canMove_false size b Hcan) as Hstuck.
    split; [exact Hstuck|]. intros d. now apply stuck_unmoved.
  - intros Hcan Htile. apply some_move_changes. now apply canMove_true.
  - intros Hsize Hblank. split.
    + destruct (canMove size b) eqn:E; [reflexivity|].
      destruct (canMove_false size b E) as [Hfull _].
      now destruct (Hfull 0%nat 0%nat Hsize Hsize (Hblank 0%nat 0%nat Hsize Hsize)).
    + intros d. now apply blank_unmoved.
Qed.

(** ** How a move ends the game *)

Lemma checkFor2048_spec cfg b :
  checkFor2048 cfg b = true <->
  exists r c, (r < boardSize cfg)%nat /\ (c < boardSize cfg)%nat /\
              winTarget cfg <= valueAt b r c.
Proof.
  unfold checkFor2048. rewrite existsb_exists. split.
  - intros ([r c] & Hin & Hge). apply cells_In in Hin as [Hr Hc].
    cbn [fst snd] in Hge. zbool. now exists r, c.
  - intros (r & c & Hr & Hc & Hge). exists (r, c).
    split; [now apply cells_In|]. cbn [fst snd]. apply Z.geb_le. exact Hge.
Qed.

Lemma clearCellFlags_value size b r c :
  valueAt (clearCellFlags size b) r c = valueAt b r c.
Proof.
  unfold clearCellFlags. generalize (allCells size). intros cells. revert b.
  induction cells as [|rc cells IH]; intros b; [reflexivity|].
  cbn [fold_left]. rewrite IH. now apply valueAt_update.
Qed.

Lemma tileOK_nonneg v : tileOK v -> 0 <= v.
Proof.
  intros [->|(k & Hk & ->)]; [lia|]. apply Z.pow_nonneg. lia.
Qed.

Lemma mergePairs_mono l v :
  Forall (fun x => 0 <= x) l -> In v l ->
  exists v', In v' (fst (mergePairs l)) /\ v <= v'.
Proof.
  remember (length l) as n eqn:Hn. revert l Hn v.
  induction n as [n IH] using lt_wf_ind. intros l Hn v Hl Hin. subst n.
  destruct l as [|a [|b r]]; [destruct Hin|exists v; split; [exact Hin|lia]|].
  rewrite mergePairs_cons2.
  apply Forall_cons_1 in Hl as [Ha Hl]. pose proof Hl as Hbr.
  apply Forall_cons_1 in Hl as [Hb Hr].
  destruct (a =? b) eqn:E; cbn [fst].
  - destruct Hin as [<-|[<-|Hin]].
    + exists (a + b). split; [now left|lia].
    + exists (a + b). split; [now left|lia].
    + destruct (IH (length r) ltac:(cbn; lia) r eq_refl v Hr Hin) as (v' & Hv' & Hle).
      exists v'. split; [now right|exact Hle].
  - destruct Hin as [<-|Hin].
    + exists a. split; [now left|lia].
    + destruct (IH (length (b :: r)) ltac:(cbn; lia) (b :: r) eq_refl v Hbr Hin)
        as (v' & Hv' & Hle).
      exists v'. split; [now right|exact Hle].
Qed.

(** Merging a line does not lower its largest value. *)
Lemma mergeLine_mono line v :
  Forall tileOK line -> In v line ->
  exists v', In v' (fst (mergeLine line)) /\ v <= v'.
Proof.
  intros Hl Hin.
  pose proof (mergeLine_tileOK line Hl) as Hok.
  pose proof (mergeLine_length line) as Hlen.
  destruct (decide (v = 0)) as [->|Hv].
  - destruct (fst (mergeLine line)) as [|x rest].
    + destruct line; [destruct Hin|discriminate Hlen].
    + exists x. split; [now left|]. apply tileOK_nonneg.
      now apply Forall_cons_1 in Hok as [Hx _].
  - clear Hok Hlen. rewrite mergeLine_refines. unfold mergeLineSpec.
    assert (Hnn : Forall (fun x => 0 <= x) (filter (fun v => v <> 0) line)).
    { apply Forall_forall. intros x Hx.
      apply list_elem_of_In, list_elem_of_filter in Hx as [_ Hx].
      apply tileOK_nonneg. rewrite Forall_forall in Hl.
      now apply Hl, list_elem_of_In. }
    assert (Hvin : In v (filter (fun v => v <> 0) line)).
    { apply list_elem_of_In, list_elem_of_filter. split; [exact Hv|].
      now apply list_elem_of_In. }
    destruct (mergePairs_mono _ v Hnn Hvin) as (v' & Hv' & Hle).
    destruct (mergePairs (filter (fun v => v <> 0) line)) as [m s]. cbn [fst] in *.
    exists v'. split; [|exact Hle]. apply in_or_app. left.
    apply list_elem_of_In, list_elem_of_filter. split; [|now apply list_elem_of_In].
    assert (0 <= v) by (apply tileOK_nonneg; rewrite Forall_forall in Hl; now apply Hl).
    lia.
Qed.

(** A move keeps a tile of the target value or more on the board. *)
Lemma moveBoard_keeps_target cfg d b :
  goodBoard (boardSize cfg) b ->
  checkFor2048 cfg b = true ->
  checkFor2048 cfg (fst (moveBoard d (boardSize cfg) b)) = true.
Proof.
  intros [Hwf Hok] Hcheck. apply checkFor2048_spec in Hcheck as (r & c & Hr & Hc & Hge).
  apply checkFor2048_spec.
  destruct (coord_onto d (boardSize cfg) r c Hr Hc) as (i & k & Hi & Hk & Hco).
  set (size := boardSize cfg) in *.
  assert (Hline : Forall tileOK (lineOf size (coord d size) b i)).
  { unfold lineOf. apply Forall_forall. intros v Hin.
    apply in_map_iff in Hin as (k0 & <- & Hk0). apply in_seq in Hk0.
    destruct (coord_range d size i k0 Hi) as [H1 H2]; [lia|]. now apply Hok. }
  assert (Hin : In (valueAt b r c) (lineOf size (coord d size) b i)).
  { apply list_elem_of_In. apply (list_elem_of_lookup_2 _ k).
    rewrite lineOf_lookup by exact Hk. now rewrite Hco. }
  destruct (mergeLine_mono _ _ Hline Hin) as (v' & Hv' & Hle).
  apply list_elem_of_In, list_elem_of_lookup in Hv' as [k' Hk'].
  pose proof (lookup_lt_Some _ _ _ Hk') as Hlt.
  rewrite mergeLine_length, lineOf_length in Hlt.
  destruct (moveBoard_spec d size b Hwf) as (_ & Hval & _).
  specialize (Hval i k' Hi Hlt). rewrite Hk' in Hval. cbn [default] in Hval. unfold id in Hval.
  destruct (coord_range d size i k' Hi Hlt) as [H1 H2].
  eexists _, _. split; [exact H1|]. split; [exact H2|]. rewrite Hval. lia.
Qed.

Lemma addRandomCell_keeps_target cfg u1 u2 b :
  goodBoard (boardSize cfg) b ->
  checkFor2048 cfg b = true ->
  checkFor2048 cfg (fst (addRandomCell (boardSize cfg) u1 u2 b)) = true.
Proof.
  intros [Hwf Hok] Hcheck. unfold addRandomCell.
  destruct (getEmptyCells (boardSize cfg) b !! _) as [[r0 c0]|] eqn:Hpick;
    [|exact Hcheck].
  cbn [fst].
  apply checkFor2048_spec in Hcheck as (r & c & Hr & Hc & Hge).
  apply checkFor2048_spec. exists r, c. split; [exact Hr|]. split; [exact Hc|].
  unfold valueAt. rewrite GridFacts.get_update.
  destruct (decide ((r0, c0) = (r, c))) as [Heq|Hne]; [|exact Hge].
  injection Heq as -> ->.
  assert (Hin : In (r, c) (getEmptyCells (boardSize cfg) b)).
  { apply list_elem_of_In. eapply list_elem_of_lookup_2; eauto. }
  apply emptyCells_In in Hin as (_ & _ & Hz). rewrite Hz in Hge.
  destruct (wf_get _ b r c Hwf Hr Hc) as [cell ->]. cbn [fmap option_fmap option_map value].
  destruct (Random.below u2 9 10); lia.
Qed.

(** The status and the end time after a move that has changed the
    board. *)
Lemma afterMove_status u1 u2 now sc m :
  let m' := fst (afterMove u1 u2 now sc m) in
  let b' := board (state m') in
  (status (state m'), endTime (state m')) =
  if checkFor2048 (config m) b' && bool_decide (status (state m) = playing)
  then (won, Some now)
  else if negb (canMove (boardSize (config m)) b')
       then (lost, Some now)
       else (status (state m), endTime (state m)).
Proof.
  cbv zeta. destruct (afterMove_fields u1 u2 now sc m) as (_ & _ & _ & _ & _ & ->).
  unfold afterMove. cbn [fst state status endTime].
  unfold checkGameStatus.
  cbn [board set_board updateHighestTile status endTime].
  destruct (_ && _); [reflexivity|]. destruct (negb _); reflexivity.
Qed.

(** After a new cell the board holds a tile, unless it has no cell. *)
Lemma addRandomCell_tile size u1 u2 b :
  wf size b -> (0 < size)%nat ->
  exists r c, (r < size)%nat /\ (c < size)%nat /\
              valueAt (fst (addRandomCell size u1 u2 b)) r c <> 0.
Proof.
  intros Hwf Hsize.
  destruct (getEmptyCells size b) as [|rc rest] eqn:E.
  - rewrite addRandomCell_full by exact E. cbn [fst].
    rewrite emptyCells_nil in E. exists 0%nat, 0%nat.
    split; [exact Hsize|]. split; [exact Hsize|]. now apply E.
  - assert (Hne : getEmptyCells size b <> []) by (rewrite E; discriminate).
    destruct (addRandomCell_pick size u1 b Hne) as (r & c & Hpick & Hr & Hc & Hv).
    unfold addRandomCell. rewrite Hpick. cbn [fst].
    exists r, c. split; [exact Hr|]. split; [exact Hc|].
    unfold valueAt. rewrite GridFacts.get_update, decide_True by reflexivity.
    destruct (wf_get size b r c Hwf Hr Hc) as [cell ->].
    cbn [fmap option_fmap option_map value].
    destruct (Random.below u2 9 10); lia.
Qed.

Lemma boardsEqual_nil b1 b2 : boardsEqual 0 b1 b2 = true.
Proof. reflexivity. Qed.

(** The facts about a successful move that the two theorems below
    share. *)
Lemma move_moved cfg st m d u1 u2 now :
  reachable cfg st m ->
  status (state m) = playing ->
  moved (snd (move d u1 u2 now m)) = true ->
  let m' := fst (move d u1 u2 now m) in
  let b' := board (state m') in
  let moved_ := fst (moveBoard d (boardSize cfg)
                       (clearCellFlags (boardSize cfg) (board (state m)))) in
  config m = cfg /\ (0 < boardSize cfg)%nat /\
  goodBoard (boardSize cfg) moved_ /\
  b' = fst (addRandomCell (boardSize cfg) u1 u2 moved_) /\
  reached2048 (snd (move d u1 u2 now m)) = checkFor2048 cfg moved_ /\
  (status (state m'), endTime (state m')) =
    if checkFor2048 cfg b' then (won, Some now)
    else if negb (canMove (boardSize cfg) b') then (lost, Some now)
         else (playing, endTime (state m)).
Proof.
  intros Hreach Hst Hmoved.
  destruct (reachable_invariant cfg st m Hreach) as (Hcfg & Hgood & _).
  rewrite (move_playing d u1 u2 now m Hst) in Hmoved |- *. cbv zeta in Hmoved |- *.
  rewrite Hcfg in Hmoved |- *.
  destruct (negb (boardsEqual _ _ _)) eqn:Hchanged; [|discriminate Hmoved].
  cbn [fst snd reached2048].
  split; [reflexivity|]. split.
  { destruct (boardSize cfg); [|lia]. discriminate Hchanged. }
  split; [now apply moveBoard_good, clearCellFlags_good|].
  match goal with |- context [afterMove ?a ?b ?c ?e ?f] =>
    pose proof (afterMove_status a b c e f) as Hstat;
    destruct (afterMove_fields a b c e f) as (_ & _ & _ & _ & _ & Hboard) end.
  cbv zeta in Hstat, Hboard.
  cbn [config set_state saveToHistory set_history state board set_board status endTime]
    in Hstat, Hboard.
  rewrite Hcfg in Hstat, Hboard. rewrite Hst in Hstat.
  rewrite bool_decide_eq_true_2, andb_true_r in Hstat by reflexivity.
  split; [exact Hboard|]. split; [|exact Hstat].
  unfold afterMove. cbn [snd]. cbn [config set_state saveToHistory set_history state
    board set_board]. now rewrite Hcfg.
Qed.

(** X13. A move that changes the board of a game in play ends the game
    for cause only. The game is won exactly when the board, with its new
    cell, holds a tile of the target value or more; it is lost exactly
    when there is no such tile and none of the four moves would change
    a value; otherwise it stays in play, and some move changes a value.
    The end time is set when the game ends and kept otherwise. *)
Theorem move_ends_game_for_cause (cfg : GameConfig) (st : Storage) (m : Manager)
        (d : Direction) (u1 u2 : Random.Sample) (now : Z) :
  reachable cfg st m ->
  status (state m) = playing ->
  moved (snd (move d u1 u2 now m)) = true ->
  let m' := fst (move d u1 u2 now m) in
  let b' := board (state m') in
  let unmoved d' :=
    boardsEqual (boardSize cfg) b' (fst (moveBoard d' (boardSize cfg) b')) in
  (status (state m') = won <-> checkFor2048 cfg b' = true) /\
  (status (state m') = lost <->
   checkFor2048 cfg b' = false /\ forall d', unmoved d' = true) /\
  (status (state m') = playing <->
   checkFor2048 cfg b' = false /\ exists d', unmoved d' = false) /\
  (status (state m') = playing -> endTime (state m') = endTime (state m)) /\
  (status (state m') <> playing -> endTime (state m') = Some now).
Proof.
  intros Hreach Hst Hmoved.
  destruct (move_moved cfg st m d u1 u2 now Hreach Hst Hmoved)
    as (Hcfg & Hsize & Hgood & Hb' & _ & Hstat).
  cbv zeta in *.
  set (m' := fst (move d u1 u2 now m)) in *.
  set (b' := board (state m')) in *.
  assert (Hwf : wf (boardSize cfg) b').
  { rewrite Hb'. apply addRandomCell_good. exact Hgood. }
  assert (Htile : exists r c, (r < boardSize cfg)%nat /\ (c < boardSize cfg)%nat /\
                              valueAt b' r c <> 0).
  { rewrite Hb'. apply addRandomCell_tile; [apply Hgood|exact Hsize]. }
  destruct (checkFor2048 cfg b') eqn:Hcheck.
  - injection Hstat as Hs He. rewrite Hs, He.
    repeat split; try discriminate; try reflexivity; try tauto;
      intros [? _]; discriminate.
  - destruct (canMove (boardSize cfg) b') eqn:Hcan; cbn [negb] in Hstat;
      injection Hstat as Hs He; rewrite Hs, He.
    + pose proof (canMove_true _ _ Hwf Hcan Htile) as Hnot.
      pose proof (some_move_changes _ _ Hnot) as Hsome.
      repeat split; try discriminate; try reflexivity; try tauto;
        try (intros [_ Hall]; now destruct Hnot).
    + pose proof (canMove_false _ _ Hcan) as Hstuck.
      assert (Hall : forall d', boardsEqual (boardSize cfg) b'
                       (fst (moveBoard d' (boardSize cfg) b')) = true).
      { intros d'. now apply stuck_unmoved. }
      repeat split; try discriminate; try reflexivity; try exact Hall.
      intros [_ [d' Hd']]. rewrite Hall in Hd'. discriminate.
Qed.

(** X14. While a tile of the target value or more is on the board of a
    reachable game in play, which is the case after [continueGame] on a
    game that a move has won, every move that changes the board reports
    that the target is reached and ends the game as won again. *)
Theorem target_tile_move_wins (cfg : GameConfig) (st : Storage) (m : Manager)
        (d : Direction) (u1 u2 : Random.Sample) (now : Z) :
  reachable cfg st m ->
  status (state m) = playing ->
  checkFor2048 cfg (board (state m)) = true ->
  moved (snd (move d u1 u2 now m)) = true ->
  reached2048 (snd (move d u1 u2 now m)) = true /\
  status (state (fst (move d u1 u2 now m))) = won /\
  endTime (state (fst (move d u1 u2 now m))) = Some now /\
  checkFor2048 cfg (board (state (fst (move d u1 u2 now m)))) = true.
Proof.
  intros Hreach Hst Hcheck Hmoved.
  destruct (move_moved cfg st m d u1 u2 now Hreach Hst Hmoved)
    as (Hcfg & Hsize & Hgood & Hb' & Hreached & Hstat).
  cbv zeta in *.
  destruct (reachable_invariant cfg st m Hreach) as (_ & Hgood0 & _).
  assert (Hkept : checkFor2048 cfg
            (fst (moveBoard d (boardSize cfg)
                    (clearCellFlags (boardSize cfg) (board (state m))))) = true).
  { apply moveBoard_keeps_target; [now apply clearCellFlags_good|].
    apply checkFor2048_spec in Hcheck as (r & c & Hr & Hc & Hge).
    apply checkFor2048_spec. exists r, c. rewrite clearCellFlags_value. tauto. }
  assert (Hkept' : checkFor2048 cfg (board (state (fst (move d u1 u2 now m)))) = true).
  { rewrite Hb'. now apply addRandomCell_keeps_target. }
  rewrite Hkept' in Hstat. injection Hstat as Hs He.
  rewrite Hreached, Hkept. repeat split; assumption.
Qed.

(** ** The sum of the tiles *)

Lemma sumZ_app l m : sumZ (l ++ m) = sumZ l + sumZ m.
Proof.
  induction l as [|a l IH]; [reflexivity|].
  change (sumZ ((a :: l) ++ m)) with (a + sumZ (l ++ m)).
  change (sumZ (a :: l)) with (a + sumZ l). lia.
Qed.

Lemma sumZ_cons a l : sumZ (a :: l) = a + sumZ l.
Proof. reflexivity. Qed.

Lemma sumZ_rev l : sumZ (rev l) = sumZ l.
Proof.
  induction l as [|a l IH]; [reflexivity|].
  cbn [rev]. rewrite sumZ_app, IH, !sumZ_cons. cbn. lia.
Qed.

Lemma sumZ_filter l : sumZ (filter (fun v => v <> 0) l) = sumZ l.
Proof.
  induction l as [|a l IH]; [reflexivity|].
  rewrite filter_cons. destruct (decide (a <> 0)) as [Ha|Ha].
  - rewrite !sumZ_cons, IH. reflexivity.
  - rewrite sumZ_cons, IH. lia.
Qed.

Lemma sumZ_replicate n : sumZ (replicate n 0) = 0.
Proof. induction n as [|n IH]; [reflexivity|]. cbn [replicate]. now rewrite sumZ_cons, IH. Qed.

Lemma mergePairs_sum l : sumZ (fst (mergePairs l)) = sumZ l.
Proof.
  remember (length l) as n eqn:Hn. revert l Hn.
  induction n as [n IH] using lt_wf_ind. intros l Hn. subst n.
  destruct l as [|a [|b r]]; [reflexivity|reflexivity|].
  rewrite mergePairs_cons2. destruct (a =? b); cbn [fst]; rewrite !sumZ_cons.
  - rewrite (IH (length r) ltac:(cbn; lia) r eq_refl). lia.
  - rewrite (IH (length (b :: r)) ltac:(cbn; lia) (b :: r) eq_refl).
    rewrite sumZ_cons. lia.
Qed.

(** Merging a line keeps the sum of its values. *)
Lemma mergeLine_sum line : sumZ (fst (mergeLine line)) = sumZ line.
Proof.
  rewrite mergeLine_refines. unfold mergeLineSpec.
  pose proof (mergePairs_sum (filter (fun v => v <> 0) line)) as Hsum.
  destruct (mergePairs (filter (fun v => v <> 0) line)) as [m s]. cbn [fst] in *.
  rewrite sumZ_app, sumZ_replicate, sumZ_filter, Hsum, sumZ_filter. lia.
Qed.

(** The sum of the values of the board. *)
Definition boardSum (size : nat) (b : Board) : Z :=
  sumZ (map (fun rc => valueAt b (fst rc) (snd rc)) (allCells size)).

Lemma sumZ_flat_map {A B} (g : B -> Z) (h : A -> list B) (l : list A) :
  sumZ (map g (flat_map h l)) = sumZ (map (fun x => sumZ (map g (h x))) l).
Proof.
  induction l as [|a l IH]; [reflexivity|].
  cbn [flat_map map]. rewrite map_app, sumZ_app, IH, sumZ_cons. reflexivity.
Qed.

Lemma sumZ_plus {A} (g h : A -> Z) (l : list A) :
  sumZ (map (fun x => g x + h x) l) = sumZ (map g l) + sumZ (map h l).
Proof.
  induction l as [|a l IH]; [reflexivity|].
  cbn [map]. rewrite !sumZ_cons, IH. lia.
Qed.

Lemma sumZ_swap {A B} (f : A -> B -> Z) (l1 : list A) (l2 : list B) :
  sumZ (map (fun i => sumZ (map (fun j => f i j) l2)) l1) =
  sumZ (map (fun j => sumZ (map (fun i => f i j) l1)) l2).
Proof.
  induction l1 as [|a l1 IH].
  - cbn [map]. symmetry. apply sumZ_zero. reflexivity.
  - cbn [map]. rewrite sumZ_cons, IH.
    rewrite <- sumZ_plus. reflexivity.
Qed.

Lemma boardSum_rows size b :
  boardSum size b =
  sumZ (map (fun r => sumZ (map (fun c => valueAt b r c) (seq 0 size))) (seq 0 size)).
Proof.
  unfold boardSum, allCells. rewrite sumZ_flat_map.
  f_equal. apply map_ext. intros r. now rewrite map_map.
Qed.

Lemma boardSum_lines d size b :
  boardSum size b =
  sumZ (map (fun i => sumZ (lineOf size (coord d size) b i)) (seq 0 size)).
Proof.
  rewrite boardSum_rows. destruct d.
  - rewrite sumZ_swap. reflexivity.
  - rewrite sumZ_swap. f_equal. apply map_ext. intros c.
    rewrite lineOf_down, sumZ_rev. reflexivity.
  - reflexivity.
  - f_equal. apply map_ext. intros r.
    change (lineOf size (coord right size) b r)
      with (map (fun k => valueAt b r (size - 1 - k)) (seq 0 size)).
    rewrite <- (rev_map_seq (fun k => valueAt b r k)), sumZ_rev. reflexivity.
Qed.

Lemma moveBoard_sum d size b :
  wf size b -> boardSum size (fst (moveBoard d size b)) = boardSum size b.
Proof.
  intros Hwf. rewrite !(boardSum_lines d). f_equal.
  apply map_ext_in. intros i Hi. apply in_seq in Hi.
  rewrite moveBoard_line by (assumption || lia). apply mergeLine_sum.
Qed.

Lemma boardSum_ext size b1 b2 :
  (forall r c, (r < size)%nat -> (c < size)%nat -> valueAt b1 r c = valueAt b2 r c) ->
  boardSum size b1 = boardSum size b2.
Proof.
  intros H. unfold boardSum. f_equal. apply map_ext_in. intros [r c] Hin.
  apply cells_In in Hin as [Hr Hc]. now apply H.
Qed.

Lemma sumZ_point (n c : nat) (f g : nat -> Z) :
  (c < n)%nat -> (forall j, j <> c -> g j = f j) ->
  sumZ (map g (seq 0 n)) = sumZ (map f (seq 0 n)) + g c - f c.
Proof.
  intros Hc Hfg. induction n as [|n IH]; [lia|].
  rewrite seq_S, !map_app, !sumZ_app. cbn [map Nat.add]. rewrite !sumZ_cons.
  destruct (decide (c = n)) as [->|Hne].
  - assert (Hsame : map g (seq 0 n) = map f (seq 0 n)).
    { apply map_ext_in. intros j Hj. apply in_seq in Hj. apply Hfg. lia. }
    rewrite Hsame. cbn. lia.
  - rewrite IH by lia. rewrite (Hfg n) by congruence. cbn. lia.
Qed.

(** A tile in the place of an empty cell adds its value to the sum. *)
Lemma boardSum_update size b r c cell :
  wf size b -> (r < size)%nat -> (c < size)%nat -> valueAt b r c = 0 ->
  boardSum size (Grid.update (fun _ => cell) r c b) = boardSum size b + value cell.
Proof.
  intros Hwf Hr Hc Hz. rewrite !boardSum_rows.
  assert (Hval : forall r' c',
            valueAt (Grid.update (fun _ => cell) r c b) r' c' =
            if decide ((r, c) = (r', c')) then value cell else valueAt b r' c').
  { intros r' c'. unfold valueAt. rewrite GridFacts.get_update.
    destruct (decide _) as [Heq|]; [|reflexivity].
    injection Heq as <- <-.
    destruct (wf_get size b r c Hwf Hr Hc) as [cell0 ->]. reflexivity. }
  rewrite (sumZ_point size r
             (fun r' => sumZ (map (fun c' => valueAt b r' c') (seq 0 size)))
             (fun r' => sumZ (map (fun c' =>
                valueAt (Grid.update (fun _ => cell) r c b) r' c') (seq 0 size)))
             Hr).
  - rewrite (sumZ_point size c (fun c' => valueAt b r c')
               (fun c' => valueAt (Grid.update (fun _ => cell) r c b) r c') Hc).
    + rewrite Hval, decide_True by reflexivity. lia.
    + intros j Hj. rewrite Hval, decide_False by congruence. reflexivity.
  - intros j Hj. f_equal. apply map_ext. intros c'.
    rewrite Hval, decide_False by congruence. reflexivity.
Qed.

(** *** A board that has changed has an empty cell *)

Lemma filter_full (l : list Z) :
  length (filter (fun v => v <> 0) l) = length l -> filter (fun v => v <> 0) l = l.
Proof.
  induction l as [|a l IH]; [reflexivity|].
  rewrite filter_cons. pose proof (length_filter (fun v => v <> 0) l) as Hle.
  destruct (decide (a <> 0)); cbn [length]; intros H.
  - f_equal. apply IH. lia.
  - lia.
Qed.

Lemma mergePairs_full l :
  length (fst (mergePairs l)) = length l -> fst (mergePairs l) = l.
Proof.
  induction l as [|a l IH]; [reflexivity|].
  destruct l as [|b r]; [reflexivity|].
  rewrite mergePairs_cons2. destruct (a =? b); cbn [fst length]; intros H.
  - pose proof (mergePairs_length r). lia.
  - f_equal. apply IH. cbn [length]. lia.
Qed.

(** A merged line without a zero is the line it was. *)
Lemma mergeLine_full_fixed line :
  Forall (fun v => v <> 0) (fst (mergeLine line)) -> fst (mergeLine line) = line.
Proof.
  rewrite mergeLine_refines. unfold mergeLineSpec.
  pose proof (mergePairs_length (filter (fun v => v <> 0) line)) as Hlen.
  pose proof (mergePairs_full (filter (fun v => v <> 0) line)) as Hfull.
  destruct (mergePairs (filter (fun v => v <> 0) line)) as [m s]. cbn [fst] in *.
  pose proof (length_filter (fun v => v <> 0) m) as H1.
  pose proof (length_filter (fun v => v <> 0) line) as H2.
  intros Hall.
  destruct (length line - length (filter (fun v : Z => v <> 0%Z) m))%nat as [|n] eqn:E.
  - cbn [replicate]. rewrite app_nil_r.
    assert (Hl : filter (fun v => v <> 0) line = line) by (apply filter_full; lia).
    rewrite Hl in *. rewrite (filter_full m) by lia. apply Hfull. lia.
  - exfalso. apply Forall_app in Hall as [_ Hall]. cbn [replicate] in Hall.
    apply Forall_cons_1 in Hall as [H0 _]. now apply H0.
Qed.

Lemma forallb_false {A} (f : A -> bool) (l : list A) :
  forallb f l = false -> exists x, In x l /\ f x = false.
Proof.
  induction l as [|a l IH]; [discriminate|]. cbn [forallb].
  destruct (f a) eqn:E; cbn [andb]; intros H.
  - destruct (IH H) as (x & Hx & Hfx). exists x. split; [now right|exact Hfx].
  - exists a. split; [now left|exact E].
Qed.

Lemma changed_board_has_room d size b :
  wf size b ->
  boardsEqual size b (fst (moveBoard d size b)) = false ->
  exists r c, (r < size)%nat /\ (c < size)%nat /\
              valueAt (fst (moveBoard d size b)) r c = 0.
Proof.
  intros Hwf Hchanged. unfold boardsEqual in Hchanged.
  apply forallb_false in Hchanged as ([r c] & Hin & Hne).
  apply cells_In in Hin as [Hr Hc]. cbn [fst snd] in Hne. apply Z.eqb_neq in Hne.
  destruct (coord_onto d size r c Hr Hc) as (i & k & Hi & Hk & Hco).
  destruct (moveBoard_spec d size b Hwf) as (_ & Hval & _).
  assert (Hline : fst (mergeLine (lineOf size (coord d size) b i)) <>
                  lineOf size (coord d size) b i).
  { intros Heq. apply Hne. specialize (Hval i k Hi Hk).
    rewrite Hco in Hval. cbn [fst snd] in Hval.
    rewrite Hval, Heq, lineOf_lookup, Hco by exact Hk. reflexivity. }
  assert (Hex : Exists (fun v => ~ v <> 0)
                  (fst (mergeLine (lineOf size (coord d size) b i)))).
  { apply not_Forall_Exists; [intros v; apply _|].
    intros Hall. apply Hline. now apply mergeLine_full_fixed. }
  apply Exists_exists in Hex as (v & Hv & Hz).
  assert (v = 0) by lia. subst v.
  apply list_elem_of_In, list_elem_of_lookup in Hv as [k' Hk'].
  pose proof (lookup_lt_Some _ _ _ Hk') as Hlt.
  rewrite mergeLine_length, lineOf_length in Hlt.
  specialize (Hval i k' Hi Hlt). rewrite Hk' in Hval.
  destruct (coord_range d size i k' Hi Hlt) as [H1 H2].
  eexists _, _. split; [exact H1|]. split; [exact H2|]. exact Hval.
Qed.

(** X15. A move that changes the board of a reachable game in play
    always gets its new cell. The move itself keeps the sum of the
    values of the board, and leaves an empty cell; the new cell, a 2 or
    a 4, takes the place of an empty cell of the moved board, every
    other cell is as the move has left it, and the sum of the values
    has grown by the value of the new cell. *)
Theorem moved_board_gets_new_cell (cfg : GameConfig) (st : Storage) (m : Manager)
        (d : Direction) (u1 u2 : Random.Sample) (now : Z) :
  reachable cfg st m ->
  status (state m) = playing ->
  moved (snd (move d u1 u2 now m)) = true ->
  let size := boardSize cfg in
  let moved_ := fst (moveBoard d size (clearCellFlags size (board (state m)))) in
  let b' := board (state (fst (move d u1 u2 now m))) in
  boardSum size moved_ = boardSum size (board (state m)) /\
  exists r c,
    (r < size)%nat /\ (c < size)%nat /\ valueAt moved_ r c = 0 /\
    Grid.get b' r c = Some (newCell u2 r c) /\
    (forall r' c', (r', c') <> (r, c) -> Grid.get b' r' c' = Grid.get moved_ r' c') /\
    boardSum size b' = boardSum size (board (state m)) + value (newCell u2 r c).
Proof.
  intros Hreach Hst Hmoved. cbv zeta.
  destruct (move_moved cfg st m d u1 u2 now Hreach Hst Hmoved)
    as (Hcfg & Hsize & Hgood & Hb' & _ & _).
  cbv zeta in Hb'.
  destruct (reachable_invariant cfg st m Hreach) as (_ & Hgood0 & _).
  set (size := boardSize cfg) in *.
  set (cleared := clearCellFlags size (board (state m))) in *.
  assert (Hwfc : wf size cleared) by (apply clearCellFlags_good; exact Hgood0).
  assert (Hsum : boardSum size (fst (moveBoard d size cleared)) =
                 boardSum size (board (state m))).
  { rewrite moveBoard_sum by exact Hwfc. apply boardSum_ext.
    intros r c _ _. apply clearCellFlags_value. }
  split; [exact Hsum|].
  assert (Hchanged : boardsEqual size cleared (fst (moveBoard d size cleared)) = false).
  { rewrite (move_playing d u1 u2 now m Hst) in Hmoved. cbv zeta in Hmoved.
    rewrite Hcfg in Hmoved. fold size in Hmoved. fold cleared in Hmoved.
    destruct (boardsEqual size (board (state m)) (fst (moveBoard d size cleared)))
      eqn:E; [discriminate Hmoved|].
    destruct (boardsEqual size cleared (fst (moveBoard d size cleared))) eqn:E';
      [|reflexivity].
    rewrite boardsEqual_spec in E'.
    assert (E'' : boardsEqual size (board (state m)) (fst (moveBoard d size cleared))
                  = true).
    { apply boardsEqual_spec. intros r c Hr Hc. rewrite <- (E' r c Hr Hc).
      symmetry. apply clearCellFlags_value. }
    congruence. }
  destruct (changed_board_has_room d size cleared Hwfc Hchanged)
    as (r0 & c0 & Hr0 & Hc0 & Hz0).
  assert (Hne : getEmptyCells size (fst (moveBoard d size cleared)) <> []).
  { intros Hnil. rewrite emptyCells_nil in Hnil. now apply (Hnil r0 c0). }
  destruct (addRandomCell_pick size u1 _ Hne) as (r & c & Hpick & Hr & Hc & Hv).
  rewrite Hb'. unfold addRandomCell. rewrite Hpick. cbn [fst].
  exists r, c. split; [exact Hr|]. split; [exact Hc|]. split; [exact Hv|].
  destruct Hgood as [Hwfm _]. split; [|split].
  - rewrite GridFacts.get_update, decide_True by reflexivity.
    destruct (wf_get size _ r c Hwfm Hr Hc) as [cell ->]. reflexivity.
  - intros r' c' Hne'. rewrite GridFacts.get_update.
    rewrite decide_False by congruence. reflexivity.
  - rewrite <- Hsum. apply (boardSum_update size _ r c (newCell u2 r c)); assumption.
Qed.

(** ** A game in play can move *)

(** One of the four moves changes a value of the board. *)
Definition movable (size : nat) (b : Board) : Prop :=
  exists d, boardsEqual size b (fst (moveBoard d size b)) = false.

Definition sameValues (size : nat) (b1 b2 : Board) : Prop :=
  forall r c, (r < size)%nat -> (c < size)%nat -> valueAt b1 r c = valueAt b2 r c.

Lemma lineOf_ext d size b1 b2 i :
  sameValues size b1 b2 -> (i < size)%nat ->
  lineOf size (coord d size) b1 i = lineOf size (coord d size) b2 i.
Proof.
  intros Hsame Hi. unfold lineOf. apply map_ext_in. intros k Hk. apply in_seq in Hk.
  destruct (coord_range d size i k Hi) as [H1 H2]; [lia|]. now apply Hsame.
Qed.

Lemma unmoved_ext d size b1 b2 :
  wf size b1 -> wf size b2 -> sameValues size b1 b2 ->
  boardsEqual size b1 (fst (moveBoard d size b1)) =
  boardsEqual size b2 (fst (moveBoard d size b2)).
Proof.
  intros Hwf1 Hwf2 Hsame. apply eq_true_iff_eq.
  rewrite (unmoved_lines d size b1 Hwf1), (unmoved_lines d size b2 Hwf2).
  split; intros H i Hi; specialize (H i Hi).
  - now rewrite <- (lineOf_ext d size b1 b2 i Hsame Hi).
  - now rewrite (lineOf_ext d size b1 b2 i Hsame Hi).
Qed.

Lemma movable_ext size b1 b2 :
  wf size b1 -> wf size b2 -> sameValues size b1 b2 ->
  movable size b1 -> movable size b2.
Proof.
  intros Hwf1 Hwf2 Hsame [d Hd]. exists d.
  now rewrite <- (unmoved_ext d size b1 b2 Hwf1 Hwf2 Hsame).
Qed.

Lemma checkFor2048_ext cfg b1 b2 :
  sameValues (boardSize cfg) b1 b2 -> checkFor2048 cfg b1 = checkFor2048 cfg b2.
Proof.
  intros Hsame. apply eq_true_iff_eq. rewrite !checkFor2048_spec.
  split; intros (r & c & Hr & Hc & Hge); exists r, c;
    (split; [exact Hr|split; [exact Hc|]]).
  - now rewrite <- (Hsame r c Hr Hc).
  - now rewrite (Hsame r c Hr Hc).
Qed.

Lemma clearCellFlags_same size b : sameValues size b (clearCellFlags size b).
Proof. intros r c _ _. symmetry. apply clearCellFlags_value. Qed.

Lemma moveBoard_ext d size b1 b2 :
  wf size b1 -> wf size b2 -> sameValues size b1 b2 ->
  sameValues size (fst (moveBoard d size b1)) (fst (moveBoard d size b2)).
Proof.
  intros Hwf1 Hwf2 Hsame r c Hr Hc.
  destruct (coord_onto d size r c Hr Hc) as (i & k & Hi & Hk & Hco).
  destruct (moveBoard_spec d size b1 Hwf1) as (_ & Hval1 & _).
  destruct (moveBoard_spec d size b2 Hwf2) as (_ & Hval2 & _).
  specialize (Hval1 i k Hi Hk). specialize (Hval2 i k Hi Hk).
  rewrite Hco in Hval1, Hval2. cbn [fst snd] in Hval1, Hval2.
  now rewrite Hval1, Hval2, (lineOf_ext d size b1 b2 i Hsame Hi).
Qed.

(** [move] compares the board with the result of the move on the board
    without its flags. *)
Lemma changed_cleared d size b :
  wf size b ->
  boardsEqual size b (fst (moveBoard d size (clearCellFlags size b))) =
  boardsEqual size b (fst (moveBoard d size b)).
Proof.
  intros Hwf.
  assert (Hwfc : wf size (clearCellFlags size b)).
  { unfold clearCellFlags. generalize (allCells size). intros cells. revert b Hwf.
    induction cells as [|rc cells IH]; intros b Hwf; [exact Hwf|].
    cbn [fold_left]. apply IH. now apply wf_update. }
  pose proof (moveBoard_ext d size b (clearCellFlags size b) Hwf Hwfc
                (clearCellFlags_same size b)) as Hext.
  apply eq_true_iff_eq. rewrite !boardsEqual_spec.
  split; intros H r c Hr Hc.
  - now rewrite (H r c Hr Hc), (Hext r c Hr Hc).
  - now rewrite (H r c Hr Hc), <- (Hext r c Hr Hc).
Qed.

(** A board with a tile and an empty cell can move. *)
Lemma tiles_movable size b :
  wf size b -> (0 < tiles b < size * size)%nat -> movable size b.
Proof.
  intros Hwf [Hpos Hless].
  pose proof (tiles_free size b Hwf) as Hsplit.
  assert (Htile : exists r c, (r < size)%nat /\ (c < size)%nat /\ valueAt b r c <> 0).
  { destruct (forallb (fun rc => valueAt b (fst rc) (snd rc) =? 0) (allCells size)) eqn:E.
    - exfalso. rewrite forallb_forall in E.
      assert (Hz : tiles b = 0%nat); [|lia].
      apply GridFacts.count_zero. intros r c a Hget.
      assert (Hin : is_Some (Grid.get b r c)) by (now exists a).
      apply (GridFacts.get_is_Some_rect size size) in Hin as [Hr Hc]; [|exact Hwf].
      specialize (E (r, c) (proj2 (cells_In size r c) (conj Hr Hc))).
      cbn [fst snd] in E. unfold valueAt in E. rewrite Hget in E.
      unfold isTile. now rewrite E.
    - apply forallb_false in E as ([r c] & Hin & Hne).
      apply cells_In in Hin as [Hr Hc]. cbn [fst snd] in Hne. apply Z.eqb_neq in Hne.
      now exists r, c. }
  assert (Hroom : getEmptyCells size b <> []).
  { intros Hnil. rewrite emptyCells_nil in Hnil.
    assert (Hz : Grid.count isFree b = 0%nat); [|lia].
    apply GridFacts.count_zero. intros r c a Hget.
    assert (Hin : is_Some (Grid.get b r c)) by (now exists a).
    apply (GridFacts.get_is_Some_rect size size) in Hin as [Hr Hc]; [|exact Hwf].
    specialize (Hnil r c Hr Hc). unfold valueAt in Hnil. rewrite Hget in Hnil.
    unfold isFree. now apply Z.eqb_neq. }
  apply some_move_changes, canMove_true; [exact Hwf| |exact Htile].
  unfold canMove. destruct (getEmptyCells size b); [congruence|reflexivity].
Qed.

(** While the game is in play or won without a tile of the target
    value, its board can move, and so can every board of the
    history. *)
Definition lively (cfg : GameConfig) (m : Manager) : Prop :=
  (status (state m) = playing \/ status (state m) = won ->
   checkFor2048 cfg (board (state m)) = false ->
   movable (boardSize cfg) (board (state m))) /\
  Forall (fun e => movable (boardSize cfg) (h_board e)) (history m).

Lemma startNewGame_lively draws now m :
  (0 < initialCells (config m) < boardSize (config m) * boardSize (config m))%nat ->
  lively (config m) (startNewGame draws now m).
Proof.
  intros Hcells. split; [|constructor]. intros _ _.
  cbn [startNewGame state board updateHighestTile set_board createInitialState].
  destruct (addInitialCells_tiles (boardSize (config m)) (initialCells (config m)) draws
              (createEmptyBoard (boardSize (config m))) (emptyBoard_wf _))
    as [Hwf Htiles].
  rewrite createEmptyBoard_tiles in Htiles.
  apply tiles_movable; [exact Hwf|]. lia.
Qed.

Lemma move_lively cfg st m d u1 u2 now :
  reachable cfg st m -> lively cfg m -> lively cfg (fst (move d u1 u2 now m)).
Proof.
  intros Hreach [Hlive Hhist].
  destruct (decide (status (state m) = playing)) as [Hst|Hst];
    [|rewrite move_not_playing by exact Hst; now split].
  destruct (reachable_invariant cfg st m Hreach) as (Hcfg & Hgood & _).
  pose proof (clearCellFlags_good _ _ Hgood) as Hgoodc.
  pose proof (moveBoard_good d _ _ Hgoodc) as Hgoodm.
  pose proof (saveToHistory_history m) as Hsaved.
  destruct (saveToHistory_last m) as (_ & Hrem & _).
  rewrite (move_playing d u1 u2 now m Hst). cbv zeta. rewrite Hcfg.
  set (size := boardSize cfg) in *.
  set (cleared := clearCellFlags size (board (state m))) in *.
  destruct (boardsEqual size (board (state m)) (fst (moveBoard d size cleared))) eqn:Hch;
    cbn [negb fst].
  - (* no value has changed *)
    split.
    + cbn [state set_state set_history status board set_board].
      intros Hpw Hno.
      assert (Hsame : sameValues size (board (state m)) (fst (moveBoard d size cleared)))
        by (exact (proj1 (boardsEqual_spec size _ _) Hch)).
      apply (movable_ext size (board (state m))); [apply Hgood|apply Hgoodm|exact Hsame|].
      apply Hlive; [now left|].
      now rewrite (checkFor2048_ext cfg _ _ Hsame).
    + cbn [history set_history]. rewrite Hrem.
      destruct (_ <? _)%nat; [exact Hhist|now apply Forall_tail_local].
  - (* the board has changed *)
    match goal with |- context [afterMove ?a ?b ?c ?e ?f] =>
      pose proof (afterMove_status a b c e f) as Hstat;
      destruct (afterMove_fields a b c e f) as (Hh & _ & _ & _ & _ & Hboard) end.
    cbv zeta in Hstat, Hh, Hboard.
    cbn [history set_state] in Hh.
    cbn [config set_state saveToHistory set_history state board set_board status endTime]
      in Hstat, Hboard.
    rewrite Hcfg in Hstat, Hboard. fold size in Hstat, Hboard. rewrite Hst in Hstat.
    rewrite bool_decide_eq_true_2, andb_true_r in Hstat by reflexivity.
    assert (Hsize : (0 < size)%nat).
    { destruct size; [discriminate Hch|lia]. }
    split.
    + intros Hpw Hno. rewrite Hno in Hstat.
      destruct (canMove size _) eqn:Hcan; cbn [negb] in Hstat; injection Hstat as Hs He.
      * apply some_move_changes, canMove_true; [|exact Hcan|].
        -- rewrite Hboard. now apply addRandomCell_good.
        -- rewrite Hboard. apply addRandomCell_tile; [apply Hgoodm|exact Hsize].
      * destruct Hpw as [Hpw|Hpw];
          pose proof (eq_trans (eq_sym Hpw) Hs) as Habs; discriminate Habs.
    + rewrite Hh.
      assert (Hsnap : movable size (h_board (snapshot m))).
      { exists d. cbn [h_board snapshot].
        rewrite <- (changed_cleared d size (board (state m))) by apply Hgood.
        exact Hch. }
      assert (Hall : Forall (fun e => movable size (h_board e))
                       (history m ++ [snapshot m])).
      { apply Forall_app. split; [exact Hhist|]. constructor; [exact Hsnap|constructor]. }
      rewrite Hsaved.
      destruct (_ <? _)%nat; [exact Hall|now apply Forall_tail_local].
Qed.

Lemma undo_lively cfg m : lively cfg m -> lively cfg (fst (undo m)).
Proof.
  intros [Hlive Hhist]. unfold undo.
  destruct (_ || _); [now split|].
  destruct (list.last (history m)) as [e|] eqn:Hlast; [|now split].
  cbn [fst]. split.
  - intros _ _. cbn [state board]. rewrite cloneBoard_id.
    rewrite Forall_forall in Hhist. apply Hhist, list_elem_of_In.
    apply last_Some in Hlast as [h ->]. apply elem_of_app. right. now left.
  - cbn [history]. now apply Forall_removelast_local.
Qed.

Lemma continueGame_lively cfg m : lively cfg m -> lively cfg (continueGame m).
Proof.
  intros [Hlive Hhist]. unfold continueGame.
  destruct (bool_decide (status (state m) = won)) eqn:E; [|now split].
  apply bool_decide_eq_true_1 in E. split; [|exact Hhist].
  cbn [state set_state status set_status board]. intros _ Hno.
  apply Hlive; [now right|exact Hno].
Qed.

Lemma reachable_lively cfg st m :
  (0 < initialCells cfg < boardSize cfg * boardSize cfg)%nat ->
  reachable cfg st m -> lively cfg m.
Proof.
  intros Hcells Hreach.
  induction Hreach as [draws now|m draws now Hreach IH|m d u1 u2 now Hreach IH
                      |m Hreach IH|m Hreach IH].
  - apply (startNewGame_lively draws now (newManager cfg st)). exact Hcells.
  - destruct (reachable_invariant cfg st m Hreach) as (Hcfg & _).
    rewrite <- Hcfg in Hcells |- *. now apply startNewGame_lively.
  - now apply (move_lively cfg st).
  - now apply undo_lively.
  - now apply continueGame_lively.
Qed.

(** X25. A game in play is not stuck. When the configuration deals at
    least one initial cell and fewer than the board has cells, in every
    state in play that the game reaches without a tile of the target
    value on the board, one of the four directions is such that [move]
    changes the board and reports [moved], whatever the samples. (With a
    tile of the target value the game is in play only after
    [continueGame], and its board can be full.) *)
Theorem playing_game_can_move (cfg : GameConfig) (st : Storage) (m : Manager) :
  reachable cfg st m ->
  (0 < initialCells cfg < boardSize cfg * boardSize cfg)%nat ->
  status (state m) = playing ->
  checkFor2048 cfg (board (state m)) = false ->
  exists d, forall u1 u2 now,
    moved (snd (move d u1 u2 now m)) = true /\
    boardsEqual (boardSize cfg) (board (state m))
      (board (state (fst (move d u1 u2 now m)))) = false.
Proof.
  intros Hreach Hcells Hst Hno.
  destruct (reachable_lively cfg st m Hcells Hreach) as [Hlive _].
  destruct (Hlive (or_introl Hst) Hno) as [d Hd].
  destruct (reachable_invariant cfg st m Hreach) as (Hcfg & Hgood & _).
  pose proof (clearCellFlags_good _ _ Hgood) as Hgoodc.
  exists d. intros u1 u2 now.
  assert (Hch : boardsEqual (boardSize cfg) (board (state m))
                  (fst (moveBoard d (boardSize cfg)
                          (clearCellFlags (boardSize cfg) (board (state m))))) = false).
  { rewrite (changed_cleared d _ (board (state m))) by apply Hgood. exact Hd. }
  assert (Hmoved : moved (snd (move d u1 u2 now m)) = true).
  { rewrite (move_playing d u1 u2 now m Hst). cbv zeta. rewrite Hcfg, Hch. reflexivity. }
  split; [exact Hmoved|].
  destruct (move_moved cfg st m d u1 u2 now Hreach Hst Hmoved)
    as (_ & _ & Hgoodm & Hb' & _).
  cbv zeta in Hb'.
  destruct (boardsEqual _ _ (board _)) eqn:E; [|reflexivity].
  exfalso. rewrite boardsEqual_spec in E.
  destruct (changed_board_has_room d (boardSize cfg)
              (clearCellFlags (boardSize cfg) (board (state m))) (proj1 Hgoodc))
    as (r0 & c0 & Hr0 & Hc0 & Hz0).
  { rewrite <- (unmoved_ext d _ (board (state m)));
      [exact Hd|apply Hgood|apply Hgoodc|apply clearCellFlags_same]. }
  (* the sum of the values has grown *)
  assert (Hsum : boardSum (boardSize cfg) (board (state (fst (move d u1 u2 now m)))) =
                 boardSum (boardSize cfg) (board (state m)))
    by (symmetry; now apply boardSum_ext).
  assert (Hne : getEmptyCells (boardSize cfg)
                  (fst (moveBoard d (boardSize cfg)
                          (clearCellFlags (boardSize cfg) (board (state m))))) <> []).
  { intros Hnil. rewrite emptyCells_nil in Hnil. now apply (Hnil r0 c0). }
  destruct (addRandomCell_pick (boardSize cfg) u1 _ Hne) as (r & c & Hpick & Hr & Hc & Hv).
  rewrite Hb' in Hsum. unfold addRandomCell in Hsum. rewrite Hpick in Hsum.
  cbn [fst] in Hsum.
  rewrite (boardSum_update (boardSize cfg) _ r c) in Hsum
    by (try apply Hgoodm; assumption).
  rewrite moveBoard_sum in Hsum by apply Hgoodc.
  rewrite <- (boardSum_ext (boardSize cfg) (board (state m))
                (clearCellFlags (boardSize cfg) (board (state m)))) in Hsum
    by apply clearCellFlags_same.
  cbn [value] in Hsum. destruct (Random.below u2 9 10); lia.
Qed.

(** ** The statements at sample games *)

Lemma addRandomCell_fills_one_empty_cell_witness :
  wf 4 sampleBoard /\
  snd (addRandomCell 4 firstTwo firstFour sampleBoard) = true.
Proof.
  split; [exact sampleBoard_wf|].
  apply (proj2 (proj2 (addRandomCell_fills_one_empty_cell 4 firstTwo firstFour
                         sampleBoard sampleBoard_wf))).
  exists 0%nat, 3%nat. repeat split; lia.
Defined.

Lemma history_bounded_and_undo_offered_witness :
  reachable DEFAULT_CONFIG noStorage busyGame /\
  (length (history busyGame) <= 10)%nat /\
  (snd (undo busyGame) = true <-> history busyGame <> []).
Proof.
  assert (Hr : reachable DEFAULT_CONFIG noStorage busyGame)
    by apply play_reachable, newGame_reachable.
  split; [exact Hr|].
  destruct (history_bounded_and_undo_offered DEFAULT_CONFIG noStorage busyGame Hr)
    as (H1 & _ & H3 & _).
  split; [exact H1|exact H3].
Defined.

Lemma lostGame_wf : wf 4 (board (state lostGame)).
Proof.
  apply (reachable_invariant DEFAULT_CONFIG noStorage lostGame).
  apply play_reachable, newGame_reachable.
Qed.

Lemma canMove_false_exactly_when_stuck_witness :
  wf 4 (board (state lostGame)) /\
  canMove 4 (board (state lostGame)) = false /\
  forall d,
    boardsEqual 4 (board (state lostGame))
      (fst (moveBoard d 4 (board (state lostGame)))) = true /\
    snd (moveBoard d 4 (board (state lostGame))) = 0.
Proof.
  assert (Hcan : canMove 4 (board (state lostGame)) = false)
    by (vm_compute; reflexivity).
  split; [exact lostGame_wf|]. split; [exact Hcan|].
  apply (proj1 (canMove_false_exactly_when_stuck 4 (board (state lostGame))
                  lostGame_wf) Hcan).
Defined.

Lemma move_ends_game_for_cause_witness :
  reachable DEFAULT_CONFIG noStorage newGame /\
  status (state newGame) = playing /\
  moved (snd (move down firstTwo firstTwo 1 newGame)) = true /\
  (status (state (fst (move down firstTwo firstTwo 1 newGame))) = playing ->
   endTime (state (fst (move down firstTwo firstTwo 1 newGame))) =
     endTime (state newGame)).
Proof.
  split; [exact newGame_reachable|]. split; [reflexivity|]. split; [reflexivity|].
  apply (move_ends_game_for_cause DEFAULT_CONFIG noStorage newGame down
           firstTwo firstTwo 1 newGame_reachable eq_refl eq_refl).
Defined.

(** A game with the target 8: two moves to the left win it, and the
    engine continues it. *)
Definition shortConfig : GameConfig :=
  {| boardSize := 4; winTarget := 8; initialCells := 2 |}.

Definition shortGame : Manager :=
  fst (move left firstTwo firstTwo 2
         (fst (move left firstTwo firstFour 1
                 (startNewGame (fun _ => firstTwo) 0 (newManager shortConfig noStorage))))).

Definition continuedGame : Manager := continueGame shortGame.

Lemma continuedGame_reachable : reachable shortConfig noStorage continuedGame.
Proof. apply reach_continue, reach_move, reach_move, reach_start. Qed.

Lemma target_tile_move_wins_witness :
  status (state shortGame) = won /\
  reachable shortConfig noStorage continuedGame /\
  status (state continuedGame) = playing /\
  checkFor2048 shortConfig (board (state continuedGame)) = true /\
  moved (snd (move right firstTwo firstTwo 3 continuedGame)) = true /\
  status (state (fst (move right firstTwo firstTwo 3 continuedGame))) = won.
Proof.
  split; [vm_compute; reflexivity|].
  split; [exact continuedGame_reachable|].
  assert (H1 : status (state continuedGame) = playing) by (vm_compute; reflexivity).
  assert (H2 : checkFor2048 shortConfig (board (state continuedGame)) = true)
    by (vm_compute; reflexivity).
  assert (H3 : moved (snd (move right firstTwo firstTwo 3 continuedGame)) = true)
    by (vm_compute; reflexivity).
  split; [exact H1|]. split; [exact H2|]. split; [exact H3|].
  apply (target_tile_move_wins shortConfig noStorage continuedGame right
           firstTwo firstTwo 3 continuedGame_reachable H1 H2 H3).
Defined.

Lemma moved_board_gets_new_cell_witness :
  reachable DEFAULT_CONFIG noStorage newGame /\
  status (state newGame) = playing /\
  moved (snd (move down firstTwo firstTwo 1 newGame)) = true /\
  boardSum 4 (fst (moveBoard down 4 (clearCellFlags 4 (board (state newGame))))) =
    boardSum 4 (board (state newGame)).
Proof.
  split; [exact newGame_reachable|]. split; [reflexivity|]. split; [reflexivity|].
  apply (moved_board_gets_new_cell DEFAULT_CONFIG noStorage newGame down
           firstTwo firstTwo 1 newGame_reachable eq_refl eq_refl).
Defined.

Lemma playing_game_can_move_witness :
  reachable DEFAULT_CONFIG noStorage newGame /\
  status (state newGame) = playing /\
  checkFor2048 DEFAULT_CONFIG (board (state newGame)) = false /\
  exists d, moved (snd (move d firstTwo firstFour 1 newGame)) = true.
Proof.
  assert (Hcells : (0 < initialCells DEFAULT_CONFIG <
                    boardSize DEFAULT_CONFIG * boardSize DEFAULT_CONFIG)%nat)
    by (cbn; lia).
  assert (Hno : checkFor2048 DEFAULT_CONFIG (board (state newGame)) = false)
    by (vm_compute; reflexivity).
  split; [exact newGame_reachable|]. split; [reflexivity|]. split; [exact Hno|].
  destruct (playing_game_can_move DEFAULT_CONFIG noStorage newGame newGame_reachable
              Hcells eq_refl Hno) as [d Hd].
  exists d. apply (Hd firstTwo firstFour 1).
Defined.

End Game2048Proofs.

(** * The minefield engine: first reveal, coordinates and flood fill *)

Module MinesweeperProofs.
Import Minesweeper.

Local Open Scope Z_scope.

(** ** Boards of the size of the configuration *)

Definition wfBoard (cfg : GameConfig) (b : Board) : Prop :=
  Grid.rect (Z.to_nat (rows cfg)) (Z.to_nat (cols cfg)) b.

Definition wfState (s : MinesweeperState) : Prop := wfBoard (config s) (board s).

(** The coordinates of a cell of the configuration. *)
Definition inRange (cfg : GameConfig) (r c : Z) : Prop :=
  0 <= r < rows cfg /\ 0 <= c < cols cfg.

Lemma cellAt_inRange cfg b r c :
  wfBoard cfg b -> (is_Some (cellAt b r c) <-> inRange cfg r c).
Proof.
  intros Hwf. unfold cellAt, inRange.
  rewrite (GridFacts.getZ_is_Some_rect _ _ b r c Hwf). lia.
Qed.

Lemma cellAt_None cfg b r c :
  wfBoard cfg b -> ~ inRange cfg r c -> cellAt b r c = None.
Proof.
  intros Hwf Hout. destruct (cellAt b r c) as [cell|] eqn:E; [|reflexivity].
  exfalso. apply Hout, (cellAt_inRange cfg b r c Hwf). now exists cell.
Qed.

Lemma createEmptyBoard_wf cfg : wfBoard cfg (createEmptyBoard (rows cfg) (cols cfg)).
Proof.
  unfold wfBoard, createEmptyBoard. split.
  - now rewrite length_map, length_seq.
  - apply Forall_forall. intros line Hin.
    apply in_map_iff in Hin as (r & <- & _). now rewrite length_map, length_seq.
Qed.

Lemma createInitialState_wf cfg : wfState (createInitialState cfg).
Proof. apply createEmptyBoard_wf. Qed.

Lemma fold_updates_wf {X} cfg (step : Board -> X -> Board) (l : list X) b :
  (forall b x, wfBoard cfg b -> wfBoard cfg (step b x)) ->
  wfBoard cfg b -> wfBoard cfg (fold_left step l b).
Proof.
  intros Hstep. revert b. induction l as [|x l IH]; intros b Hb; [exact Hb|].
  cbn [fold_left]. apply IH. now apply Hstep.
Qed.

Lemma updateZ_wf cfg f r c b : wfBoard cfg b -> wfBoard cfg (Grid.updateZ f r c b).
Proof. apply GridFacts.rect_updateZ. Qed.

Lemma placeMines_wf draws r c s : wfState s -> wfState (placeMines draws r c s).
Proof.
  intros H. unfold wfState, placeMines. cbn [config board set_board].
  apply fold_updates_wf; [|exact H]. intros b x Hb. now apply updateZ_wf.
Qed.

Lemma calculateNeighborMines_wf s : wfState s -> wfState (calculateNeighborMines s).
Proof.
  intros H. unfold wfState, calculateNeighborMines. cbn [config board set_board].
  apply fold_updates_wf; [|exact H]. intros b x Hb.
  destruct (mineAt b x); [exact Hb|now apply updateZ_wf].
Qed.

Lemma initializeGame_wf draws now r c s : wfState s -> wfState (initializeGame draws now r c s).
Proof.
  intros H. unfold initializeGame. destruct (bool_decide _); [|exact H].
  apply (calculateNeighborMines_wf _ (placeMines_wf draws r c s H)).
Qed.

Lemma markRevealed_wf r c s : wfState s -> wfState (markRevealed r c s).
Proof. intros H. now apply updateZ_wf. Qed.

Lemma revealAllMines_wf s : wfState s -> wfState (revealAllMines s).
Proof.
  intros H. unfold wfState, revealAllMines. cbn [config board set_board].
  apply fold_updates_wf; [|exact H]. intros b x Hb.
  destruct (cellAt b _ _) as [cell|]; [|exact Hb].
  destruct (_ && _); [now apply updateZ_wf|exact Hb].
Qed.

Lemma calculateScore_board s :
  board (calculateScore s) = board s /\ config (calculateScore s) = config s /\
  status (calculateScore s) = status s /\
  revealedCells (calculateScore s) = revealedCells s.
Proof.
  unfold calculateScore. destruct (startTime s), (endTime s); try now repeat split.
  destruct (_ || _); now repeat split.
Qed.

Lemma checkWinCondition_board now s :
  board (checkWinCondition now s) = board s /\
  config (checkWinCondition now s) = config s /\
  revealedCells (checkWinCondition now s) = revealedCells s.
Proof.
  unfold checkWinCondition. destruct (_ =? _); [|now repeat split].
  match goal with |- context [calculateScore ?x] =>
    destruct (calculateScore_board x) as (H1 & H2 & _ & H4) end.
  rewrite H1, H2, H4. now repeat split.
Qed.

Lemma checkWinCondition_wf now s : wfState s -> wfState (checkWinCondition now s).
Proof.
  intros H. unfold wfState. destruct (checkWinCondition_board now s) as (-> & -> & _).
  exact H.
Qed.

Lemma revealCell_wf fuel draws now :
  forall r c s b s',
    wfState s -> revealCell fuel draws now r c s = Returned b s' -> wfState s'.
Proof.
  induction fuel as [|fuel IH]; intros r c s b s' Hwf Hrun; [discriminate|].
  cbn [revealCell] in Hrun.
  destruct (_ || _); [now injection Hrun as _ <-|].
  destruct (cellAt (board s) r c) as [cell|]; [|discriminate].
  destruct (negb _); [now injection Hrun as _ <-|].
  set (s1 := if bool_decide (status s = idle) then initializeGame draws now r c s else s)
    in *.
  assert (Hwf1 : wfState s1).
  { subst s1. destruct (bool_decide _); [now apply initializeGame_wf|exact Hwf]. }
  pose proof (markRevealed_wf r c s1 Hwf1) as Hwf2.
  destruct (cellAt (board (markRevealed r c s1)) r c) as [cell'|]; [|discriminate].
  destruct (isMine cell').
  { injection Hrun as _ <-. now apply revealAllMines_wf. }
  assert (Hloop : forall cells s0 s3,
    wfState s0 ->
    revealNeighborsWith (revealCell fuel draws now) cells s0 = Returned tt s3 ->
    wfState s3).
  { induction cells as [|[r' c'] cells IHc]; intros s0 s3 Hwf0 Hl; cbn in Hl.
    - now injection Hl as <-.
    - destruct (cellAt (board s0) r' c') as [nb|]; [|discriminate].
      destruct (bool_decide (state nb = hidden)); [|now apply (IHc s0)].
      destruct (revealCell fuel draws now r' c' s0) as [b0 s0'| |] eqn:E;
        try discriminate.
      apply (IHc s0'); [|exact Hl]. now apply (IH r' c' s0 b0). }
  destruct (neighborMines cell' =? 0).
  - destruct (revealNeighborsWith _ _ _) as [[] s3| |] eqn:E; try discriminate.
    injection Hrun as _ <-. apply checkWinCondition_wf. now apply (Hloop _ _ _ Hwf2 E).
  - injection Hrun as _ <-. now apply checkWinCondition_wf.
Qed.

Lemma toggleFlag_wf r c s b s' :
  wfState s -> toggleFlag r c s = Returned b s' -> wfState s'.
Proof.
  intros Hwf Hrun. unfold toggleFlag in Hrun.
  destruct (_ || _); [now injection Hrun as _ <-|].
  destruct (cellAt (board s) r c) as [cell|]; [|discriminate].
  destruct (state cell); injection Hrun as _ <-; try exact Hwf;
    now apply updateZ_wf.
Qed.

(** Every state that the engine reaches has a board of the size of its
    configuration. *)
Lemma reachable_wf s : reachable s -> wfState s.
Proof.
  induction 1 as [cfg|s cfg _ _|s d _ _|s nr nc nm _ _|s fuel draws now r c b s' _ IH Hrun
                 |s r c b s' _ IH Hrun].
  - apply createInitialState_wf.
  - apply createInitialState_wf.
  - apply createInitialState_wf.
  - apply createInitialState_wf.
  - now apply (revealCell_wf fuel draws now r c s b s').
  - now apply (toggleFlag_wf r c s b s').
Qed.

(** ** Coordinates outside the board *)

(** C3, as the code has it. For coordinates that are not those of a
    cell, [revealCell] returns [false] and leaves the state as it is when
    the status is won or lost. When the status is idle or playing there
    is no test of the coordinates: the lookup of the cell raises a
    [TypeError] before any field is written, so the state is as it was
    and nothing is returned. *)
Theorem revealCell_out_of_range (s : MinesweeperState) (r c : Z)
        (fuel : nat) (draws : nat -> Random.Sample) (now : Z) :
  reachable s ->
  ~ inRange (config s) r c ->
  (status s = won \/ status s = lost ->
   revealCell (S fuel) draws now r c s = Returned false s) /\
  (status s = idle \/ status s = playing ->
   revealCell (S fuel) draws now r c s = Raised s).
Proof.
  intros Hreach Hout. pose proof (reachable_wf s Hreach) as Hwf. split.
  - intros Hst. cbn [revealCell].
    destruct Hst as [-> | ->]; reflexivity.
  - intros Hst. cbn [revealCell].
    rewrite (cellAt_None (config s) (board s) r c Hwf Hout).
    destruct Hst as [-> | ->]; reflexivity.
Qed.

Definition noDraws : nat -> Random.Sample :=
  fun _ => {| Random.num := 0; Random.gap := 0 |}.

(** The [k]-th value of [Math.random()] is [(7k + 3) / (12k + 6)]. *)
Definition sampleDraws : nat -> Random.Sample :=
  fun k => {| Random.num := 7 * k + 3; Random.gap := 5 * k + 2 |}.

(** C3 fails in the first state of a beginner game: the reveal of the
    coordinates (-1, 0) raises a [TypeError]. *)
Lemma revealCell_raises_outside_board :
  reachable (createInitialState beginnerConfig) /\
  status (createInitialState beginnerConfig) = idle /\
  cellAt (board (createInitialState beginnerConfig)) (-1) 0 = None /\
  revealCell 1 noDraws 0 (-1) 0 (createInitialState beginnerConfig) =
    Raised (createInitialState beginnerConfig).
Proof. split; [apply reach_new|]. repeat split; reflexivity. Qed.

Lemma revealCell_out_of_range_witness :
  reachable (createInitialState beginnerConfig) /\
  ~ inRange (config (createInitialState beginnerConfig)) 9 3 /\
  revealCell 1 noDraws 0 9 3 (createInitialState beginnerConfig) =
    Raised (createInitialState beginnerConfig).
Proof.
  assert (Hout : ~ inRange (config (createInitialState beginnerConfig)) 9 3).
  { unfold inRange. cbn. lia. }
  split; [apply reach_new|]. split; [exact Hout|].
  apply (revealCell_out_of_range (createInitialState beginnerConfig) 9 3 0 noDraws 0
           (reach_new beginnerConfig) Hout).
  left. reflexivity.
Defined.

(** ** The flood fill: vocabulary *)

Abbreviation Pos := (Z * Z)%type.

(** The visibility of the cell at [p], when there is one. *)
Definition visAt (b : Board) (p : Pos) : option CellState :=
  state <$> cellAt b (fst p) (snd p).

Definition hiddenAt (b : Board) (p : Pos) : Prop := visAt b p = Some hidden.

(** The cell at [p] is not a mine. *)
Definition safeAt (b : Board) (p : Pos) : Prop :=
  exists cell, cellAt b (fst p) (snd p) = Some cell /\ isMine cell = false.

(** The cell at [p] is not a mine and its neighbour count is 0. *)
Definition zeroAt (b : Board) (p : Pos) : Prop :=
  exists cell, cellAt b (fst p) (snd p) = Some cell /\
               isMine cell = false /\ neighborMines cell = 0.

(** [q] is one of the neighbours of [p] that the loops visit. *)
Definition neighbor (cfg : GameConfig) (p q : Pos) : Prop :=
  In q (neighborCoords cfg (fst p) (snd p)).

(** The cells that a fill from [start] reaches: [start], and every
    hidden neighbour of a reached cell whose count is 0. *)
Inductive fills (cfg : GameConfig) (b : Board) (start : Pos) : Pos -> Prop :=
| fills_start : fills cfg b start start
| fills_step p q :
    fills cfg b start p -> zeroAt b p -> neighbor cfg p q -> hiddenAt b q ->
    fills cfg b start q.

(** The two boards differ in the visibility of their cells at most. *)
Definition sameStatic (b b' : Board) : Prop :=
  forall r c, set_cellState hidden <$> cellAt b' r c = set_cellState hidden <$> cellAt b r c.

(** The only change from [b] to [b'] is that hidden cells of [R] are
    revealed. *)
Definition changes (R : Pos -> Prop) (b b' : Board) : Prop :=
  forall p, visAt b' p = visAt b p \/
            (visAt b p = Some hidden /\ visAt b' p = Some revealed /\ R p).

(** No cell with count 0 that was revealed from [b] to [b'] has a
    hidden neighbour left. *)
Definition closed (cfg : GameConfig) (b b' : Board) : Prop :=
  forall p q, visAt b p = Some hidden -> visAt b' p = Some revealed ->
              zeroAt b p -> neighbor cfg p q -> visAt b' q <> Some hidden.

Definition isHidden (cell : Cell) : bool := bool_decide (state cell = hidden).

Definition isUnrevealedSafe (cell : Cell) : bool :=
  negb (isMine cell) && negb (bool_decide (state cell = revealed)).

Definition hiddenCount (b : Board) : nat := Grid.count isHidden b.

Definition unrevealedSafe (b : Board) : nat := Grid.count isUnrevealedSafe b.

(** What the calls of a fill share. *)
Record frame (R : Pos -> Prop) (s s' : MinesweeperState) : Prop := {
  frame_config : config s' = config s;
  frame_static : sameStatic (board s) (board s');
  frame_changes : changes R (board s) (board s');
  frame_count :
    revealedCells s' + Z.of_nat (hiddenCount (board s')) =
    revealedCells s + Z.of_nat (hiddenCount (board s));
  frame_less : (hiddenCount (board s') <= hiddenCount (board s))%nat;
  frame_flags :
    remainingMines s' = remainingMines s /\ flaggedMines s' = flaggedMines s /\
    startTime s' = startTime s
}.

(** A cell with count 0 that is not a mine has no mine around it. *)
Definition zeroConsistent (cfg : GameConfig) (b : Board) : Prop :=
  forall p q, zeroAt b p -> neighbor cfg p q -> safeAt b q.

(** The counter of revealed cells is in step with the board: together
    with the cells that are not mines and not revealed it makes the
    number of safe cells of the configuration. *)
Definition counted (s : MinesweeperState) : Prop :=
  revealedCells s + Z.of_nat (unrevealedSafe (board s)) =
  rows (config s) * cols (config s) - mines (config s).

Definition inPlay (s : MinesweeperState) : Prop :=
  status s = playing \/ (status s = won /\ unrevealedSafe (board s) = 0%nat).

Record consistent (s : MinesweeperState) : Prop := {
  cons_wf : wfState s;
  cons_zero : zeroConsistent (config s) (board s);
  cons_counted : counted s;
  cons_inPlay : inPlay s
}.

(** *** Transport along boards that differ in visibility only *)

Lemma sameStatic_refl b : sameStatic b b.
Proof. intros r c. reflexivity. Qed.

Lemma sameStatic_trans b1 b2 b3 :
  sameStatic b1 b2 -> sameStatic b2 b3 -> sameStatic b1 b3.
Proof. intros H1 H2 r c. now rewrite H2, H1. Qed.

Lemma sameStatic_cell b b' r c cell :
  sameStatic b b' -> cellAt b r c = Some cell ->
  exists cell', cellAt b' r c = Some cell' /\
                isMine cell' = isMine cell /\ neighborMines cell' = neighborMines cell.
Proof.
  intros Hs Hc. specialize (Hs r c). rewrite Hc in Hs.
  destruct (cellAt b' r c) as [cell'|]; [|discriminate].
  exists cell'. split; [reflexivity|]. cbn in Hs. injection Hs as H1 H2 _ _.
  now split.
Qed.

Lemma sameStatic_sym b b' : sameStatic b b' -> sameStatic b' b.
Proof. intros H r c. now rewrite H. Qed.

Lemma zeroAt_static b b' p : sameStatic b b' -> zeroAt b p -> zeroAt b' p.
Proof.
  intros Hs (cell & Hc & Hm & Hn).
  destruct (sameStatic_cell b b' _ _ cell Hs Hc) as (cell' & Hc' & Hm' & Hn').
  exists cell'. repeat split; congruence.
Qed.

Lemma safeAt_static b b' p : sameStatic b b' -> safeAt b p -> safeAt b' p.
Proof.
  intros Hs (cell & Hc & Hm).
  destruct (sameStatic_cell b b' _ _ cell Hs Hc) as (cell' & Hc' & Hm' & _).
  exists cell'. split; congruence.
Qed.

Lemma zeroConsistent_static cfg b b' :
  sameStatic b b' -> zeroConsistent cfg b -> zeroConsistent cfg b'.
Proof.
  intros Hs Hz p q Hp Hq.
  apply (safeAt_static b b' q Hs). apply (Hz p q); [|exact Hq].
  now apply (zeroAt_static b' b p (sameStatic_sym _ _ Hs)).
Qed.

Lemma changes_hidden_back R b b' p :
  changes R b b' -> visAt b' p = Some hidden -> visAt b p = Some hidden.
Proof. intros Hc Hh. destruct (Hc p) as [H|(H1 & H2 & _)]; congruence. Qed.

Lemma changes_not_hidden R b b' p :
  changes R b b' -> visAt b p <> Some hidden -> visAt b' p <> Some hidden.
Proof. intros Hc Hn Hh. apply Hn. now apply (changes_hidden_back R b b'). Qed.

Lemma changes_revealed R b b' p :
  changes R b b' -> visAt b p = Some revealed -> visAt b' p = Some revealed.
Proof. intros Hc Hr. destruct (Hc p) as [H|(H1 & _)]; congruence. Qed.

Lemma changes_refl R b : changes R b b.
Proof. intros p. now left. Qed.

Lemma changes_trans R1 R2 (R : Pos -> Prop) b1 b2 b3 :
  changes R1 b1 b2 -> changes R2 b2 b3 ->
  (forall p, R1 p -> R p) ->
  (forall p, visAt b1 p = Some hidden -> R2 p -> R p) ->
  changes R b1 b3.
Proof.
  intros H1 H2 HR1 HR2 p.
  destruct (H1 p) as [E1|(E1 & E1' & Hr1)], (H2 p) as [E2|(E2 & E2' & Hr2)].
  - left. congruence.
  - right. repeat split; try congruence. apply HR2; [congruence|exact Hr2].
  - right. repeat split; try congruence. now apply HR1.
  - congruence.
Qed.

Lemma closed_refl cfg b : closed cfg b b.
Proof. intros p q H1 H2. congruence. Qed.

Lemma closed_trans cfg R1 R2 b1 b2 b3 :
  sameStatic b1 b2 ->
  changes R1 b1 b2 -> changes R2 b2 b3 ->
  closed cfg b1 b2 -> closed cfg b2 b3 -> closed cfg b1 b3.
Proof.
  intros Hs H1 H2 C1 C2 p q Hh Hr Hz Hq.
  destruct (H1 p) as [E1|(E1 & E1' & _)].
  - apply (C2 p q); try assumption; [congruence|].
    now apply (zeroAt_static b1 b2).
  - apply (changes_not_hidden R2 b2 b3 q H2). now apply (C1 p q).
Qed.

Lemma fills_hidden cfg b start p :
  hiddenAt b start -> fills cfg b start p -> hiddenAt b p.
Proof. intros Hs Hf. now destruct Hf. Qed.

Lemma fills_trans cfg b start q p :
  fills cfg b start q -> fills cfg b q p -> fills cfg b start p.
Proof.
  intros Hq Hp. induction Hp as [|p0 p1 _ IH Hz Hn Hh]; [exact Hq|].
  now apply (fills_step cfg b start p0 p1).
Qed.

(** A fill on a board with fewer hidden cells reaches fewer cells. *)
Lemma fills_mono cfg R b b' start p :
  sameStatic b b' -> changes R b b' ->
  fills cfg b' start p -> fills cfg b start p.
Proof.
  intros Hs Hc Hf. induction Hf as [|p0 p1 _ IH Hz Hn Hh]; [constructor|].
  apply (fills_step cfg b start p0 p1); try assumption.
  - now apply (zeroAt_static b' b p0 (sameStatic_sym _ _ Hs)).
  - now apply (changes_hidden_back R b b').
Qed.

Lemma frame_refl R s : frame R s s.
Proof.
  split; try reflexivity; try lia.
  - apply sameStatic_refl.
  - apply changes_refl.
  - repeat split.
Qed.

Lemma frame_trans R1 R2 (R : Pos -> Prop) s1 s2 s3 :
  frame R1 s1 s2 -> frame R2 s2 s3 ->
  (forall p, R1 p -> R p) ->
  (forall p, visAt (board s1) p = Some hidden -> R2 p -> R p) ->
  frame R s1 s3.
Proof.
  intros [c1 st1 ch1 n1 l1 (f1 & g1 & h1)] [c2 st2 ch2 n2 l2 (f2 & g2 & h2)] HR1 HR2.
  split.
  - congruence.
  - now apply (sameStatic_trans _ (board s2)).
  - now apply (changes_trans R1 R2 R _ (board s2)).
  - lia.
  - lia.
  - repeat split; congruence.
Qed.

(** ** The flood fill: one reveal *)

Lemma visAt_cell b p cell :
  cellAt b (fst p) (snd p) = Some cell -> visAt b p = Some (state cell).
Proof. intros H. unfold visAt. now rewrite H. Qed.

Lemma hiddenAt_cell b p :
  hiddenAt b p -> exists cell, cellAt b (fst p) (snd p) = Some cell /\ state cell = hidden.
Proof.
  unfold hiddenAt, visAt. destruct (cellAt b (fst p) (snd p)) as [cell|]; [|discriminate].
  intros [= H]. now exists cell.
Qed.

Lemma markRevealed_cell r c s cell :
  cellAt (board s) r c = Some cell ->
  cellAt (board (markRevealed r c s)) r c = Some (set_cellState revealed cell).
Proof.
  intros Hc. unfold markRevealed, cellAt in *. cbn [board].
  rewrite GridFacts.getZ_updateZ, decide_True by reflexivity. now rewrite Hc.
Qed.

Lemma markRevealed_frame r c s cell :
  cellAt (board s) r c = Some cell -> state cell = hidden ->
  frame (fun p => p = (r, c)) s (markRevealed r c s) /\
  S (hiddenCount (board (markRevealed r c s))) = hiddenCount (board s).
Proof.
  intros Hc Hh.
  assert (Hcount : S (hiddenCount (board (markRevealed r c s))) = hiddenCount (board s)).
  { pose proof (GridFacts.count_updateZ isHidden (set_cellState revealed) r c (board s)
                  cell Hc) as H.
    assert (E1 : isHidden cell = true) by (unfold isHidden; now rewrite Hh).
    assert (E2 : isHidden (set_cellState revealed cell) = false) by reflexivity.
    rewrite E1, E2 in H. unfold hiddenCount, markRevealed. cbn [board Nat.b2n] in *. lia. }
  split; [|exact Hcount]. split.
  - reflexivity.
  - intros r' c'. unfold markRevealed, cellAt. cbn [board].
    rewrite GridFacts.getZ_updateZ. destruct (decide _); [|reflexivity].
    now destruct (Grid.getZ (board s) r' c').
  - intros p. unfold visAt, markRevealed, cellAt. cbn [board].
    rewrite GridFacts.getZ_updateZ. destruct (decide ((r, c) = (fst p, snd p))) as [Heq|Hne].
    + right. inversion Heq; subst. unfold cellAt in Hc. rewrite Hc. cbn.
      rewrite Hh. repeat split. now destruct p.
    + now left.
  - cbn [revealedCells markRevealed]. fold (markRevealed r c s). lia.
  - lia.
  - repeat split.
Qed.

Lemma markRevealed_unrevealedSafe r c s cell :
  cellAt (board s) r c = Some cell -> state cell = hidden -> isMine cell = false ->
  S (unrevealedSafe (board (markRevealed r c s))) = unrevealedSafe (board s).
Proof.
  intros Hc Hh Hm.
  pose proof (GridFacts.count_updateZ isUnrevealedSafe (set_cellState revealed) r c
                (board s) cell Hc) as H.
  assert (E1 : isUnrevealedSafe cell = true)
    by (unfold isUnrevealedSafe; now rewrite Hh, Hm).
  assert (E2 : isUnrevealedSafe (set_cellState revealed cell) = false).
  { unfold isUnrevealedSafe. cbn [state isMine set_cellState].
    now rewrite andb_false_r. }
  rewrite E1, E2 in H. unfold unrevealedSafe, markRevealed. cbn [board Nat.b2n] in *. lia.
Qed.

Lemma checkWinCondition_fields now s :
  board (checkWinCondition now s) = board s /\
  config (checkWinCondition now s) = config s /\
  revealedCells (checkWinCondition now s) = revealedCells s /\
  remainingMines (checkWinCondition now s) = remainingMines s /\
  flaggedMines (checkWinCondition now s) = flaggedMines s /\
  startTime (checkWinCondition now s) = startTime s /\
  status (checkWinCondition now s) =
    if revealedCells s =? rows (config s) * cols (config s) - mines (config s)
    then won else status s.
Proof.
  unfold checkWinCondition. destruct (_ =? _); [|now repeat split].
  unfold calculateScore. cbn [startTime endTime].
  destruct (startTime s); [|now repeat split].
  destruct (_ || _); now repeat split.
Qed.

Lemma checkWinCondition_frame R now s : frame R s (checkWinCondition now s).
Proof.
  destruct (checkWinCondition_fields now s) as (Hb & Hc & Hr & Hm & Hf & Ht & _).
  split; rewrite ?Hb, ?Hc, ?Hr; try reflexivity; try lia.
  - apply sameStatic_refl.
  - apply changes_refl.
  - now repeat split.
Qed.

Lemma checkWinCondition_consistent now s :
  consistent s -> consistent (checkWinCondition now s).
Proof.
  intros [Hwf Hz Hcnt Hplay].
  destruct (checkWinCondition_fields now s) as (Hb & Hc & Hr & _ & _ & _ & Hst).
  split.
  - unfold wfState. now rewrite Hb, Hc.
  - now rewrite Hb, Hc.
  - unfold counted. now rewrite Hb, Hc, Hr.
  - unfold inPlay, counted in *. rewrite Hb, Hst.
    destruct (_ =? _) eqn:E; zbool.
    + right. split; [reflexivity|]. lia.
    + exact Hplay.
Qed.

(** What one call of [revealCell] on a hidden safe cell does, given
    enough fuel. *)
Definition cellSpec (fuel : nat) (draws : nat -> Random.Sample) (now : Z) : Prop :=
  forall s r c,
    consistent s -> status s = playing ->
    hiddenAt (board s) (r, c) -> safeAt (board s) (r, c) ->
    (hiddenCount (board s) < fuel)%nat ->
    exists s',
      revealCell fuel draws now r c s = Returned true s' /\
      consistent s' /\
      frame (fills (config s) (board s) (r, c)) s s' /\
      closed (config s) (board s) (board s') /\
      visAt (board s') (r, c) = Some revealed.

(** The loop over the neighbours, when the calls it makes behave. *)
Lemma loop_spec fuel draws now :
  cellSpec fuel draws now ->
  forall cells s,
    consistent s ->
    (forall q, In q cells -> safeAt (board s) q) ->
    (hiddenCount (board s) < fuel)%nat ->
    exists s',
      revealNeighborsWith (revealCell fuel draws now) cells s = Returned tt s' /\
      consistent s' /\
      frame (fun p => exists q, In q cells /\ hiddenAt (board s) q /\
                                fills (config s) (board s) q p) s s' /\
      closed (config s) (board s) (board s') /\
      (forall q, In q cells -> visAt (board s') q <> Some hidden).
Proof.
  intros Hcell. induction cells as [|[r c] cells IH]; intros s Hcons Hsafe Hfuel.
  - exists s. split; [reflexivity|]. split; [exact Hcons|].
    split; [apply frame_refl|]. split; [apply closed_refl|]. intros q [].
  - cbn [revealNeighborsWith].
    destruct (Hsafe (r, c) (or_introl eq_refl)) as (nb & Hnb & Hmine).
    cbn [fst snd] in Hnb. rewrite Hnb.
    destruct (decide (state nb = hidden)) as [Hh|Hh].
    + rewrite bool_decide_eq_true_2 by exact Hh.
      assert (Hplaying : status s = playing).
      { destruct (cons_inPlay s Hcons) as [H|[_ H]]; [exact H|].
        exfalso.
        pose proof (GridFacts.count_posZ isUnrevealedSafe (board s) r c nb Hnb) as Hpos.
        unfold unrevealedSafe in H. rewrite H in Hpos.
        assert (Hu : isUnrevealedSafe nb = true)
          by (unfold isUnrevealedSafe; rewrite Hmine, Hh; reflexivity).
        specialize (Hpos Hu). lia. }
      assert (Hhid : hiddenAt (board s) (r, c)).
      { unfold hiddenAt. rewrite (visAt_cell _ (r, c) nb Hnb). now rewrite Hh. }
      destruct (Hcell s r c Hcons Hplaying Hhid (Hsafe (r, c) (or_introl eq_refl)) Hfuel)
        as (s1 & Hrun & Hcons1 & Hframe1 & Hclosed1 & Hvis1).
      rewrite Hrun.
      destruct (IH s1 Hcons1) as (s' & Hloop & Hcons' & Hframe' & Hclosed' & Hall').
      { intros q Hq. apply (safeAt_static (board s)); [apply Hframe1|].
        apply Hsafe. now right. }
      { pose proof (frame_less _ _ _ Hframe1). lia. }
      exists s'. split; [exact Hloop|]. split; [exact Hcons'|]. split; [|split].
      * apply (frame_trans _ _ _ s s1 s' Hframe1 Hframe').
        -- intros p Hp. exists (r, c). split; [now left|]. split; assumption.
        -- intros p _ (q & Hq & Hqh & Hqf). exists q. split; [now right|]. split.
           ++ apply (changes_hidden_back _ _ _ q (frame_changes _ _ _ Hframe1) Hqh).
           ++ rewrite (frame_config _ _ _ Hframe1) in Hqf.
              apply (fills_mono _ _ (board s) (board s1) q p
                       (frame_static _ _ _ Hframe1) (frame_changes _ _ _ Hframe1) Hqf).
      * rewrite (frame_config _ _ _ Hframe1) in Hclosed'.
        apply (closed_trans _ _ _ (board s) (board s1) (board s')
                 (frame_static _ _ _ Hframe1) (frame_changes _ _ _ Hframe1)
                 (frame_changes _ _ _ Hframe') Hclosed1 Hclosed').
      * intros q [<-|Hq]; [|now apply Hall'].
        apply (changes_not_hidden _ _ _ _ (frame_changes _ _ _ Hframe')). congruence.
    + rewrite bool_decide_eq_false_2 by exact Hh.
      destruct (IH s Hcons) as (s' & Hloop & Hcons' & Hframe' & Hclosed' & Hall').
      { intros q Hq. apply Hsafe. now right. }
      { exact Hfuel. }
      exists s'. split; [exact Hloop|]. split; [exact Hcons'|]. split; [|split].
      * apply (frame_trans _ _ _ s s s' (frame_refl (fun _ => False) s) Hframe').
        -- intros p [].
        -- intros p _ (q & Hq & Hqh & Hqf). exists q. split; [now right|]. now split.
      * exact Hclosed'.
      * intros q [<-|Hq]; [|now apply Hall'].
        apply (changes_not_hidden _ _ _ _ (frame_changes _ _ _ Hframe')).
        rewrite (visAt_cell _ (r, c) nb Hnb). congruence.
Qed.

Lemma cell_spec draws now : forall fuel, cellSpec fuel draws now.
Proof.
  induction fuel as [|fuel IH]; intros s r c Hcons Hst Hhid Hsafe Hfuel; [lia|].
  destruct (hiddenAt_cell _ _ Hhid) as (cell & Hcell & Hh). cbn [fst snd] in Hcell.
  destruct Hsafe as (cell0 & Hcell0 & Hmine). cbn [fst snd] in Hcell0.
  rewrite Hcell in Hcell0. injection Hcell0 as <-.
  cbn [revealCell]. rewrite Hst.
  rewrite (bool_decide_eq_false_2 (playing = won)) by discriminate.
  rewrite (bool_decide_eq_false_2 (playing = lost)) by discriminate.
  rewrite (bool_decide_eq_false_2 (playing = idle)) by discriminate.
  cbn [orb]. rewrite Hcell, (bool_decide_eq_true_2 _ Hh). cbn [negb].
  rewrite (markRevealed_cell r c s cell Hcell).
  cbn [isMine neighborMines set_cellState]. rewrite Hmine.
  destruct (markRevealed_frame r c s cell Hcell Hh) as [Hframe2 Hcount2].
  pose proof (markRevealed_unrevealedSafe r c s cell Hcell Hh Hmine) as Hsafe2.
  set (s2 := markRevealed r c s) in *.
  assert (Hcons2 : consistent s2).
  { destruct Hcons as [Hwf Hz Hcnt Hplay]. split.
    - now apply markRevealed_wf.
    - apply (zeroConsistent_static (config s) (board s)); [apply Hframe2|exact Hz].
    - unfold counted in *. subst s2. cbn [revealedCells markRevealed config] in *.
      fold (markRevealed r c s). lia.
    - left. exact Hst. }
  assert (Hvis2 : visAt (board s2) (r, c) = Some revealed).
  { subst s2. unfold visAt. cbn [fst snd].
    rewrite (markRevealed_cell r c s cell Hcell). reflexivity. }
  destruct (neighborMines cell =? 0) eqn:Hzero; zbool.
  - assert (Hzero_s : zeroAt (board s) (r, c)).
    { exists cell. now repeat split. }
    destruct (loop_spec fuel draws now IH (neighborCoords (config s2) r c) s2 Hcons2)
      as (s3 & Hloop & Hcons3 & Hframe3 & Hclosed3 & Hall3).
    { intros q Hq. apply (safeAt_static (board s)); [apply Hframe2|].
      apply (cons_zero s Hcons (r, c) q Hzero_s). exact Hq. }
    { lia. }
    rewrite Hloop.
    exists (checkWinCondition now s3). split; [reflexivity|].
    split; [now apply checkWinCondition_consistent|].
    destruct (checkWinCondition_fields now s3) as (Hb & _).
    assert (Hframe : frame (fills (config s) (board s) (r, c)) s s3).
    { apply (frame_trans _ _ _ s s2 s3 Hframe2 Hframe3).
      - intros p ->. constructor.
      - intros p _ (q & Hq & Hqh & Hqf).
        apply (fills_trans _ _ _ q).
        + apply (fills_step _ _ _ (r, c) q); [constructor|exact Hzero_s|exact Hq|].
          apply (changes_hidden_back _ _ _ q (frame_changes _ _ _ Hframe2) Hqh).
        + apply (fills_mono _ _ (board s) (board s2) q p
                   (frame_static _ _ _ Hframe2) (frame_changes _ _ _ Hframe2) Hqf). }
    split; [|split].
    + apply (frame_trans _ _ _ s s3 _ Hframe (checkWinCondition_frame (fun _ => False) now s3)).
      * tauto.
      * intros p _ [].
    + rewrite Hb. intros p q Hph Hpr Hpz Hpq.
      destruct (decide (p = (r, c))) as [->|Hne].
      * now apply Hall3.
      * apply (Hclosed3 p q); try assumption.
        -- destruct (frame_changes _ _ _ Hframe2 p) as [E|(_ & _ & E)]; congruence.
        -- apply (zeroAt_static (board s)); [apply Hframe2|exact Hpz].
    + rewrite Hb. now apply (changes_revealed _ _ _ _ (frame_changes _ _ _ Hframe3)).
  - exists (checkWinCondition now s2). split; [reflexivity|].
    split; [now apply checkWinCondition_consistent|].
    destruct (checkWinCondition_fields now s2) as (Hb & _).
    split; [|split].
    + apply (frame_trans _ _ _ s s2 _ Hframe2 (checkWinCondition_frame (fun _ => False) now s2)).
      * intros p ->. constructor.
      * intros p _ [].
    + rewrite Hb. intros p q Hph Hpr (cellp & Hcp & _ & Hnp) Hpq.
      destruct (decide (p = (r, c))) as [->|Hne].
      * cbn [fst snd] in Hcp. congruence.
      * exfalso. destruct (frame_changes _ _ _ Hframe2 p) as [E|(_ & _ & E)]; congruence.
    + rewrite Hb. exact Hvis2.
Qed.

(** ** The flood fill: the cells it reveals *)

(** The state in which the reveal of a hidden cell starts: the first
    reveal of a game places the mines. *)
Definition startState (draws : nat -> Random.Sample) (now : Z) (r c : Z)
           (s : MinesweeperState) : MinesweeperState :=
  if bool_decide (status s = idle) then initializeGame draws now r c s else s.

Lemma fold_updates_vis {X} (step : Board -> X -> Board) (l : list X) b p :
  (forall b x, visAt (step b x) p = visAt b p) ->
  visAt (fold_left step l b) p = visAt b p.
Proof.
  intros Hstep. revert b. induction l as [|x l IH]; intros b; [reflexivity|].
  cbn [fold_left]. now rewrite IH, Hstep.
Qed.

Lemma updateZ_vis f r c b p :
  (forall cell, state (f cell) = state cell) ->
  visAt (Grid.updateZ f r c b) p = visAt b p.
Proof.
  intros Hf. unfold visAt, cellAt. rewrite GridFacts.getZ_updateZ.
  destruct (decide _); [|reflexivity].
  destruct (Grid.getZ b (fst p) (snd p)); cbn; [now rewrite Hf|reflexivity].
Qed.

Lemma initializeGame_vis draws now r c s p :
  visAt (board (initializeGame draws now r c s)) p = visAt (board s) p.
Proof.
  unfold initializeGame. destruct (bool_decide _); [|reflexivity].
  cbn [board]. unfold calculateNeighborMines, placeMines. cbn [board set_board config].
  rewrite fold_updates_vis.
  - apply fold_updates_vis. intros b x. now apply updateZ_vis.
  - intros b x. destruct (mineAt b x); [reflexivity|]. now apply updateZ_vis.
Qed.

Lemma initializeGame_status draws now r c s :
  status s = idle -> status (initializeGame draws now r c s) = playing.
Proof.
  intros H. unfold initializeGame. now rewrite bool_decide_eq_true_2.
Qed.

(** The reveal of a hidden cell in the first state of a game is the
    reveal of the cell in the state with the mines placed. *)
Lemma revealCell_startState fuel draws now r c s :
  status s = idle \/ status s = playing ->
  hiddenAt (board s) (r, c) ->
  revealCell fuel draws now r c s =
  revealCell fuel draws now r c (startState draws now r c s).
Proof.
  intros Hst Hh. unfold startState.
  destruct (decide (status s = idle)) as [Hidle|Hn];
    [rewrite (bool_decide_eq_true_2 _ Hidle)|now rewrite (bool_decide_eq_false_2 _ Hn)].
  destruct fuel as [|fuel]; [reflexivity|].
  pose proof (initializeGame_status draws now r c s Hidle) as Hplay.
  pose proof (initializeGame_vis draws now r c s (r, c)) as Hvis.
  destruct (hiddenAt_cell _ _ Hh) as (cell & Hcell & Hhid). cbn [fst snd] in Hcell.
  assert (Hh1 : hiddenAt (board (initializeGame draws now r c s)) (r, c)).
  { unfold hiddenAt. now rewrite Hvis. }
  destruct (hiddenAt_cell _ _ Hh1) as (cell1 & Hcell1 & Hhid1). cbn [fst snd] in Hcell1.
  cbn [revealCell]. rewrite Hplay, Hidle.
  rewrite (bool_decide_eq_false_2 (idle = won)) by discriminate.
  rewrite (bool_decide_eq_false_2 (idle = lost)) by discriminate.
  rewrite (bool_decide_eq_false_2 (playing = won)) by discriminate.
  rewrite (bool_decide_eq_false_2 (playing = lost)) by discriminate.
  rewrite (bool_decide_eq_false_2 (playing = idle)) by discriminate.
  rewrite (bool_decide_eq_true_2 (idle = idle)) by reflexivity.
  cbn [orb]. rewrite Hcell, Hcell1.
  rewrite (bool_decide_eq_true_2 _ Hhid), (bool_decide_eq_true_2 _ Hhid1).
  reflexivity.
Qed.

(** The cells with count 0 that are connected to [start] through cells
    with count 0. *)
Inductive zeroRegion (cfg : GameConfig) (b : Board) (start : Pos) : Pos -> Prop :=
| zeroRegion_start : zeroRegion cfg b start start
| zeroRegion_step p q :
    zeroRegion cfg b start p -> neighbor cfg p q -> zeroAt b q ->
    zeroRegion cfg b start q.

(** The region of [start] together with the cells that border it. *)
Definition regionWithBorder (cfg : GameConfig) (b : Board) (start p : Pos) : Prop :=
  zeroRegion cfg b start p \/ exists z, zeroRegion cfg b start z /\ neighbor cfg z p.

Lemma fills_in_region cfg b start p :
  fills cfg b start p -> regionWithBorder cfg b start p.
Proof.
  induction 1 as [|p q _ IH Hz Hn Hh]; [left; constructor|].
  right. exists p. split; [|exact Hn].
  destruct IH as [Hr|(z & Hr & Hzn)]; [exact Hr|].
  now apply (zeroRegion_step cfg b start z p).
Qed.

Lemma zeroRegion_fills cfg b start p :
  zeroAt b start ->
  (forall q, regionWithBorder cfg b start q -> hiddenAt b q) ->
  zeroRegion cfg b start p -> fills cfg b start p /\ zeroAt b p.
Proof.
  intros Hz Hall. induction 1 as [|p q Hp [IHf IHz] Hn Hq].
  - split; [constructor|exact Hz].
  - split; [|exact Hq]. apply (fills_step cfg b start p q); try assumption.
    apply Hall. left. now apply (zeroRegion_step cfg b start p q).
Qed.

Lemma region_fills cfg b start p :
  zeroAt b start ->
  (forall q, regionWithBorder cfg b start q -> hiddenAt b q) ->
  regionWithBorder cfg b start p -> fills cfg b start p.
Proof.
  intros Hz Hall [Hr|(z & Hr & Hn)].
  - now apply zeroRegion_fills.
  - destruct (zeroRegion_fills cfg b start z Hz Hall Hr) as [Hf Hzz].
    apply (fills_step cfg b start z p); try assumption.
    apply Hall. right. now exists z.
Qed.

(** The fill from a consistent state: the board has the size of the
    configuration, a cell with count 0 has no mine around it, and the
    counter of revealed cells is in step with the board. *)
Lemma fill_from_consistent (s : MinesweeperState) (r c : Z)
        (draws : nat -> Random.Sample) (now : Z) (fuel : nat) :
  let s1 := startState draws now r c s in
  status s = idle \/ status s = playing ->
  consistent s1 ->
  hiddenAt (board s) (r, c) ->
  zeroAt (board s1) (r, c) ->
  (hiddenCount (board s1) < fuel)%nat ->
  exists s',
    revealCell fuel draws now r c s = Returned true s' /\
    (forall p, fills (config s1) (board s1) (r, c) p ->
       visAt (board s1) p = Some hidden /\ visAt (board s') p = Some revealed) /\
    (forall p, ~ fills (config s1) (board s1) (r, c) p ->
       visAt (board s') p = visAt (board s1) p) /\
    sameStatic (board s1) (board s') /\
    revealedCells s' - revealedCells s1 =
      Z.of_nat (hiddenCount (board s1)) - Z.of_nat (hiddenCount (board s')) /\
    (forall p, fills (config s1) (board s1) (r, c) p ->
       regionWithBorder (config s1) (board s1) (r, c) p) /\
    ((forall p, regionWithBorder (config s1) (board s1) (r, c) p ->
        hiddenAt (board s1) p) ->
     forall p, regionWithBorder (config s1) (board s1) (r, c) p ->
       fills (config s1) (board s1) (r, c) p).
Proof.
  intros s1 Hst Hcons Hhid Hzero Hfuel.
  assert (Hst1 : status s1 = playing).
  { subst s1. unfold startState. destruct Hst as [Hi|Hp].
    - rewrite (bool_decide_eq_true_2 _ Hi). now apply initializeGame_status.
    - rewrite bool_decide_eq_false_2 by (rewrite Hp; discriminate). exact Hp. }
  assert (Hhid1 : hiddenAt (board s1) (r, c)).
  { subst s1. unfold startState. destruct (bool_decide _); [|exact Hhid].
    unfold hiddenAt. now rewrite initializeGame_vis. }
  assert (Hsafe1 : safeAt (board s1) (r, c)).
  { destruct Hzero as (cell & Hc & Hm & _). now exists cell. }
  destruct (cell_spec draws now fuel s1 r c Hcons Hst1 Hhid1 Hsafe1 Hfuel)
    as (s' & Hrun & _ & Hframe & Hclosed & Hvis).
  exists s'. split.
  { rewrite (revealCell_startState fuel draws now r c s Hst Hhid). exact Hrun. }
  assert (Hreached : forall p, fills (config s1) (board s1) (r, c) p ->
            visAt (board s') p = Some revealed).
  { induction 1 as [|p q Hp IH Hz Hn Hh]; [exact Hvis|].
    pose proof (fills_hidden _ _ _ _ Hhid1 Hp) as Hph.
    pose proof (Hclosed p q Hph IH Hz Hn) as Hq.
    destruct (frame_changes _ _ _ Hframe q) as [E|(_ & E & _)]; [|exact E].
    unfold hiddenAt in Hh. congruence. }
  split; [|split; [|split; [|split; [|split]]]].
  - intros p Hp. split; [|now apply Hreached].
    now apply (fills_hidden (config s1) (board s1) (r, c)).
  - intros p Hp. destruct (frame_changes _ _ _ Hframe p) as [E|(_ & _ & E)];
      [exact E|contradiction].
  - apply Hframe.
  - pose proof (frame_count _ _ _ Hframe). lia.
  - intros p. apply fills_in_region.
  - intros Hall p. now apply region_fills.
Qed.

(** ** Coordinates of the configuration *)

Lemma zrange_In lo hi x : In x (zrange lo hi) <-> lo <= x <= hi.
Proof.
  unfold zrange. rewrite in_map_iff. split.
  - intros (i & <- & Hi). apply in_seq in Hi. lia.
  - intros H. exists (Z.to_nat (x - lo)). split; [lia|]. apply in_seq. lia.
Qed.

Lemma zrange_NoDup lo hi : NoDup (zrange lo hi).
Proof.
  unfold zrange. change (map ?f ?l) with (f <$> l).
  apply NoDup_fmap_2; [|apply NoDup_seq]. intros i j H. lia.
Qed.

Lemma allCells_In cfg r c : In (r, c) (allCells cfg) <-> inRange cfg r c.
Proof.
  unfold allCells, inRange. rewrite in_flat_map. split.
  - intros (r0 & Hr & Hin). apply in_map_iff in Hin as (c0 & [= <- <-] & Hc).
    apply zrange_In in Hr, Hc. lia.
  - intros [Hr Hc]. exists r. split; [apply zrange_In; lia|].
    apply in_map_iff. exists c. split; [reflexivity|apply zrange_In; lia].
Qed.

Lemma pairs_NoDup (l1 l2 : list Z) :
  NoDup l1 -> NoDup l2 ->
  NoDup (flat_map (fun r => map (fun c => (r, c)) l2) l1).
Proof.
  intros H1 H2. induction H1 as [|r l1 Hr _ IH]; [constructor|].
  cbn [flat_map]. apply list.NoDup_app. split; [|split; [|exact IH]].
  - change (map ?f ?l) with (f <$> l). apply NoDup_fmap_2; [|exact H2].
    intros c c' [= ->]. reflexivity.
  - intros [r0 c0] Hin Hin'.
    apply list_elem_of_In, in_map_iff in Hin as (c1 & [= <- <-] & _).
    apply list_elem_of_In, in_flat_map in Hin' as (r1 & Hr1 & Hin').
    apply in_map_iff in Hin' as (c2 & [= <- <-] & _).
    apply Hr. now apply list_elem_of_In.
Qed.

Lemma allCells_NoDup cfg : NoDup (allCells cfg).
Proof. apply pairs_NoDup; apply zrange_NoDup. Qed.

Lemma neighborCoords_In cfg r c r' c' :
  In (r', c') (neighborCoords cfg r c) <->
  inRange cfg r' c' /\ Z.abs (r' - r) <= 1 /\ Z.abs (c' - c) <= 1 /\ (r', c') <> (r, c).
Proof.
  unfold neighborCoords, inRange. rewrite in_flat_map. split.
  - intros (r0 & Hr & Hin). apply in_flat_map in Hin as (c0 & Hc & Hin).
    apply zrange_In in Hr, Hc.
    destruct (negb (r0 =? r) || negb (c0 =? c)) eqn:E; [|destruct Hin].
    destruct Hin as [[= <- <-]|[]].
    repeat split; try lia.
    intros [= -> ->]. rewrite !Z.eqb_refl in E. discriminate.
  - intros ((Hr & Hc) & Har & Hac & Hne). exists r'. split; [apply zrange_In; lia|].
    apply in_flat_map. exists c'. split; [apply zrange_In; lia|].
    destruct (negb (r' =? r) || negb (c' =? c)) eqn:E; [now left|].
    zbool. congruence.
Qed.

(** ** The mines of the first reveal *)

Definition mineCount (b : Board) : nat := Grid.count isMine b.

(** No mine has been placed. *)
Definition pristine (b : Board) : Prop :=
  forall r c cell, cellAt b r c = Some cell -> isMine cell = false.

Lemma swap_perm {A} i j (a : list A) : swap i j a ≡ₚ a.
Proof.
  unfold swap. destruct (a !! i) as [x|] eqn:Hi; [|reflexivity].
  destruct (a !! j) as [y|] eqn:Hj; [|reflexivity].
  now apply Permutation_insert_swap.
Qed.

Lemma shuffleArray_perm {A} draws (a : list A) : shuffleArray draws a ≡ₚ a.
Proof.
  unfold shuffleArray. generalize (rev (seq 1 (length a - 1))). intros idx.
  change a with (fst (a, 0%nat)) at 2. generalize (a, 0%nat). clear a.
  induction idx as [|i idx IH]; intros st; [reflexivity|].
  cbn [fold_left]. rewrite IH. cbn [fst]. apply swap_perm.
Qed.

Lemma slice0_take {A} n (a : list A) : exists k, slice0 n a = take k a.
Proof. unfold slice0. destruct (n <? 0); eauto. Qed.

Lemma minePositions_spec cfg draws r c :
  NoDup (minePositions cfg draws r c) /\
  (forall p, p ∈ minePositions cfg draws r c -> p ∈ availableCells cfg r c) /\
  (0 <= mines cfg ->
   length (minePositions cfg draws r c) =
   Nat.min (Z.to_nat (mines cfg)) (length (availableCells cfg r c))).
Proof.
  unfold minePositions.
  pose proof (shuffleArray_perm draws (availableCells cfg r c)) as Hperm.
  assert (Hnd : NoDup (shuffleArray draws (availableCells cfg r c))).
  { rewrite Hperm. apply list.NoDup_filter, allCells_NoDup. }
  destruct (slice0_take (mines cfg) (shuffleArray draws (availableCells cfg r c)))
    as [k Hk].
  split; [|split].
  - rewrite Hk. apply (sublist_NoDup _ _ Hnd), sublist_take.
  - intros p Hp. rewrite Hk in Hp. apply elem_of_take in Hp as (i & Hi & _).
    rewrite <- Hperm. eapply list_elem_of_lookup_2; eauto.
  - intros Hm. unfold slice0. destruct (mines cfg <? 0) eqn:E; zbool; [lia|].
    rewrite length_take. now rewrite Hperm.
Qed.

Definition placeAll (l : list Pos) (b : Board) : Board :=
  fold_left (fun b rc => Grid.updateZ (set_isMine true) (fst rc) (snd rc) b) l b.

Lemma placeAll_cellAt l : forall b r c,
  cellAt (placeAll l b) r c =
  if decide ((r, c) ∈ l) then set_isMine true <$> cellAt b r c else cellAt b r c.
Proof.
  induction l as [|[r0 c0] l IH]; intros b r c.
  - cbn. destruct (decide _) as [H|]; [inversion H|reflexivity].
  - unfold placeAll in *. cbn [fold_left fst snd]. rewrite IH.
    unfold cellAt. rewrite GridFacts.getZ_updateZ.
    destruct (decide ((r, c) ∈ l)) as [Hin|Hnin],
             (decide ((r0, c0) = (r, c))) as [Heq|Hne],
             (decide ((r, c) ∈ (r0, c0) :: l)) as [Hin'|Hnin'];
      try reflexivity.
    + now destruct (Grid.getZ b r c).
    + exfalso. apply Hnin'. now right.
    + exfalso. apply Hnin'. now right.
    + exfalso. apply Hnin'. rewrite Heq. now left.
    + exfalso. apply elem_of_cons in Hin' as [Heq|Hin']; [congruence|contradiction].
Qed.

Lemma placeAll_count l : forall b,
  NoDup l ->
  (forall p, p ∈ l -> exists cell, cellAt b (fst p) (snd p) = Some cell /\
                                   isMine cell = false) ->
  mineCount (placeAll l b) = (mineCount b + length l)%nat.
Proof.
  induction l as [|[r0 c0] l IH]; intros b Hnd Hcells;
    [unfold placeAll; cbn [fold_left length]; lia|].
  apply list.NoDup_cons in Hnd as [Hnotin Hnd].
  unfold placeAll in *. cbn [fold_left fst snd length].
  destruct (Hcells (r0, c0) ltac:(now left)) as (cell & Hcell & Hm).
  cbn [fst snd] in Hcell.
  rewrite IH; [|exact Hnd|].
  - pose proof (GridFacts.count_updateZ isMine (set_isMine true) r0 c0 b cell Hcell) as H.
    rewrite Hm in H. cbn in H. unfold mineCount. lia.
  - intros [r c] Hp. destruct (Hcells (r, c) ltac:(now right)) as (cell' & Hc' & Hm').
    exists cell'. split; [|exact Hm']. cbn [fst snd] in *.
    unfold cellAt in *. rewrite GridFacts.getZ_updateZ.
    destruct (decide _) as [Heq|]; [|exact Hc'].
    inversion Heq; subst. contradiction.
Qed.

Lemma fold_updates_count {X} (p : Cell -> bool) (step : Board -> X -> Board)
      (l : list X) b :
  (forall b x, Grid.count p (step b x) = Grid.count p b) ->
  Grid.count p (fold_left step l b) = Grid.count p b.
Proof.
  intros Hstep. revert b. induction l as [|x l IH]; intros b; [reflexivity|].
  cbn [fold_left]. now rewrite IH, Hstep.
Qed.

Lemma fold_updates_mineAt {X} (step : Board -> X -> Board) (l : list X) b q :
  (forall b x, mineAt (step b x) q = mineAt b q) ->
  mineAt (fold_left step l b) q = mineAt b q.
Proof.
  intros Hstep. revert b. induction l as [|x l IH]; intros b; [reflexivity|].
  cbn [fold_left]. now rewrite IH, Hstep.
Qed.

Lemma updateZ_mineAt f r c b q :
  (forall cell, isMine (f cell) = isMine cell) ->
  mineAt (Grid.updateZ f r c b) q = mineAt b q.
Proof.
  intros Hf. unfold mineAt, cellAt. rewrite GridFacts.getZ_updateZ.
  destruct (decide _); [|reflexivity].
  destruct (Grid.getZ b (fst q) (snd q)); cbn; [apply Hf|reflexivity].
Qed.

(** The mines stay where they are: in every cell, and in number. *)
Definition minesKept (b b' : Board) : Prop :=
  (forall q, mineAt b' q = mineAt b q) /\ mineCount b' = mineCount b.

Lemma minesKept_refl b : minesKept b b.
Proof. split; reflexivity. Qed.

Lemma minesKept_trans b1 b2 b3 : minesKept b1 b2 -> minesKept b2 b3 -> minesKept b1 b3.
Proof. intros [H1 H2] [H3 H4]. split; [intros q|]; congruence. Qed.

Lemma updateZ_minesKept f r c b :
  (forall cell, isMine (f cell) = isMine cell) -> minesKept b (Grid.updateZ f r c b).
Proof.
  intros Hf. split.
  - intros q. now apply updateZ_mineAt.
  - now apply GridFacts.count_updateZ_same.
Qed.

Lemma fold_updates_minesKept {X} (step : Board -> X -> Board) (l : list X) b :
  (forall b x, minesKept b (step b x)) -> minesKept b (fold_left step l b).
Proof.
  intros Hstep. revert b. induction l as [|x l IH]; intros b; [apply minesKept_refl|].
  cbn [fold_left]. apply (minesKept_trans _ (step b x)); [apply Hstep|apply IH].
Qed.

Lemma calculateNeighborMines_minesKept s :
  minesKept (board s) (board (calculateNeighborMines s)).
Proof.
  unfold calculateNeighborMines. cbn [board set_board].
  apply fold_updates_minesKept. intros b x.
  destruct (mineAt b x); [apply minesKept_refl|now apply updateZ_minesKept].
Qed.

Lemma revealAllMines_minesKept s : minesKept (board s) (board (revealAllMines s)).
Proof.
  unfold revealAllMines. cbn [board set_board].
  apply fold_updates_minesKept. intros b x.
  destruct (cellAt b _ _); [|apply minesKept_refl].
  destruct (_ && _); [now apply updateZ_minesKept|apply minesKept_refl].
Qed.

(** A reveal that returns either refuses and changes nothing, or leaves
    a started game with the mines where the start of the reveal has
    them. *)
Lemma revealCell_minesKept draws now : forall fuel r c s b s',
  revealCell fuel draws now r c s = Returned b s' ->
  (b = false /\ s' = s) \/
  (b = true /\ status s' <> idle /\ config s' = config s /\
   hiddenAt (board s) (r, c) /\
   (status s = idle \/ status s = playing) /\
   minesKept (board (startState draws now r c s)) (board s')).
Proof.
  induction fuel as [|fuel IH]; intros r c s b s' Hrun; [discriminate|].
  cbn [revealCell] in Hrun.
  destruct (bool_decide (status s = won) || bool_decide (status s = lost)) eqn:Hterm;
    [injection Hrun as <- <-; now left|].
  destruct (cellAt (board s) r c) as [cell|] eqn:Hcell; [|discriminate].
  destruct (bool_decide (state cell = hidden)) eqn:Hhid; cbn [negb] in Hrun;
    [|injection Hrun as <- <-; now left].
  apply bool_decide_eq_true_1 in Hhid.
  apply orb_false_iff in Hterm as [Hw Hl].
  apply bool_decide_eq_false_1 in Hw, Hl.
  assert (Hst : status s = idle \/ status s = playing).
  { destruct (status s); [now left|now right|contradiction|contradiction]. }
  fold (startState draws now r c s) in Hrun.
  set (s1 := startState draws now r c s) in *.
  assert (Hst1 : status s1 = playing /\ config s1 = config s).
  { subst s1. unfold startState. destruct Hst as [Hi|Hp].
    - rewrite (bool_decide_eq_true_2 _ Hi). split; [now apply initializeGame_status|].
      unfold initializeGame. now rewrite (bool_decide_eq_true_2 _ Hi).
    - rewrite bool_decide_eq_false_2 by (rewrite Hp; discriminate). now split. }
  destruct Hst1 as [Hst1 Hcfg1].
  assert (Hs2 : minesKept (board s1) (board (markRevealed r c s1))).
  { unfold markRevealed. cbn [board]. now apply updateZ_minesKept. }
  assert (Hhidden : hiddenAt (board s) (r, c)).
  { unfold hiddenAt. rewrite (visAt_cell _ (r, c) cell Hcell). now rewrite Hhid. }
  destruct (cellAt (board (markRevealed r c s1)) r c) as [cell'|]; [|discriminate].
  destruct (isMine cell').
  { injection Hrun as <- <-. right. split; [reflexivity|]. split; [discriminate|].
    split; [exact Hcfg1|]. split; [exact Hhidden|]. split; [exact Hst|].
    apply (minesKept_trans _ (board (loseGame now (markRevealed r c s1))));
      [exact Hs2|apply revealAllMines_minesKept]. }
  assert (Hloop : forall cells s0 s3,
    status s0 <> idle ->
    revealNeighborsWith (revealCell fuel draws now) cells s0 = Returned tt s3 ->
    status s3 <> idle /\ config s3 = config s0 /\ minesKept (board s0) (board s3)).
  { induction cells as [|[r' c'] cells IHc]; intros s0 s3 Hni Hgo; cbn in Hgo.
    - injection Hgo as <-. split; [exact Hni|]. split; [reflexivity|apply minesKept_refl].
    - destruct (cellAt (board s0) r' c') as [nb|]; [|discriminate].
      destruct (bool_decide (state nb = hidden)); [|now apply (IHc s0)].
      destruct (revealCell fuel draws now r' c' s0) as [b0 s0'| |] eqn:E;
        try discriminate.
      destruct (IH r' c' s0 b0 s0' E) as [[_ ->]|(_ & Hni' & Hcfg' & _ & _ & Hk)];
        [now apply (IHc s0)|].
      destruct (IHc s0' s3 Hni' Hgo) as (H1 & H2 & H3).
      split; [exact H1|]. split; [congruence|].
      apply (minesKept_trans _ (board s0')); [|exact H3].
      unfold startState in Hk. now rewrite bool_decide_eq_false_2 in Hk. }
  assert (Hni2 : status (markRevealed r c s1) <> idle).
  { cbn [status markRevealed]. rewrite Hst1. discriminate. }
  assert (Hfinal : forall s3,
    status s3 <> idle -> config s3 = config s ->
    minesKept (board s1) (board s3) ->
    status (checkWinCondition now s3) <> idle /\
    config (checkWinCondition now s3) = config s /\
    minesKept (board s1) (board (checkWinCondition now s3))).
  { intros s3 Hni3 Hcfg3 Hk3.
    destruct (checkWinCondition_fields now s3) as (Hb & Hc & _ & _ & _ & _ & Hstat).
    rewrite Hb, Hc, Hstat. split; [|now split].
    destruct (revealedCells s3 =? _); [intro Hwon; discriminate Hwon|exact Hni3]. }
  destruct (neighborMines cell' =? 0).
  - destruct (revealNeighborsWith _ _ _) as [[] s3| |] eqn:E; try discriminate.
    injection Hrun as <- <-.
    destruct (Hloop _ _ _ Hni2 E) as (Hni3 & Hcfg3 & Hk3).
    destruct (Hfinal s3 Hni3) as (H1 & H2 & H3).
    { rewrite Hcfg3. exact Hcfg1. }
    { apply (minesKept_trans _ _ _ Hs2 Hk3). }
    right. repeat split; try assumption; apply H3.
  - injection Hrun as <- <-.
    destruct (Hfinal (markRevealed r c s1) Hni2 Hcfg1 Hs2) as (H1 & H2 & H3).
    right. repeat split; try assumption; apply H3.
Qed.

Lemma createEmptyBoard_cell nrows ncols r c cell :
  cellAt (createEmptyBoard nrows ncols) r c = Some cell ->
  isMine cell = false /\ state cell = hidden /\ neighborMines cell = 0.
Proof.
  unfold cellAt. intros Hget.
  destruct (GridFacts.getZ_Some_nonneg _ _ _ _ Hget) as [Hr Hc].
  rewrite GridFacts.getZ_get in Hget by assumption.
  unfold Grid.get, createEmptyBoard in Hget.
  change (map ?f ?l) with (f <$> l) in Hget. rewrite list_lookup_fmap in Hget.
  destruct (seq 0 (Z.to_nat nrows) !! Z.to_nat r) as [r0|]; [|discriminate].
  cbn in Hget. change (map ?f ?l) with (f <$> l) in Hget.
  rewrite list_lookup_fmap in Hget.
  destruct (seq 0 (Z.to_nat ncols) !! Z.to_nat c) as [c0|]; [|discriminate].
  cbn in Hget. injection Hget as <-. now repeat split.
Qed.

Lemma toggleFlag_fields r c s b s' :
  toggleFlag r c s = Returned b s' ->
  status s' = status s /\ config s' = config s /\ revealedCells s' = revealedCells s /\
  (forall r' c' cell', cellAt (board s') r' c' = Some cell' ->
     exists cell, cellAt (board s) r' c' = Some cell /\ isMine cell' = isMine cell).
Proof.
  unfold toggleFlag. intros Hrun.
  assert (Hid : forall r' c' cell', cellAt (board s) r' c' = Some cell' ->
     exists cell, cellAt (board s) r' c' = Some cell /\ isMine cell' = isMine cell)
    by (intros r' c' cell' H; now exists cell').
  assert (Hupd : forall v r' c' cell',
     cellAt (Grid.updateZ (set_cellState v) r c (board s)) r' c' = Some cell' ->
     exists cell, cellAt (board s) r' c' = Some cell /\ isMine cell' = isMine cell).
  { intros v r' c' cell'. unfold cellAt. rewrite GridFacts.getZ_updateZ.
    destruct (decide _); [|intros H; now exists cell'].
    destruct (Grid.getZ (board s) r' c') as [cell0|]; [|discriminate].
    cbn. intros [= <-]. now exists cell0. }
  destruct (_ || _); [injection Hrun as _ <-; now repeat split|].
  destruct (cellAt (board s) r c) as [cell|]; [|discriminate].
  destruct (state cell); injection Hrun as _ <-; repeat split; try assumption;
    cbn [board]; apply Hupd.
Qed.

(** Every idle state that the engine reaches has no mine on its board
    and no revealed cell counted. *)
Lemma reachable_idle_pristine s :
  reachable s -> status s = idle -> pristine (board s) /\ revealedCells s = 0.
Proof.
  induction 1 as [cfg|s cfg _ _|s d _ _|s nr nc nm _ _|s fuel draws now r c b s' _ IH Hrun
                 |s r c b s' _ IH Hrun]; intros Hidle.
  1-4: split; [|reflexivity]; intros r0 c0 cell Hcell;
    now destruct (createEmptyBoard_cell _ _ _ _ _ Hcell).
  - destruct (revealCell_minesKept draws now fuel r c s b s' Hrun)
      as [[_ ->]|(_ & Hni & _)]; [now apply IH|contradiction].
  - destruct (toggleFlag_fields r c s b s' Hrun) as (Hst & _ & Hrc & Hcells).
    destruct IH as [IHp IHr]; [congruence|]. split; [|congruence].
    intros r0 c0 cell' Hcell'.
    destruct (Hcells r0 c0 cell' Hcell') as (cell & Hcell & ->).
    now apply (IHp r0 c0).
Qed.

Lemma pristine_mineCount b : pristine b -> mineCount b = 0%nat.
Proof. intros Hp. apply GridFacts.count_zeroZ. exact Hp. Qed.

(** The mines that the first reveal at [(r, c)] places. *)
Lemma initializeGame_mines draws now r c s :
  status s = idle -> wfState s -> pristine (board s) ->
  let b1 := board (initializeGame draws now r c s) in
  mineCount b1 = length (minePositions (config s) draws r c) /\
  (forall q, mineAt b1 q = true -> q ∈ minePositions (config s) draws r c).
Proof.
  intros Hidle Hwf Hp b1. subst b1. unfold initializeGame.
  rewrite (bool_decide_eq_true_2 _ Hidle). cbn [board].
  destruct (calculateNeighborMines_minesKept (placeMines draws r c s)) as [Hat Hcnt].
  destruct (minePositions_spec (config s) draws r c) as (Hnd & Hsub & _).
  unfold placeMines in *. cbn [board set_board config] in *.
  fold (placeAll (minePositions (config s) draws r c) (board s)) in *.
  split.
  - rewrite Hcnt, placeAll_count; [now rewrite (pristine_mineCount _ Hp)|exact Hnd|].
    intros [r0 c0] Hin. apply Hsub, list_elem_of_filter in Hin as [_ Hin].
    apply list_elem_of_In, allCells_In in Hin.
    destruct (proj2 (cellAt_inRange (config s) (board s) r0 c0 Hwf) Hin) as [cell Hcell].
    exists cell. split; [exact Hcell|]. now apply (Hp r0 c0).
  - intros [r0 c0] Hq. rewrite Hat in Hq. unfold mineAt in Hq. cbn [fst snd] in Hq.
    rewrite placeAll_cellAt in Hq.
    destruct (decide _) as [Hin|_]; [exact Hin|].
    destruct (cellAt (board s) r0 c0) as [cell|] eqn:Hcell; [|discriminate].
    rewrite (Hp r0 c0 cell Hcell) in Hq. discriminate.
Qed.

(** The first reveal of a game places as many mines as the
    configuration says or as there are cells outside the 3 x 3 block
    around the revealed cell, whichever is less, and puts none on the
    revealed cell or next to it. *)
Lemma first_reveal_mine_count (s s' : MinesweeperState) (r c : Z)
      (draws : nat -> Random.Sample) (now : Z) (fuel : nat) :
  reachable s -> status s = idle -> 0 <= mines (config s) ->
  revealCell fuel draws now r c s = Returned true s' ->
  config s' = config s /\
  mineCount (board s') =
    Nat.min (Z.to_nat (mines (config s))) (length (availableCells (config s) r c)) /\
  (forall r' c', Z.abs (r' - r) <= 1 -> Z.abs (c' - c) <= 1 ->
     mineAt (board s') (r', c') = false).
Proof.
  intros Hreach Hidle Hmines Hrun.
  destruct (reachable_idle_pristine s Hreach Hidle) as [Hp _].
  pose proof (reachable_wf s Hreach) as Hwf.
  destruct (revealCell_minesKept draws now fuel r c s true s' Hrun)
    as [[Hf _]|(_ & _ & Hcfg & _ & _ & [Hat Hcnt])]; [discriminate|].
  unfold startState in Hat, Hcnt. rewrite (bool_decide_eq_true_2 _ Hidle) in Hat, Hcnt.
  destruct (initializeGame_mines draws now r c s Hidle Hwf Hp) as [Hn Hin].
  cbv zeta in Hn, Hin.
  destruct (minePositions_spec (config s) draws r c) as (_ & Hsub & Hlen).
  split; [exact Hcfg|]. split.
  - rewrite Hcnt, Hn. now apply Hlen.
  - intros r' c' Hr Hc. destruct (mineAt (board s') (r', c')) eqn:E; [|reflexivity].
    rewrite Hat in E. apply Hin, Hsub, list_elem_of_filter in E as [E _].
    cbn [fst snd] in E. unfold isExcluded in E.
    apply andb_false_iff in E as [E|E]; zbool; lia.
Qed.

(** The state after [setCustomConfig(5, 5, 20)] on a new engine. *)
Definition smallCustom : MinesweeperState :=
  setCustomConfig 5 5 20 (createInitialState beginnerConfig).

(** C2 fails on the code. [setCustomConfig(5, 5, 20)] keeps the 20 mines
    (they are 80 percent of the 25 cells), and the first reveal, at
    [(2, 2)], finds 16 cells outside the 3 x 3 block around it:
    [slice(0, 20)] of the 16 shuffled cells is the 16 cells, so that 16
    mines are on the board where the configuration says 20. This is so
    for the sample run and for every run that returns. *)
Theorem first_reveal_places_fewer_mines :
  reachable smallCustom /\
  status smallCustom = idle /\
  config smallCustom = {| rows := 5; cols := 5; mines := 20; difficulty := custom |} /\
  (exists s', revealCell 26 sampleDraws 0 2 2 smallCustom = Returned true s' /\
              mines (config s') = 20 /\ mineCount (board s') = 16%nat) /\
  (forall draws now fuel s',
     revealCell fuel draws now 2 2 smallCustom = Returned true s' ->
     mines (config s') = 20 /\ mineCount (board s') = 16%nat).
Proof.
  assert (Hreach : reachable smallCustom) by apply reach_custom, reach_new.
  split; [exact Hreach|]. split; [reflexivity|]. split; [reflexivity|].
  assert (Hall : forall draws now fuel s',
            revealCell fuel draws now 2 2 smallCustom = Returned true s' ->
            mines (config s') = 20 /\ mineCount (board s') = 16%nat).
  { intros draws now fuel s' Hrun.
    destruct (first_reveal_mine_count smallCustom s' 2 2 draws now fuel Hreach
                eq_refl ltac:(change (0 <= 20); lia) Hrun) as (Hcfg & Hcount & _).
    rewrite Hcfg, Hcount. split; reflexivity. }
  split; [|exact Hall].
  destruct (revealCell 26 sampleDraws 0 2 2 smallCustom) as [b s'|s'|] eqn:Hrun.
  - destruct b.
    + exists s'. split; [reflexivity|]. now apply (Hall sampleDraws 0 26%nat).
    + exfalso. vm_compute in Hrun. discriminate Hrun.
  - exfalso. vm_compute in Hrun. discriminate Hrun.
  - exfalso. vm_compute in Hrun. discriminate Hrun.
Qed.

(** ** The states of a game in play *)

(** *** Room for the mines *)

Lemma zrange_length n : length (zrange 0 (n - 1)) = Z.to_nat n.
Proof. unfold zrange. rewrite length_map, length_seq. lia. Qed.

Lemma allCells_length cfg :
  length (allCells cfg) = (Z.to_nat (rows cfg) * Z.to_nat (cols cfg))%nat.
Proof.
  unfold allCells. rewrite (flat_map_constant_length (c := Z.to_nat (cols cfg))).
  - now rewrite zrange_length.
  - intros r _. now rewrite length_map, zrange_length.
Qed.

(** The 3 x 3 block around [(r, c)]. *)
Definition opening (r c : Z) : list Pos :=
  [ (r - 1, c - 1); (r - 1, c); (r - 1, c + 1);
    (r, c - 1); (r, c); (r, c + 1);
    (r + 1, c - 1); (r + 1, c); (r + 1, c + 1) ].

Lemma isExcluded_opening r c r' c' :
  isExcluded r c r' c' = true -> (r', c') ∈ opening r c.
Proof.
  unfold isExcluded. intros H. apply andb_true_iff in H as [Hr Hc]. zbool.
  assert (Er : r' = r - 1 \/ r' = r \/ r' = r + 1) by lia.
  assert (Ec : c' = c - 1 \/ c' = c \/ c' = c + 1) by lia.
  apply list_elem_of_In. unfold opening.
  destruct Er as [-> | [-> | ->]], Ec as [-> | [-> | ->]]; cbn; tauto.
Qed.

Lemma excluded_split r c (l : list Pos) :
  (length (filter (fun rc => isExcluded r c (fst rc) (snd rc) = false) l) +
   length (filter (fun rc => isExcluded r c (fst rc) (snd rc) = true) l))%nat = length l.
Proof.
  induction l as [|p l IH]; [reflexivity|].
  rewrite !filter_cons. destruct (isExcluded r c (fst p) (snd p));
    repeat case_decide; try congruence; cbn [length]; lia.
Qed.

(** All cells but nine at most are free for the mines. *)
Lemma availableCells_length cfg r c :
  (Z.to_nat (rows cfg) * Z.to_nat (cols cfg) <= length (availableCells cfg r c) + 9)%nat.
Proof.
  rewrite <- allCells_length. unfold availableCells.
  pose proof (excluded_split r c (allCells cfg)) as Hsplit.
  assert (Hnine : (length (filter (fun rc => isExcluded r c (fst rc) (snd rc) = true)
                             (allCells cfg)) <= 9)%nat); [|lia].
  change 9%nat with (length (opening r c)).
  apply submseteq_length, NoDup_submseteq.
  - apply list.NoDup_filter, allCells_NoDup.
  - intros [r' c'] Hin. apply list_elem_of_filter in Hin as [Hex _].
    now apply isExcluded_opening.
Qed.

(** The configuration leaves room for its mines outside the block of any
    first reveal. *)
Definition roomy (cfg : GameConfig) : Prop :=
  0 <= mines cfg <= rows cfg * cols cfg - 9.

Lemma roomy_mines cfg draws r c :
  0 <= rows cfg -> 0 <= cols cfg -> roomy cfg ->
  length (minePositions cfg draws r c) = Z.to_nat (mines cfg).
Proof.
  intros Hr Hc [H0 Hm].
  destruct (minePositions_spec cfg draws r c) as (_ & _ & Hlen).
  rewrite (Hlen H0). pose proof (availableCells_length cfg r c). nia.
Qed.

(** *** The neighbour counts *)

(** What [calculateNeighborMines] does to one cell. *)
Definition recount (n : Z) (cell : Cell) : Cell :=
  if isMine cell then cell else set_neighborMines n cell.

Lemma recount_twice n cell : recount n (recount n cell) = recount n cell.
Proof. unfold recount. now destruct (isMine cell) eqn:E; cbn; rewrite ?E. Qed.

Lemma recount_isMine n cell : isMine (recount n cell) = isMine cell.
Proof. unfold recount. now destruct (isMine cell) eqn:E. Qed.

Definition countStep (cfg : GameConfig) (b : Board) (rc : Pos) : Board :=
  if mineAt b rc then b
  else Grid.updateZ (set_neighborMines (countNeighborMines cfg b (fst rc) (snd rc)))
                    (fst rc) (snd rc) b.

Lemma countNeighborMines_ext cfg b b' r c :
  (forall q, mineAt b' q = mineAt b q) ->
  countNeighborMines cfg b' r c = countNeighborMines cfg b r c.
Proof.
  intros Hq. unfold countNeighborMines. do 2 f_equal.
  apply list_filter_iff. intros q. now rewrite Hq.
Qed.

Lemma countStep_cellAt cfg b rc r c :
  cellAt (countStep cfg b rc) r c =
  if decide (rc = (r, c))
  then recount (countNeighborMines cfg b r c) <$> cellAt b r c
  else cellAt b r c.
Proof.
  unfold countStep, mineAt.
  destruct (decide (rc = (r, c))) as [->|Hne]; cbn [fst snd].
  - destruct (cellAt b r c) as [cell|] eqn:Hcell.
    + destruct (isMine cell) eqn:Hm.
      * rewrite Hcell. cbn. unfold recount. now rewrite Hm.
      * unfold cellAt in *. rewrite GridFacts.getZ_updateZ, decide_True by reflexivity.
        rewrite Hcell. cbn. unfold recount. now rewrite Hm.
    + unfold cellAt in *. rewrite GridFacts.getZ_updateZ, decide_True by reflexivity.
      now rewrite Hcell.
  - destruct (match cellAt b (fst rc) (snd rc) with
              | Some cell => isMine cell | None => false end); [reflexivity|].
    unfold cellAt. rewrite GridFacts.getZ_updateZ, decide_False; [reflexivity|].
    intros E. apply Hne. destruct rc. exact E.
Qed.

Lemma countStep_mineAt cfg b rc q : mineAt (countStep cfg b rc) q = mineAt b q.
Proof.
  unfold countStep. destruct (mineAt b rc); [reflexivity|]. now apply updateZ_mineAt.
Qed.

Lemma countAll_cellAt cfg b0 l : forall b r c,
  (forall q, mineAt b q = mineAt b0 q) ->
  cellAt (fold_left (countStep cfg) l b) r c =
  if decide ((r, c) ∈ l)
  then recount (countNeighborMines cfg b0 r c) <$> cellAt b r c
  else cellAt b r c.
Proof.
  induction l as [|rc l IH]; intros b r c Hb.
  - cbn. destruct (decide _) as [H|]; [inversion H|reflexivity].
  - cbn [fold_left]. rewrite IH by (intros q; now rewrite countStep_mineAt).
    rewrite countStep_cellAt, (countNeighborMines_ext cfg b0 b r c Hb).
    destruct (decide ((r, c) ∈ l)) as [Hin|Hnin],
             (decide (rc = (r, c))) as [Heq|Hne],
             (decide ((r, c) ∈ rc :: l)) as [Hin'|Hnin'];
      try reflexivity.
    + destruct (cellAt b r c); [|reflexivity]. cbn. now rewrite recount_twice.
    + exfalso. apply Hnin'. now right.
    + exfalso. apply Hnin'. now right.
    + exfalso. apply Hnin'. rewrite Heq. now left.
    + exfalso. apply elem_of_cons in Hin' as [Heq|Hin']; [congruence|contradiction].
Qed.

(** After [calculateNeighborMines], the count of a cell that is no mine
    is the number of mines around it. *)
Lemma calculateNeighborMines_cell s r c cell :
  wfState s ->
  cellAt (board (calculateNeighborMines s)) r c = Some cell -> isMine cell = false ->
  neighborMines cell = countNeighborMines (config s) (board s) r c.
Proof.
  intros Hwf Hcell Hm. unfold calculateNeighborMines in Hcell. cbn [board set_board] in Hcell.
  change (fun b rc => if mineAt b rc then b else _) with (countStep (config s)) in Hcell.
  rewrite (countAll_cellAt (config s) (board s)) in Hcell by reflexivity.
  destruct (decide _) as [_|Hnin].
  - destruct (cellAt (board s) r c) as [cell0|]; [|discriminate].
    cbn in Hcell. injection Hcell as <-. rewrite recount_isMine in Hm.
    unfold recount. now rewrite Hm.
  - exfalso. apply Hnin, list_elem_of_In, allCells_In.
    apply (cellAt_inRange (config s) (board s) r c Hwf). now exists cell.
Qed.

Lemma calculateNeighborMines_zero s :
  wfState s -> zeroConsistent (config s) (board (calculateNeighborMines s)).
Proof.
  intros Hwf [r c] [r' c'] (cell & Hcell & Hm & Hn) Hq. cbn [fst snd] in *.
  rewrite (calculateNeighborMines_cell s r c cell Hwf Hcell Hm) in Hn.
  unfold neighbor in Hq. cbn [fst snd] in Hq.
  pose proof (calculateNeighborMines_wf s Hwf) as Hwf'.
  destruct (calculateNeighborMines_minesKept s) as [Hat _].
  pose proof (proj1 (neighborCoords_In _ _ _ _ _) Hq) as [Hin _].
  destruct (proj2 (cellAt_inRange (config s) _ r' c' Hwf') Hin) as [cell' Hcell'].
  exists cell'. split; [exact Hcell'|].
  destruct (isMine cell') eqn:Hm'; [exfalso|reflexivity].
  assert (Hmine : mineAt (board s) (r', c') = true).
  { rewrite <- Hat. unfold mineAt. cbn [fst snd]. now rewrite Hcell'. }
  unfold countNeighborMines in Hn.
  assert (Hmem : (r', c') ∈ filter (fun rc => mineAt (board s) rc = true)
                                   (neighborCoords (config s) r c)).
  { apply list_elem_of_filter. split; [exact Hmine|now apply list_elem_of_In]. }
  destruct (filter _ (neighborCoords (config s) r c)); [inversion Hmem|].
  cbn [length] in Hn. lia.
Qed.

(** *** Flags *)

(** [toggleFlag] leaves the board as it is or sets the state of one
    cell that is not revealed, and not to [revealed]. *)
Lemma toggleFlag_board r c s b s' :
  toggleFlag r c s = Returned b s' ->
  status s' = status s /\ config s' = config s /\
  revealedCells s' = revealedCells s /\
  (board s' = board s \/
   exists cell v, cellAt (board s) r c = Some cell /\ state cell <> revealed /\
                  v <> revealed /\
                  board s' = Grid.updateZ (set_cellState v) r c (board s)).
Proof.
  unfold toggleFlag. intros Hrun.
  destruct (_ || _); [injection Hrun as _ <-; repeat split; now left|].
  destruct (cellAt (board s) r c) as [cell|] eqn:Hcell; [|discriminate].
  destruct (state cell) eqn:Hs; injection Hrun as _ <-; repeat split;
    cbn [board]; try (now left).
  - right. exists cell, flagged. rewrite Hs. now repeat split.
  - right. exists cell, hidden. rewrite Hs. now repeat split.
Qed.

Lemma setState_static v r c b : sameStatic b (Grid.updateZ (set_cellState v) r c b).
Proof.
  intros r' c'. unfold cellAt. rewrite GridFacts.getZ_updateZ.
  destruct (decide _); [|reflexivity]. now destruct (Grid.getZ b r' c').
Qed.

Lemma setState_unrevealedSafe v r c b cell :
  cellAt b r c = Some cell -> state cell <> revealed -> v <> revealed ->
  unrevealedSafe (Grid.updateZ (set_cellState v) r c b) = unrevealedSafe b.
Proof.
  intros Hcell Hs Hv.
  pose proof (GridFacts.count_updateZ isUnrevealedSafe (set_cellState v) r c b cell Hcell)
    as H.
  assert (E : isUnrevealedSafe (set_cellState v cell) = isUnrevealedSafe cell).
  { unfold isUnrevealedSafe. cbn [isMine state set_cellState].
    now rewrite !bool_decide_eq_false_2. }
  rewrite E in H. unfold unrevealedSafe. lia.
Qed.

Lemma toggleFlag_consistent r c s b s' :
  toggleFlag r c s = Returned b s' -> consistent s -> consistent s'.
Proof.
  intros Hrun [Hwf Hz Hcnt Hplay].
  destruct (toggleFlag_board r c s b s' Hrun) as (Hst & Hcfg & Hrc & Hb).
  assert (Hu : unrevealedSafe (board s') = unrevealedSafe (board s)).
  { destruct Hb as [->|(cell & v & Hcell & Hs & Hv & ->)]; [reflexivity|].
    now apply (setState_unrevealedSafe v r c (board s) cell). }
  split.
  - apply (toggleFlag_wf r c s b s' Hwf Hrun).
  - rewrite Hcfg. destruct Hb as [->|(cell & v & _ & _ & _ & ->)]; [exact Hz|].
    apply (zeroConsistent_static _ (board s)); [apply setState_static|exact Hz].
  - unfold counted. now rewrite Hcfg, Hrc, Hu.
  - unfold inPlay. now rewrite Hst, Hu.
Qed.

(** *** The start of a game *)

(** No cell is revealed before the first reveal. *)
Lemma reachable_idle_unrevealed s :
  reachable s -> status s = idle ->
  forall r c cell, cellAt (board s) r c = Some cell -> state cell <> revealed.
Proof.
  induction 1 as [cfg|s cfg _ _|s d _ _|s nr nc nm _ _|s fuel draws now r c b s' _ IH Hrun
                 |s r c b s' _ IH Hrun]; intros Hidle r0 c0 cell0 Hcell0.
  1-4: destruct (createEmptyBoard_cell _ _ _ _ _ Hcell0) as (_ & -> & _); discriminate.
  - destruct (revealCell_minesKept draws now fuel r c s b s' Hrun)
      as [[_ ->]|(_ & Hni & _)]; [now apply (IH Hidle r0 c0)|contradiction].
  - destruct (toggleFlag_board r c s b s' Hrun) as (Hst & _ & _ & Hb).
    rewrite Hst in Hidle. specialize (IH Hidle).
    destruct Hb as [Hb|(cell & v & Hcell & Hs & Hv & Hb)]; rewrite Hb in Hcell0;
      [now apply (IH r0 c0)|].
    unfold cellAt in Hcell0. rewrite GridFacts.getZ_updateZ in Hcell0.
    destruct (decide _); [|now apply (IH r0 c0)].
    destruct (Grid.getZ (board s) r0 c0); [|discriminate].
    cbn in Hcell0. injection Hcell0 as <-. exact Hv.
Qed.

Lemma initializeGame_fields draws now r c s :
  status s = idle ->
  config (initializeGame draws now r c s) = config s /\
  revealedCells (initializeGame draws now r c s) = revealedCells s /\
  board (initializeGame draws now r c s) =
    board (calculateNeighborMines (placeMines draws r c s)).
Proof.
  intros Hidle. unfold initializeGame. rewrite (bool_decide_eq_true_2 _ Hidle).
  now repeat split.
Qed.

(** The cell of the first reveal is no mine. *)
Lemma initializeGame_safe draws now r c s :
  reachable s -> status s = idle -> hiddenAt (board s) (r, c) ->
  safeAt (board (initializeGame draws now r c s)) (r, c).
Proof.
  intros Hreach Hidle Hhid.
  destruct (reachable_idle_pristine s Hreach Hidle) as [Hp _].
  pose proof (reachable_wf s Hreach) as Hwf.
  destruct (initializeGame_mines draws now r c s Hidle Hwf Hp) as [_ Hin].
  cbv zeta in Hin.
  assert (Hh1 : hiddenAt (board (initializeGame draws now r c s)) (r, c))
    by (unfold hiddenAt; now rewrite initializeGame_vis).
  destruct (hiddenAt_cell _ _ Hh1) as (cell & Hcell & _). cbn [fst snd] in Hcell.
  exists cell. split; [exact Hcell|].
  destruct (isMine cell) eqn:Hm; [exfalso|reflexivity].
  assert (Hmine : mineAt (board (initializeGame draws now r c s)) (r, c) = true)
    by (unfold mineAt; cbn [fst snd]; now rewrite Hcell).
  destruct (minePositions_spec (config s) draws r c) as (_ & Hsub & _).
  apply Hin, Hsub, list_elem_of_filter in Hmine as [E _].
  cbn [fst snd] in E. unfold isExcluded in E.
  apply andb_false_iff in E as [E|E]; zbool; lia.
Qed.

(** A board with a cell has rows and columns. *)
Lemma hiddenAt_size s r c :
  wfState s -> hiddenAt (board s) (r, c) ->
  0 < rows (config s) /\ 0 < cols (config s).
Proof.
  intros Hwf Hhid. destruct (hiddenAt_cell _ _ Hhid) as (cell & Hcell & _).
  cbn [fst snd] in Hcell.
  assert (Hin : inRange (config s) r c)
    by (apply (cellAt_inRange (config s) (board s) r c Hwf); now exists cell).
  unfold inRange in Hin. lia.
Qed.

(** The first reveal of a game with room for its mines starts from a
    consistent state. *)
Lemma initializeGame_consistent draws now r c s :
  reachable s -> status s = idle -> roomy (config s) ->
  hiddenAt (board s) (r, c) ->
  consistent (initializeGame draws now r c s).
Proof.
  intros Hreach Hidle Hroom Hhid.
  destruct (reachable_idle_pristine s Hreach Hidle) as [Hp Hrc].
  pose proof (reachable_wf s Hreach) as Hwf.
  destruct (hiddenAt_size s r c Hwf Hhid) as [Hrows Hcols].
  destruct (initializeGame_fields draws now r c s Hidle) as (Hcfg & Hrev & Hb).
  pose proof (initializeGame_wf draws now r c s Hwf) as Hwf1.
  split.
  - exact Hwf1.
  - rewrite Hcfg, Hb.
    apply (calculateNeighborMines_zero (placeMines draws r c s)).
    now apply placeMines_wf.
  - unfold counted. rewrite Hcfg, Hrev, Hrc.
    destruct (initializeGame_mines draws now r c s Hidle Hwf Hp) as [Hn _].
    cbv zeta in Hn. rewrite (roomy_mines (config s) draws r c) in Hn by (lia || exact Hroom).
    assert (Hsplit : (unrevealedSafe (board (initializeGame draws now r c s)) +
                      mineCount (board (initializeGame draws now r c s)))%nat =
                     (Z.to_nat (rows (config s)) * Z.to_nat (cols (config s)))%nat).
    { apply GridFacts.count_splitZ.
      - unfold wfState, wfBoard in Hwf1. now rewrite Hcfg in Hwf1.
      - intros r0 c0 a Ha. unfold isUnrevealedSafe.
        rewrite bool_decide_eq_false_2; [now rewrite andb_true_r|].
        intros Hs.
        pose proof (initializeGame_vis draws now r c s (r0, c0)) as Hvis.
        rewrite (visAt_cell _ (r0, c0) a Ha) in Hvis. symmetry in Hvis.
        unfold visAt in Hvis. cbn [fst snd] in Hvis.
        destruct (cellAt (board s) r0 c0) as [cell0|] eqn:Hcell0; [|discriminate].
        cbn in Hvis. injection Hvis as Hvis.
        apply (reachable_idle_unrevealed s Hreach Hidle r0 c0 cell0 Hcell0). congruence. }
    destruct Hroom as [Hm0 _]. nia.
  - left. now apply initializeGame_status.
Qed.

(** *** Reveals in a game in play *)

Lemma revealNeighborsWith_mono (f g : Z -> Z -> MinesweeperState -> Outcome bool) :
  (forall r c s b s', f r c s = Returned b s' -> g r c s = Returned b s') ->
  forall cells s u s',
    revealNeighborsWith f cells s = Returned u s' ->
    revealNeighborsWith g cells s = Returned u s'.
Proof.
  intros Hfg. induction cells as [|[r c] cells IH]; intros s u s' Hrun; [exact Hrun|].
  cbn [revealNeighborsWith] in *.
  destruct (cellAt (board s) r c) as [nb|]; [|discriminate].
  destruct (bool_decide (state nb = hidden)); [|now apply IH].
  destruct (f r c s) as [b1 s1|s1|] eqn:Ef; try discriminate.
  rewrite (Hfg _ _ _ _ _ Ef). now apply IH.
Qed.

(** A reveal that returns with some fuel returns the same with more. *)
Lemma revealCell_fuel_mono draws now : forall fuel fuel' r c s b s',
  (fuel <= fuel')%nat ->
  revealCell fuel draws now r c s = Returned b s' ->
  revealCell fuel' draws now r c s = Returned b s'.
Proof.
  induction fuel as [|fuel IH]; intros fuel' r c s b s' Hle Hrun; [discriminate|].
  destruct fuel' as [|fuel']; [lia|].
  cbn [revealCell] in *.
  destruct (bool_decide (status s = won) || bool_decide (status s = lost));
    [exact Hrun|].
  destruct (cellAt (board s) r c) as [cell|]; [|exact Hrun].
  destruct (negb (bool_decide (state cell = hidden))); [exact Hrun|].
  destruct (cellAt (board (markRevealed r c _)) r c) as [cell'|]; [|exact Hrun].
  destruct (isMine cell'); [exact Hrun|].
  destruct (neighborMines cell' =? 0); [|exact Hrun].
  destruct (revealNeighborsWith (revealCell fuel draws now) _ _) as [u s3|s3|] eqn:E;
    try discriminate.
  rewrite (revealNeighborsWith_mono (revealCell fuel draws now)
             (revealCell fuel' draws now)
             (fun r c s b s' => IH fuel' r c s b s' ltac:(lia)) _ _ _ _ E).
  exact Hrun.
Qed.

Lemma revealAllMines_status s : status (revealAllMines s) = status s.
Proof. reflexivity. Qed.

(** A reveal in a consistent game in play leaves the game consistent,
    unless it loses the game. *)
Lemma revealCell_consistent fuel draws now r c s b s' :
  consistent s -> status s = playing ->
  revealCell fuel draws now r c s = Returned b s' ->
  consistent s' \/ status s' = lost.
Proof.
  intros Hcons Hst Hrun.
  destruct (cellAt (board s) r c) as [cell|] eqn:Hcell.
  - destruct (decide (state cell = hidden)) as [Hh|Hn].
    + destruct (isMine cell) eqn:Hm.
      * right. destruct fuel as [|fuel]; [discriminate|].
        cbn [revealCell] in Hrun. rewrite Hst in Hrun.
        rewrite (bool_decide_eq_false_2 (playing = won)) in Hrun by discriminate.
        rewrite (bool_decide_eq_false_2 (playing = lost)) in Hrun by discriminate.
        rewrite (bool_decide_eq_false_2 (playing = idle)) in Hrun by discriminate.
        cbn [orb] in Hrun. rewrite Hcell, (bool_decide_eq_true_2 _ Hh) in Hrun.
        cbn [negb] in Hrun. rewrite (markRevealed_cell r c s cell Hcell) in Hrun.
        cbn [isMine set_cellState] in Hrun. rewrite Hm in Hrun.
        injection Hrun as _ <-. reflexivity.
      * left.
        assert (Hhid : hiddenAt (board s) (r, c))
          by (unfold hiddenAt; rewrite (visAt_cell _ (r, c) cell Hcell); now rewrite Hh).
        assert (Hsafe : safeAt (board s) (r, c)) by (now exists cell).
        destruct (cell_spec draws now (Nat.max fuel (S (hiddenCount (board s))))
                    s r c Hcons Hst Hhid Hsafe ltac:(lia))
          as (s'' & Hrun' & Hcons' & _).
        rewrite (revealCell_fuel_mono draws now fuel
                   (Nat.max fuel (S (hiddenCount (board s)))) r c s b s'
                   ltac:(lia) Hrun) in Hrun'.
        injection Hrun' as _ <-. exact Hcons'.
    + left. destruct fuel as [|fuel]; [discriminate|].
      cbn [revealCell] in Hrun. rewrite Hst in Hrun.
      rewrite (bool_decide_eq_false_2 (playing = won)) in Hrun by discriminate.
      rewrite (bool_decide_eq_false_2 (playing = lost)) in Hrun by discriminate.
      cbn [orb] in Hrun. rewrite Hcell, (bool_decide_eq_false_2 _ Hn) in Hrun.
      cbn [negb] in Hrun. injection Hrun as _ <-. exact Hcons.
  - destruct fuel as [|fuel]; [discriminate|].
    cbn [revealCell] in Hrun. rewrite Hst in Hrun.
    rewrite (bool_decide_eq_false_2 (playing = won)) in Hrun by discriminate.
    rewrite (bool_decide_eq_false_2 (playing = lost)) in Hrun by discriminate.
    cbn [orb] in Hrun. rewrite Hcell in Hrun. discriminate.
Qed.

(** Every game in play that the engine reaches with a configuration
    that has room for its mines is consistent. *)
Lemma reachable_playing_consistent s :
  reachable s -> roomy (config s) -> status s = playing -> consistent s.
Proof.
  induction 1 as [cfg|s cfg _ _|s d _ _|s nr nc nm _ _|s fuel draws now r c b s' Hreach IH Hrun
                 |s r c b s' _ IH Hrun]; intros Hroom Hplay; try discriminate.
  - destruct (revealCell_minesKept draws now fuel r c s b s' Hrun)
      as [[_ ->]|(_ & _ & Hcfg & Hhid & Hst & _)]; [now apply IH|].
    rewrite Hcfg in Hroom.
    rewrite (revealCell_startState fuel draws now r c s Hst Hhid) in Hrun.
    assert (Hstart : consistent (startState draws now r c s) /\
                     status (startState draws now r c s) = playing).
    { unfold startState. destruct Hst as [Hidle|Hp].
      - rewrite (bool_decide_eq_true_2 _ Hidle). split.
        + now apply initializeGame_consistent.
        + now apply initializeGame_status.
      - rewrite bool_decide_eq_false_2 by (rewrite Hp; discriminate).
        split; [now apply IH|exact Hp]. }
    destruct Hstart as [Hcons Hst1].
    destruct (revealCell_consistent fuel draws now r c _ b s' Hcons Hst1 Hrun)
      as [H|H]; [exact H|congruence].
  - destruct (toggleFlag_board r c s b s' Hrun) as (Hst & Hcfg & _).
    apply (toggleFlag_consistent r c s b s' Hrun). apply IH; congruence.
Qed.

(** C7, as the code has it. Take a state of the engine whose
    configuration has room for its mines outside the block of any first
    reveal, idle or in play, and a hidden cell [(r, c)] whose count is 0
    once the mines are placed ([s1] is the state in which the reveal
    starts: the first reveal of a game places the mines). The reveal
    returns as soon as the fuel exceeds the number of hidden cells, and
    it reveals exactly the cells that the fill reaches: [(r, c)] and the
    hidden neighbours of reached cells with count 0. Flagged cells and
    cells revealed before are neither revealed nor passed through. No
    other visibility and no mine or count changes, and the counter of
    revealed cells grows by the number of cells that were revealed, each
    counted once. The reached cells lie in the region of cells with count
    0 around [(r, c)] and its border, and are all of them when every
    cell of the region and its border is hidden. *)
Theorem flood_fill_reveals_reached_cells (s : MinesweeperState) (r c : Z)
        (draws : nat -> Random.Sample) (now : Z) (fuel : nat) :
  let s1 := startState draws now r c s in
  reachable s -> roomy (config s) ->
  status s = idle \/ status s = playing ->
  hiddenAt (board s) (r, c) ->
  zeroAt (board s1) (r, c) ->
  (hiddenCount (board s1) < fuel)%nat ->
  exists s',
    revealCell fuel draws now r c s = Returned true s' /\
    (forall p, fills (config s1) (board s1) (r, c) p ->
       visAt (board s1) p = Some hidden /\ visAt (board s') p = Some revealed) /\
    (forall p, ~ fills (config s1) (board s1) (r, c) p ->
       visAt (board s') p = visAt (board s1) p) /\
    sameStatic (board s1) (board s') /\
    revealedCells s' - revealedCells s1 =
      Z.of_nat (hiddenCount (board s1)) - Z.of_nat (hiddenCount (board s')) /\
    (forall p, fills (config s1) (board s1) (r, c) p ->
       regionWithBorder (config s1) (board s1) (r, c) p) /\
    ((forall p, regionWithBorder (config s1) (board s1) (r, c) p ->
        hiddenAt (board s1) p) ->
     forall p, regionWithBorder (config s1) (board s1) (r, c) p ->
       fills (config s1) (board s1) (r, c) p).
Proof.
  intros s1 Hreach Hroom Hst Hhid Hzero Hfuel.
  apply (fill_from_consistent s r c draws now fuel Hst); try assumption.
  subst s1. unfold startState. destruct Hst as [Hidle|Hp].
  - rewrite (bool_decide_eq_true_2 _ Hidle). now apply initializeGame_consistent.
  - rewrite bool_decide_eq_false_2 by (rewrite Hp; discriminate).
    now apply reachable_playing_consistent.
Qed.

(** A new beginner game in which the cell [(3, 3)] has been flagged. *)
Definition flaggedStart : MinesweeperState :=
  match toggleFlag 3 3 (createInitialState beginnerConfig) with
  | Returned _ s => s
  | _ => createInitialState beginnerConfig
  end.

Lemma flaggedStart_reachable : reachable flaggedStart.
Proof.
  apply (reach_flag (createInitialState beginnerConfig) 3 3 true flaggedStart).
  - apply reach_new.
  - reflexivity.
Qed.

(** C7 fails on a board with a flag. In the beginner game with the flag
    on [(3, 3)], the first reveal, at [(4, 4)], finds a count of 0 there
    and at [(3, 3)], which is next to it: [(3, 3)] is a cell of the
    region of [(4, 4)]. The fill returns and leaves [(3, 3)] flagged. *)
Lemma fill_leaves_flagged_cell :
  reachable flaggedStart /\
  status flaggedStart = idle /\
  zeroAt (board (startState sampleDraws 5 4 4 flaggedStart)) (4, 4) /\
  zeroRegion (config flaggedStart) (board (startState sampleDraws 5 4 4 flaggedStart))
             (4, 4) (3, 3) /\
  exists s', revealCell 82 sampleDraws 5 4 4 flaggedStart = Returned true s' /\
             visAt (board s') (3, 3) = Some flagged.
Proof.
  assert (Hzero : forall p, p = (4, 4) \/ p = (3, 3) ->
            zeroAt (board (startState sampleDraws 5 4 4 flaggedStart)) p).
  { intros p [-> | ->]; (eexists; split; [vm_compute; reflexivity|split; reflexivity]). }
  split; [apply flaggedStart_reachable|]. split; [reflexivity|].
  split; [apply Hzero; now left|]. split.
  - apply (zeroRegion_step _ _ _ (4, 4) (3, 3)).
    + apply zeroRegion_start.
    + apply neighborCoords_In. unfold inRange. cbn. repeat split; try lia.
      intros E. discriminate E.
    + apply Hzero. now right.
  - eexists. split; [vm_compute; reflexivity|]. vm_compute. reflexivity.
Qed.

Lemma flood_fill_reveals_reached_cells_witness :
  roomy (config (createInitialState beginnerConfig)) /\
  zeroAt (board (startState sampleDraws 5 4 4 (createInitialState beginnerConfig))) (4, 4) /\
  exists s',
    revealCell 82 sampleDraws 5 4 4 (createInitialState beginnerConfig) =
      Returned true s' /\
    sameStatic (board (startState sampleDraws 5 4 4 (createInitialState beginnerConfig)))
               (board s').
Proof.
  assert (Hroom : roomy (config (createInitialState beginnerConfig))).
  { unfold roomy. cbn. lia. }
  assert (Hzero : zeroAt (board (startState sampleDraws 5 4 4
                                   (createInitialState beginnerConfig))) (4, 4)).
  { eexists. split; [vm_compute; reflexivity|]. split; reflexivity. }
  assert (Hhid : hiddenAt (board (createInitialState beginnerConfig)) (4, 4))
    by reflexivity.
  assert (Hfuel : (hiddenCount (board (startState sampleDraws 5 4 4
                                         (createInitialState beginnerConfig))) < 82)%nat).
  { vm_compute. lia. }
  split; [exact Hroom|]. split; [exact Hzero|].
  destruct (flood_fill_reveals_reached_cells (createInitialState beginnerConfig) 4 4
              sampleDraws 5 82 (reach_new beginnerConfig) Hroom (or_introl eq_refl) Hhid Hzero Hfuel)
    as (s' & Hrun & _ & _ & Hs & _).
  exists s'. split; [exact Hrun|exact Hs].
Defined.

(** ** What a reveal keeps *)

Definition isFlagged (cell : Cell) : bool := bool_decide (state cell = flagged).

(** The number of flagged cells of the board. *)
Definition flagCount (b : Board) : nat := Grid.count isFlagged b.

(** From [b] to [b'] only the states of cells have changed, and only
    from a state other than [flagged] to [revealed]. *)
Record keepsBoard (b b' : Board) : Prop := {
  kb_static : sameStatic b b';
  kb_flags : flagCount b' = flagCount b;
  kb_vis : forall p, visAt b' p = visAt b p \/
                     (visAt b p <> Some flagged /\ visAt b' p = Some revealed)
}.

Lemma keepsBoard_refl b : keepsBoard b b.
Proof. split; [apply sameStatic_refl|reflexivity|now left]. Qed.

Lemma keepsBoard_trans b1 b2 b3 :
  keepsBoard b1 b2 -> keepsBoard b2 b3 -> keepsBoard b1 b3.
Proof.
  intros [S1 F1 V1] [S2 F2 V2]. split.
  - now apply (sameStatic_trans b1 b2 b3).
  - congruence.
  - intros p. destruct (V1 p) as [E|[N R]], (V2 p) as [E'|[N' R']].
    + left. congruence.
    + right. split; [now rewrite <- E|exact R'].
    + right. split; [exact N|congruence].
    + right. split; [exact N|exact R'].
Qed.

Lemma reveal_keepsBoard r c b cell :
  cellAt b r c = Some cell -> state cell <> flagged ->
  keepsBoard b (Grid.updateZ (set_cellState revealed) r c b).
Proof.
  intros Hcell Hnf. split.
  - apply setState_static.
  - pose proof (GridFacts.count_updateZ isFlagged (set_cellState revealed) r c b cell
                  Hcell) as H.
    assert (E1 : isFlagged cell = false)
      by (unfold isFlagged; now rewrite bool_decide_eq_false_2).
    assert (E2 : isFlagged (set_cellState revealed cell) = false) by reflexivity.
    rewrite E1, E2 in H. unfold flagCount. lia.
  - intros p. unfold visAt, cellAt in *. rewrite GridFacts.getZ_updateZ.
    destruct (decide ((r, c) = (fst p, snd p))) as [Heq|Hne]; [|now left].
    right. inversion Heq; subst. rewrite Hcell. cbn. split; [congruence|reflexivity].
Qed.

Lemma fold_updates_keepsBoard {X} (step : Board -> X -> Board) (l : list X) b :
  (forall b x, keepsBoard b (step b x)) -> keepsBoard b (fold_left step l b).
Proof.
  intros Hstep. revert b. induction l as [|x l IH]; intros b; [apply keepsBoard_refl|].
  cbn [fold_left]. apply (keepsBoard_trans _ (step b x)); [apply Hstep|apply IH].
Qed.

Lemma revealAllMines_keepsBoard s : keepsBoard (board s) (board (revealAllMines s)).
Proof.
  unfold revealAllMines. cbn [board set_board].
  apply fold_updates_keepsBoard. intros b [r c]. cbn [fst snd].
  destruct (cellAt b r c) as [cell|] eqn:Hcell; [|apply keepsBoard_refl].
  destruct (isMine cell && negb (bool_decide (state cell = flagged))) eqn:E;
    [|apply keepsBoard_refl].
  apply andb_true_iff in E as [_ E]. apply negb_true_iff in E.
  apply bool_decide_eq_false_1 in E. now apply (reveal_keepsBoard r c b cell).
Qed.

(** From [s] to [s'] the configuration and the two counters of the
    flags are as they were, and the board has changed by reveals
    only. *)
Record keeps (s s' : MinesweeperState) : Prop := {
  keeps_config : config s' = config s;
  keeps_remaining : remainingMines s' = remainingMines s;
  keeps_flagged : flaggedMines s' = flaggedMines s;
  keeps_board : keepsBoard (board s) (board s')
}.

Lemma keeps_refl s : keeps s s.
Proof. split; try reflexivity. apply keepsBoard_refl. Qed.

Lemma keeps_trans s1 s2 s3 : keeps s1 s2 -> keeps s2 s3 -> keeps s1 s3.
Proof.
  intros [C1 R1 F1 B1] [C2 R2 F2 B2]. split; try congruence.
  now apply (keepsBoard_trans _ (board s2)).
Qed.

Lemma markRevealed_keeps r c s cell :
  cellAt (board s) r c = Some cell -> state cell = hidden ->
  keeps s (markRevealed r c s).
Proof.
  intros Hcell Hh. split; try reflexivity. cbn [board markRevealed].
  apply (reveal_keepsBoard r c (board s) cell Hcell). rewrite Hh. discriminate.
Qed.

Lemma checkWinCondition_keeps now s : keeps s (checkWinCondition now s).
Proof.
  destruct (checkWinCondition_fields now s) as (Hb & Hc & _ & Hm & Hf & _).
  split; try assumption. rewrite Hb. apply keepsBoard_refl.
Qed.

Lemma lose_keeps now s : keeps s (revealAllMines (loseGame now s)).
Proof.
  split; try reflexivity.
  apply (revealAllMines_keepsBoard (loseGame now s)).
Qed.

Lemma startState_started draws now r c s :
  status s = idle \/ status s = playing ->
  status (startState draws now r c s) = playing /\
  config (startState draws now r c s) = config s.
Proof.
  intros Hst. unfold startState. destruct Hst as [Hi|Hp].
  - rewrite (bool_decide_eq_true_2 _ Hi). split; [now apply initializeGame_status|].
    unfold initializeGame. now rewrite (bool_decide_eq_true_2 _ Hi).
  - rewrite bool_decide_eq_false_2 by (rewrite Hp; discriminate). now split.
Qed.

(** A reveal that returns either refuses and changes nothing, or leaves
    the started game changed by reveals only. *)
Lemma revealCell_keeps draws now : forall fuel r c s b s',
  revealCell fuel draws now r c s = Returned b s' ->
  (b = false /\ s' = s) \/
  (b = true /\ keeps (startState draws now r c s) s').
Proof.
  induction fuel as [|fuel IH]; intros r c s b s' Hrun; [discriminate|].
  cbn [revealCell] in Hrun.
  destruct (bool_decide (status s = won) || bool_decide (status s = lost)) eqn:Hterm;
    [injection Hrun as <- <-; now left|].
  destruct (cellAt (board s) r c) as [cell|] eqn:Hcell; [|discriminate].
  destruct (bool_decide (state cell = hidden)) eqn:Hhid; cbn [negb] in Hrun;
    [|injection Hrun as <- <-; now left].
  apply bool_decide_eq_true_1 in Hhid.
  apply orb_false_iff in Hterm as [Hw Hl].
  apply bool_decide_eq_false_1 in Hw, Hl.
  assert (Hst : status s = idle \/ status s = playing).
  { destruct (status s); [now left|now right|contradiction|contradiction]. }
  fold (startState draws now r c s) in Hrun.
  destruct (startState_started draws now r c s Hst) as [Hst1 Hcfg1].
  set (s1 := startState draws now r c s) in *.
  assert (Hcell1 : exists cell1, cellAt (board s1) r c = Some cell1 /\
                                 state cell1 = hidden).
  { assert (Hh : hiddenAt (board s1) (r, c)).
    { subst s1. unfold startState, hiddenAt.
      destruct (bool_decide _); [rewrite initializeGame_vis|];
        rewrite (visAt_cell _ (r, c) cell Hcell); now rewrite Hhid. }
    exact (hiddenAt_cell _ _ Hh). }
  destruct Hcell1 as (cell1 & Hcell1 & Hhid1).
  pose proof (markRevealed_keeps r c s1 cell1 Hcell1 Hhid1) as Hs2.
  destruct (cellAt (board (markRevealed r c s1)) r c) as [cell'|]; [|discriminate].
  destruct (isMine cell').
  { injection Hrun as <- <-. right. split; [reflexivity|].
    apply (keeps_trans _ _ _ Hs2), lose_keeps. }
  assert (Hloop : forall cells s0 s3,
    status s0 <> idle ->
    revealNeighborsWith (revealCell fuel draws now) cells s0 = Returned tt s3 ->
    status s3 <> idle /\ keeps s0 s3).
  { induction cells as [|[r' c'] cells IHc]; intros s0 s3 Hni Hgo; cbn in Hgo.
    - injection Hgo as <-. split; [exact Hni|apply keeps_refl].
    - destruct (cellAt (board s0) r' c') as [nb|]; [|discriminate].
      destruct (bool_decide (state nb = hidden)); [|now apply (IHc s0)].
      destruct (revealCell fuel draws now r' c' s0) as [b0 s0'| |] eqn:E;
        try discriminate.
      destruct (IH r' c' s0 b0 s0' E) as [[_ ->]|[_ Hk]]; [now apply (IHc s0)|].
      destruct (revealCell_minesKept draws now fuel r' c' s0 b0 s0' E)
        as [[_ ->]|(_ & Hni' & _)]; [now apply (IHc s0)|].
      destruct (IHc s0' s3 Hni' Hgo) as (H1 & H2).
      split; [exact H1|].
      apply (keeps_trans _ s0'); [|exact H2].
      unfold startState in Hk. now rewrite bool_decide_eq_false_2 in Hk. }
  assert (Hni2 : status (markRevealed r c s1) <> idle).
  { cbn [status markRevealed]. rewrite Hst1. discriminate. }
  destruct (neighborMines cell' =? 0).
  - destruct (revealNeighborsWith _ _ _) as [[] s3| |] eqn:E; try discriminate.
    injection Hrun as <- <-.
    destruct (Hloop _ _ _ Hni2 E) as (_ & Hk3).
    right. split; [reflexivity|].
    apply (keeps_trans _ _ _ Hs2), (keeps_trans _ _ _ Hk3), checkWinCondition_keeps.
  - injection Hrun as <- <-. right. split; [reflexivity|].
    apply (keeps_trans _ _ _ Hs2), checkWinCondition_keeps.
Qed.

(** *** The counters of the flags *)

Lemma fold_updates_flagCount {X} (step : Board -> X -> Board) (l : list X) b :
  (forall b x, flagCount (step b x) = flagCount b) ->
  flagCount (fold_left step l b) = flagCount b.
Proof. apply fold_updates_count. Qed.

Lemma initializeGame_flags draws now r c s :
  flagCount (board (initializeGame draws now r c s)) = flagCount (board s) /\
  remainingMines (initializeGame draws now r c s) = remainingMines s /\
  flaggedMines (initializeGame draws now r c s) = flaggedMines s /\
  config (initializeGame draws now r c s) = config s.
Proof.
  unfold initializeGame. destruct (bool_decide _); [|now repeat split].
  cbn [board remainingMines flaggedMines config calculateNeighborMines placeMines
       set_board].
  split; [|now repeat split].
  rewrite fold_updates_flagCount.
  - apply fold_updates_flagCount. intros b x.
    now apply GridFacts.count_updateZ_same.
  - intros b x. destruct (mineAt b x); [reflexivity|].
    now apply GridFacts.count_updateZ_same.
Qed.

Lemma createEmptyBoard_flags nrows ncols : flagCount (createEmptyBoard nrows ncols) = 0%nat.
Proof.
  apply GridFacts.count_zeroZ. intros r c cell Hcell.
  destruct (createEmptyBoard_cell nrows ncols r c cell Hcell) as (_ & Hs & _).
  unfold isFlagged. rewrite Hs. reflexivity.
Qed.

Definition flagsCounted (s : MinesweeperState) : Prop :=
  flaggedMines s = Z.of_nat (flagCount (board s)) /\
  remainingMines s = mines (config s) - flaggedMines s.

Lemma createInitialState_flagsCounted cfg : flagsCounted (createInitialState cfg).
Proof.
  split; cbn [createInitialState flaggedMines remainingMines board config].
  - now rewrite createEmptyBoard_flags.
  - lia.
Qed.

Lemma toggleFlag_flagsCounted r c s b s' :
  toggleFlag r c s = Returned b s' -> flagsCounted s -> flagsCounted s'.
Proof.
  unfold toggleFlag. intros Hrun [Hf Hr].
  destruct (_ || _); [injection Hrun as _ <-; now split|].
  destruct (cellAt (board s) r c) as [cell|] eqn:Hcell; [|discriminate].
  destruct (state cell) eqn:Hs; injection Hrun as _ <-; try (now split).
  - pose proof (GridFacts.count_updateZ isFlagged (set_cellState flagged) r c (board s)
                  cell Hcell) as H.
    assert (E1 : isFlagged cell = false) by (unfold isFlagged; now rewrite Hs).
    assert (E2 : isFlagged (set_cellState flagged cell) = true) by reflexivity.
    rewrite E1, E2 in H. cbn [Nat.b2n] in H.
    split; cbn [flaggedMines remainingMines board config]; unfold flagCount in *; lia.
  - pose proof (GridFacts.count_updateZ isFlagged (set_cellState hidden) r c (board s)
                  cell Hcell) as H.
    assert (E1 : isFlagged cell = true) by (unfold isFlagged; now rewrite Hs).
    assert (E2 : isFlagged (set_cellState hidden cell) = false) by reflexivity.
    rewrite E1, E2 in H. cbn [Nat.b2n] in H.
    split; cbn [flaggedMines remainingMines board config]; unfold flagCount in *; lia.
Qed.

(** X16. In every state that the engine reaches, [flaggedMines] is the
    number of flagged cells of the board, and [remainingMines] is the
    number of mines of the configuration less the number of flags, which
    is negative when there are more flags than mines. *)
Theorem flag_counters_in_step (s : MinesweeperState) :
  reachable s ->
  flaggedMines s = Z.of_nat (flagCount (board s)) /\
  remainingMines s = mines (config s) - Z.of_nat (flagCount (board s)).
Proof.
  intros Hreach.
  assert (H : flagsCounted s).
  { induction Hreach as [cfg|s cfg _ _|s d _ _|s nr nc nm _ _
                        |s fuel draws now r c b s' _ IH Hrun|s r c b s' _ IH Hrun].
    1-4: apply createInitialState_flagsCounted.
    - destruct (revealCell_keeps draws now fuel r c s b s' Hrun)
        as [[_ ->]|[_ [Hc Hr Hf [_ Hn _]]]]; [exact IH|].
      destruct IH as [IH1 IH2]. unfold flagsCounted.
      rewrite Hc, Hr, Hf, Hn. unfold startState.
      destruct (bool_decide (status s = idle)); [|now split].
      destruct (initializeGame_flags draws now r c s) as (-> & -> & -> & ->).
      now split.
    - now apply (toggleFlag_flagsCounted r c s b s'). }
  destruct H as [H1 H2]. split; [exact H1|]. now rewrite <- H1.
Qed.

(** *** The numbers of the cells *)

(** Every cell without a mine carries the number of the mines around
    it. *)
Definition numbered (cfg : GameConfig) (b : Board) : Prop :=
  forall r c cell, cellAt b r c = Some cell -> isMine cell = false ->
    neighborMines cell = countNeighborMines cfg b r c.

Lemma sameStatic_mineAt b b' q : sameStatic b b' -> mineAt b' q = mineAt b q.
Proof.
  intros Hs. unfold mineAt. specialize (Hs (fst q) (snd q)).
  destruct (cellAt b' (fst q) (snd q)) as [c'|], (cellAt b (fst q) (snd q)) as [c0|];
    cbn in Hs; try discriminate; [|reflexivity].
  now injection Hs.
Qed.

Lemma numbered_static cfg b b' : sameStatic b b' -> numbered cfg b -> numbered cfg b'.
Proof.
  intros Hs Hn r c cell' Hcell' Hm.
  destruct (sameStatic_cell b' b r c cell' (sameStatic_sym _ _ Hs) Hcell')
    as (cell & Hcell & Hmine & Hnum).
  rewrite <- Hnum, (Hn r c cell Hcell) by congruence.
  symmetry. apply countNeighborMines_ext. intros q. now apply sameStatic_mineAt.
Qed.

Lemma initializeGame_numbered draws now r c s :
  wfState s -> status s = idle ->
  numbered (config s) (board (initializeGame draws now r c s)).
Proof.
  intros Hwf Hidle r0 c0 cell Hcell Hm.
  destruct (initializeGame_fields draws now r c s Hidle) as (_ & _ & Hb).
  rewrite Hb in Hcell |- *.
  pose proof (placeMines_wf draws r c s Hwf) as Hwf1.
  rewrite (calculateNeighborMines_cell (placeMines draws r c s) r0 c0 cell Hwf1 Hcell Hm).
  symmetry. apply countNeighborMines_ext.
  apply (calculateNeighborMines_minesKept (placeMines draws r c s)).
Qed.

Lemma reachable_numbered s :
  reachable s -> status s <> idle -> numbered (config s) (board s).
Proof.
  induction 1 as [cfg|s cfg _ _|s d _ _|s nr nc nm _ _
                 |s fuel draws now r c b s' Hreach IH Hrun
                 |s r c b s' Hreach IH Hrun]; intros Hni.
  1-4: now contradiction Hni.
  - destruct (revealCell_keeps draws now fuel r c s b s' Hrun)
      as [[_ ->]|[_ [Hc _ _ [Hs _ _]]]]; [now apply IH|].
    destruct (revealCell_minesKept draws now fuel r c s b s' Hrun)
      as [[_ ->]|(_ & _ & Hcfg & _ & Hst & _)]; [now apply IH|].
    rewrite Hcfg. apply (numbered_static _ _ _ Hs).
    unfold startState. destruct (decide (status s = idle)) as [Hi|Hn].
    + rewrite (bool_decide_eq_true_2 _ Hi).
      apply initializeGame_numbered; [now apply reachable_wf|exact Hi].
    + rewrite (bool_decide_eq_false_2 _ Hn). now apply IH.
  - destruct (toggleFlag_board r c s b s' Hrun) as (Hst & Hcfg & _ & Hb).
    rewrite Hcfg. rewrite Hst in Hni. specialize (IH Hni).
    destruct Hb as [->|(cell & v & _ & _ & _ & ->)]; [exact IH|].
    apply (numbered_static _ (board s)); [apply setState_static|exact IH].
Qed.

(** X17. Once a game is started, in every state that the engine reaches
    each cell without a mine carries in [neighborMines] the number of
    the mines among its neighbours on the board, as
    [countNeighborMines] counts them. *)
Theorem neighbor_counts_are_right (s : MinesweeperState) :
  reachable s -> status s <> idle ->
  forall r c cell,
    cellAt (board s) r c = Some cell -> isMine cell = false ->
    neighborMines cell = countNeighborMines (config s) (board s) r c /\
    neighborMines cell =
      Z.of_nat (length (filter (fun q => mineAt (board s) q = true)
                               (neighborCoords (config s) r c))).
Proof.
  intros Hreach Hni r c cell Hcell Hm.
  pose proof (reachable_numbered s Hreach Hni r c cell Hcell Hm) as H.
  split; [exact H|]. rewrite H. reflexivity.
Qed.

(** ** Flags *)

Lemma update_fixed {A} (f : A -> A) r c (g : list (list A)) a :
  Grid.get g r c = Some a -> f a = a -> Grid.update f r c g = g.
Proof.
  unfold Grid.get, Grid.update. intros Hget Hf.
  destruct (g !! r) as [line|] eqn:Hline; [|discriminate].
  rewrite (list_alter_ext (alter f c) (fun l => l) g g r); [now apply list_alter_id| |reflexivity].
  intros line' Hline'. rewrite Hline in Hline'. injection Hline' as <-.
  rewrite (list_alter_ext f (fun x => x) line line c); [now apply list_alter_id| |reflexivity].
  intros x Hx. congruence.
Qed.

Lemma update_update {A} (f h : A -> A) r c (g : list (list A)) :
  Grid.update f r c (Grid.update h r c g) = Grid.update (f ∘ h) r c g.
Proof.
  unfold Grid.update. rewrite list_alter_alter_eq.
  apply list_alter_ext; [|reflexivity]. intros line _. cbn.
  apply list_alter_alter_eq.
Qed.

Lemma updateZ_fixed {A} (f : A -> A) r c (g : list (list A)) a :
  Grid.getZ g r c = Some a -> f a = a -> Grid.updateZ f r c g = g.
Proof.
  unfold Grid.getZ, Grid.updateZ. destruct (_ || _); [reflexivity|]. apply update_fixed.
Qed.

Lemma updateZ_updateZ {A} (f h : A -> A) r c (g : list (list A)) :
  Grid.updateZ f r c (Grid.updateZ h r c g) = Grid.updateZ (f ∘ h) r c g.
Proof.
  unfold Grid.updateZ. destruct (_ || _); [reflexivity|]. apply update_update.
Qed.

Lemma set_cellState_back v cell :
  set_cellState (state cell) (set_cellState v cell) = cell.
Proof. now destruct cell. Qed.

Lemma toggle_back v r c b cell :
  cellAt b r c = Some cell ->
  Grid.updateZ (set_cellState (state cell)) r c (Grid.updateZ (set_cellState v) r c b) = b.
Proof.
  intros Hcell. rewrite updateZ_updateZ.
  apply (updateZ_fixed _ r c b cell Hcell). apply set_cellState_back.
Qed.

Lemma not_terminal s :
  status s <> won -> status s <> lost ->
  bool_decide (status s = won) || bool_decide (status s = lost) = false.
Proof.
  intros Hw Hl. now rewrite !bool_decide_eq_false_2.
Qed.

(** X18. In a game that is not over, [toggleFlag] on a hidden cell flags
    it and takes one from [remainingMines], and a second [toggleFlag]
    on the cell gives back the state as it was; the same holds from a
    flagged cell. On a revealed cell [toggleFlag] returns [false] and
    changes nothing, and [revealCell] on a flagged cell returns [false]
    and changes nothing. *)
Theorem toggleFlag_twice_restores (s : MinesweeperState) (r c : Z) (cell : Cell) :
  status s <> won -> status s <> lost ->
  cellAt (board s) r c = Some cell ->
  (state cell = revealed -> toggleFlag r c s = Returned false s) /\
  (state cell = hidden ->
   exists s1,
     toggleFlag r c s = Returned true s1 /\
     visAt (board s1) (r, c) = Some flagged /\
     remainingMines s1 = remainingMines s - 1 /\
     flaggedMines s1 = flaggedMines s + 1 /\
     toggleFlag r c s1 = Returned true s) /\
  (state cell = flagged ->
   (exists s1,
      toggleFlag r c s = Returned true s1 /\
      visAt (board s1) (r, c) = Some hidden /\
      remainingMines s1 = remainingMines s + 1 /\
      flaggedMines s1 = flaggedMines s - 1 /\
      toggleFlag r c s1 = Returned true s) /\
   forall fuel draws now, revealCell (S fuel) draws now r c s = Returned false s).
Proof.
  intros Hw Hl Hcell. pose proof (not_terminal s Hw Hl) as Hterm.
  split; [|split].
  - intros Hs. unfold toggleFlag. now rewrite Hterm, Hcell, Hs.
  - intros Hs. eexists. split; [unfold toggleFlag; rewrite Hterm, Hcell, Hs; reflexivity|].
    split; [|split; [reflexivity|split; [reflexivity|]]].
    + unfold visAt, cellAt in *. cbn [board fst snd].
      rewrite GridFacts.getZ_updateZ, decide_True by reflexivity. now rewrite Hcell.
    + unfold toggleFlag. cbn [status board]. rewrite Hterm.
      unfold cellAt in *. rewrite GridFacts.getZ_updateZ, decide_True by reflexivity.
      rewrite Hcell. cbn [fmap option_fmap option_map state set_cellState].
      f_equal. rewrite <- Hs at 1. fold (cellAt (board s) r c) in Hcell.
      rewrite (toggle_back flagged r c (board s) cell Hcell).
      destruct s. cbn. f_equal; lia.
  - intros Hs. split.
    + eexists. split; [unfold toggleFlag; rewrite Hterm, Hcell, Hs; reflexivity|].
      split; [|split; [reflexivity|split; [reflexivity|]]].
      * unfold visAt, cellAt in *. cbn [board fst snd].
        rewrite GridFacts.getZ_updateZ, decide_True by reflexivity. now rewrite Hcell.
      * unfold toggleFlag. cbn [status board]. rewrite Hterm.
        unfold cellAt in *. rewrite GridFacts.getZ_updateZ, decide_True by reflexivity.
        rewrite Hcell. cbn [fmap option_fmap option_map state set_cellState].
        f_equal. rewrite <- Hs at 1. fold (cellAt (board s) r c) in Hcell.
        rewrite (toggle_back hidden r c (board s) cell Hcell).
        destruct s. cbn. f_equal; lia.
    + intros fuel draws now. cbn [revealCell]. rewrite Hterm, Hcell.
      rewrite bool_decide_eq_false_2 by (rewrite Hs; discriminate). reflexivity.
Qed.

(** X19. [toggleFlag] does not test its coordinates. For coordinates
    that are not those of a cell it returns [false] when the game is
    won or lost, and raises a [TypeError], with the state as it was,
    when the game is idle or in play. *)
Theorem toggleFlag_out_of_range (s : MinesweeperState) (r c : Z) :
  reachable s ->
  ~ inRange (config s) r c ->
  (status s = won \/ status s = lost -> toggleFlag r c s = Returned false s) /\
  (status s = idle \/ status s = playing -> toggleFlag r c s = Raised s).
Proof.
  intros Hreach Hout.
  pose proof (cellAt_None (config s) (board s) r c (reachable_wf s Hreach) Hout) as Hnone.
  unfold toggleFlag. split.
  - intros [H|H]; rewrite H; reflexivity.
  - intros [H|H]; rewrite H; cbn; now rewrite Hnone.
Qed.

(** ** The end of a game *)

(** What [revealAllMines] does to one cell. *)
Definition showMine (cell : Cell) : Cell :=
  if isMine cell && negb (bool_decide (state cell = flagged))
  then set_cellState revealed cell else cell.

Lemma showMine_twice cell : showMine (showMine cell) = showMine cell.
Proof.
  unfold showMine. destruct (isMine cell && _) eqn:E; [|now rewrite E].
  cbn [isMine state set_cellState].
  apply andb_true_iff in E as [-> _]. reflexivity.
Qed.

Definition showStep (b : Board) (rc : Pos) : Board :=
  match cellAt b (fst rc) (snd rc) with
  | Some cell =>
      if isMine cell && negb (bool_decide (state cell = flagged))
      then Grid.updateZ (set_cellState revealed) (fst rc) (snd rc) b
      else b
  | None => b
  end.

Lemma showStep_cellAt b rc r c :
  cellAt (showStep b rc) r c =
  if decide (rc = (r, c)) then showMine <$> cellAt b r c else cellAt b r c.
Proof.
  unfold showStep.
  destruct (decide (rc = (r, c))) as [->|Hne]; cbn [fst snd].
  - destruct (cellAt b r c) as [cell|] eqn:Hcell; [|now rewrite Hcell].
    unfold showMine. destruct (isMine cell && _) eqn:E.
    + unfold cellAt in *. rewrite GridFacts.getZ_updateZ, decide_True by reflexivity.
      rewrite Hcell. cbn. now rewrite E.
    + rewrite Hcell. cbn. now rewrite E.
  - destruct (cellAt b (fst rc) (snd rc)) as [cell|]; [|reflexivity].
    destruct (isMine cell && _); [|reflexivity].
    unfold cellAt. rewrite GridFacts.getZ_updateZ, decide_False; [reflexivity|].
    intros E. apply Hne. destruct rc. exact E.
Qed.

Lemma showAll_cellAt l : forall b r c,
  cellAt (fold_left showStep l b) r c =
  if decide ((r, c) ∈ l) then showMine <$> cellAt b r c else cellAt b r c.
Proof.
  induction l as [|rc l IH]; intros b r c.
  - cbn. destruct (decide _) as [H|]; [inversion H|reflexivity].
  - cbn [fold_left]. rewrite IH, showStep_cellAt.
    destruct (decide ((r, c) ∈ l)) as [Hin|Hnin],
             (decide (rc = (r, c))) as [Heq|Hne],
             (decide ((r, c) ∈ rc :: l)) as [Hin'|Hnin'];
      try reflexivity.
    + destruct (cellAt b r c); [|reflexivity]. cbn. now rewrite showMine_twice.
    + exfalso. apply Hnin'. now right.
    + exfalso. apply Hnin'. now right.
    + exfalso. apply Hnin'. rewrite Heq. now left.
    + exfalso. apply elem_of_cons in Hin' as [Heq|Hin']; [congruence|contradiction].
Qed.

Lemma revealAllMines_cell s r c :
  wfState s ->
  cellAt (board (revealAllMines s)) r c = showMine <$> cellAt (board s) r c.
Proof.
  intros Hwf. unfold revealAllMines. cbn [board set_board].
  change (fun b rc => match cellAt b (fst rc) (snd rc) with
                      | Some cell => _ | None => b end) with showStep.
  rewrite showAll_cellAt. destruct (decide _) as [_|Hnin]; [reflexivity|].
  destruct (cellAt (board s) r c) as [cell|] eqn:Hcell; [|reflexivity].
  exfalso. apply Hnin, list_elem_of_In, allCells_In.
  apply (cellAt_inRange (config s) (board s) r c Hwf). now exists cell.
Qed.

(** X20. In a game in play, [revealCell] on a hidden cell with a mine
    returns [true] and loses the game: the status is lost, the end
    time is the time of the call, and the counter of revealed cells has
    grown by one. On the board every mine that is not flagged is
    revealed, flagged cells stay flagged, and every other cell without
    a mine is as it was. After that, [revealCell] and [toggleFlag]
    return [false] and change nothing. *)
Theorem reveal_mine_loses (s : MinesweeperState) (r c : Z) (cell : Cell)
        (fuel : nat) (draws : nat -> Random.Sample) (now : Z) :
  wfState s -> status s = playing ->
  cellAt (board s) r c = Some cell -> state cell = hidden -> isMine cell = true ->
  exists s',
    revealCell (S fuel) draws now r c s = Returned true s' /\
    status s' = lost /\ endTime s' = Some now /\
    revealedCells s' = revealedCells s + 1 /\
    config s' = config s /\ score s' = score s /\
    (forall r' c', cellAt (board s') r' c' =
                   showMine <$> cellAt (board (markRevealed r c s)) r' c') /\
    (forall r' c' cell', cellAt (board s') r' c' = Some cell' -> isMine cell' = true ->
       state cell' = revealed \/ state cell' = flagged) /\
    (forall r' c' cell0, cellAt (board s) r' c' = Some cell0 ->
       state cell0 = flagged \/ (isMine cell0 = false /\ (r', c') <> (r, c)) ->
       cellAt (board s') r' c' = Some cell0) /\
    (forall fuel' draws' now' r' c',
       revealCell (S fuel') draws' now' r' c' s' = Returned false s') /\
    (forall r' c', toggleFlag r' c' s' = Returned false s').
Proof.
  intros Hwf Hst Hcell Hh Hm.
  eexists. split.
  { cbn [revealCell]. rewrite Hst.
    rewrite (bool_decide_eq_false_2 (playing = won)) by discriminate.
    rewrite (bool_decide_eq_false_2 (playing = lost)) by discriminate.
    rewrite (bool_decide_eq_false_2 (playing = idle)) by discriminate.
    cbn [orb]. rewrite Hcell, (bool_decide_eq_true_2 _ Hh). cbn [negb].
    rewrite (markRevealed_cell r c s cell Hcell). cbn [isMine set_cellState].
    rewrite Hm. reflexivity. }
  assert (Hwf2 : wfState (loseGame now (markRevealed r c s)))
    by (apply (markRevealed_wf r c s Hwf)).
  assert (Hcells : forall r' c',
            cellAt (board (revealAllMines (loseGame now (markRevealed r c s)))) r' c' =
            showMine <$> cellAt (board (markRevealed r c s)) r' c').
  { intros r' c'. now rewrite revealAllMines_cell. }
  do 5 (split; [reflexivity|]). split; [exact Hcells|]. split; [|split; [|split]].
  - intros r' c' cell' Hcell' Hmine. rewrite Hcells in Hcell'.
    destruct (cellAt (board (markRevealed r c s)) r' c') as [cell1|]; [|discriminate].
    cbn in Hcell'. injection Hcell' as <-. unfold showMine in *.
    destruct (isMine cell1) eqn:Hm1; cbn [andb] in *.
    + destruct (bool_decide (state cell1 = flagged)) eqn:Hf; cbn [negb] in *.
      * right. now apply bool_decide_eq_true_1 in Hf.
      * left. reflexivity.
    + congruence.
  - intros r' c' cell0 Hcell0 Hkeep. rewrite Hcells.
    unfold markRevealed, cellAt in *. cbn [board].
    rewrite GridFacts.getZ_updateZ.
    destruct (decide ((r, c) = (r', c'))) as [Heq|Hne].
    + injection Heq as <- <-. rewrite Hcell in Hcell0. injection Hcell0 as <-.
      destruct Hkeep as [Hf|[Hs _]]; congruence.
    + rewrite Hcell0. cbn. f_equal. unfold showMine.
      destruct Hkeep as [Hf|[Hs _]].
      * rewrite (bool_decide_eq_true_2 _ Hf). now rewrite andb_false_r.
      * now rewrite Hs.
  - intros fuel' draws' now' r' c'. reflexivity.
  - intros r' c'. reflexivity.
Qed.

(** ** Winning *)

(** A reveal that leaves the game in play has not revealed the last
    cell without a mine. *)
Lemma revealCell_live fuel draws now r c s s' :
  revealCell fuel draws now r c s = Returned true s' ->
  status s' = playing ->
  revealedCells s' <> rows (config s') * cols (config s') - mines (config s').
Proof.
  destruct fuel as [|fuel]; [discriminate|]. cbn [revealCell].
  destruct (_ || _); [discriminate|].
  destruct (cellAt (board s) r c) as [cell|]; [|discriminate].
  destruct (negb _); [discriminate|].
  match goal with |- context [markRevealed r c ?x] => set (s1 := x) end.
  destruct (cellAt (board (markRevealed r c s1)) r c) as [cell'|]; [|discriminate].
  destruct (isMine cell'); [intros [= <-]; discriminate|].
  assert (Hfinal : forall s3,
            status (checkWinCondition now s3) = playing ->
            revealedCells (checkWinCondition now s3) <>
            rows (config (checkWinCondition now s3)) *
            cols (config (checkWinCondition now s3)) -
            mines (config (checkWinCondition now s3))).
  { intros s3 Hp.
    destruct (checkWinCondition_fields now s3) as (_ & Hc & Hr & _ & _ & _ & Hst).
    rewrite Hc, Hr. rewrite Hst in Hp.
    destruct (revealedCells s3 =? _) eqn:E; [discriminate|]. now apply Z.eqb_neq. }
  destruct (neighborMines cell' =? 0).
  - destruct (revealNeighborsWith _ _ _) as [[] s3| |]; try discriminate.
    intros [= <-]. apply Hfinal.
  - intros [= <-]. apply Hfinal.
Qed.

Lemma toggleFlag_unrevealedSafe r c s b s' :
  toggleFlag r c s = Returned b s' ->
  unrevealedSafe (board s') = unrevealedSafe (board s).
Proof.
  intros Hrun. destruct (toggleFlag_board r c s b s' Hrun) as (_ & _ & _ & Hb).
  destruct Hb as [->|(cell & v & Hcell & Hs & Hv & ->)]; [reflexivity|].
  now apply (setState_unrevealedSafe v r c (board s) cell).
Qed.

(** A game in play is consistent and has a cell without a mine that is
    not revealed; a game that is won is consistent. *)
Definition settled (s : MinesweeperState) : Prop :=
  (status s = playing -> consistent s /\ unrevealedSafe (board s) <> 0%nat) /\
  (status s = won -> consistent s).

Lemma reachable_settled s : reachable s -> roomy (config s) -> settled s.
Proof.
  induction 1 as [cfg|s cfg _ _|s d _ _|s nr nc nm _ _
                 |s fuel draws now r c b s' Hreach IH Hrun|s r c b s' _ IH Hrun];
    intros Hroom; try (split; discriminate).
  - destruct (revealCell_minesKept draws now fuel r c s b s' Hrun)
      as [[_ ->]|(-> & _ & Hcfg & Hhid & Hst & _)]; [now apply IH|].
    rewrite Hcfg in Hroom. specialize (IH Hroom).
    pose proof (revealCell_live fuel draws now r c s s' Hrun) as Hlive.
    rewrite (revealCell_startState fuel draws now r c s Hst Hhid) in Hrun.
    assert (Hstart : consistent (startState draws now r c s) /\
                     status (startState draws now r c s) = playing).
    { unfold startState. destruct Hst as [Hidle|Hp].
      - rewrite (bool_decide_eq_true_2 _ Hidle). split.
        + now apply initializeGame_consistent.
        + now apply initializeGame_status.
      - rewrite bool_decide_eq_false_2 by (rewrite Hp; discriminate).
        split; [now apply (proj1 IH)|exact Hp]. }
    destruct Hstart as [Hcons Hst1].
    destruct (revealCell_consistent fuel draws now r c _ true s' Hcons Hst1 Hrun)
      as [H|H]; [|split; congruence].
    split; [|intros _; exact H].
    intros Hp. split; [exact H|]. specialize (Hlive Hp).
    pose proof (cons_counted s' H) as Hcnt. unfold counted in Hcnt. lia.
  - destruct (toggleFlag_board r c s b s' Hrun) as (Hst & Hcfg & _).
    rewrite Hcfg in Hroom. destruct (IH Hroom) as [IHp IHw].
    unfold settled. rewrite Hst, (toggleFlag_unrevealedSafe r c s b s' Hrun).
    split.
    + intros Hp. destruct (IHp Hp) as [Hc Hn].
      split; [now apply (toggleFlag_consistent r c s b s' Hrun)|exact Hn].
    + intros Hw. now apply (toggleFlag_consistent r c s b s' Hrun), IHw.
Qed.

(** X21. In every state that the engine reaches with a configuration
    that has room for its mines, the game is won exactly when every cell
    without a mine is revealed. While the game is in play or won,
    [revealedCells] and the number of cells without a mine that are not
    revealed add up to the number of cells less the mines of the
    configuration; in a game in play that number is not 0, and in a game
    that is won it is 0. *)
Theorem won_exactly_when_cleared (s : MinesweeperState) :
  reachable s -> roomy (config s) ->
  status s = playing \/ status s = won ->
  revealedCells s + Z.of_nat (unrevealedSafe (board s)) =
    rows (config s) * cols (config s) - mines (config s) /\
  (status s = won <-> unrevealedSafe (board s) = 0%nat) /\
  (status s = won <->
   revealedCells s = rows (config s) * cols (config s) - mines (config s)).
Proof.
  intros Hreach Hroom Hst.
  destruct (reachable_settled s Hreach Hroom) as [Hp Hw].
  destruct Hst as [Hst|Hst].
  - destruct (Hp Hst) as [Hcons Hn].
    pose proof (cons_counted s Hcons) as Hcnt. unfold counted in Hcnt.
    split; [exact Hcnt|]. rewrite Hst.
    split; split; try discriminate; intros; exfalso; lia.
  - pose proof (Hw Hst) as Hcons.
    pose proof (cons_counted s Hcons) as Hcnt. unfold counted in Hcnt.
    destruct (cons_inPlay s Hcons) as [H|[_ H0]]; [congruence|].
    split; [exact Hcnt|]. split; split; intros; try assumption; lia.
Qed.

(** ** The shuffle *)

(** X22. [shuffleArray] returns a permutation of its argument, whatever
    the samples: the same elements, each as often as before, so as many
    of them, and no element twice when the argument has none twice. *)
Theorem shuffleArray_is_permutation {A : Type} (draws : nat -> Random.Sample)
        (a : list A) :
  shuffleArray draws a ≡ₚ a /\
  length (shuffleArray draws a) = length a /\
  (forall x, x ∈ shuffleArray draws a <-> x ∈ a) /\
  (NoDup a -> NoDup (shuffleArray draws a)).
Proof.
  pose proof (shuffleArray_perm draws a) as Hperm.
  split; [exact Hperm|]. split; [now rewrite Hperm|]. split.
  - intros x. now rewrite Hperm.
  - intros Hnd. now rewrite Hperm.
Qed.

(** ** The first reveal *)

Lemma initializeGame_hiddenCount draws now r c s :
  hiddenCount (board (initializeGame draws now r c s)) = hiddenCount (board s).
Proof.
  unfold initializeGame. destruct (bool_decide _); [|reflexivity].
  cbn [board calculateNeighborMines placeMines set_board]. unfold hiddenCount.
  rewrite fold_updates_count.
  - apply fold_updates_count. intros b x. now apply GridFacts.count_updateZ_same.
  - intros b x. destruct (mineAt b x); [reflexivity|].
    now apply GridFacts.count_updateZ_same.
Qed.

(** No mine lies on the cell of the first reveal or next to it. *)
Lemma initializeGame_opening draws now r c s r' c' :
  reachable s -> status s = idle ->
  Z.abs (r' - r) <= 1 -> Z.abs (c' - c) <= 1 ->
  mineAt (board (initializeGame draws now r c s)) (r', c') = false.
Proof.
  intros Hreach Hidle Hr Hc.
  destruct (reachable_idle_pristine s Hreach Hidle) as [Hp _].
  pose proof (reachable_wf s Hreach) as Hwf.
  destruct (initializeGame_mines draws now r c s Hidle Hwf Hp) as [_ Hin].
  cbv zeta in Hin.
  destruct (mineAt (board (initializeGame draws now r c s)) (r', c')) eqn:Hm;
    [exfalso|reflexivity].
  destruct (minePositions_spec (config s) draws r c) as (_ & Hsub & _).
  apply Hin, Hsub, list_elem_of_filter in Hm as [E _].
  cbn [fst snd] in E. unfold isExcluded in E.
  apply andb_false_iff in E as [E|E]; zbool; lia.
Qed.

(** The cell of the first reveal has the count 0. *)
Lemma initializeGame_zero draws now r c s :
  reachable s -> status s = idle -> hiddenAt (board s) (r, c) ->
  zeroAt (board (initializeGame draws now r c s)) (r, c).
Proof.
  intros Hreach Hidle Hhid.
  destruct (initializeGame_safe draws now r c s Hreach Hidle Hhid)
    as (cell & Hcell & Hm).
  cbn [fst snd] in Hcell. exists cell. split; [exact Hcell|]. split; [exact Hm|].
  rewrite (initializeGame_numbered draws now r c s (reachable_wf s Hreach) Hidle
             r c cell Hcell Hm).
  unfold countNeighborMines.
  destruct (filter _ (neighborCoords (config s) r c)) as [|[r' c'] rest] eqn:E;
    [reflexivity|exfalso].
  assert (Hin : (r', c') ∈ filter
            (fun rc => mineAt (board (initializeGame draws now r c s)) rc = true)
            (neighborCoords (config s) r c)) by (rewrite E; now left).
  apply list_elem_of_filter in Hin as [Hmine Hin].
  apply list_elem_of_In, neighborCoords_In in Hin as (_ & Hr & Hc & _).
  rewrite (initializeGame_opening draws now r c s r' c' Hreach Hidle Hr Hc) in Hmine.
  discriminate.
Qed.

(** X23. The first reveal of a game whose configuration has room for
    its mines is safe. On a hidden cell of an idle game, [revealCell]
    returns [true] as soon as the fuel exceeds the number of hidden
    cells, and leaves the game in play or won. All the mines of the
    configuration are on the board, none of them on the cell or next to
    it, and the cell and its neighbours that were hidden are
    revealed. *)
Theorem first_reveal_opens_safely (s : MinesweeperState) (r c : Z)
        (draws : nat -> Random.Sample) (now : Z) (fuel : nat) :
  reachable s -> status s = idle -> roomy (config s) ->
  hiddenAt (board s) (r, c) ->
  (hiddenCount (board s) < fuel)%nat ->
  exists s',
    revealCell fuel draws now r c s = Returned true s' /\
    (status s' = playing \/ status s' = won) /\
    config s' = config s /\
    mineCount (board s') = Z.to_nat (mines (config s)) /\
    visAt (board s') (r, c) = Some revealed /\
    (forall r' c', Z.abs (r' - r) <= 1 -> Z.abs (c' - c) <= 1 ->
       mineAt (board s') (r', c') = false /\
       (hiddenAt (board s) (r', c') -> visAt (board s') (r', c') = Some revealed)).
Proof.
  intros Hreach Hidle Hroom Hhid Hfuel.
  pose proof (reachable_wf s Hreach) as Hwf.
  set (s1 := initializeGame draws now r c s).
  assert (Hs1 : startState draws now r c s = s1)
    by (unfold startState; now rewrite (bool_decide_eq_true_2 _ Hidle)).
  pose proof (initializeGame_consistent draws now r c s Hreach Hidle Hroom Hhid) as Hcons.
  pose proof (initializeGame_status draws now r c s Hidle) as Hst1.
  pose proof (initializeGame_zero draws now r c s Hreach Hidle Hhid) as Hzero.
  fold s1 in Hcons, Hst1, Hzero.
  assert (Hvis1 : forall p, visAt (board s1) p = visAt (board s) p)
    by (intros p; apply initializeGame_vis).
  assert (Hhid1 : hiddenAt (board s1) (r, c)) by (unfold hiddenAt; now rewrite Hvis1).
  assert (Hsafe1 : safeAt (board s1) (r, c)).
  { destruct Hzero as (cell & Hc & Hm & _). now exists cell. }
  assert (Hfuel1 : (hiddenCount (board s1) < fuel)%nat)
    by (subst s1; now rewrite initializeGame_hiddenCount).
  destruct (cell_spec draws now fuel s1 r c Hcons Hst1 Hhid1 Hsafe1 Hfuel1)
    as (s' & Hrun & Hcons' & Hframe & Hclosed & Hvis).
  assert (Hrun0 : revealCell fuel draws now r c s = Returned true s').
  { rewrite (revealCell_startState fuel draws now r c s (or_introl Hidle) Hhid).
    now rewrite Hs1. }
  destruct (first_reveal_mine_count s s' r c draws now fuel Hreach Hidle
              ltac:(destruct Hroom; lia) Hrun0) as (Hcfg & Hcount & Hopen).
  exists s'. split; [exact Hrun0|]. split.
  { destruct (cons_inPlay s' Hcons') as [H|[H _]]; [now left|now right]. }
  split; [exact Hcfg|]. split.
  { rewrite Hcount.
    pose proof (availableCells_length (config s) r c) as Hav.
    destruct (hiddenAt_size s r c Hwf Hhid) as [Hrows Hcols].
    destruct Hroom as [Hm0 Hm1]. nia. }
  split; [exact Hvis|].
  intros r' c' Hr Hc. split; [now apply Hopen|].
  intros Hh'. destruct (decide ((r', c') = (r, c))) as [Heq|Hne].
  { injection Heq as -> ->. exact Hvis. }
  assert (Hh1 : visAt (board s1) (r', c') = Some hidden) by (now rewrite Hvis1).
  assert (Hnb : neighbor (config s1) (r, c) (r', c')).
  { unfold neighbor. cbn [fst snd]. apply neighborCoords_In.
    split; [|now repeat split].
    destruct (hiddenAt_cell _ _ Hh') as (cell & Hcell & _). cbn [fst snd] in Hcell.
    subst s1. destruct (initializeGame_fields draws now r c s Hidle) as (-> & _).
    apply (cellAt_inRange (config s) (board s) r' c' Hwf). now exists cell. }
  pose proof (Hclosed (r, c) (r', c') Hhid1 Hvis Hzero Hnb) as Hnot.
  destruct (frame_changes _ _ _ Hframe (r', c')) as [E|(_ & E & _)]; [|exact E].
  congruence.
Qed.

(** ** Revealing around a number (game.ts) *)

Import MinesweeperEngine.

(** A mine carries the count 0: [calculateNeighborMines] skips it. *)
Definition mineZero (b : Board) : Prop :=
  forall r c cell, cellAt b r c = Some cell -> isMine cell = true -> neighborMines cell = 0.

Definition unnumbered (b : Board) : Prop :=
  forall r c cell, cellAt b r c = Some cell -> neighborMines cell = 0.

Lemma reachable_idle_unnumbered s :
  reachable s -> status s = idle -> unnumbered (board s).
Proof.
  induction 1 as [cfg|s cfg _ _|s d _ _|s nr nc nm _ _|s fuel draws now r c b s' _ IH Hrun
                 |s r c b s' _ IH Hrun]; intros Hidle.
  1-4: intros r0 c0 cell Hcell; now destruct (createEmptyBoard_cell _ _ _ _ _ Hcell)
         as (_ & _ & ?).
  - destruct (revealCell_minesKept draws now fuel r c s b s' Hrun)
      as [[_ ->]|(_ & Hni & _)]; [now apply IH|contradiction].
  - destruct (toggleFlag_board r c s b s' Hrun) as (Hst & _ & _ & Hb).
    rewrite Hst in Hidle. specialize (IH Hidle).
    destruct Hb as [->|(cell & v & _ & _ & _ & ->)]; [exact IH|].
    intros r0 c0 cell' Hcell'.
    destruct (sameStatic_cell _ (board s) r0 c0 cell'
                (sameStatic_sym _ _ (setState_static v r c (board s))) Hcell')
      as (cell0 & Hcell0 & _ & Hn).
    rewrite <- Hn. now apply (IH r0 c0).
Qed.

Lemma initializeGame_mineZero draws now r c s :
  status s = idle -> unnumbered (board s) ->
  mineZero (board (initializeGame draws now r c s)).
Proof.
  intros Hidle Hun r0 c0 cell Hcell Hm.
  destruct (initializeGame_fields draws now r c s Hidle) as (_ & _ & Hb).
  rewrite Hb in Hcell. unfold calculateNeighborMines in Hcell.
  cbn [board set_board] in Hcell.
  change (fun b rc => if mineAt b rc then b else _)
    with (countStep (config (placeMines draws r c s))) in Hcell.
  rewrite (countAll_cellAt _ (board (placeMines draws r c s))) in Hcell by reflexivity.
  assert (Hplaced : forall cell1, cellAt (board (placeMines draws r c s)) r0 c0 = Some cell1 ->
                                  neighborMines cell1 = 0).
  { intros cell1 Hcell1. unfold placeMines in Hcell1. cbn [board set_board] in Hcell1.
    fold (placeAll (minePositions (config s) draws r c) (board s)) in Hcell1.
    rewrite placeAll_cellAt in Hcell1.
    destruct (cellAt (board s) r0 c0) as [cell0|] eqn:Hcell0.
    - pose proof (Hun r0 c0 cell0 Hcell0) as H0.
      destruct (decide ((r0, c0) ∈ minePositions (config s) draws r c));
        cbn in Hcell1; injection Hcell1 as <-; exact H0.
    - destruct (decide ((r0, c0) ∈ minePositions (config s) draws r c));
        discriminate Hcell1. }
  destruct (cellAt (board (placeMines draws r c s)) r0 c0) as [cell1|].
  - specialize (Hplaced cell1 eq_refl).
    destruct (decide ((r0, c0) ∈ allCells (config (placeMines draws r c s))));
      cbn in Hcell; injection Hcell as <-; [|exact Hplaced].
    rewrite recount_isMine in Hm. unfold recount. now rewrite Hm.
  - destruct (decide ((r0, c0) ∈ allCells (config (placeMines draws r c s))));
      discriminate Hcell.
Qed.

Lemma mineZero_static b b' : sameStatic b b' -> mineZero b -> mineZero b'.
Proof.
  intros Hs Hz r c cell' Hcell' Hm.
  destruct (sameStatic_cell b' b r c cell' (sameStatic_sym _ _ Hs) Hcell')
    as (cell & Hcell & Hmine & Hnum).
  rewrite <- Hnum. apply (Hz r c cell Hcell). congruence.
Qed.

Lemma reachable_mineZero s : reachable s -> mineZero (board s).
Proof.
  induction 1 as [cfg|s cfg _ _|s d _ _|s nr nc nm _ _
                 |s fuel draws now r c b s' Hreach IH Hrun|s r c b s' _ IH Hrun].
  1-4: intros r0 c0 cell Hcell; now destruct (createEmptyBoard_cell _ _ _ _ _ Hcell)
         as (_ & _ & ?).
  - destruct (revealCell_keeps draws now fuel r c s b s' Hrun)
      as [[_ ->]|[_ [_ _ _ [Hs _ _]]]]; [exact IH|].
    apply (mineZero_static _ _ Hs). unfold startState.
    destruct (decide (status s = idle)) as [Hi|Hn].
    + rewrite (bool_decide_eq_true_2 _ Hi).
      apply initializeGame_mineZero; [exact Hi|now apply reachable_idle_unnumbered].
    + now rewrite (bool_decide_eq_false_2 _ Hn).
  - destruct (toggleFlag_board r c s b s' Hrun) as (_ & _ & _ & Hb).
    destruct Hb as [->|(cell & v & _ & _ & _ & ->)]; [exact IH|].
    apply (mineZero_static (board s)); [apply setState_static|exact IH].
Qed.

(** *** Counting the flags *)

Definition flaggedAt (b : Board) (q : Pos) : Prop := visAt b q = Some flagged.

#[local] Instance flaggedAt_dec b q : Decision (flaggedAt b q).
Proof. unfold flaggedAt. apply _. Defined.

Lemma countFlagged_spec b cells : forall n,
  (forall q, In q cells -> is_Some (cellAt b (fst q) (snd q))) ->
  countFlagged b cells n =
  Some (n + Z.of_nat (length (filter (flaggedAt b) cells))).
Proof.
  unfold countFlagged.
  induction cells as [|q cells IH]; intros n Hall.
  - cbn. f_equal. lia.
  - cbn [fold_left]. destruct (Hall q (or_introl eq_refl)) as [cell Hcell].
    rewrite Hcell. rewrite IH by (intros q' Hq'; apply Hall; now right).
    f_equal. rewrite filter_cons.
    pose proof (visAt_cell b q cell Hcell) as Hvis.
    destruct (bool_decide (state cell = flagged)) eqn:E.
    + apply bool_decide_eq_true_1 in E.
      rewrite decide_True by (unfold flaggedAt; congruence).
      cbn [length]. lia.
    + apply bool_decide_eq_false_1 in E.
      rewrite decide_False by (unfold flaggedAt; congruence). lia.
Qed.

Lemma filter_length_le {A} (P Q : A -> Prop) `{forall x, Decision (P x)}
      `{forall x, Decision (Q x)} (l : list A) :
  (forall x, In x l -> P x -> Q x) ->
  (length (filter P l) <= length (filter Q l))%nat.
Proof.
  induction l as [|a l IH]; intros Hsub; [cbn; lia|].
  rewrite !filter_cons.
  assert (IH' := IH (fun x Hx => Hsub x (or_intror Hx))).
  destruct (decide (P a)) as [Hp|Hp], (decide (Q a)) as [Hq|Hq]; cbn [length]; try lia.
  exfalso. apply Hq, (Hsub a); [now left|exact Hp].
Qed.

(** When the elements with [P] are among those with [Q] and as many,
    they are the same elements. *)
Lemma filter_same_length {A} (P Q : A -> Prop) `{forall x, Decision (P x)}
      `{forall x, Decision (Q x)} (l : list A) :
  (forall x, In x l -> P x -> Q x) ->
  length (filter P l) = length (filter Q l) ->
  forall x, In x l -> Q x -> P x.
Proof.
  induction l as [|a l IH]; intros Hsub Hlen x Hin Hq; [destruct Hin|].
  assert (Hsub' : forall x, In x l -> P x -> Q x)
    by (intros y Hy; apply Hsub; now right).
  pose proof (filter_length_le P Q l Hsub') as Hle.
  rewrite !filter_cons in Hlen.
  destruct (decide (P a)) as [Hpa|Hpa], (decide (Q a)) as [Hqa|Hqa];
    cbn [length] in Hlen.
  - destruct Hin as [<-|Hin]; [exact Hpa|]. apply IH; try assumption. lia.
  - exfalso. apply Hqa, (Hsub a); [now left|exact Hpa].
  - lia.
  - destruct Hin as [<-|Hin]; [contradiction|]. now apply IH.
Qed.

(** *** The loop of the reveals *)

Lemma autoRevealWith_spec fuel draws now : forall cells s flag,
  consistent s ->
  (forall q, In q cells -> is_Some (cellAt (board s) (fst q) (snd q))) ->
  (forall q, In q cells -> hiddenAt (board s) q -> safeAt (board s) q) ->
  (hiddenCount (board s) < fuel)%nat ->
  exists b s',
    autoRevealWith (revealCell fuel draws now) cells flag s = Returned b s' /\
    consistent s' /\
    frame (fun _ => True) s s' /\
    (forall q, In q cells -> visAt (board s') q <> Some hidden) /\
    (b = true <-> flag = true \/ exists q, In q cells /\ hiddenAt (board s) q).
Proof.
  induction cells as [|[r c] cells IH]; intros s flag Hcons Hex Hsafe Hfuel.
  - exists flag, s. split; [reflexivity|]. split; [exact Hcons|].
    split; [apply frame_refl|]. split; [intros q []|].
    split; [now left|]. intros [H|(q & [] & _)]. exact H.
  - cbn [autoRevealWith].
    destruct (Hex (r, c) (or_introl eq_refl)) as [nb Hnb]. cbn [fst snd] in Hnb.
    rewrite Hnb. destruct (decide (state nb = hidden)) as [Hh|Hh].
    + rewrite bool_decide_eq_true_2 by exact Hh.
      assert (Hhid : hiddenAt (board s) (r, c)).
      { unfold hiddenAt. rewrite (visAt_cell _ (r, c) nb Hnb). now rewrite Hh. }
      pose proof (Hsafe (r, c) (or_introl eq_refl) Hhid) as Hsafe0.
      assert (Hmine : isMine nb = false).
      { destruct Hsafe0 as (cell & Hcell & Hm). cbn [fst snd] in Hcell. congruence. }
      assert (Hplaying : status s = playing).
      { destruct (cons_inPlay s Hcons) as [H|[_ H]]; [exact H|].
        exfalso.
        pose proof (GridFacts.count_posZ isUnrevealedSafe (board s) r c nb Hnb) as Hpos.
        unfold unrevealedSafe in H. rewrite H in Hpos.
        assert (Hu : isUnrevealedSafe nb = true)
          by (unfold isUnrevealedSafe; rewrite Hmine, Hh; reflexivity).
        specialize (Hpos Hu). lia. }
      destruct (cell_spec draws now fuel s r c Hcons Hplaying Hhid Hsafe0 Hfuel)
        as (s1 & Hrun & Hcons1 & Hframe1 & _ & Hvis1).
      rewrite Hrun.
      destruct (IH s1 true Hcons1) as (b & s' & Hloop & Hcons' & Hframe' & Hall' & Hb).
      { intros q Hq. destruct (Hex q (or_intror Hq)) as [cell Hcell].
        destruct (sameStatic_cell _ _ _ _ cell (frame_static _ _ _ Hframe1) Hcell)
          as (cell' & Hcell' & _). now exists cell'. }
      { intros q Hq Hqh. apply (safeAt_static (board s)); [apply Hframe1|].
        apply Hsafe; [now right|].
        apply (changes_hidden_back _ _ _ q (frame_changes _ _ _ Hframe1) Hqh). }
      { pose proof (frame_less _ _ _ Hframe1). lia. }
      exists b, s'. split; [exact Hloop|]. split; [exact Hcons'|]. split; [|split].
      * apply (frame_trans _ _ (fun _ => True) s s1 s' Hframe1 Hframe'); tauto.
      * intros q [<-|Hq]; [|now apply Hall'].
        apply (changes_not_hidden _ _ _ _ (frame_changes _ _ _ Hframe')). congruence.
      * split; [|intros _; apply Hb; now left].
        intros _. right. exists (r, c). split; [now left|exact Hhid].
    + rewrite bool_decide_eq_false_2 by exact Hh.
      destruct (IH s flag Hcons) as (b & s' & Hloop & Hcons' & Hframe' & Hall' & Hb).
      { intros q Hq. apply Hex. now right. }
      { intros q Hq. apply Hsafe. now right. }
      { exact Hfuel. }
      exists b, s'. split; [exact Hloop|]. split; [exact Hcons'|].
      split; [exact Hframe'|]. split.
      * intros q [<-|Hq]; [|now apply Hall'].
        apply (changes_not_hidden _ _ _ _ (frame_changes _ _ _ Hframe')).
        rewrite (visAt_cell _ (r, c) nb Hnb). congruence.
      * rewrite Hb. split.
        -- intros [H|(q & Hq & Hqh)]; [now left|]. right. exists q. split; [now right|exact Hqh].
        -- intros [H|(q & [<-|Hq] & Hqh)]; [now left| |right; now exists q].
           exfalso. unfold hiddenAt in Hqh.
           rewrite (visAt_cell _ (r, c) nb Hnb) in Hqh. congruence.
Qed.

Lemma neighbors_exist s r c q :
  wfState s -> In q (neighborCoords (config s) r c) ->
  is_Some (cellAt (board s) (fst q) (snd q)).
Proof.
  intros Hwf Hin. destruct q as [r' c']. apply neighborCoords_In in Hin as (Hin & _).
  now apply (cellAt_inRange (config s) (board s) r' c' Hwf).
Qed.

Lemma canAutoReveal_true r c s :
  wfState s -> canAutoReveal r c s = Some true ->
  exists cell,
    cellAt (board s) r c = Some cell /\ state cell = revealed /\
    neighborMines cell <> 0 /\
    neighborMines cell =
      Z.of_nat (length (filter (flaggedAt (board s)) (neighborCoords (config s) r c))).
Proof.
  intros Hwf. unfold canAutoReveal.
  destruct (cellAt (board s) r c) as [cell|]; [|discriminate].
  destruct (bool_decide (state cell = revealed)) eqn:Hs; cbn [negb orb]; [|discriminate].
  destruct (neighborMines cell =? 0) eqn:Hz; [discriminate|].
  rewrite countFlagged_spec by (intros q; apply neighbors_exist; exact Hwf).
  intros [= Heq]. apply Z.eqb_eq in Heq. apply Z.eqb_neq in Hz.
  apply bool_decide_eq_true_1 in Hs.
  exists cell. split; [reflexivity|]. split; [exact Hs|]. split; [exact Hz|]. lia.
Qed.

(** X24. [autoRevealNeighbors] with the flags in the right places. In
    a game in play that the engine has reached with a configuration
    that has room for its mines, take a revealed cell whose count is not
    0 and equals the number of flags around it, and let every flagged
    neighbour hold a mine. Then no hidden neighbour holds a mine, and
    [autoRevealNeighbors] returns as soon as the fuel exceeds the number
    of hidden cells: the game is in play or won, every neighbour that
    was hidden is revealed, the flags stay, and the result is [true]
    exactly when a neighbour was hidden. *)
Theorem autoReveal_with_right_flags (s : MinesweeperState) (r c : Z)
        (draws : nat -> Random.Sample) (now : Z) (fuel : nat) :
  reachable s -> roomy (config s) -> status s = playing ->
  canAutoReveal r c s = Some true ->
  (forall q, neighbor (config s) (r, c) q ->
     flaggedAt (board s) q -> mineAt (board s) q = true) ->
  (hiddenCount (board s) < fuel)%nat ->
  (forall q, neighbor (config s) (r, c) q -> hiddenAt (board s) q ->
     mineAt (board s) q = false) /\
  exists b s',
    autoRevealNeighbors fuel draws now r c s = Returned b s' /\
    (status s' = playing \/ status s' = won) /\
    (b = true <-> exists q, neighbor (config s) (r, c) q /\ hiddenAt (board s) q) /\
    (forall q, neighbor (config s) (r, c) q -> hiddenAt (board s) q ->
       visAt (board s') q = Some revealed) /\
    (forall q, flaggedAt (board s) q -> flaggedAt (board s') q) /\
    flaggedMines s' = flaggedMines s /\ remainingMines s' = remainingMines s /\
    config s' = config s /\ sameStatic (board s) (board s').
Proof.
  intros Hreach Hroom Hst Hcan Hflags Hfuel.
  pose proof (reachable_wf s Hreach) as Hwf.
  pose proof (reachable_playing_consistent s Hreach Hroom Hst) as Hcons.
  destruct (canAutoReveal_true r c s Hwf Hcan) as (cell & Hcell & Hrev & Hnz & Hcount).
  assert (Hsafe0 : isMine cell = false).
  { destruct (isMine cell) eqn:Hm; [|reflexivity].
    now rewrite (reachable_mineZero s Hreach r c cell Hcell Hm) in Hnz. }
  assert (Hni : status s <> idle) by (rewrite Hst; discriminate).
  pose proof (reachable_numbered s Hreach Hni r c cell Hcell Hsafe0) as Hnum.
  unfold countNeighborMines in Hnum.
  assert (Hlen : length (filter (flaggedAt (board s)) (neighborCoords (config s) r c)) =
                 length (filter (fun q => mineAt (board s) q = true)
                                (neighborCoords (config s) r c))) by lia.
  pose proof (filter_same_length (flaggedAt (board s))
                (fun q => mineAt (board s) q = true)
                (neighborCoords (config s) r c) Hflags Hlen) as Hall.
  assert (Hhidden_safe : forall q, neighbor (config s) (r, c) q ->
            hiddenAt (board s) q -> mineAt (board s) q = false).
  { intros q Hq Hh. destruct (mineAt (board s) q) eqn:Hm; [exfalso|reflexivity].
    specialize (Hall q Hq Hm). unfold flaggedAt, hiddenAt in *. congruence. }
  split; [exact Hhidden_safe|].
  destruct (autoRevealWith_spec fuel draws now (neighborCoords (config s) r c) s false
              Hcons) as (b & s' & Hrun & Hcons' & Hframe & Hnone & Hb).
  { intros q. apply neighbors_exist. exact Hwf. }
  { intros q Hq Hh. destruct (neighbors_exist s r c q Hwf Hq) as [nb Hnb].
    exists nb. split; [exact Hnb|]. specialize (Hhidden_safe q Hq Hh).
    unfold mineAt in Hhidden_safe. now rewrite Hnb in Hhidden_safe. }
  { exact Hfuel. }
  exists b, s'. split.
  { unfold autoRevealNeighbors. rewrite Hcan. exact Hrun. }
  split.
  { destruct (cons_inPlay s' Hcons') as [H|[H _]]; [now left|now right]. }
  split.
  { rewrite Hb. split; [intros [H|H]; [discriminate|exact H]|intros H; now right]. }
  split.
  { intros q Hq Hh. destruct (frame_changes _ _ _ Hframe q) as [E|(_ & E & _)]; [|exact E].
    exfalso. apply (Hnone q Hq). unfold hiddenAt in Hh. congruence. }
  split.
  { intros q Hf. unfold flaggedAt in *.
    destruct (frame_changes _ _ _ Hframe q) as [E|(E & _)]; congruence. }
  destruct (frame_flags _ _ _ Hframe) as (Hr & Hf & _).
  split; [exact Hf|]. split; [exact Hr|]. split; [apply Hframe|apply Hframe].
Qed.

(** ** The score *)

(** The score that [calculateScore] writes for a game of the
    configuration [cfg] that started at [t0] and ended at [t1]; a time
    stamp 0 is falsy and leaves the score at 0. *)
Definition timedScore (cfg : GameConfig) (multiplier t0 t1 : Z) : Z :=
  if (t0 =? 0) || (t1 =? 0) then 0
  else (Z.max 0 (1000 - (t1 - t0) / 1000) + mines cfg * 10) * multiplier.

(** Within a call of [revealCell] at the time [now] in a game of the
    configuration [cfg] that started at [t0]: the score is 0 until the
    game is won, and the one of the two times after that. *)
Record scoring (cfg : GameConfig) (t0 now : Z) (s : MinesweeperState) : Prop := {
  scoring_config : config s = cfg;
  scoring_start : startTime s = Some t0;
  scoring_started : status s <> idle;
  scoring_open : status s <> won -> score s = 0;
  scoring_won : status s = won ->
                endTime s = Some now /\
                score s = timedScore cfg (getDifficultyMultiplier s) t0 now
}.

Lemma markRevealed_scoring cfg t0 now r c s :
  scoring cfg t0 now s -> scoring cfg t0 now (markRevealed r c s).
Proof. intros [H1 H2 H3 H4 H5]. now split. Qed.

Lemma lose_scoring cfg t0 now s :
  status s <> won -> scoring cfg t0 now s ->
  scoring cfg t0 now (revealAllMines (loseGame now s)).
Proof.
  intros Hw [H1 H2 H3 H4 H5]. split; cbn [config startTime status score revealAllMines
    set_board loseGame]; try assumption; try discriminate.
  - intros _. now apply H4.
Qed.

Lemma checkWinCondition_scoring cfg t0 now s :
  scoring cfg t0 now s -> scoring cfg t0 now (checkWinCondition now s).
Proof.
  intros [H1 H2 H3 H4 H5]. unfold checkWinCondition.
  destruct (revealedCells s =? _); [|now split].
  unfold calculateScore. cbn [startTime endTime]. rewrite H2.
  assert (Hscore : (t0 =? 0) || (now =? 0) = true -> score s = 0).
  { intros Hf. destruct (decide (status s = won)) as [Hw|Hw]; [|now apply H4].
    destruct (H5 Hw) as [_ ->]. unfold timedScore. now rewrite Hf. }
  destruct ((t0 =? 0) || (now =? 0)) eqn:Hf.
  - split; cbn [config startTime status score endTime]; try assumption;
      try reflexivity; try discriminate.
    + intros Hn. now contradiction Hn.
    + intros _. split; [reflexivity|]. unfold timedScore. rewrite Hf. now apply Hscore.
  - split; cbn [config startTime status score endTime]; try assumption;
      try reflexivity; try discriminate.
    + intros Hn. now contradiction Hn.
    + intros _. split; [reflexivity|]. unfold timedScore, getDifficultyMultiplier.
      cbn [config]. now rewrite Hf, H1.
Qed.

(** A reveal that returns either changes nothing, or goes on from the
    started game and keeps the score in step. *)
Lemma revealCell_scoring draws now : forall fuel r c s b s',
  revealCell fuel draws now r c s = Returned b s' ->
  s' = s \/
  forall cfg t0, scoring cfg t0 now (startState draws now r c s) -> scoring cfg t0 now s'.
Proof.
  induction fuel as [|fuel IH]; intros r c s b s' Hrun; [discriminate|].
  cbn [revealCell] in Hrun.
  destruct (bool_decide (status s = won) || bool_decide (status s = lost)) eqn:Hterm;
    [injection Hrun as _ <-; now left|].
  destruct (cellAt (board s) r c) as [cell|] eqn:Hcell; [|discriminate].
  destruct (bool_decide (state cell = hidden)) eqn:Hhid; cbn [negb] in Hrun;
    [|injection Hrun as _ <-; now left].
  apply orb_false_iff in Hterm as [Hw Hl].
  apply bool_decide_eq_false_1 in Hw, Hl.
  assert (Hst : status s = idle \/ status s = playing).
  { destruct (status s); [now left|now right|contradiction|contradiction]. }
  fold (startState draws now r c s) in Hrun.
  destruct (startState_started draws now r c s Hst) as [Hst1 _].
  set (s1 := startState draws now r c s) in *.
  right. intros cfg t0 Hs1.
  pose proof (markRevealed_scoring cfg t0 now r c s1 Hs1) as Hs2.
  destruct (cellAt (board (markRevealed r c s1)) r c) as [cell'|]; [|discriminate].
  destruct (isMine cell').
  { injection Hrun as _ <-. apply lose_scoring; [|exact Hs2].
    cbn [status markRevealed]. rewrite Hst1. discriminate. }
  assert (Hloop : forall cells s0 s3,
    scoring cfg t0 now s0 ->
    revealNeighborsWith (revealCell fuel draws now) cells s0 = Returned tt s3 ->
    scoring cfg t0 now s3).
  { induction cells as [|[r' c'] cells IHc]; intros s0 s3 Hs0 Hgo; cbn in Hgo.
    - now injection Hgo as <-.
    - destruct (cellAt (board s0) r' c') as [nb|]; [|discriminate].
      destruct (bool_decide (state nb = hidden)); [|now apply (IHc s0)].
      destruct (revealCell fuel draws now r' c' s0) as [b0 s0'| |] eqn:E;
        try discriminate.
      apply (IHc s0'); [|exact Hgo].
      destruct (IH r' c' s0 b0 s0' E) as [->|Hk]; [exact Hs0|].
      apply Hk. unfold startState.
      rewrite bool_decide_eq_false_2 by apply (scoring_started _ _ _ _ Hs0).
      exact Hs0. }
  destruct (neighborMines cell' =? 0).
  - destruct (revealNeighborsWith _ _ _) as [[] s3| |] eqn:E; try discriminate.
    injection Hrun as _ <-.
    apply checkWinCondition_scoring, (Hloop _ _ _ Hs2 E).
  - injection Hrun as _ <-. now apply checkWinCondition_scoring.
Qed.

Lemma toggleFlag_times r c s b s' :
  toggleFlag r c s = Returned b s' ->
  status s' = status s /\ config s' = config s /\ score s' = score s /\
  startTime s' = startTime s /\ endTime s' = endTime s.
Proof.
  unfold toggleFlag. intros Hrun.
  destruct (_ || _); [now injection Hrun as _ <-|].
  destruct (cellAt (board s) r c) as [cell|]; [|discriminate].
  destruct (state cell); injection Hrun as _ <-; now repeat split.
Qed.

(** The score of a game: 0 until the game is won, and the one of its
    two times after that. *)
Definition scored (s : MinesweeperState) : Prop :=
  (status s <> won -> score s = 0) /\
  (status s = playing -> exists t0, startTime s = Some t0) /\
  (status s = won -> exists t0 t1,
     startTime s = Some t0 /\ endTime s = Some t1 /\
     score s = timedScore (config s) (getDifficultyMultiplier s) t0 t1).

Lemma createInitialState_scored cfg : scored (createInitialState cfg).
Proof. split; [reflexivity|]. split; discriminate. Qed.

Lemma scoring_scored cfg t0 now s : scoring cfg t0 now s -> scored s.
Proof.
  intros [H1 H2 H3 H4 H5]. split; [exact H4|]. split.
  - intros _. now exists t0.
  - intros Hw. destruct (H5 Hw) as [He Hs]. exists t0, now. now rewrite H1.
Qed.

Lemma reachable_scored s : reachable s -> scored s.
Proof.
  induction 1 as [cfg|s cfg _ _|s d _ _|s nr nc nm _ _|s fuel draws now r c b s' _ IH Hrun
                 |s r c b s' _ IH Hrun]; try apply createInitialState_scored.
  - destruct (revealCell_scoring draws now fuel r c s b s' Hrun) as [->|Hk];
      [exact IH|].
    assert (Hopen : status s <> won -> score s = 0) by apply IH.
    assert (Hplay : status s = playing -> exists t0, startTime s = Some t0) by apply IH.
    destruct (status s) eqn:Hst.
    + apply (scoring_scored (config s) now now), Hk. unfold startState.
      rewrite (bool_decide_eq_true_2 _ Hst). unfold initializeGame.
      rewrite (bool_decide_eq_true_2 _ Hst).
      split; cbn [config startTime status score endTime calculateNeighborMines
                  placeMines set_board]; try reflexivity; try discriminate.
      * intros _. apply Hopen. discriminate.
    + destruct (Hplay eq_refl) as [t0 Ht0].
      apply (scoring_scored (config s) t0 now), Hk. unfold startState.
      rewrite bool_decide_eq_false_2 by (rewrite Hst; discriminate).
      split; try reflexivity; try exact Ht0; rewrite ?Hst; try discriminate.
      intros _. apply Hopen. discriminate.
    + destruct fuel as [|fuel]; [discriminate|]. cbn [revealCell] in Hrun.
      rewrite Hst in Hrun. cbn in Hrun. injection Hrun as _ <-. exact IH.
    + destruct fuel as [|fuel]; [discriminate|]. cbn [revealCell] in Hrun.
      rewrite Hst in Hrun. cbn in Hrun. injection Hrun as _ <-. exact IH.
  - destruct (toggleFlag_times r c s b s' Hrun) as (Hst & Hcfg & Hsc & Ht0 & Ht1).
    unfold scored, getDifficultyMultiplier in *. now rewrite Hst, Hcfg, Hsc, Ht0, Ht1.
Qed.

(** X27. The score of a game is 0 until the game is won. A game that is
    won has its start and end time, and when neither is 0 its score is
    [(max 0 (1000 - floor ((endTime - startTime) / 1000)) + 10 * mines)]
    times the multiplier of the difficulty (1, 2, 3 and 1 for beginner,
    intermediate, expert and custom); the score is at least
    [10 * mines] times the multiplier. *)
Theorem score_only_when_won (s : MinesweeperState) :
  reachable s ->
  (status s <> won -> score s = 0) /\
  (status s = won -> exists t0 t1,
     startTime s = Some t0 /\ endTime s = Some t1 /\
     (t0 <> 0 -> t1 <> 0 ->
      score s = (Z.max 0 (1000 - (t1 - t0) / 1000) + mines (config s) * 10) *
                getDifficultyMultiplier s /\
      mines (config s) * 10 * getDifficultyMultiplier s <= score s)).
Proof.
  intros Hreach. destruct (reachable_scored s Hreach) as (Hopen & _ & Hwon).
  split; [exact Hopen|]. intros Hw.
  destruct (Hwon Hw) as (t0 & t1 & H0 & H1 & Hs). exists t0, t1.
  split; [exact H0|]. split; [exact H1|]. intros Hn0 Hn1.
  unfold timedScore in Hs.
  rewrite (proj2 (Z.eqb_neq t0 0) Hn0), (proj2 (Z.eqb_neq t1 0) Hn1) in Hs.
  cbn [orb] in Hs. split; [exact Hs|]. rewrite Hs.
  assert (Hm : 1 <= getDifficultyMultiplier s)
    by (unfold getDifficultyMultiplier; destruct (difficulty (config s)); lia).
  nia.
Qed.

(** ** The statements at sample games *)

(** The beginner game after a first reveal at [(4, 4)]: 70 cells are
    revealed, and the one hidden cell without a mine is [(8, 4)]. *)
Definition openedGame : MinesweeperState :=
  match revealCell 82 sampleDraws 5 4 4 (createInitialState beginnerConfig) with
  | Returned _ s => s
  | _ => createInitialState beginnerConfig
  end.

Lemma openedGame_reachable : reachable openedGame.
Proof.
  apply (reach_reveal (createInitialState beginnerConfig) 82 sampleDraws 5 4 4 true
           openedGame).
  - apply reach_new.
  - vm_compute. reflexivity.
Qed.

(** The opened game with flags on the mines at [(6, 4)] and [(7, 4)]. *)
Definition chordGame : MinesweeperState :=
  match toggleFlag 6 4 openedGame with
  | Returned _ s1 =>
      match toggleFlag 7 4 s1 with
      | Returned _ s2 => s2
      | _ => openedGame
      end
  | _ => openedGame
  end.

Lemma chordGame_reachable : reachable chordGame.
Proof.
  apply (reach_flag (match toggleFlag 6 4 openedGame with
                     | Returned _ s1 => s1 | _ => openedGame end) 7 4 true chordGame).
  - apply (reach_flag openedGame 6 4 true _ openedGame_reachable).
    vm_compute. reflexivity.
  - vm_compute. reflexivity.
Qed.

Lemma beginner_roomy : roomy beginnerConfig.
Proof. unfold roomy. cbn. lia. Qed.

Lemma flag_counters_in_step_witness :
  reachable chordGame /\
  flaggedMines chordGame = 2 /\ flagCount (board chordGame) = 2%nat /\
  remainingMines chordGame = 8.
Proof.
  split; [exact chordGame_reachable|].
  destruct (flag_counters_in_step chordGame chordGame_reachable) as [H1 H2].
  assert (Hn : flagCount (board chordGame) = 2%nat) by (vm_compute; reflexivity).
  rewrite Hn in H1, H2. split; [exact H1|]. split; [exact Hn|exact H2].
Defined.

Lemma neighbor_counts_are_right_witness :
  reachable openedGame /\ status openedGame <> idle /\
  cellAt (board openedGame) 6 5 =
    Some {| isMine := false; neighborMines := 3; state := revealed; row := 6; col := 5 |} /\
  3 = countNeighborMines (config openedGame) (board openedGame) 6 5.
Proof.
  assert (Hni : status openedGame <> idle) by (vm_compute; discriminate).
  assert (Hcell : cellAt (board openedGame) 6 5 =
    Some {| isMine := false; neighborMines := 3; state := revealed; row := 6; col := 5 |})
    by (vm_compute; reflexivity).
  split; [exact openedGame_reachable|]. split; [exact Hni|]. split; [exact Hcell|].
  apply (neighbor_counts_are_right openedGame openedGame_reachable Hni 6 5 _ Hcell eq_refl).
Defined.

Lemma toggleFlag_twice_restores_witness :
  status openedGame <> won /\ status openedGame <> lost /\
  cellAt (board openedGame) 8 4 =
    Some {| isMine := false; neighborMines := 1; state := hidden; row := 8; col := 4 |} /\
  exists s1,
    toggleFlag 8 4 openedGame = Returned true s1 /\
    toggleFlag 8 4 s1 = Returned true openedGame.
Proof.
  assert (Hw : status openedGame <> won) by (vm_compute; discriminate).
  assert (Hl : status openedGame <> lost) by (vm_compute; discriminate).
  assert (Hcell : cellAt (board openedGame) 8 4 =
    Some {| isMine := false; neighborMines := 1; state := hidden; row := 8; col := 4 |})
    by (vm_compute; reflexivity).
  split; [exact Hw|]. split; [exact Hl|]. split; [exact Hcell|].
  destruct (toggleFlag_twice_restores openedGame 8 4 _ Hw Hl Hcell) as (_ & H & _).
  destruct (H eq_refl) as (s1 & H1 & _ & _ & _ & H2).
  exists s1. split; [exact H1|exact H2].
Defined.

Lemma toggleFlag_out_of_range_witness :
  reachable openedGame /\ ~ inRange (config openedGame) 9 0 /\
  toggleFlag 9 0 openedGame = Raised openedGame.
Proof.
  assert (Hout : ~ inRange (config openedGame) 9 0).
  { unfold inRange. change (rows (config openedGame)) with 9. lia. }
  split; [exact openedGame_reachable|]. split; [exact Hout|].
  apply (proj2 (toggleFlag_out_of_range openedGame 9 0 openedGame_reachable Hout)).
  right. vm_compute. reflexivity.
Defined.

Lemma reveal_mine_loses_witness :
  wfState openedGame /\ status openedGame = playing /\
  cellAt (board openedGame) 5 6 =
    Some {| isMine := true; neighborMines := 0; state := hidden; row := 5; col := 6 |} /\
  exists s',
    revealCell 1 noDraws 9 5 6 openedGame = Returned true s' /\
    status s' = lost /\ endTime s' = Some 9.
Proof.
  assert (Hwf : wfState openedGame) by (apply reachable_wf, openedGame_reachable).
  assert (Hst : status openedGame = playing) by (vm_compute; reflexivity).
  assert (Hcell : cellAt (board openedGame) 5 6 =
    Some {| isMine := true; neighborMines := 0; state := hidden; row := 5; col := 6 |})
    by (vm_compute; reflexivity).
  split; [exact Hwf|]. split; [exact Hst|]. split; [exact Hcell|].
  destruct (reveal_mine_loses openedGame 5 6 _ 0 noDraws 9 Hwf Hst Hcell eq_refl eq_refl)
    as (s' & Hrun & Hlost & Hend & _).
  exists s'. split; [exact Hrun|]. split; [exact Hlost|exact Hend].
Defined.

Lemma won_exactly_when_cleared_witness :
  reachable openedGame /\ roomy (config openedGame) /\ status openedGame = playing /\
  revealedCells openedGame + Z.of_nat (unrevealedSafe (board openedGame)) = 71.
Proof.
  assert (Hroom : roomy (config openedGame)) by exact beginner_roomy.
  assert (Hst : status openedGame = playing) by (vm_compute; reflexivity).
  split; [exact openedGame_reachable|]. split; [exact Hroom|]. split; [exact Hst|].
  apply (won_exactly_when_cleared openedGame openedGame_reachable Hroom (or_introl Hst)).
Defined.

Lemma first_reveal_opens_safely_witness :
  roomy (config (createInitialState beginnerConfig)) /\
  hiddenAt (board (createInitialState beginnerConfig)) (4, 4) /\
  exists s',
    revealCell 82 sampleDraws 5 4 4 (createInitialState beginnerConfig) =
      Returned true s' /\
    (status s' = playing \/ status s' = won) /\
    mineCount (board s') = 10%nat.
Proof.
  assert (Hhid : hiddenAt (board (createInitialState beginnerConfig)) (4, 4))
    by reflexivity.
  assert (Hfuel : (hiddenCount (board (createInitialState beginnerConfig)) < 82)%nat).
  { vm_compute. lia. }
  split; [exact beginner_roomy|]. split; [exact Hhid|].
  destruct (first_reveal_opens_safely (createInitialState beginnerConfig) 4 4
              sampleDraws 5 82 (reach_new beginnerConfig) eq_refl beginner_roomy
              Hhid Hfuel) as (s' & Hrun & Hst & _ & Hcount & _).
  exists s'. split; [exact Hrun|]. split; [exact Hst|exact Hcount].
Defined.

Lemma autoReveal_with_right_flags_witness :
  reachable chordGame /\ status chordGame = playing /\
  canAutoReveal 7 3 chordGame = Some true /\
  hiddenAt (board chordGame) (8, 4) /\
  exists b s',
    autoRevealNeighbors 82 noDraws 9 7 3 chordGame = Returned b s' /\
    (status s' = playing \/ status s' = won) /\
    visAt (board s') (8, 4) = Some revealed.
Proof.
  assert (Hst : status chordGame = playing) by (vm_compute; reflexivity).
  assert (Hcan : canAutoReveal 7 3 chordGame = Some true) by (vm_compute; reflexivity).
  assert (Hhid : hiddenAt (board chordGame) (8, 4)) by (vm_compute; reflexivity).
  assert (Hflags : forall q, neighbor (config chordGame) (7, 3) q ->
            flaggedAt (board chordGame) q -> mineAt (board chordGame) q = true).
  { intros q Hq Hf. unfold neighbor in Hq. vm_compute in Hq.
    repeat (destruct Hq as [<-|Hq]; [first [vm_compute; reflexivity
                                           |vm_compute in Hf; discriminate Hf]|]).
    destruct Hq. }
  assert (Hfuel : (hiddenCount (board chordGame) < 82)%nat) by (vm_compute; lia).
  assert (Hnb : neighbor (config chordGame) (7, 3) (8, 4)).
  { unfold neighbor. vm_compute. tauto. }
  split; [exact chordGame_reachable|]. split; [exact Hst|]. split; [exact Hcan|].
  split; [exact Hhid|].
  destruct (autoReveal_with_right_flags chordGame 7 3 noDraws 9 82 chordGame_reachable
              beginner_roomy Hst Hcan Hflags Hfuel)
    as (_ & b & s' & Hrun & Hst' & _ & Hrev & _).
  exists b, s'. split; [exact Hrun|]. split; [exact Hst'|].
  exact (Hrev (8, 4) Hnb Hhid).
Defined.

(** The opened game after the reveal of its last cell without a mine,
    65 seconds after the first reveal. *)
Definition wonGame : MinesweeperState :=
  match revealCell 2 sampleDraws 65005 8 4 openedGame with
  | Returned _ s => s
  | _ => openedGame
  end.

Lemma wonGame_reachable : reachable wonGame.
Proof.
  apply (reach_reveal openedGame 2 sampleDraws 65005 8 4 true wonGame
           openedGame_reachable).
  vm_compute. reflexivity.
Qed.

Lemma score_only_when_won_witness :
  reachable wonGame /\ status wonGame = won /\ score wonGame = 1035 /\
  exists t0 t1, startTime wonGame = Some t0 /\ endTime wonGame = Some t1.
Proof.
  split; [exact wonGame_reachable|]. split; [vm_compute; reflexivity|].
  split; [vm_compute; reflexivity|].
  destruct (proj2 (score_only_when_won wonGame wonGame_reachable)
              ltac:(vm_compute; reflexivity)) as (t0 & t1 & H0 & H1 & _).
  exists t0, t1. exact (conj H0 H1).
Defined.

End MinesweeperProofs.
